(** * DataTable: a multi-indexed in-memory table with a cost-based planner

    A shallow embedding of [DataTable] (datatable.js) and the properties of
    its comparator, binary search, index maintenance, planner and table
    operations.

    Conventions of the embedding.
    - A cell value is a JavaScript primitive.  Numbers are the mathematical
      integers ([Z]); fractional numbers, infinities and NaN cell values are
      not represented (NaN only appears as the result of a conversion, as
      [None]).  A string is read as a number when it is an optionally
      signed run of decimal digits, and as NaN otherwise.  The properties
      that compare cell values are therefore stated for integers, or for
      comparisons in which no string is read as a number.
    - [Array.prototype.sort] is a stable insertion sort, which returns what
      every host returns when the comparator orders the elements; the
      properties that go through a sort are stated for such elements.
    - A [throw] is an [Err] result; state that was mutated before the throw
      is kept, as it is in the source.
    - Row objects are records of their cells and of their [$] property; the
      closure behind [$] lives in a store owned by the table. *)

From stdpp Require Import base list strings gmap sorting.
From Stdlib Require Import ZArith Ascii Lia.

Local Open Scope Z_scope.

(** ** Cell values and the JavaScript operators the source applies to them *)

Inductive value :=
| VUndefined
| VNull
| VBool (b : bool)
| VNum (n : Z)
| VStr (s : string).

#[global] Instance value_eq_dec : EqDecision value.
Proof. solve_decision. Defined.

Definition isWhite (c : ascii) : bool :=
  let n := nat_of_ascii c in
  ((n =? 32) || (n =? 9) || (n =? 10) || (n =? 11) || (n =? 12) || (n =? 13))%nat.

Definition digitOf (c : ascii) : option Z :=
  let n := nat_of_ascii c in
  if ((48 <=? n) && (n <=? 57))%nat then Some (Z.of_nat n - 48) else None.

Fixpoint dropWhite (s : string) : string :=
  match s with
  | String c s' => if isWhite c then dropWhite s' else s
  | EmptyString => EmptyString
  end.

(** Digits, then optional trailing white space; [acc] is the value read so
    far and [seen] tells whether a digit was read. *)
Fixpoint readDigits (s : string) (acc : Z) (seen : bool) : option Z :=
  match s with
  | EmptyString => if seen then Some acc else None
  | String c s' =>
      match digitOf c with
      | Some d => readDigits s' (10 * acc + d) true
      | None =>
          if seen && isWhite c
          then match dropWhite s' with EmptyString => Some acc | _ => None end
          else None
      end
  end.

(** [ToNumber] on a string, for integer literals: white space only is 0, an
    optionally signed run of decimal digits is its value, anything else is
    NaN. *)
Definition stringToNumber (s : string) : option Z :=
  match dropWhite s with
  | EmptyString => Some 0
  | String "+" s' => readDigits s' 0 false
  | String "-" s' => Z.opp <$> readDigits s' 0 false
  | s' => readDigits s' 0 false
  end.

Definition toNumber (v : value) : option Z :=
  match v with
  | VUndefined => None
  | VNull => Some 0
  | VBool b => Some (if b then 1 else 0)
  | VNum n => Some n
  | VStr s => stringToNumber s
  end.

Definition boolToNum (v : value) : value :=
  match v with
  | VBool b => VNum (if b then 1 else 0)
  | _ => v
  end.

(** [l == r] *)
Definition looseEq (l r : value) : bool :=
  match boolToNum l, boolToNum r with
  | (VUndefined | VNull), (VUndefined | VNull) => true
  | VNum a, VNum b => a =? b
  | VStr a, VStr b => String.eqb a b
  | VNum a, VStr s | VStr s, VNum a =>
      match stringToNumber s with Some b => a =? b | None => false end
  | _, _ => false
  end.

(** [l === r] *)
Definition strictEq (l r : value) : bool := bool_decide (l = r).

(** [l < r] *)
Definition jsLt (l r : value) : bool :=
  match l, r with
  | VStr a, VStr b => String.ltb a b
  | _, _ =>
      match toNumber l, toNumber r with
      | Some a, Some b => a <? b
      | _, _ => false
      end
  end.

(** [l > r] *)
Definition jsGt (l r : value) : bool := jsLt r l.

(** [l <= r] is [!(r < l)] unless the comparison is undefined *)
Definition jsLe (l r : value) : bool :=
  match l, r with
  | VStr a, VStr b => negb (String.ltb b a)
  | _, _ =>
      match toNumber l, toNumber r with
      | Some a, Some b => a <=? b
      | _, _ => false
      end
  end.

(** [l >= r] *)
Definition jsGe (l r : value) : bool := jsLe r l.

(** Truthiness of a primitive. *)
Definition truthy (v : value) : bool :=
  match v with
  | VUndefined | VNull => false
  | VBool b => b
  | VNum n => negb (n =? 0)
  | VStr s => negb (String.eqb s "")
  end.

(** [DataTable.Comparator]:
    [l == r ? 0 : l == null || l > r ? 1 : -1] *)
Definition Comparator (l r : value) : Z :=
  if looseEq l r then 0
  else if looseEq l VNull || jsGt l r then 1 else -1.

(** The spec's "absent": [null] or [undefined]. *)
Definition absent (v : value) : bool :=
  match v with VUndefined | VNull => true | _ => false end.

(** ** Rows

    A row object has its cells and its [$] property.  [$] is the closure
    that [insert] attached, or any other value.  [DHandle tid h] is the
    closure number [h] of the table whose identity is [tid]; when [tid] is
    not the identity of the table at hand, that other table is live.
    [DDropped] is the closure of a row of another table that has been
    dropped since: every call of it throws.  The identity of a table is
    drawn from the clock: tables made within the same millisecond share it,
    and the closures of their rows are not told apart here. *)

Inductive dollar :=
| DHandle (tid : nat) (h : nat)
| DDropped
| DValue (v : value).

#[global] Instance dollar_eq_dec : EqDecision dollar.
Proof. solve_decision. Defined.

Record row := Row { cells : gmap string value; rowDollar : dollar }.

#[global] Instance row_eq_dec : EqDecision row.
Proof. solve_decision. Defined.

(** [r[name]] *)
Definition cell (r : row) (name : string) : value :=
  default VUndefined (cells r !! name).

(** [if (row.$)]: a function is truthy. *)
Definition dollarTruthy (d : dollar) : bool :=
  match d with DHandle _ _ | DDropped => true | DValue v => truthy v end.

(** Arrays that may hold [undefined] (a skipped row, a hole). *)
Abbreviation rowArray := (list (option row)).

(** ** Index entries

    An entry is [{value, size, subtotal, data}]; [data] is the row array of
    the entry at the last indexed column, and otherwise the array of entries
    of the next column together with its [total] property. *)

Inductive entry : Type :=
| Entry (value : value) (size subtotal : Z) (data : data)
with data : Type :=
| RowData (rows : list row)
| SubIndex (entries : list entry) (total : Z).

Definition eValue (e : entry) : value := match e with Entry v _ _ _ => v end.
Definition eSize (e : entry) : Z := match e with Entry _ s _ _ => s end.
Definition eSubtotal (e : entry) : Z := match e with Entry _ _ t _ => t end.
Definition eData (e : entry) : data := match e with Entry _ _ _ d => d end.

(** [data.length] *)
Definition dataLength (d : data) : Z :=
  match d with
  | RowData rows => Z.of_nat (length rows)
  | SubIndex entries _ => Z.of_nat (length entries)
  end.

(** An array of entries with its [total]. *)
Abbreviation level := (list entry * Z)%type.

Record Index := mkIndex {
  columns : list string;      (* [columns[i].name]; the comparator of a
                                 column is [Comparator.pluck(name)] *)
  signature : string;
  index : list entry;         (* [this.index] *)
  indexTotal : Z              (* [this.index.total] *)
}.

(** ** Results of operations that may throw *)

Inductive error :=
| TypeError (msg : string)   (* raised by the host *)
| Error (msg : string)       (* [throw new Error(msg)] *)
| NotInList (rightEntry : entry) (previousLeftEntry : option entry).
    (* [throw new Error("How did a value in the sublist, not start in the
       list?\nFound " + toJSON(rightEntry)) + " after "
       + toJSON(previousLeftEntry)]: [new Error(...)] binds before [+], so
       what is thrown is the string made of the text of that error,
       [" after "] and the JSON text of the previous left entry; it is kept
       here by the two entries it is made of *)

Inductive result (A : Type) :=
| Ok (a : A)
| Err (e : error).
Arguments Ok {A} a.
Arguments Err {A} e.

#[global] Instance result_ret : MRet result := fun _ a => Ok a.
#[global] Instance result_bind : MBind result := fun _ _ k m =>
  match m with Ok a => k a | Err e => Err e end.

(** ** Half-integers

    The binary search returns either an index or an index minus one half.
    [Half h] stands for the number [h / 2]. *)

Record half := Half { twice : Z }.

#[global] Instance half_eq_dec : EqDecision half.
Proof. solve_decision. Defined.

Definition ofInt (n : Z) : half := Half (2 * n).
Definition minusHalf (n : Z) : half := Half (2 * n - 1).
(** [h == Math.floor(h)] *)
Definition isInteger (h : half) : bool := Z.even (twice h).
Definition hfloor (h : half) : Z := twice h / 2.
Definition hadd (a b : half) : half := Half (twice a + twice b).
Definition hltb (a b : half) : bool := twice a <? twice b.
Definition hleb (a b : half) : bool := twice a <=? twice b.

(** [a[i]] for a JavaScript number [i]: [undefined] unless [i] is a
    non-negative integer below the length. *)
Definition at_ {A} (a : list A) (i : Z) : option A :=
  if i <? 0 then None else a !! Z.to_nat i.

Definition atHalf {A} (a : list A) (h : half) : option A :=
  if isInteger h then at_ a (hfloor h) else None.

(** ** [DataTable.Index.prototype.binarySearch] *)

Section BinarySearch.
Context {E V : Type}.
(** Whether an element of [index] is truthy, as every object is. *)
Variable truthyElement : E -> bool.
(** [comparator(index[m], value)] *)
Variable comparator : E -> V -> Z.

(** [while (r - l > 1) { if (comparator(index[m = r + l >> 1], value) < 0)
    l = m; else r = m; }], returning the final [r].  Each turn shrinks
    [r - l], so [fuel = r - l] turns are enough. *)
Fixpoint searchLoop (fuel : nat) (index : list E) (value : V) (l r : Z)
  : result Z :=
  if r - l >? 1 then
    match fuel with
    | O => Ok r
    | S fuel' =>
        let m := Z.shiftr (r + l) 1 in
        match at_ index m with
        | None => Err (TypeError "cannot read a property of undefined")
        | Some e =>
            if comparator e value <? 0
            then searchLoop fuel' index value m r
            else searchLoop fuel' index value l m
        end
    end
  else Ok r.

Definition clampResult (result : half) (uBound : Z) : half :=
  if hltb result (ofInt 0) then ofInt (-1)
  else if hltb (ofInt (uBound - 1)) result then ofInt uBound
  else result.

Definition binarySearch (index : list E) (value : V)
    (lBound uBound : option Z) : result half :=
  let lBound := default (-1) lBound in
  let uBound := default (Z.of_nat (length index)) uBound in
  r ← searchLoop (Z.to_nat (uBound - lBound)) index value lBound uBound;
  (* [index[r] && comparator(index[r], value) == 0 ? r : r - 0.5] *)
  let result :=
    match at_ index r with
    | Some e =>
        if truthyElement e && (comparator e value =? 0) then ofInt r
        else minusHalf r
    | None => minusHalf r
    end in
  Ok (clampResult result uBound).
End BinarySearch.

(** ** Sorting and arrays of rows *)

(** [Array.prototype.sort(comparator)] for a consistent comparator, as a
    stable insertion sort. *)
Fixpoint sortInsert {A} (cmp : A -> A -> Z) (x : A) (l : list A) : list A :=
  match l with
  | [] => [x]
  | y :: l' => if cmp x y <=? 0 then x :: l else y :: sortInsert cmp x l'
  end.

Definition sort {A} (cmp : A -> A -> Z) (l : list A) : list A :=
  foldr (sortInsert cmp) [] l.

(** [DataTable.Comparator.pluck(name)] on rows *)
Definition pluckRow (name : string) (l r : row) : Z :=
  Comparator (cell l name) (cell r name).

(** [DataTable.Comparator.pluck("value")] on entries *)
Definition pluckValue (l r : entry) : Z :=
  Comparator (eValue l) (eValue r).

(** [DataTable.Comparator.pluck("value", null)]: entry against value *)
Definition compareValues (l : entry) (r : value) : Z :=
  Comparator (eValue l) r.

Fixpoint mapM {A B} (f : A -> result B) (l : list A) : result (list B) :=
  match l with
  | [] => Ok []
  | x :: l' => y ← f x; ys ← mapM f l'; Ok (y :: ys)
  end.

(** An array with an [undefined] element cannot be indexed: [sort] moves
    the [undefined] to the end and the loop then reads a property of it. *)
Definition definedRows (rows : rowArray) : result (list row) :=
  mapM (fun r => match r with
                 | Some r => Ok r
                 | None => Err (TypeError "cannot read a property of undefined")
                 end) rows.

(** ** [DataTable.Index.prototype.buildIndex] *)

(** The entries of [buildShallowIndex] before their data is indexed
    further: value, rows, size, subtotal. *)
Record shallowEntry := Shallow {
  shValue : value; shData : list row; shSize : Z; shSubtotal : Z
}.

(** One turn of the loop of [buildShallowIndex]; [acc] holds the entries
    pushed so far, last one first. *)
Definition shallowStep (columnName : string) (acc : list shallowEntry)
    (r : row) : list shallowEntry :=
  match acc with
  | lastEntry :: acc' =>
      if strictEq (cell r columnName) (shValue lastEntry)
      then Shallow (shValue lastEntry) (shData lastEntry ++ [r])
             (shSize lastEntry + 1) (shSubtotal lastEntry + 1) :: acc'
      else Shallow (cell r columnName) [r] 1 (shSubtotal lastEntry + 1) :: acc
  | [] => [Shallow (cell r columnName) [r] 1 (0 + 1)]
  end.

Definition buildShallowIndex (rows : list row) (columnName : string)
    : list shallowEntry * Z :=
  let sorted := sort (pluckRow columnName) rows in
  let acc := foldl (shallowStep columnName) [] sorted in
  (reverse acc, match acc with lastEntry :: _ => shSubtotal lastEntry | [] => 0 end).

Fixpoint buildIndexRec (columns : list string) (rows : list row)
    : result level :=
  match columns with
  | [] => Err (TypeError "cannot read a property of undefined")
  | c :: remainingColumns =>
      let '(sh, total) := buildShallowIndex rows c in
      entries ← mapM (fun e =>
                   match remainingColumns with
                   | [] => Ok (Entry (shValue e) (shSize e) (shSubtotal e)
                                 (RowData (shData e)))
                   | _ :: _ =>
                       sub ← buildIndexRec remainingColumns (shData e);
                       Ok (Entry (shValue e) (shSize e) (shSubtotal e)
                             (SubIndex sub.1 sub.2))
                   end) sh;
      Ok (entries, total)
  end.

Definition buildIndex (ix : Index) (rows : rowArray) : result level :=
  rows ← definedRows rows;
  buildIndexRec (columns ix) rows.

(** ** [DataTable.Index.prototype.mergeIndex]

    The source walks [left] and [right] with the cursors [l] and [r] and
    edits [left] in place.  Here [done] is [left[0 .. l-1]] as edited so far,
    last entry first, [todo] is [left[l ..]], [rs] is [right[r ..]] and
    [prevR] is [right[r - 1]].  [l < maxLeft] is [todo <> []] and
    [r < maxRight] is [rs <> []]. *)

Record callbacks := Callbacks {
  (* [processLeftSideEntry(leftEntry, previousRightEntry)]: the edited left entry *)
  cbProcessLeftSideEntry : entry -> option entry -> entry;
  (* [processRightSideEntry(previousLeftEntry, rightEntry)]: the entry to insert, if any *)
  cbProcessRightSideEntry : option entry -> entry -> result (option entry);
  (* [mergeLeftAndRightEntries(leftEntry, rightEntry, isRowData)]: the edited left entry *)
  cbMergeLeftAndRightEntries : entry -> entry -> bool -> result entry;
  (* [mergeTotals(leftIndex, rightIndex, isRowData)]: the edited left index *)
  cbMergeTotals : level -> level -> bool -> level
}.

Section MergeWalk.
Variable cb : callbacks.
(** The local function [mergeLeftAndRightEntries] up to the callback's
    return: the left entry as it is when the function returns or throws,
    and the error thrown, if any. *)
Variable mergeEntries : entry -> entry -> entry * option error.

(** The result is the [left] array when the loop ends or throws. *)
Fixpoint mergeWalk (todo : list entry) (done : list entry)
    (prevR : option entry) (rs : list entry) {struct todo}
  : list entry * option error :=
  match todo with
  | [] =>
      (fix rightOnly (done : list entry) (rs : list entry) {struct rs}
         : list entry * option error :=
         match rs with
         | [] => (reverse done, None)
         | rightEntry :: rs' =>
             match cbProcessRightSideEntry cb (head done) rightEntry with
             | Err e => (reverse done, Some e)
             | Ok (Some newEntry) => rightOnly (newEntry :: done) rs'
             | Ok None => rightOnly done rs'
             end
         end) done rs
  | leftEntry :: todo' =>
      (fix walkRight (done : list entry) (prevR : option entry)
           (rs : list entry) {struct rs} : list entry * option error :=
         match rs with
         | [] =>
             mergeWalk todo'
               (cbProcessLeftSideEntry cb leftEntry prevR :: done) prevR []
         | rightEntry :: rs' =>
             if looseEq (eValue leftEntry) (eValue rightEntry) then
               match mergeEntries leftEntry rightEntry with
               | (merged, Some e) => (reverse done ++ merged :: todo', Some e)
               | (merged, None) =>
                   if eSize merged =? 0
                   then mergeWalk todo' done (Some rightEntry) rs'
                   else mergeWalk todo' (merged :: done) (Some rightEntry) rs'
               end
             else if jsLt (eValue leftEntry) (eValue rightEntry) then
               mergeWalk todo'
                 (cbProcessLeftSideEntry cb leftEntry prevR :: done) prevR rs
             else
               match cbProcessRightSideEntry cb (head done) rightEntry with
               | Err e => (reverse done ++ todo, Some e)
               | Ok (Some newEntry) =>
                   walkRight (newEntry :: done) (Some rightEntry) rs'
               | Ok None => walkRight done (Some rightEntry) rs'
               end
         end) done prevR rs
  end.
End MergeWalk.

Definition withData (e : entry) (d : data) : entry :=
  Entry (eValue e) (eSize e) (eSubtotal e) d.

(** The local [mergeIndex(left, right, callbacks, depth)]: the left index
    when it returns or throws.  An entry above the last column whose data
    is not an array of entries cannot arise from [buildIndex]; it is
    reported as a [TypeError]. *)
Fixpoint mergeIndexRec (cb : callbacks) (depth : nat) (left right : level)
    : level * option error :=
  let isRowData := (depth <=? 1)%nat in
  let callback := fun leftEntry rightEntry =>
    match cbMergeLeftAndRightEntries cb leftEntry rightEntry isRowData with
    | Ok merged => (merged, None)
    | Err e => (leftEntry, Some e)
    end in
  let mergeEntries := fun leftEntry rightEntry =>
    match depth with
    | S (S _ as depth') =>
        match eData leftEntry, eData rightEntry with
        | SubIndex le lt, SubIndex re rt =>
            match mergeIndexRec cb depth' (le, lt) (re, rt) with
            | (sub, Some e) => (withData leftEntry (SubIndex sub.1 sub.2), Some e)
            | (sub, None) =>
                callback (withData leftEntry (SubIndex sub.1 sub.2)) rightEntry
            end
        | _, _ =>
            (leftEntry, Some (TypeError "index data is not an array of entries"))
        end
    | _ => callback leftEntry rightEntry
    end in
  match mergeWalk cb mergeEntries left.1 [] None right.1 with
  | (entries, Some e) => ((entries, left.2), Some e)
  | (entries, None) => (cbMergeTotals cb (entries, left.2) right isRowData, None)
  end.

Definition setIndex (ix : Index) (l : level) : Index :=
  mkIndex (columns ix) (signature ix) l.1 l.2.

(** [DataTable.Index.prototype.mergeIndex(leftIndex, rightIndex, callbacks)]
    with [leftIndex = this.index]: the index object afterwards. *)
Definition mergeIndex (ix : Index) (rightIndex : level) (cb : callbacks)
    : Index * option error :=
  let '(merged, err) :=
    mergeIndexRec cb (length (columns ix)) (index ix, indexTotal ix) rightIndex in
  (setIndex ix merged, err).

(** ** [DataTable.Index.prototype.rowsAdded] *)

Definition addSubtotal (e : entry) (n : Z) : entry :=
  Entry (eValue e) (eSize e) (eSubtotal e + n) (eData e).

(** [append(array, newArray)] on row data *)
Definition appendData (l r : data) : result data :=
  match l, r with
  | RowData a, RowData b => Ok (RowData (a ++ b))
  | _, _ => Err (TypeError "index data is not an array of rows")
  end.

Definition addCallbacks : callbacks := {|
  cbProcessLeftSideEntry := fun leftEntry previousRightEntry =>
    match previousRightEntry with
    | Some p => addSubtotal leftEntry (eSubtotal p)
    | None => leftEntry
    end;
  cbProcessRightSideEntry := fun previousLeftEntry rightEntry =>
    let subtotal := eSize rightEntry in
    let subtotal := match previousLeftEntry with
                    | Some p => subtotal + eSubtotal p
                    | None => subtotal
                    end in
    Ok (Some (Entry (eValue rightEntry) (eSize rightEntry) subtotal
                (eData rightEntry)));
  cbMergeLeftAndRightEntries := fun leftEntry rightEntry isRowData =>
    d ← (if isRowData then appendData (eData leftEntry) (eData rightEntry)
          else Ok (eData leftEntry));
    Ok (Entry (eValue leftEntry) (eSize leftEntry + eSize rightEntry)
          (eSubtotal leftEntry + eSubtotal rightEntry) d);
  cbMergeTotals := fun leftIndex rightIndex _ =>
    (sort pluckValue leftIndex.1, leftIndex.2 + rightIndex.2)
|}.

Definition rowsAdded (ix : Index) (rows : rowArray) : Index * option error :=
  match buildIndex ix rows with
  | Err e => (ix, Some e)
  | Ok rightIndex => mergeIndex ix rightIndex addCallbacks
  end.

(** ** [DataTable.Index.prototype.rowsRemoved] *)

(** The leaf case of the removal: drop from the left rows those whose [$]
    is the [$] of a right row. *)
Definition removeData (l r : data) : result data :=
  match l, r with
  | RowData a, RowData b =>
      let rightIdentity := rowDollar <$> b in
      Ok (RowData (filter (fun x => rowDollar x ∉ rightIdentity) a))
  | _, _ => Err (TypeError "index data is not an array of rows")
  end.

Definition removeCallbacks : callbacks := {|
  cbProcessLeftSideEntry := fun leftEntry previousRightEntry =>
    match previousRightEntry with
    | Some p => addSubtotal leftEntry (- eSubtotal p)
    | None => leftEntry
    end;
  cbProcessRightSideEntry := fun previousLeftEntry rightEntry =>
    Err (NotInList rightEntry previousLeftEntry);
  cbMergeLeftAndRightEntries := fun leftEntry rightEntry isRowData =>
    d ← (if isRowData then removeData (eData leftEntry) (eData rightEntry)
          else Ok (eData leftEntry));
    Ok (Entry (eValue leftEntry) (eSize leftEntry - eSize rightEntry)
          (eSubtotal leftEntry - eSubtotal rightEntry) d);
  cbMergeTotals := fun leftIndex rightIndex _ =>
    (leftIndex.1, leftIndex.2 - rightIndex.2)
|}.

Definition rowsRemoved (ix : Index) (rows : rowArray) : Index * option error :=
  match buildIndex ix rows with
  | Err e => (ix, Some e)
  | Ok rightIndex => mergeIndex ix rightIndex removeCallbacks
  end.

(** ** [DataTable.Index.prototype.validateIndex] *)

(** The checks of one turn of the loop of [check] that come before the
    descent; [subtotal] already counts the entry and [lastValue] is the
    value of the entry before it, when there is one. *)
Definition checkEntry (ix : entry) (subtotal : Z) (lastValue : option value)
    : result () :=
  if eSize ix =? 0 then Err (Error "Index entry with a size of 0")
  else if dataLength (eData ix) =? 0 then Err (Error "Index entry with no data")
  else if dataLength (eData ix) >? eSize ix
  then Err (Error "Index entry with more data than the recorded size")
  else if from_option (looseEq (eValue ix)) false lastValue
  then Err (Error "Index entry was duplicated")
  else if from_option (jsLt (eValue ix)) false lastValue
  then Err (Error "Index entry was out of order")
  else if negb (subtotal =? eSubtotal ix)
  then Err (Error "Subtotal was not correct")
  else Ok ().

Section CheckLoop.
(** The descent into [ix.data], or the final size check. *)
Variable checkData : entry -> result ().

Fixpoint checkLoop (index : list entry) (subtotal : Z)
    (lastValue : option value) : result Z :=
  match index with
  | [] => Ok subtotal
  | ix :: rest =>
      let subtotal := subtotal + eSize ix in
      _ ← checkEntry ix subtotal lastValue;
      _ ← checkData ix;
      checkLoop rest subtotal (Some (eValue ix))
  end.
End CheckLoop.

(** The local [check(index, columns, path)].  When the total is wrong the
    source builds its message with [localPath], which does not exist before
    the first turn of the loop. *)
Fixpoint check (columns : list string) (index : level) : result () :=
  let checkData := fun ix =>
    match columns with
    | _ :: (_ :: _) as remaining =>
        match eData ix with
        | SubIndex entries total => check remaining (entries, total)
        | RowData _ => Err (Error "Index entry with undefined data")
        end
    | _ =>
        if negb (dataLength (eData ix) =? eSize ix)
        then Err (Error "Final index entry where size was incorrect")
        else Ok ()
    end in
  subtotal ← checkLoop checkData index.1 0 None;
  if negb (index.2 =? subtotal) then
    match index.1 with
    | [] => Err (TypeError "localPath is not a function")
    | _ :: _ => Err (Error "Total was not correct")
    end
  else Ok ().

(** [index.validateIndex()] *)
Definition validateIndex (ix : Index) : result () :=
  check (columns ix) (index ix, indexTotal ix).

(** ** The table *)

(** The variables captured by a row's [$] closure: the position [index] of
    the row in the row vector and the row object [row] kept by the table.
    [row.$] is the closure itself, so [row] is stored by its cells. *)
Record closure := Closure { clIndex : nat; clRow : gmap string value }.

(** A call of a method of an index, by the signature of the index. *)
Inductive indexCall :=
| CallRowsAdded (signature : string)
| CallRowsRemoved (signature : string)
| CallValidateIndex (signature : string).

#[global] Instance indexCall_eq_dec : EqDecision indexCall.
Proof. solve_decision. Defined.

Record Table := mkTable {
  indicies : list Index;
  rows : rowArray;
  columnNames : list string;
  paranoia : bool;
  verbose : bool;
  active : bool;            (* [false] once [active] is the throwing function *)
  id : nat;                 (* the table's identity *)
  closures : list closure;  (* closure [h] of this table is [closures !! h] *)
  calls : list indexCall    (* not a field of the source: the calls made to
                               the methods of the indexes, oldest first *)
}.

Definition setIndicies (t : Table) (ixs : list Index) : Table :=
  mkTable ixs (rows t) (columnNames t) (paranoia t) (verbose t) (active t)
    (id t) (closures t) (calls t).
Definition setRows (t : Table) (rs : rowArray) : Table :=
  mkTable (indicies t) rs (columnNames t) (paranoia t) (verbose t) (active t)
    (id t) (closures t) (calls t).
Definition setClosures (t : Table) (cs : list closure) : Table :=
  mkTable (indicies t) (rows t) (columnNames t) (paranoia t) (verbose t)
    (active t) (id t) cs (calls t).
Definition setParanoia (t : Table) (b : bool) : Table :=
  mkTable (indicies t) (rows t) (columnNames t) b (verbose t) (active t)
    (id t) (closures t) (calls t).
Definition setVerbose (t : Table) (b : bool) : Table :=
  mkTable (indicies t) (rows t) (columnNames t) (paranoia t) b (active t)
    (id t) (closures t) (calls t).
Definition logCall (t : Table) (c : indexCall) : Table :=
  mkTable (indicies t) (rows t) (columnNames t) (paranoia t) (verbose t)
    (active t) (id t) (closures t) (calls t ++ [c]).
Definition setActive (t : Table) (b : bool) : Table :=
  mkTable (indicies t) (rows t) (columnNames t) (paranoia t) (verbose t) b
    (id t) (closures t) (calls t).

(** A method of the table: from the table before the call to the table
    after it and what the call returned or threw.  Logging ([verbose]) has
    no effect on either and is left out. *)
Definition op (A : Type) : Type := Table -> Table * result A.

#[global] Instance op_ret : MRet op := fun _ a t => (t, Ok a).
#[global] Instance op_bind : MBind op := fun _ _ k m t =>
  match m t with
  | (t', Ok a) => k a t'
  | (t', Err e) => (t', Err e)
  end.

Definition throw {A} (e : error) : op A := fun t => (t, Err e).
Definition lift {A} (r : result A) : op A := fun t => (t, r).
Definition get : op Table := fun t => (t, Ok t).
Definition modify (f : Table -> Table) : op () := fun t => (f t, Ok ()).

(** [array.each(f)] for an [f] that acts on the table. *)
Fixpoint each {A} (f : A -> op ()) (l : list A) : op () :=
  match l with
  | [] => mret ()
  | x :: l' => _ ← f x; each f l'
  end.

(** [array.collect(f)] for an [f] that acts on the table. *)
Fixpoint collect {A B} (f : A -> op B) (l : list A) : op (list B) :=
  match l with
  | [] => mret []
  | x :: l' => y ← f x; ys ← collect f l'; mret (y :: ys)
  end.

(** [self._.active()] *)
Definition checkActive : op () := fun t =>
  if active t then (t, Ok ()) else (t, Err (Error "Table has been dropped")).

(** ** [checkColumnNames] and the constructor *)

Definition isLetter (c : ascii) : bool :=
  let n := nat_of_ascii c in
  (((65 <=? n) && (n <=? 90)) || ((97 <=? n) && (n <=? 122)) || (n =? 95))%nat.

Definition isNameChar (c : ascii) : bool :=
  let n := nat_of_ascii c in
  (isLetter c || ((48 <=? n) && (n <=? 57)) || (n =? 36))%nat.

Fixpoint allChars (p : ascii -> bool) (s : string) : bool :=
  match s with
  | EmptyString => true
  | String c s' => p c && allChars p s'
  end.

(** The regular expression of [checkColumnNames]: a letter or an
    underscore, then letters, digits, underscores and dollar signs. *)
Definition validName (name : string) : bool :=
  match name with
  | EmptyString => false
  | String c s' => isLetter c && allChars isNameChar s'
  end.

(** [cNames = {}] already answers to the names it inherits. *)
Definition objectPrototypeNames : list string :=
  [ "constructor"; "hasOwnProperty"; "isPrototypeOf"; "propertyIsEnumerable";
    "toLocaleString"; "toString"; "valueOf"; "__proto__"; "__defineGetter__";
    "__defineSetter__"; "__lookupGetter__"; "__lookupSetter__" ].

Fixpoint checkNamesFrom (cNames : list string) (superSet : option (list string))
    (columnNames : list string) : result () :=
  match columnNames with
  | [] => Ok ()
  | name :: rest =>
      if negb (validName name) then Err (Error ("Invalid column name: " +:+ name))
      else if bool_decide (name ∈ cNames)
      then Err (Error ("Duplicate column name: " +:+ name))
      else if from_option (fun sup => negb (bool_decide (name ∈ sup))) false superSet
      then Err (Error ("Column name not found: " +:+ name))
      else checkNamesFrom (name :: cNames) superSet rest
  end.

Definition checkColumnNames (columnNames : list string)
    (superSet : option (list string)) : result () :=
  match columnNames with
  | [] => Err (Error "No column names specified")
  | _ => checkNamesFrom objectPrototypeNames superSet columnNames
  end.

(** [new DataTable(columnNames)]; [id] stands for the identity the
    constructor draws from the clock. *)
Definition newTable (id : nat) (columnNames : list string) : result Table :=
  _ ← checkColumnNames columnNames None;
  Ok (mkTable [] [] columnNames false false true id [] []).

(** [self._.clone(object)]: [{$: object.$, c: object.c, ...}] over the
    table's columns. *)
Definition cloneCells (columnNames : list string) (object : row)
    : gmap string value :=
  list_to_map ((fun c => (c, cell object c)) <$> columnNames).

Definition clone (columnNames : list string) (object : row) : row :=
  Row (cloneCells columnNames object) (rowDollar object).

Definition cloneArg (columnNames : list string) (object : option row)
    : result row :=
  match object with
  | Some r => Ok (clone columnNames r)
  | None => Err (TypeError "cannot read a property of undefined")
  end.

(** ** Calls to the indexes *)

(** Apply the method [f] of the index at position [k], recording the call. *)
Definition callIndex (k : nat) (call : string -> indexCall)
    (f : Index -> Index * option error) : op () := fun t =>
  match indicies t !! k with
  | None => (t, Err (TypeError "cannot read a property of undefined"))
  | Some ix =>
      let '(ix', err) := f ix in
      let t' := logCall (setIndicies t (<[k := ix']> (indicies t)))
                  (call (signature ix)) in
      (t', match err with Some e => Err e | None => Ok () end)
  end.

Definition callRowsAdded (k : nat) (rows : rowArray) : op () :=
  callIndex k CallRowsAdded (fun ix => rowsAdded ix rows).
Definition callRowsRemoved (k : nat) (rows : rowArray) : op () :=
  callIndex k CallRowsRemoved (fun ix => rowsRemoved ix rows).
Definition callValidateIndex (k : nat) : op () :=
  callIndex k CallValidateIndex (fun ix =>
    (ix, match validateIndex ix with Ok _ => None | Err e => Some e end)).

(** [self._.indicies.each(f)], [f] given the position of the index. *)
Definition eachIndex (f : nat -> op ()) : op () :=
  t ← get; each f (seq 0 (length (indicies t))).

(** [DataTable.prototype.validateIndex] *)
Definition tableValidateIndex : op () :=
  _ ← checkActive; eachIndex callValidateIndex.

(** ** The [$] closure of a row *)

Definition notAFunction {A} : op A :=
  throw (TypeError "r.$ is not a function").
Definition ofUndefined {A} : op A :=
  throw (TypeError "cannot read a property of undefined").

(** The closure behind [r.$] once [r] is known to belong to this table. *)
Definition closureOf (r : option row) : op (nat * closure) :=
  match r with
  | None => ofUndefined
  | Some r =>
      match rowDollar r with
      | DValue _ => notAFunction
      | DDropped => throw (Error "Table has been dropped")
      | DHandle _ h =>
          t ← get;
          match closures t !! h with
          | Some c => mret (h, c)
          | None => notAFunction
          end
      end
  end.

(** [checkTableIdentity(self, r.$(ROW_META_DATA.TABLE_ID))]: the closure
    first calls [active] of its own table, which throws once that table is
    dropped, and then answers with [tablesIdentities[id]] for the [id] of
    its table; two such answers are the same object exactly when the ids
    are the same. *)
Definition checkTableIdentity (r : option row) : op () :=
  match r with
  | None => ofUndefined
  | Some r =>
      match rowDollar r with
      | DValue _ => notAFunction
      | DDropped => throw (Error "Table has been dropped")
      | DHandle tid _ =>
          t ← get;
          if bool_decide (tid = id t) then mret ()
          else throw (Error "A row was passed that does not belong to this table.")
      end
  end.

(** [r.$()]: a clone of the row the closure holds *)
Definition original (r : option row) : op row :=
  _ ← checkActive;
  hc ← closureOf r;
  t ← get;
  mret (clone (columnNames t) (Row (clRow hc.2) (DHandle (id t) hc.1))).

(** [r.$(ROW_META_DATA.INDEX)] *)
Definition rowIndex (r : option row) : op nat :=
  _ ← checkActive; hc ← closureOf r; mret (clIndex hc.2).

(** [r.$(ROW_META_DATA.INDEX, index)] *)
Definition setRowIndex (r : option row) (index : nat) : op () :=
  _ ← checkActive;
  hc ← closureOf r;
  modify (fun t => setClosures t
            (<[hc.1 := Closure index (clRow hc.2)]> (closures t))).

(** [r.$(ROW_META_DATA.ORIGINAL, row)] *)
Definition setOriginal (r : option row) (newRow : row) : op () :=
  _ ← checkActive;
  hc ← closureOf r;
  modify (fun t => setClosures t
            (<[hc.1 := Closure (clIndex hc.2) (cells newRow)]> (closures t))).

(** ** The [rows] argument of [insert], [update] and [remove] *)

Inductive rowsArg :=
| ArgArray (rows : rowArray)   (* an [Array] of row objects *)
| ArgRow (r : row).            (* one row object *)

(** [(rows && rows.constructor === Array) ? extend(rows.concat(), ary)
                                          : newArray(rows)] *)
Definition toArray (rows : rowsArg) : rowArray :=
  match rows with
  | ArgArray rs => rs
  | ArgRow r => [Some r]
  end.

(** The length [apply] reads from an object given as its argument list:
    [ToLength(object.length)]. *)
Definition argumentsLength (r : row) : nat :=
  match toNumber (cell r "length") with
  | Some n => Z.to_nat n
  | None => 0%nat
  end.

(** [(rows && rows.constructor === Array) ? extend(rows.concat(), ary)
                                          : newArray.apply(null, rows)]:
    a row object has no numbered properties, so every argument [apply]
    reads from it is [undefined]. *)
Definition toArrayApply (rows : rowsArg) : rowArray :=
  match rows with
  | ArgArray rs => rs
  | ArgRow r => replicate (argumentsLength r) None
  end.

(** [array[i] = x] *)
Definition arraySet {A} (a : list (option A)) (i : nat) (x : option A)
    : list (option A) :=
  if (i <? length a)%nat then <[i := x]> a
  else a ++ replicate (i - length a) None ++ [x].

(** ** [DataTable.prototype.insert] *)

(** The function [insert] collects over [rows]. *)
Definition insertRow (object : option row) : op (option row) :=
  match object with
  | None => ofUndefined
  | Some r =>
      if dollarTruthy (rowDollar r) then mret None (* already in the table *)
      else
        t ← get;
        let cs := cloneCells (columnNames t) r in
        let index := length (rows t) in
        let h := length (closures t) in
        let r := Row cs (DHandle (id t) h) in
        _ ← modify (fun t => setClosures t (closures t ++ [Closure index cs]));
        _ ← modify (fun t => setRows t (rows t ++ [Some r]));
        mret (Some r)
  end.

Definition whenParanoid (m : op ()) : op () :=
  t ← get; if paranoia t then m else mret ().

Definition insert (rows : rowsArg) : op (list row) :=
  _ ← checkActive;
  result ← collect insertRow (toArray rows);
  _ ← eachIndex (fun i => callRowsAdded i result);
  _ ← whenParanoid tableValidateIndex;
  t ← get;
  lift (mapM (cloneArg (columnNames t)) result).

(** ** [DataTable.prototype.remove] *)

(** [self._.rows.length--] *)
Definition shrinkRows : op () :=
  t ← get;
  match rows t with
  | [] => throw (Error "RangeError: Invalid array length")
  | _ => modify (fun t => setRows t (removelast (rows t)))
  end.

(** The function [remove] applies to each of [origRows].  [row] is a fresh
    clone, so [row != last] holds. *)
Definition removeRow (r : row) : op () :=
  t ← get;
  _ ← (if (1 <? length (rows t))%nat then
         let last := mjoin (List.last (Some <$> rows t) None) in
         indexToOverwrite ← rowIndex (Some r);
         _ ← modify (fun t => setRows t (arraySet (rows t) indexToOverwrite last));
         setRowIndex last indexToOverwrite
       else mret ());
  shrinkRows.

Definition remove (rows : rowsArg) : op () :=
  _ ← checkActive;
  let rows := toArrayApply rows in
  origRows ← collect (fun r => _ ← checkTableIdentity r; original r) rows;
  _ ← eachIndex (fun i => callRowsRemoved i (Some <$> origRows));
  _ ← each removeRow origRows;
  whenParanoid tableValidateIndex.

(** ** [DataTable.prototype.update] *)

(** The source of [markChangedColumns] is made, for each column, by
    [template.replace(/name/g, name)], and a replacement string reads [$$]
    as one [$]: this is the property name the generated line compares and
    marks. *)
Fixpoint replacementOf (name : string) : string :=
  match name with
  | String "$" (String "$" rest) => String "$" (replacementOf rest)
  | String c rest => String c (replacementOf rest)
  | EmptyString => EmptyString
  end.

(** [self._.markChangedColumns(object, original, mark)]: the properties
    marked, one line [if (object.p !== original.p) changed = mark.p = true]
    for each column. *)
Definition markChangedColumns (columnNames : list string)
    (object original : row) : list string :=
  filter (fun p => strictEq (cell object p) (cell original p) = false)
    (replacementOf <$> columnNames).

(** The [findAll] of [update]: the rows that changed, and the marks. *)
Fixpoint findChanged (rows : rowArray) (changedColumns : list string)
    : op (rowArray * list string) :=
  match rows with
  | [] => mret ([], changedColumns)
  | r :: rest =>
      _ ← checkTableIdentity r;
      o ← original r;
      t ← get;
      let marks := from_option
                     (fun r => markChangedColumns (columnNames t) r o) [] r in
      res ← findChanged rest (changedColumns ++ marks);
      mret (match marks with [] => res.1 | _ => r :: res.1 end, res.2)
  end.

(** Modelled from the spec: [any], which the source calls on the column
    list of an index and the host's prototype library provides: "each index
    whose column list intersects that set". *)
Definition any {A} (f : A -> bool) (l : list A) : bool := existsb f l.

Definition touches (changedColumns : list string) (ix : Index) : bool :=
  any (fun column => bool_decide (column ∈ changedColumns)) (columns ix).

Definition updateIndex (oldRows rows : rowArray) (changedColumns : list string)
    (i : nat) : op () :=
  t ← get;
  if from_option (touches changedColumns) false (indicies t !! i) then
    _ ← callRowsRemoved i oldRows;
    _ ← whenParanoid (callValidateIndex i);
    _ ← callRowsAdded i rows;
    whenParanoid (callValidateIndex i)
  else mret ().

(** The last loop of [update]: the row of the table becomes a clone of
    [r]. *)
Definition storeRow (r : option row) : op () :=
  t ← get;
  newRow ← lift (cloneArg (columnNames t) r);
  _ ← setOriginal (Some newRow) newRow;
  i ← rowIndex r;
  modify (fun t => setRows t (arraySet (rows t) i (Some newRow))).

Definition update (rows : rowsArg) : op () :=
  _ ← checkActive;
  found ← findChanged (toArray rows) [];
  let '(rows, changedColumns) := found in
  oldRows ← collect original rows;
  match rows with
  | [] => mret ()
  | _ =>
      _ ← eachIndex (updateIndex (Some <$> oldRows) rows changedColumns);
      each storeRow rows
  end.

(** ** [index], [getRows], [getCount], [paranoia], [verbose], [drop] *)

(** [buildIndexSignature] *)
Definition buildIndexSignature (columnNames : list string) : string :=
  "[" +:+ String.concat "," columnNames +:+ "]".

(** [new DataTable.Index(table, columnNames)] *)
Definition newIndex (columnNames : list string) : Index :=
  mkIndex columnNames (buildIndexSignature columnNames) [] 0.

(** [table.index()]: the column lists of the indexes.  The source returns
    before it calls [active]. *)
Definition indexList : op (list (list string)) :=
  t ← get; mret (columns <$> indicies t).

(** [table.index(columnNames)] *)
Definition indexOn (names : list string) : op Index :=
  _ ← checkActive;
  t ← get;
  _ ← lift (checkColumnNames names (Some (columnNames t)));
  let sig := buildIndexSignature names in
  match List.find (fun ix => String.eqb (signature ix) sig) (indicies t) with
  | Some ix => mret ix
  | None =>
      let '(ix, err) := rowsAdded (newIndex names) (rows t) in
      _ ← modify (fun t => logCall t (CallRowsAdded sig));
      match err with
      | Some e => throw e
      | None => _ ← modify (fun t => setIndicies t (indicies t ++ [ix])); mret ix
      end
  end.

(** [table.getRows()] *)
Definition getRows : op (list row) :=
  _ ← checkActive; t ← get; lift (mapM (cloneArg (columnNames t)) (rows t)).

(** [table.getCount()] *)
Definition getCount : op nat :=
  _ ← checkActive; t ← get; mret (length (rows t)).

(** [table.paranoia()] and [table.paranoia(enable)] *)
Definition getParanoia : op bool :=
  _ ← checkActive; t ← get; mret (paranoia t).
Definition paranoiaSet (enable : value) : op () :=
  _ ← checkActive; modify (fun t => setParanoia t (truthy enable)).

(** [table.verbose()] and [table.verbose(enable)] *)
Definition getVerbose : op bool :=
  _ ← checkActive; t ← get; mret (verbose t).
Definition verboseSet (enable : value) : op () :=
  _ ← checkActive; modify (fun t => setVerbose t (truthy enable)).

(** [table.drop()] *)
Definition tableDrop : op () :=
  _ ← checkActive; modify (fun t => setActive t false).

(** ** Criteria *)

(** The operand of a criterion: a primitive, [new DataTable.Range(begin,
    end)], [new DataTable.Set(array)] or an [Array]. *)
Inductive operand :=
| Scalar (v : value)
| Range (begin end_ : value)
| SetOf (array : list value)
| ArrayOf (array : list value).

Inductive compareOp := OpEq | OpNe | OpLe | OpLt | OpGe | OpGt.

(** The operator of a criterion with its [value]; a comparison takes a
    primitive. *)
Inductive test :=
| Compare (o : compareOp) (v : value)
| Between (v : operand)
| In (v : operand).

Record criterion := Criterion { columnName : string; criterionTest : test }.

(** JavaScript numbers in this embedding: an integer, or NaN. *)
Abbreviation num := (option Z).

Definition numAdd (a b : num) : num := x ← a; y ← b; Some (x + y).
Definition numSub (a b : num) : num := x ← a; y ← b; Some (x - y).
Definition numMul (a b : num) : num := x ← a; y ← b; Some (x * y).
(** [a > b] *)
Definition numGt (a b : num) : bool :=
  match a, b with Some x, Some y => x >? y | _, _ => false end.

(** [value.length] *)
Definition operandLength (v : operand) : result num :=
  match v with
  | Scalar (VUndefined | VNull) =>
      Err (TypeError "cannot read a property of undefined")
  | Scalar (VStr s) => Ok (Some (Z.of_nat (String.length s)))
  | Scalar _ => Ok None
  | Range begin end_ =>
      Ok (numAdd (numSub (toNumber end_) (toNumber begin)) (Some 1))
  | SetOf array | ArrayOf array => Ok (Some (Z.of_nat (length array)))
  end.

(** [calculateSingleRowCriteriaCost] *)
Definition calculateSingleRowCriteriaCost (criteria : list criterion)
    : result num :=
  foldl (fun cost c =>
           cost ← cost;
           match criterionTest c with
           | Between _ => Ok (numAdd cost (Some 1))
           | In v => len ← operandLength v;
                     Ok (numSub (numAdd cost len) (Some 1))
           | Compare _ _ => Ok cost
           end)
        (Ok (Some (Z.of_nat (length criteria)))) criteria.

(** ** [computeCost]: the criteria an index can apply, and [reduce] *)

(** [array.slice(start, end)]: an index is truncated to an integer, counts
    from the end when negative, and is capped by the length. *)
Definition sliceIndex (len : Z) (h : half) : Z :=
  let k := Z.quot (twice h) 2 in
  if k <? 0 then Z.max (len + k) 0 else Z.min k len.

Definition slice {A} (a : list A) (start : half) (end_ : option half) : list A :=
  let len := Z.of_nat (length a) in
  let from := sliceIndex len start in
  let to := from_option (sliceIndex len) len end_ in
  take (Z.to_nat (to - from)) (drop (Z.to_nat from) a).

(** [Math.max(0, h)] *)
Definition hmax0 (h : half) : half := if hltb h (ofInt 0) then ofInt 0 else h.

(** What [getIndexEntry] leaves in [foundExactMatch] and [matchedIndex],
    and the entry it returns when the match is exact. *)
Record probe := Probe {
  foundExactMatch : bool; matchedIndex : half; probeEntry : option entry
}.

Definition matchExact : half := Half 0.
Definition matchBefore : half := Half (-1).
Definition matchAfter : half := Half 1.

(** The local [getIndexEntry(value, beforeOrAfter)] *)
Definition getIndexEntry (subindex : list entry) (v : value)
    (beforeOrAfter : half) : result probe :=
  i ← binarySearch (fun _ => true) compareValues subindex v None None;
  if isInteger i && hleb (ofInt 0) i
     && hltb i (ofInt (Z.of_nat (length subindex)))
  then Ok (Probe true i (atHalf subindex i))
  else Ok (Probe false (hadd i beforeOrAfter) None).

(** [criterion.value.start] and [criterion.value.end] *)
Definition operandStart (v : operand) : result value :=
  match v with
  | Scalar (VUndefined | VNull) =>
      Err (TypeError "cannot read a property of undefined")
  | Range begin _ => Ok begin
  | _ => Ok VUndefined
  end.
Definition operandEnd (v : operand) : result value :=
  match v with
  | Scalar (VUndefined | VNull) =>
      Err (TypeError "cannot read a property of undefined")
  | Range _ end_ => Ok end_
  | _ => Ok VUndefined
  end.

(** [array.uniq()]: the first occurrence of each value, by [===]. *)
Fixpoint uniq (seen : list value) (l : list value) : list value :=
  match l with
  | [] => []
  | v :: l' =>
      if bool_decide (v ∈ seen) then uniq seen l'
      else v :: uniq (v :: seen) l'
  end.

(** The [switch] of [reduce] on one subindex: the entries appended to
    [found]. *)
Definition reduceStep (c : criterion) (subindex : list entry)
    : result (list entry) :=
  match criterionTest c with
  | Compare OpEq v =>
      p ← getIndexEntry subindex v matchExact;
      Ok (if foundExactMatch p then option_list (probeEntry p) else [])
  | Compare OpNe v =>
      p ← getIndexEntry subindex v matchExact;
      Ok (if negb (foundExactMatch p)
          then slice subindex (ofInt 0) (Some (matchedIndex p))
               ++ slice subindex (hadd (matchedIndex p) (ofInt 1)) None
          else subindex)
  | Compare OpLe v =>
      p ← getIndexEntry subindex v matchBefore;
      Ok (if hleb (ofInt 0) (matchedIndex p)
          then slice subindex (ofInt 0) (Some (hadd (matchedIndex p) (ofInt 1)))
          else [])
  | Compare OpLt v =>
      p ← getIndexEntry subindex v matchBefore;
      Ok (if hleb (ofInt 0) (matchedIndex p)
          then slice subindex (ofInt 0)
                 (Some (hadd (matchedIndex p)
                          (ofInt (if foundExactMatch p then 0 else 1))))
          else [])
  | Compare OpGe v =>
      p ← getIndexEntry subindex v matchAfter;
      Ok (slice subindex (hmax0 (matchedIndex p)) None)
  | Compare OpGt v =>
      p ← getIndexEntry subindex v matchAfter;
      Ok (slice subindex
            (hadd (matchedIndex p) (ofInt (if foundExactMatch p then 1 else 0)))
            None)
  | Between range =>
      start ← operandStart range;
      p ← getIndexEntry subindex start matchAfter;
      let begin := hmax0 (matchedIndex p) in
      end_ ← operandEnd range;
      p ← getIndexEntry subindex end_ matchAfter;
      (* [criterion.value.exclusive] is [undefined] *)
      let end_ := hadd (matchedIndex p)
                    (ofInt (if foundExactMatch p then 1 else 0)) in
      Ok (slice subindex begin (Some end_))
  | In (SetOf array | ArrayOf array) =>
      found ← mapM (fun v =>
                 p ← getIndexEntry subindex v matchExact;
                 Ok (if foundExactMatch p then option_list (probeEntry p)
                     else [])) (uniq [] array);
      Ok (concat found)
  | In _ => Err (TypeError "uniq or forEach is not a function")
  end.

Definition entriesOf (d : data) : result (list entry) :=
  match d with
  | SubIndex entries _ => Ok entries
  | RowData _ => Err (TypeError "index data is not an array of entries")
  end.
Definition rowsOf (d : data) : result (list row) :=
  match d with
  | RowData rows => Ok rows
  | SubIndex _ _ => Err (TypeError "index data is not an array of rows")
  end.

(** The loop of [reduce] over [criteriaUsed]; [data] is kept as the list of
    the [data] properties of its elements. *)
Fixpoint reduceCriteria (criteriaUsed : list criterion) (ds : list data)
    : result (list data) :=
  match criteriaUsed with
  | [] => Ok ds
  | c :: rest =>
      found ← mapM (fun d => subindex ← entriesOf d; reduceStep c subindex) ds;
      reduceCriteria rest (eData <$> concat found)
  end.

(** The last loop of [reduce]: [levels] further levels of entries are
    opened, then the row arrays are joined. *)
Fixpoint flatten (levels : nat) (ds : list data) : result (list row) :=
  match levels with
  | O => rows ← mapM rowsOf ds; Ok (concat rows)
  | S levels' =>
      entries ← mapM entriesOf ds;
      flatten levels' (eData <$> concat entries)
  end.

(** The walk of [computeCost] over the columns: the criteria the index
    applies, in the order of its columns, and those left over. *)
Fixpoint removeFirst (name : string) (criteria : list criterion)
    : list criterion :=
  match criteria with
  | [] => []
  | c :: rest =>
      if String.eqb (columnName c) name then rest
      else c :: removeFirst name rest
  end.

Fixpoint splitCriteria (columns : list string) (criteria unused : list criterion)
    : list criterion * list criterion :=
  match columns with
  | [] => ([], unused)
  | column :: rest =>
      match List.find (fun c => String.eqb (columnName c) column) criteria with
      | None => ([], unused)
      | Some c =>
          let '(used, unused') :=
            splitCriteria rest criteria (removeFirst column unused) in
          (c :: used, unused')
      end
  end.

Definition reduce (ix : Index) (criteriaUsed : list criterion)
    : result rowArray :=
  ds ← reduceCriteria criteriaUsed [SubIndex (index ix) (indexTotal ix)];
  found ← flatten (length (columns ix) - length criteriaUsed) ds;
  Ok (map Some found).

(** What [computeCost] returns. *)
Record descriptor := Descriptor {
  cost : num;
  criteriaUnused : list criterion;
  reduceOf : () -> result rowArray;
  indexSignature : string
}.

(** ** [findWhere] and the planner *)

(** [bind(f, ctx)]: [f] itself when [ctx] is [null], and otherwise
    [function() { f.apply(ctx, arguments); }]. *)
Definition bind {A} (f : A -> result value) (ctxIsNull : bool)
    : A -> result value :=
  if ctxIsNull then f else fun a => _ ← f a; Ok VUndefined.

(** [Range.include]: [v >= begin && v <= end] *)
Definition rangeInclude (begin end_ : value) (v : value) : result value :=
  Ok (VBool (jsGe v begin && jsLe v end_)).

(** [ary.include] on a [Set]: [this.indexOf(o) != -1], where [indexOf]
    compares with [==]. *)
Definition setInclude (array : list value) (o : value) : result value :=
  Ok (VBool (existsb (fun x => looseEq x o) array)).

(** The [include] function the filter of [getRows] builds for a criterion
    that was not applied by the index. *)
Definition includeOf (t : test) : result (value -> result value) :=
  let comparator := Comparator in
  match t with
  | Compare OpEq x => Ok (fun v => Ok (VBool (comparator v x =? 0)))
  | Compare OpNe x => Ok (fun v => Ok (VBool (negb (comparator v x =? 0))))
  | Compare OpLe x => Ok (fun v => Ok (VBool (comparator v x <=? 0)))
  | Compare OpLt x => Ok (fun v => Ok (VBool (comparator v x <? 0)))
  | Compare OpGe x => Ok (fun v => Ok (VBool (comparator v x >=? 0)))
  | Compare OpGt x => Ok (fun v => Ok (VBool (comparator v x >? 0)))
  | Between x | In x =>
      match x with
      | SetOf array | ArrayOf array => Ok (bind (setInclude array) false)
      | Range begin end_ => Ok (bind (rangeInclude begin end_) false)
      | Scalar (VUndefined | VNull) =>
          Err (TypeError "cannot read a property of undefined")
      | Scalar _ =>
          Ok (bind (fun _ => Err (TypeError "cannot read a property of undefined"))
                false)
      end
  end.

(** [matchedRows.findAll(function(row) { return include(row[name]); })] *)
Fixpoint findAll (include : value -> result value) (name : string)
    (matchedRows : rowArray) : result rowArray :=
  match matchedRows with
  | [] => Ok []
  | None :: _ => Err (TypeError "cannot read a property of undefined")
  | Some r :: rest =>
      keep ← include (cell r name);
      kept ← findAll include name rest;
      Ok (if truthy keep then Some r :: kept else kept)
  end.

(** [bestCase.criteriaUnused.each(...)] *)
Fixpoint applyUnused (criteria : list criterion) (matchedRows : rowArray)
    : result rowArray :=
  match criteria with
  | [] => Ok matchedRows
  | c :: rest =>
      include ← includeOf (criterionTest c);
      matchedRows ← findAll include (columnName c) matchedRows;
      applyUnused rest matchedRows
  end.

Section Planner.
(** The [cost] that [computeCost] estimates for an index.  The estimate
    rounds fractions of the sizes it finds; the choice among the access
    paths only compares it. *)
Variable estimate : Index -> list criterion -> num.

(** [index.computeCost(criteria)] *)
Definition computeCost (ix : Index) (criteria : list criterion) : descriptor :=
  let '(used, unused) := splitCriteria (columns ix) criteria criteria in
  Descriptor (estimate ix criteria) unused (fun _ => reduce ix used)
    (signature ix).

(** The full scan [getRows] starts from. *)
Definition worstCase (t : Table) (criteria : list criterion) (single : num)
    : descriptor :=
  Descriptor (numMul (Some (Z.of_nat (length (rows t)))) single) criteria
    (fun _ => Ok (rows t)) "<table scan>".

(** The function [getRows] injects over the indexes. *)
Definition better (criteria : list criterion) (bestCase : descriptor)
    (ix : Index) : descriptor :=
  let thisCase := computeCost ix criteria in
  if numGt (cost bestCase) (cost thisCase) then thisCase else bestCase.

Definition bestCase (t : Table) (criteria : list criterion) (single : num)
    : descriptor :=
  foldl (better criteria) (worstCase t criteria single) (indicies t).

(** [findWhere(...).getRows()] on the accumulated criteria *)
Definition queryGetRows (criteria : list criterion) : op (list row) :=
  _ ← checkActive;
  t ← get;
  single ← lift (calculateSingleRowCriteriaCost criteria);
  let best := bestCase t criteria single in
  matchedRows ← lift (reduceOf best ());
  matchedRows ← lift (applyUnused (criteriaUnused best) matchedRows);
  lift (mapM (cloneArg (columnNames t)) matchedRows).
End Planner.

(** [table.findWhere(columnName, operator, value)]: the criteria of the
    query it returns. *)
Definition findWhere (name : string) (t : test) : op (list criterion) :=
  _ ← checkActive;
  tbl ← get;
  _ ← lift (checkColumnNames [name] (Some (columnNames tbl)));
  mret [Criterion name t].

(** [query.and(columnName, operator, value)] *)
Definition and_ (criteria : list criterion) (name : string) (t : test)
    : op (list criterion) :=
  _ ← checkActive;
  tbl ← get;
  _ ← lift (checkColumnNames [name] (Some (columnNames tbl)));
  mret (criteria ++ [Criterion name t]).

(** ** Example tables *)

(** A plain row object, as a caller writes it: [{name: value, ...}]. *)
Definition rowOf (l : list (string * value)) : row :=
  Row (list_to_map l) (DValue VUndefined).

(** [new DataTable(["a"])] *)
Definition tableA : Table := mkTable [] [] ["a"] false false true 0 [] [].

(** [new DataTable(["c"])] *)
Definition tableC : Table := mkTable [] [] ["c"] false false true 0 [] [].

(** [new DataTable(["length"])] *)
Definition tableLength : Table :=
  mkTable [] [] ["length"] false false true 0 [] [].

(** The entries of an index on the values 1, 3 and 5. *)
Definition entriesOdd : list entry :=
  [ Entry (VNum 1) 1 1 (RowData [Row {[ "a" := VNum 1 ]} (DHandle 0 0)]);
    Entry (VNum 3) 1 2 (RowData [Row {[ "a" := VNum 3 ]} (DHandle 0 1)]);
    Entry (VNum 5) 1 3 (RowData [Row {[ "a" := VNum 5 ]} (DHandle 0 2)]) ].

(** [r.name = v] on a row the caller holds *)
Definition setCell (r : row) (name : string) (v : value) : row :=
  Row (<[name := v]> (cells r)) (rowDollar r).

(** ** Vocabulary of the properties *)

Section SearchVocabulary.
Context {E V : Type}.
Variable comparator : E -> V -> Z.
Variable seq : list E.
Variable v : V.

(** Every element before one that is below [v] is below [v]. *)
Definition partitioned : Prop :=
  forall (i j : nat) (a b : E), (i <= j)%nat ->
    seq !! i = Some a -> seq !! j = Some b ->
    comparator b v < 0 -> comparator a v < 0.

(** [p] splits [seq] into the elements below [v] and the others. *)
Definition splitsAt (p : Z) : Prop :=
  0 <= p <= Z.of_nat (length seq) /\
  (forall i e, i < p -> at_ seq i = Some e -> comparator e v < 0) /\
  (forall i e, p <= i -> at_ seq i = Some e -> ~ comparator e v < 0).

(** The number of elements below [v]. *)
Definition countBelow : Z :=
  Z.of_nat (length (filter (fun e => comparator e v < 0) seq)).

(** [seq] is strictly sorted under [cmpE], and [cmpE] orders the elements
    of [seq] as [comparator] orders them against [v]. *)
Variable cmpE : E -> E -> Z.

Definition strictlySorted : Prop :=
  forall (i j : nat) (a b : E), (i < j)%nat ->
    seq !! i = Some a -> seq !! j = Some b -> cmpE a b < 0.

Definition consistent : Prop :=
  forall a b : E, a ∈ seq -> b ∈ seq ->
    cmpE a b < 0 -> comparator b v <= 0 -> comparator a v < 0.

(** [r - 0.5] clamped to [[-1, uBound]], for the default [uBound] *)
Definition insertionPoint (p : Z) : half :=
  if p =? 0 then ofInt (-1)
  else if p =? Z.of_nat (length seq) then ofInt (Z.of_nat (length seq))
  else minusHalf p.
End SearchVocabulary.

(** The choice [getRows] injects: keep [b] unless [c] costs strictly less. *)
Definition pick (b c : descriptor) : descriptor :=
  if numGt (cost b) (cost c) then c else b.

(** The table [t] after the further calls [cs] to its indexes. *)
Definition addCalls (t : Table) (cs : list indexCall) : Table :=
  mkTable (indicies t) (rows t) (columnNames t) (paranoia t) (verbose t)
    (active t) (id t) (closures t) (calls t ++ cs).

(** The calls of [indicies.each(function(i) { i.method(...); })]. *)
Definition callsOf (call : string -> indexCall) (ixs : list Index)
    : list indexCall :=
  (fun ix => call (signature ix)) <$> ixs.

(** Every index has a column, as [checkColumnNames] ensures when the index
    is made. *)
Definition indexedColumns (t : Table) : Prop :=
  Forall (fun ix => columns ix <> []) (indicies t).

(** Every index passes [validateIndex]. *)
Definition indexesValid (ixs : list Index) : Prop :=
  Forall (fun ix => validateIndex ix = Ok ()) ixs.

(** The entries of an index of [depth] columns: row arrays under the last
    column, arrays of entries above it. *)
Fixpoint shaped (depth : nat) (entries : list entry) : Prop :=
  match depth with
  | S (S _ as depth') =>
      Forall (fun e => match eData e with
                       | SubIndex sub _ => shaped depth' sub
                       | RowData _ => False
                       end) entries
  | _ =>
      Forall (fun e => match eData e with
                       | RowData _ => True
                       | SubIndex _ _ => False
                       end) entries
  end.

(** What [buildIndex] and the merges keep true of an index. *)
Definition wellShaped (ix : Index) : Prop :=
  columns ix <> [] /\ shaped (length (columns ix)) (index ix).


(** [r] is a clone of a row of [t]: its [$] is a closure of [t]. *)
Definition belongs (t : Table) (r : row) : Prop :=
  exists h c, rowDollar r = DHandle (id t) h /\ closures t !! h = Some c.

(** The snapshot [r.$()] of a row that belongs to [t]. *)
Definition snapshotOf (t : Table) (r : row) : row :=
  match rowDollar r with
  | DHandle _ h =>
      match closures t !! h with
      | Some c => clone (columnNames t) (Row (clRow c) (DHandle (id t) h))
      | None => r
      end
  | DDropped | DValue _ => r
  end.

(** The columns on which [r] differs from its snapshot. *)
Definition changedOf (t : Table) (r : row) : list string :=
  markChangedColumns (columnNames t) r (snapshotOf t r).

(** The changed columns of a batch, and its rows that changed. *)
Definition changedColumnsOf (t : Table) (rs : list row) : list string :=
  rs ≫= changedOf t.
Definition changedRows (t : Table) (rs : list row) : list row :=
  filter (fun r => changedOf t r <> []) rs.

(** The calls [update] makes to one index, and to the indexes in their
    order, when the columns [changed] changed. *)
Definition updateCalls (p : bool) (changed : list string) (ix : Index)
    : list indexCall :=
  if touches changed ix then
    [CallRowsRemoved (signature ix)]
    ++ (if p then [CallValidateIndex (signature ix)] else [])
    ++ [CallRowsAdded (signature ix)]
    ++ (if p then [CallValidateIndex (signature ix)] else [])
  else [].

Definition expectedCalls (p : bool) (changed : list string) (ixs : list Index)
    : list indexCall :=
  ixs ≫= updateCalls p changed.

(** [m] only acts on the index at position [s], whose signature is [sig],
    and calls its methods as [cs] says, up to the first call that throws. *)
Definition stepsAt (s : nat) (sig : string) (p : bool) (m : op ())
    (cs : list indexCall) : Prop :=
  forall (t : Table) (ix : Index),
    indicies t !! s = Some ix -> signature ix = sig -> paranoia t = p ->
    exists ix' L,
      indicies (m t).1 = <[s := ix']> (indicies t)
      /\ signature ix' = sig /\ paranoia (m t).1 = p
      /\ calls (m t).1 = calls t ++ L
      /\ L `prefix_of` cs /\ ((m t).2 = Ok () -> L = cs).

(** [m] leaves the indexes and the record of their calls as they are. *)
Definition frames {A} (m : op A) : Prop :=
  forall t, indicies (m t).1 = indicies t /\ calls (m t).1 = calls t.

(** The tables a program can hold: a new table, and a table after a
    method call, whatever the call returned or threw. *)
Inductive reachable : Table -> Prop :=
| reach_new (id : nat) (names : list string) (t : Table) :
    newTable id names = Ok t -> reachable t
| reach_insert (t : Table) (rows : rowsArg) :
    reachable t -> reachable (insert rows t).1
| reach_update (t : Table) (rows : rowsArg) :
    reachable t -> reachable (update rows t).1
| reach_remove (t : Table) (rows : rowsArg) :
    reachable t -> reachable (remove rows t).1
| reach_index (t : Table) (names : list string) :
    reachable t -> reachable (indexOn names t).1
| reach_validate (t : Table) :
    reachable t -> reachable (tableValidateIndex t).1
| reach_paranoia (t : Table) (enable : value) :
    reachable t -> reachable (paranoiaSet enable t).1
| reach_verbose (t : Table) (enable : value) :
    reachable t -> reachable (verboseSet enable t).1
| reach_drop (t : Table) :
    reachable t -> reachable (tableDrop t).1.

(** [m] keeps the property [P] of the indexes. *)
Definition keeps {A} (P : Index -> Prop) (m : op A) : Prop :=
  forall t, Forall P (indicies t) -> Forall P (indicies (m t).1).

(** ** Example scripts *)

(** Index on [a], one row with [a = 5], then one row without [a]. *)
Definition insertAbsentAfterDefined : op () :=
  _ ← indexOn ["a"];
  _ ← insert (ArgArray [Some (rowOf [("a", VNum 5)])]);
  _ ← insert (ArgArray [Some (rowOf [])]);
  tableValidateIndex.

(** One row with [c = 5], then the rows with [c] between 1 and 10. *)
Definition betweenQuery (estimate : Index -> list criterion -> num)
    : op (list row) :=
  _ ← insert (ArgArray [Some (rowOf [("c", VNum 5)])]);
  q ← findWhere "c" (Between (Range (VNum 1) (VNum 10)));
  queryGetRows estimate q.

(** The same with an index on [c] before the insertion. *)
Definition betweenQueryIndexed (estimate : Index -> list criterion -> num)
    : op (list row) :=
  _ ← indexOn ["c"]; betweenQuery estimate.

(** The error of every method of a dropped table. *)
Definition dropped : error := Error "Table has been dropped".

(** [tableLength] after [insert({length: 1})], and the row [insert]
    returned. *)
Definition lengthRow : row := Row {[ "length" := VNum 1 ]} (DHandle 0 0).
Definition tableLength1 : Table :=
  (insert (ArgRow (rowOf [("length", VNum 1)])) tableLength).1.

(** [tableA] after [insert([{a: 1}])], and the row [insert] returned. *)
Definition rowA1 : row := Row {[ "a" := VNum 1 ]} (DHandle 0 0).
Definition tableA1 : Table :=
  (insert (ArgArray [Some (rowOf [("a", VNum 1)])]) tableA).1.

(** [tableA] after [index(["a"])], [paranoia(true)] and [insert([{a: 5}])]. *)
Definition tableA5 : Table :=
  Eval vm_compute in
    ((_ ← indexOn ["a"]; _ ← paranoiaSet (VBool true);
      insert (ArgArray [Some (rowOf [("a", VNum 5)])])) tableA).1.

(** [new DataTable(["a"])] after [index(["a"])], [insert([{a: 5}])],
    a second clone of the row taken with [getRows], and [remove] of the
    first clone: the table is empty and the second clone is still held. *)
Definition tableStale : Table :=
  Eval vm_compute in
    ((_ ← indexOn ["a"];
      r ← insert (ArgArray [Some (rowOf [("a", VNum 5)])]);
      _ ← getRows;
      remove (ArgArray (Some <$> r))) tableA).1.

(** The second clone, with [a] set to 7. *)
Definition staleRow : row :=
  setCell (Row {[ "a" := VNum 5 ]} (DHandle 0 0)) "a" (VNum 7).

(** [new DataTable(["a", "b"])] after [index(["a"])], [index(["b"])] and
    the insertion of two rows. *)
Definition tableAB : Table :=
  Eval vm_compute in
    ((_ ← indexOn ["a"]; _ ← indexOn ["b"];
      insert (ArgArray [Some (rowOf [("a", VNum 1); ("b", VNum 2)]);
                        Some (rowOf [("a", VNum 3); ("b", VNum 4)])]))
       (mkTable [] [] ["a"; "b"] false false true 0 [] [])).1.

(** [new DataTable(["a$$b"])], and that table after [index(["a$$b"])] and
    [insert([{"a$$b": 1}])]. *)
Definition tableDollars0 : Table :=
  mkTable [] [] ["a$$b"] false false true 0 [] [].
Definition tableDollars : Table :=
  Eval vm_compute in
    ((_ ← indexOn ["a$$b"];
      insert (ArgArray [Some (rowOf [("a$$b", VNum 1)])])) tableDollars0).1.

(** The row [insert] returned, with [a$$b] set to 2. *)
Definition dollarsRow : row :=
  setCell (Row {[ "a$$b" := VNum 1 ]} (DHandle 0 0)) "a$$b" (VNum 2).

(** The clone of its first row, with [b] set to 9. *)
Definition rowB9 : row :=
  setCell (Row {[ "a" := VNum 1; "b" := VNum 2 ]} (DHandle 0 0)) "b" (VNum 9).

(** ** [simpleLog2Cost] *)

(** [ToInt32], which [>>] applies to its left operand. *)
Definition toInt32 (n : Z) : Z :=
  let m := n mod 2 ^ 32 in if m <? 2 ^ 31 then m else m - 2 ^ 32.

(** [while (size > 0) { size >>= 1; log++; }]; [None] when the loop has not
    ended after [fuel] turns. *)
Fixpoint log2Loop (fuel : nat) (size log : Z) : option Z :=
  if size >? 0 then
    match fuel with
    | O => None
    | S fuel' => log2Loop fuel' (Z.shiftr (toInt32 size) 1) (log + 1)
    end
  else Some log.

(** [simpleLog2Cost(size)] for an integer [size]; the first shift leaves
    less than [2 ^ 30], so 32 turns are enough. *)
Definition simpleLog2Cost (size : Z) : option Z := log2Loop 32 size 0.

(** ** Comparisons on a row *)

(** [c o 0] for a result [c] of the comparator. *)
Definition holds (o : compareOp) (c : Z) : bool :=
  match o with
  | OpEq => c =? 0
  | OpNe => negb (c =? 0)
  | OpLe => c <=? 0
  | OpLt => c <? 0
  | OpGe => c >=? 0
  | OpGt => c >? 0
  end.

(** The row [r] passes the comparison [c]. *)
Definition satisfies (r : row) (c : criterion) : bool :=
  match criterionTest c with
  | Compare o x => holds o (Comparator (cell r (columnName c)) x)
  | _ => false
  end.

Definition isComparison (c : criterion) : Prop :=
  exists o x, criterionTest c = Compare o x.

Definition isString (v : value) : bool :=
  match v with VStr _ => true | _ => false end.

(** The criterion compares the column with a value, and on the rows [rs]
    it compares two strings or two values that are not strings: no string
    is read as a number. *)
Definition plainComparison (rs : list row) (c : criterion) : Prop :=
  isComparison c
  /\ Forall (fun r =>
               match criterionTest c with
               | Compare _ x => isString (cell r (columnName c)) = isString x
               | _ => True
               end) rs.

(** ** Indexes of integers *)

(** The entries have integers as values. *)
Definition numericEntries (entries : list entry) : Prop :=
  Forall (fun e => exists n, eValue e = VNum n) entries.

(** ** Valid indexes *)

(** The number an entry has as its value. *)
Definition keyOf (e : entry) : Z :=
  match eValue e with VNum n => n | _ => 0 end.

(** The sum of the sizes of the entries. *)
Definition sizes (es : list entry) : Z := foldr (fun e s => eSize e + s) 0 es.

(** Each subtotal is the sum of the sizes up to its entry, [s] being the sum
    before the first entry. *)
Fixpoint subtotalsFrom (s : Z) (es : list entry) : Prop :=
  match es with
  | [] => True
  | e :: es' => eSubtotal e = s + eSize e /\ subtotalsFrom (s + eSize e) es'
  end.

(** A level of an index of [depth] columns on integers, as [validateIndex]
    wants it: values in strictly increasing order, subtotals that are the
    running sums of the sizes, a total that is their sum, and under each
    entry its rows, as many as its size, or a level of the next column with
    at least one entry and at most as many as the size. *)
Fixpoint validLevel (depth : nat) (es : list entry) (total : Z) : Prop :=
  numericEntries es
  /\ StronglySorted (fun a b => keyOf a < keyOf b) es
  /\ subtotalsFrom 0 es
  /\ total = sizes es
  /\ Forall (fun e =>
       match depth with
       | S (S _ as depth') =>
           match eData e with
           | SubIndex sub t =>
               validLevel depth' sub t /\ sub <> []
               /\ Z.of_nat (length sub) <= eSize e
           | RowData _ => False
           end
       | _ =>
           match eData e with
           | RowData rs => rs <> [] /\ Z.of_nat (length rs) = eSize e
           | SubIndex _ _ => False
           end
       end) es.

Definition validIndex (ix : Index) : Prop :=
  columns ix <> []
  /\ validLevel (length (columns ix)) (index ix) (indexTotal ix).

(** ** The rows of an entry *)

(** The rows under an entry of the last column. *)
Definition entryRows (e : entry) : list row :=
  match eData e with RowData rs => rs | SubIndex _ _ => [] end.

(** An answer of an [include] function that keeps the value. *)
Definition accepted (r : result value) : bool :=
  match r with Ok v => truthy v | Err _ => false end.

(** ** Rows of integers *)

(** The number a row has in the column [c]. *)
Definition rowKey (c : string) (r : row) : Z :=
  match cell r c with VNum n => n | _ => 0 end.

(** The row has integers in the columns [names]. *)
Definition numericRow (names : list string) (r : row) : Prop :=
  Forall (fun c => exists n, cell r c = VNum n) names.

(** An entry of [buildShallowIndex] as an entry of the last column. *)
Definition leafOf (sh : shallowEntry) : entry :=
  Entry (shValue sh) (shSize sh) (shSubtotal sh) (RowData (shData sh)).

(** [done] holds entries whose subtotals are the running sums of their
    sizes, the last entry first. *)
Fixpoint subtotalsRev (done : list entry) : Prop :=
  match done with
  | [] => True
  | e :: done' =>
      eSubtotal e = from_option eSubtotal 0 (head done') + eSize e
      /\ subtotalsRev done'
  end.

(** The entries [buildShallowIndex] has pushed so far, last one first,
    over rows that satisfy [Q]. *)
Definition goodShallow (Q : row -> Prop) (acc : list shallowEntry) : Prop :=
  numericEntries (leafOf <$> acc)
  /\ StronglySorted (fun a b => keyOf b < keyOf a) (leafOf <$> acc)
  /\ subtotalsRev (leafOf <$> acc)
  /\ Forall (fun sh => shData sh <> []
                       /\ Z.of_nat (length (shData sh)) = shSize sh
                       /\ Forall Q (shData sh)) acc.

(** Entries with the same value, size and subtotal. *)
Definition sameHeader (a b : entry) : Prop :=
  eValue a = eValue b /\ eSize a = eSize b /\ eSubtotal a = eSubtotal b.

(** ** The walk of [mergeIndex] *)

(** What [validLevel] asks of one entry of an index of [depth] columns. *)
Definition validEntry (depth : nat) (e : entry) : Prop :=
  match depth with
  | S (S _ as depth') =>
      match eData e with
      | SubIndex sub t =>
          validLevel depth' sub t /\ sub <> []
          /\ Z.of_nat (length sub) <= eSize e
      | RowData _ => False
      end
  | _ =>
      match eData e with
      | RowData rs => rs <> [] /\ Z.of_nat (length rs) = eSize e
      | SubIndex _ _ => False
      end
  end.

(** What the walk has behind it: the merged entries [done], last one
    first, with [sL] rows from the left side and [sR] from the right side,
    [prevR] being the last right entry passed. *)
Definition walked (depth : nat) (done : list entry) (prevR : option entry) (sL sR : Z) : Prop :=
  numericEntries done /\ Forall (validEntry depth) done
  /\ StronglySorted (fun a b => keyOf b < keyOf a) done
  /\ subtotalsRev done
  /\ from_option eSubtotal 0 (head done) = sL + sR
  /\ from_option eSubtotal 0 prevR = sR.

(** What the walk has before it on one side. *)
Definition ahead (depth : nat) (done : list entry) (es : list entry) (s : Z) : Prop :=
  numericEntries es /\ Forall (validEntry depth) es
  /\ StronglySorted (fun a b => keyOf a < keyOf b) es
  /\ subtotalsFrom s es
  /\ (forall y, head done = Some y -> Forall (fun e => keyOf y < keyOf e) es).

Definition merged (depth : nat) (res : list entry) (total : Z) (bound : nat) : Prop :=
  numericEntries res /\ Forall (validEntry depth) res
  /\ StronglySorted (fun a b => keyOf a < keyOf b) res
  /\ subtotalsFrom 0 res /\ sizes res = total
  /\ (length res <= bound)%nat.

(** ** Tables of integers *)

(** From a table that satisfies [P], the method [m] returns a value and
    leaves a table that satisfy [Q], or throws and leaves a table that
    satisfies [E]. *)
Definition hoare {A} (P : Table -> Prop) (m : op A)
    (Q : A -> Table -> Prop) (E : Table -> Prop) : Prop :=
  forall t, P t ->
    match m t with
    | (t', Ok a) => Q a t'
    | (t', Err _) => E t'
    end.

(** The rows of a table of integers. *)
Definition numericRows (cols : list string) (rs : rowArray) : Prop :=
  exists l, rs = Some <$> l /\ Forall (numericRow cols) l.

(** A table of integers: its rows have integers in every column, and its
    indexes are valid and on columns of the table. *)
Definition numericTable (cols : list string) (t : Table) : Prop :=
  columnNames t = cols
  /\ numericRows cols (rows t)
  /\ Forall (fun ix => validIndex ix /\ columns ix ⊆ cols) (indicies t).

(** The tables made by a program that creates indexes and inserts rows
    of integers. *)
Inductive numericHistory : Table -> Prop :=
| history_new (id : nat) (names : list string) (t : Table) :
    newTable id names = Ok t -> numericHistory t
| history_index (t : Table) (names : list string) :
    numericHistory t -> numericHistory (indexOn names t).1
| history_insert (t : Table) (rows : rowsArg) :
    numericHistory t ->
    (forall r, Some r ∈ toArray rows -> numericRow (columnNames t) r) ->
    numericHistory (insert rows t).1
| history_validate (t : Table) :
    numericHistory t -> numericHistory (tableValidateIndex t).1
| history_paranoia (t : Table) (enable : value) :
    numericHistory t -> numericHistory (paranoiaSet enable t).1
| history_verbose (t : Table) (enable : value) :
    numericHistory t -> numericHistory (verboseSet enable t).1
| history_drop (t : Table) :
    numericHistory t -> numericHistory (tableDrop t).1.

(** ** The rows [insert] stores *)

(** The rows [insert] stores for a batch: the clone of each row with a new
    [$], the closures being numbered from [h]. *)
Fixpoint canonicalRows (cols : list string) (tid h : nat) (rs : list row)
    : list row :=
  match rs with
  | [] => []
  | r :: rs' =>
      Row (cloneCells cols r) (DHandle tid h) :: canonicalRows cols tid (S h) rs'
  end.

(** The closures [insert] makes for a batch, the first row going to the
    position [index] of the row vector. *)
Fixpoint newClosures (cols : list string) (index : nat) (rs : list row)
    : list closure :=
  match rs with
  | [] => []
  | r :: rs' => Closure index (cloneCells cols r) :: newClosures cols (S index) rs'
  end.

(** The table after the [collect] of [insert] on the batch [rs]. *)
Definition withRows (t : Table) (rs : list row) : Table :=
  setRows
    (setClosures t
       (closures t ++ newClosures (columnNames t) (length (rows t)) rs))
    (rows t ++ (Some <$> canonicalRows (columnNames t) (id t)
                            (length (closures t)) rs)).

(** ** The table after [update] *)

(** The table after [update] has stored the row [r], whose closure is the
    closure [h], holding [c]. *)
Definition withUpdate (t : Table) (r : row) (h : nat) (c : closure) : Table :=
  setRows
    (setClosures t
       (<[h := Closure (clIndex c) (cloneCells (columnNames t) r)]> (closures t)))
    (arraySet (rows t) (clIndex c) (Some (clone (columnNames t) r))).

(** ** Costs and errors *)

(** What a criterion adds to the cost of testing one row. *)
Definition extraCost (c : criterion) : Z :=
  match criterionTest c with
  | Compare _ _ => 0
  | Between _ => 1
  | In (SetOf array | ArrayOf array) => Z.of_nat (length array) - 1
  | In _ => 0
  end.

(** The spec's single-row evaluation cost of a criterion: base 1, to which
    [between] adds 1 and [in] adds the number of its elements less 1. *)
Definition singleRowCost (c : criterion) : Z := 1 + extraCost c.

(** The operand of every [in] is an array or a set, which has elements to
    count. *)
Definition countedIn (c : criterion) : Prop :=
  match criterionTest c with
  | In (Scalar _ | Range _ _) => False
  | _ => True
  end.

(** What [getRows] does with the access path [d] it selected: [reduce],
    then the criteria the path left unused, then the clones. *)
Definition runPlan (t : Table) (d : descriptor) : result (list row) :=
  matchedRows ← reduceOf d ();
  matchedRows ← applyUnused (criteriaUnused d) matchedRows;
  mapM (cloneArg (columnNames t)) matchedRows.

(** The error of [checkTableIdentity]. *)
Definition foreignRow : error :=
  Error "A row was passed that does not belong to this table.".

(** ** The rows an index holds *)

(** The rows below an entry of an index of [depth] columns, and below the
    entries of a level, in the order of the index. *)
Fixpoint levelRows (depth : nat) (es : list entry) : list row :=
  es ≫= fun e =>
    match depth with
    | S (S _ as depth') =>
        match eData e with
        | SubIndex sub _ => levelRows depth' sub
        | RowData _ => []
        end
    | _ => match eData e with RowData rs => rs | SubIndex _ _ => [] end
    end.

Definition belowEntry (depth : nat) (e : entry) : list row :=
  match depth with
  | S (S _ as depth') =>
      match eData e with
      | SubIndex sub _ => levelRows depth' sub
      | RowData _ => []
      end
  | _ => match eData e with RowData rs => rs | SubIndex _ _ => [] end
  end.

(** The rows an index holds. *)
Definition indexRows (ix : Index) : list row :=
  levelRows (length (columns ix)) (index ix).

(** The entries below an entry that is not of the last column. *)
Definition subEntries (e : entry) : list entry :=
  match eData e with SubIndex sub _ => sub | RowData _ => [] end.

(** At every level of an index on the columns [cols], every row below an
    entry has the value of the entry in the column of the level, and the
    size of the entry is the number of the rows below it. *)
Fixpoint exactLevel (cols : list string) (es : list entry) : Prop :=
  match cols with
  | [] => True
  | c :: rest =>
      Forall (fun e =>
                Forall (fun r => cell r c = eValue e)
                  (belowEntry (length cols) e)
                /\ eSize e = Z.of_nat (length (belowEntry (length cols) e))
                /\ exactLevel rest (subEntries e)) es
  end.

Definition exactIndex (ix : Index) : Prop :=
  exactLevel (columns ix) (index ix).

(** ** Rows without one row *)

(** The rows that do not carry the [$] of [r]. *)
Definition otherThan (r : row) (l : list row) : list row :=
  filter (fun x => rowDollar x <> rowDollar r) l.

(** ** Tables whose indexes hold their rows *)

(** What an index of a table of the rows [l] is to be: valid, on different
    columns of the table, exact, and holding the rows of the table. *)
Definition faithfulIndex (cols : list string) (l : list row) (ix : Index)
    : Prop :=
  validIndex ix /\ columns ix ⊆ cols /\ NoDup (columns ix)
  /\ exactIndex ix /\ indexRows ix ≡ₚ l.

(** [s] is the row the table stores at the position [i]: its [$] is a
    closure of the table that holds the position and the cells of the row,
    which are cells of the columns of the table. *)
Definition storedRow (t : Table) (i : nat) (s : row) : Prop :=
  exists h, rowDollar s = DHandle (id t) h
    /\ closures t !! h = Some (Closure i (cells s))
    /\ cells s = cloneCells (columnNames t) s.

(** A live table of the rows [l], which are rows of integers that the
    closures of the table describe, with faithful indexes. *)
Definition indexedTable (l : list row) (t : Table) : Prop :=
  active t = true /\ rows t = Some <$> l
  /\ Forall (numericRow (columnNames t)) l
  /\ (forall i s, l !! i = Some s -> storedRow t i s)
  /\ NoDup (rowDollar <$> l)
  /\ Forall (faithfulIndex (columnNames t) l) (indicies t).

(** The tables made by a program that creates indexes, inserts rows of
    integers that carry no [$], and removes rows of the table one at a
    time. *)
Inductive editHistory : Table -> Prop :=
| edits_new (id : nat) (names : list string) (t : Table) :
    newTable id names = Ok t -> editHistory t
| edits_index (t : Table) (names : list string) :
    editHistory t -> editHistory (indexOn names t).1
| edits_insert (t : Table) (rows : rowsArg) (rs : list row) :
    editHistory t ->
    toArray rows = Some <$> rs ->
    Forall (fun r => dollarTruthy (rowDollar r) = false) rs ->
    Forall (numericRow (columnNames t)) rs ->
    editHistory (insert rows t).1
| edits_remove (t : Table) (r s : row) :
    editHistory t ->
    Some s ∈ rows t -> rowDollar r = rowDollar s ->
    editHistory (remove (ArgArray [Some r]) t).1
| edits_validate (t : Table) :
    editHistory t -> editHistory (tableValidateIndex t).1
| edits_paranoia (t : Table) (enable : value) :
    editHistory t -> editHistory (paranoiaSet enable t).1
| edits_verbose (t : Table) (enable : value) :
    editHistory t -> editHistory (verboseSet enable t).1.

(** ** Further examples *)

(** An index on the column [a] with the entries [entriesOdd]. *)
Definition indexOdd : Index := mkIndex ["a"] "[a]" entriesOdd 3.

(** [new DataTable(["a", "b"])] after [index(["a"])] and the insertion of
    two rows. *)
Definition tableIndexedA : Table :=
  Eval vm_compute in
    ((_ ← indexOn ["a"];
      insert (ArgArray [Some (rowOf [("a", VNum 1); ("b", VNum 2)]);
                        Some (rowOf [("a", VNum 3); ("b", VNum 4)])]))
       (mkTable [] [] ["a"; "b"] false false true 0 [] [])).1.

(** The criteria of [findWhere("a", "==", 1).and("b", "in", [2, 4])], and
    an estimate that answers 4 for every index. *)
Definition criteriaAB : list criterion :=
  [Criterion "a" (Compare OpEq (VNum 1));
   Criterion "b" (In (ArrayOf [VNum 2; VNum 4]))].
Definition estimateFour (ix : Index) (criteria : list criterion) : num :=
  Some 4.

(** An estimate that knows nothing. *)
Definition noEstimate (ix : Index) (criteria : list criterion) : num := None.

(** * Properties *)

(** ** Methods of a live and of a dropped table *)

Lemma op_bind_unfold {A B} (m : op A) (k : A -> op B) (t : Table) :
  (m ≫= k) t
  = match m t with
    | (t', Ok a) => k a t'
    | (t', Err e) => (t', Err e)
    end.
Proof. reflexivity. Qed.

Lemma checkActive_live {A} (k : () -> op A) (t : Table) :
  active t = true -> (checkActive ≫= k) t = k () t.
Proof.
  intros H. rewrite op_bind_unfold. unfold checkActive. rewrite H. reflexivity.
Qed.

Lemma checkActive_dropped {A} (k : () -> op A) (t : Table) :
  active t = false -> (checkActive ≫= k) t = (t, Err dropped).
Proof.
  intros H. rewrite op_bind_unfold. unfold checkActive. rewrite H. reflexivity.
Qed.

(** ** The example tables are what the constructor builds *)

Lemma newTable_tableA : newTable 0 ["a"] = Ok tableA.
Proof. reflexivity. Qed.

Lemma newTable_tableC : newTable 0 ["c"] = Ok tableC.
Proof. reflexivity. Qed.

Lemma newTable_tableLength : newTable 0 ["length"] = Ok tableLength.
Proof. reflexivity. Qed.

(** ** The comparator *)

Lemma Comparator_equal (l r : value) : looseEq l r = true -> Comparator l r = 0.
Proof. unfold Comparator. intros ->. reflexivity. Qed.

Lemma Comparator_absent_left (l r : value) :
  absent l = true -> absent r = false -> Comparator l r = 1.
Proof. destruct l, r; try discriminate; reflexivity. Qed.

Lemma Comparator_undefined_right (l : value) :
  absent l = false -> Comparator l VUndefined = -1.
Proof.
  destruct l as [| |b|n|s]; try discriminate; intros _;
    unfold Comparator, looseEq, jsGt, jsLt; simpl; reflexivity.
Qed.

(** C2: for a defined left value and a [null] right value the comparator
    does not return -1: [DataTable.Comparator(5, null)] is 1, the same
    answer as for [DataTable.Comparator(null, 5)]. *)
Theorem Comparator_defined_null :
  absent (VNum 5) = false /\ absent VNull = true /\
  Comparator (VNum 5) VNull = 1 /\ Comparator VNull (VNum 5) = 1.
Proof. repeat split. Qed.

(** ** Structural integrity *)

(** C1: after [index(["a"])], [insert([{a: 5}])] and [insert([{}])] on a new
    table, [validateIndex] throws: the entry of 5 comes first and carries the
    subtotal 2. *)
Theorem validateIndex_fails_after_insert :
  (insertAbsentAfterDefined tableA).2 = Err (Error "Subtotal was not correct")
  /\ (fun ix => (eValue <$> index ix, eSubtotal <$> index ix))
       <$> indicies (insertAbsentAfterDefined tableA).1
     = [([VNum 5; VUndefined], [2; 1])].
Proof. split; vm_compute; reflexivity. Qed.

(** ** Binary search *)

Section BinarySearchSpec.
Context {E V : Type}.
Variable truthyElement : E -> bool.
Variable comparator : E -> V -> Z.
Variable seq : list E.
Variable v : V.

Variable cmpE : E -> E -> Z.

Let len := Z.of_nat (length seq).

Lemma at_Some (i : Z) (e : E) :
  at_ seq i = Some e <-> 0 <= i /\ seq !! Z.to_nat i = Some e.
Proof.
  unfold at_. destruct (Z.ltb_spec i 0); split; try (intros [? ?]); try lia;
    try discriminate; auto.
Qed.

Lemma at_in_range (i : Z) : 0 <= i < len -> exists e, at_ seq i = Some e.
Proof.
  intros Hi. destruct (lookup_lt_is_Some_2 seq (Z.to_nat i)) as [e He].
  { subst len. lia. }
  exists e. apply at_Some. split; [lia | exact He].
Qed.

Lemma at_out_of_range (i : Z) : len <= i -> at_ seq i = None.
Proof.
  intros Hi. unfold at_. destruct (Z.ltb_spec i 0); [reflexivity|].
  apply lookup_ge_None_2. subst len. lia.
Qed.

Lemma searchLoop_splits (fuel : nat) : partitioned comparator seq v ->
  forall l r : Z, -1 <= l < r -> r <= len ->
    (Z.to_nat (r - l) <= fuel)%nat ->
    (forall i e, i <= l -> at_ seq i = Some e -> comparator e v < 0) ->
    (forall i e, r <= i -> at_ seq i = Some e -> ~ comparator e v < 0) ->
    exists p, searchLoop comparator fuel seq v l r = Ok p /\ splitsAt comparator seq v p.
Proof.
  intros Hpart. induction fuel as [|fuel IH]; intros l r Hlr Hr Hfuel Hlow Hhigh.
  - lia.
  - simpl. destruct (Z.gtb_spec (r - l) 1) as [Hgt|Hle].
    + set (m := Z.shiftr (r + l) 1).
      assert (Hm : l < m < r).
      { subst m. rewrite Z.shiftr_div_pow2 by lia.
        change (2 ^ 1) with 2. Z.to_euclidean_division_equations. lia. }
      destruct (at_in_range m) as [e He]; [lia|]. rewrite He.
      destruct (Z.ltb_spec (comparator e v) 0) as [Hlt|Hge].
      * apply IH; try lia; [|exact Hhigh].
        intros i e' Hi He'. apply at_Some in He as [? He], He' as [? He'].
        apply (Hpart (Z.to_nat i) (Z.to_nat m) e' e); auto. lia.
      * apply IH; try lia; [exact Hlow|].
        intros i e' Hi He' Hlt. apply at_Some in He as [? He], He' as [? He'].
        assert (comparator e v < 0); [|lia].
        apply (Hpart (Z.to_nat m) (Z.to_nat i) e e'); auto. lia.
    + exists r. split; [reflexivity|]. split; [lia|]. split; [|exact Hhigh].
      intros i e Hi. apply Hlow. lia.
Qed.

Lemma searchLoop_default : partitioned comparator seq v ->
  exists p, searchLoop comparator (Z.to_nat (len - -1)) seq v (-1) len = Ok p
            /\ splitsAt comparator seq v p.
Proof.
  intros Hpart. apply searchLoop_splits; auto; try lia.
  - intros i e Hi He. apply at_Some in He. lia.
  - intros i e Hi He. rewrite at_out_of_range in He by lia. discriminate.
Qed.

Lemma filter_all (P : E -> Prop) `{!forall x, Decision (P x)} (l : list E) :
  Forall P l -> filter P l = l.
Proof.
  induction 1 as [|x l Hx _ IH]; [reflexivity|].
  rewrite filter_cons_True by exact Hx. f_equal. exact IH.
Qed.

Lemma filter_none (P : E -> Prop) `{!forall x, Decision (P x)} (l : list E) :
  Forall (fun x => ~ P x) l -> filter P l = [].
Proof.
  induction 1 as [|x l Hx _ IH]; [reflexivity|].
  rewrite filter_cons_False by exact Hx. exact IH.
Qed.

(** The split point is the number of elements below [v]. *)
Lemma splitsAt_count (p : Z) :
  splitsAt comparator seq v p -> p = countBelow comparator seq v.
Proof.
  intros (Hp & Hlow & Hhigh). unfold countBelow.
  rewrite <- (take_drop (Z.to_nat p) seq) at 1.
  rewrite filter_app, length_app.
  rewrite filter_all, filter_none.
  - rewrite length_take. subst len. simpl. lia.
  - apply Forall_lookup. intros i e He. rewrite lookup_drop in He.
    apply (Hhigh (Z.of_nat (Z.to_nat p + i))); [lia|].
    apply at_Some. split; [lia|]. rewrite Nat2Z.id. exact He.
  - apply Forall_lookup. intros i e He.
    apply lookup_take_Some in He as [He Hi].
    apply (Hlow (Z.of_nat i)); [lia|].
    apply at_Some. split; [lia|]. rewrite Nat2Z.id. exact He.
Qed.

Lemma sorted_partitioned :
  strictlySorted seq cmpE -> consistent comparator seq v cmpE ->
  partitioned comparator seq v.
Proof.
  intros Hs Hc i j a b Hij Ha Hb Hlt.
  destruct (decide (i = j)) as [->|Hne].
  - congruence.
  - apply (Hc a b); [by eapply list_elem_of_lookup_2..| |lia].
    apply (Hs i j); auto. lia.
Qed.

Lemma clampResult_exact (p : Z) :
  0 <= p < len -> clampResult (ofInt p) len = ofInt p.
Proof.
  intros Hp. unfold clampResult, hltb, ofInt. simpl.
  destruct (Z.ltb_spec (2 * p) (2 * 0)); [lia|].
  destruct (Z.ltb_spec (2 * (len - 1)) (2 * p)); [lia|]. reflexivity.
Qed.

Lemma clampResult_between (p : Z) :
  0 <= p <= len -> clampResult (minusHalf p) len = insertionPoint seq p.
Proof.
  intros Hp. unfold clampResult, insertionPoint, hltb, ofInt, minusHalf.
  fold len. simpl.
  destruct (Z.ltb_spec (2 * p - 1) (2 * 0)), (Z.eqb_spec p 0); try lia;
    [reflexivity|].
  destruct (Z.ltb_spec (2 * (len - 1)) (2 * p - 1)), (Z.eqb_spec p len);
    try lia; reflexivity.
Qed.

(** C5, amended: on a sequence of truthy elements (as the entries of an
    index are) that is strictly sorted under a comparator which orders the
    elements against the value as it orders them among themselves, the
    binary search with the default bounds returns the index of the element
    that compares equal to the value when there is one, and otherwise the
    insertion point [r - 0.5], where [r] is the number of elements below
    the value, clamped to [[-1, uBound]]: -1 when [r = 0] and [uBound] when
    [r = uBound]. *)
Theorem binarySearch_sorted :
  strictlySorted seq cmpE -> consistent comparator seq v cmpE ->
  Forall (fun e => truthyElement e = true) seq ->
  (forall (i : nat) (e : E), seq !! i = Some e -> comparator e v = 0 ->
     binarySearch truthyElement comparator seq v None None
     = Ok (ofInt (Z.of_nat i)))
  /\ ((forall e, e ∈ seq -> comparator e v <> 0) ->
      binarySearch truthyElement comparator seq v None None
      = Ok (insertionPoint seq (countBelow comparator seq v)))
  /\ (exists h, binarySearch truthyElement comparator seq v None None = Ok h
                /\ twice (ofInt (-1)) <= twice h <= twice (ofInt len)).
Proof.
  intros Hs Hc Htruthy.
  destruct (searchLoop_default (sorted_partitioned Hs Hc)) as (p & Hloop & Hp).
  pose proof (splitsAt_count p Hp) as Hcount.
  destruct Hp as (Hrange & Hlow & Hhigh).
  unfold binarySearch. simpl. fold len. rewrite Hloop. simpl.
  split; [|split].
  - intros i e He He0.
    assert (Hi : Z.of_nat i < len).
    { apply lookup_lt_Some in He. subst len. lia. }
    assert (p = Z.of_nat i) as ->.
    { destruct (Z.lt_trichotomy p (Z.of_nat i)) as [Hlt|[Heq|Hgt]]; [|exact Heq|].
      - destruct (at_in_range p) as [e' He']; [lia|].
        exfalso. apply (Hhigh p e'); [lia|exact He'|].
        apply at_Some in He' as [_ He'].
        apply (Hc e' e); [by eapply list_elem_of_lookup_2..| |lia].
        apply (Hs (Z.to_nat p) i); auto. lia.
      - assert (comparator e v < 0); [|lia].
        apply (Hlow (Z.of_nat i)); [lia|].
        apply at_Some. split; [lia|]. rewrite Nat2Z.id. exact He. }
    assert (at_ seq (Z.of_nat i) = Some e) as ->.
    { apply at_Some. split; [lia|]. rewrite Nat2Z.id. exact He. }
    rewrite He0.
    rewrite (proj1 (Forall_forall _ _) Htruthy e)
      by (eapply list_elem_of_lookup_2; exact He).
    simpl. f_equal. apply clampResult_exact. lia.
  - intros Hne. rewrite <- Hcount. f_equal.
    destruct (at_ seq p) as [e|] eqn:He.
    + apply at_Some in He as [_ He].
      destruct (Z.eqb_spec (comparator e v) 0) as [H0|_].
      * exfalso. apply (Hne e); [by eapply list_elem_of_lookup_2|exact H0].
      * rewrite andb_false_r. apply clampResult_between. lia.
    + apply clampResult_between. lia.
  - eexists. split; [reflexivity|].
    destruct (at_ seq p) as [e|] eqn:He.
    + assert (p < len).
      { apply at_Some in He as [_ He]. apply lookup_lt_Some in He.
        subst len. lia. }
      destruct (truthyElement e && (comparator e v =? 0)).
      * rewrite clampResult_exact by lia. simpl. lia.
      * rewrite clampResult_between by lia. unfold insertionPoint.
        fold len. destruct (Z.eqb_spec p 0), (Z.eqb_spec p len); simpl; lia.
    + rewrite clampResult_between by lia. unfold insertionPoint.
      fold len. destruct (Z.eqb_spec p 0), (Z.eqb_spec p len); simpl; lia.
Qed.
End BinarySearchSpec.

Lemma entriesOdd_sorted : strictlySorted entriesOdd pluckValue.
Proof.
  intros i j a b Hij Ha Hb.
  destruct i as [|[|[|i]]], j as [|[|[|j]]]; simpl in *;
    try lia; try discriminate; simplify_eq; reflexivity.
Qed.

(** On numbers the comparator is the order of the integers. *)
Lemma Comparator_num (a b : Z) :
  Comparator (VNum a) (VNum b)
  = match a ?= b with Eq => 0 | Lt => -1 | Gt => 1 end.
Proof.
  unfold Comparator, looseEq, jsGt, jsLt. simpl.
  destruct (Z.eqb_spec a b) as [->|Hne].
  - rewrite Z.compare_refl. reflexivity.
  - destruct (Z.ltb_spec b a), (Z.compare_spec a b); try lia; reflexivity.
Qed.

(** Entries with numeric values are ordered among themselves as they are
    against a number. *)
Lemma numeric_consistent (seq : list entry) (m : Z) :
  Forall (fun e => exists n, eValue e = VNum n) seq ->
  consistent compareValues seq (VNum m) pluckValue.
Proof.
  intros Hnum a b Ha Hb.
  destruct (proj1 (Forall_forall _ _) Hnum a Ha) as [x Hx].
  destruct (proj1 (Forall_forall _ _) Hnum b Hb) as [y Hy].
  unfold pluckValue, compareValues. rewrite Hx, Hy, !Comparator_num.
  destruct (Z.compare_spec x y), (Z.compare_spec y m), (Z.compare_spec x m);
    lia.
Qed.

Lemma entriesOdd_consistent :
  consistent compareValues entriesOdd (VNum 4) pluckValue.
Proof.
  apply numeric_consistent. repeat constructor; eexists; reflexivity.
Qed.

Lemma entriesOdd_truthy : Forall (fun _ : entry => true = true) entriesOdd.
Proof. repeat constructor. Qed.

Lemma binarySearch_sorted_witness :
  strictlySorted entriesOdd pluckValue /\
  consistent compareValues entriesOdd (VNum 4) pluckValue /\
  Forall (fun _ : entry => true = true) entriesOdd /\
  binarySearch (fun _ => true) compareValues entriesOdd (VNum 4) None None
  = Ok (minusHalf 2).
Proof.
  split; [exact entriesOdd_sorted|]. split; [exact entriesOdd_consistent|].
  split; [exact entriesOdd_truthy|].
  destruct (binarySearch_sorted (fun _ => true) compareValues entriesOdd
              (VNum 4) pluckValue entriesOdd_sorted entriesOdd_consistent
              entriesOdd_truthy) as (_ & Hnone & _).
  rewrite Hnone; [reflexivity|].
  intros e He. unfold entriesOdd in He.
  repeat (apply elem_of_cons in He as [->|He]); [..|by apply elem_of_nil in He];
    discriminate.
Defined.

(** C5, as stated, fails in two ways.  The search tests whether [seq[r]] is
    truthy, not whether it exists: in [[0, 1]] the element 0 compares equal
    to 0 and the search answers -1.  And a sequence can be strictly sorted
    under the comparator while the comparator orders its elements otherwise
    against the value: [["10", "9"]] is sorted as strings, ["9"] compares
    equal to the number 9, and the search, which compares ["10"] with 9 as
    numbers, answers -1. *)
Lemma binarySearch_falsy_or_inconsistent :
  (strictlySorted [VNum 0; VNum 1] Comparator
   /\ [VNum 0; VNum 1] !! 0%nat = Some (VNum 0)
   /\ Comparator (VNum 0) (VNum 0) = 0
   /\ binarySearch truthy Comparator [VNum 0; VNum 1] (VNum 0) None None
      = Ok (ofInt (-1)))
  /\ (strictlySorted [VStr "10"; VStr "9"] Comparator
      /\ Forall (fun e => truthy e = true) [VStr "10"; VStr "9"]
      /\ [VStr "10"; VStr "9"] !! 1%nat = Some (VStr "9")
      /\ Comparator (VStr "9") (VNum 9) = 0
      /\ binarySearch truthy Comparator [VStr "10"; VStr "9"] (VNum 9) None None
         = Ok (ofInt (-1))).
Proof.
  assert (Hsorted : forall a b : value, Comparator a b < 0 ->
            strictlySorted [a; b] Comparator).
  { intros a b Hab i j x y Hij Hx Hy.
    destruct i as [|[|i]], j as [|[|j]]; simpl in *;
      try lia; try discriminate; simplify_eq; exact Hab. }
  split.
  - split; [apply Hsorted; reflexivity|]. repeat split.
  - split; [apply Hsorted; reflexivity|]. split; [repeat constructor|].
    repeat split.
Qed.

(** ** The planner *)

Section PlannerSpec.
Ltac num_cases :=
  unfold pick, numGt in *;
  repeat match goal with
         | |- context [cost ?d] =>
             let x := fresh "x" in set (x := cost d) in *; clearbody x; destruct x
         | H : context [cost ?d] |- _ =>
             let x := fresh "x" in set (x := cost d) in *; clearbody x; destruct x
         end;
  repeat match goal with
         | H : context [?x >? ?y] |- _ => destruct (Z.gtb_spec x y)
         | |- context [?x >? ?y] => destruct (Z.gtb_spec x y)
         end;
  simplify_eq; try congruence; try lia; try (intro; simplify_eq; lia).

Lemma foldl_pick (cs : list descriptor) : forall init : descriptor,
  let best := foldl pick init cs in
  (forall c, c ∈ init :: cs -> numGt (cost best) (cost c) = false)
  /\ (exists k : nat, (init :: cs) !! k = Some best
        /\ forall (j : nat) c, (j < k)%nat -> (init :: cs) !! j = Some c ->
             cost c <> cost best)
  /\ (best = init \/ numGt (cost init) (cost best) = true).
Proof.
  induction cs as [|c cs IH]; intros init best.
  - subst best. simpl. split; [|split].
    + intros c Hc. apply list_elem_of_singleton in Hc as ->.
      unfold numGt. destruct (cost init); [|reflexivity].
      destruct (Z.gtb_spec z z); [lia|reflexivity].
    + exists 0%nat. split; [reflexivity|]. intros j c Hj. lia.
    + left. reflexivity.
  - subst best. simpl.
    destruct (IH (pick init c)) as (Hmin & (k & Hk & Hear) & Hrep).
    set (best := foldl pick (pick init c) cs) in *.
    assert (Hinit : best = init \/ numGt (cost init) (cost best) = true).
    { clearbody best. destruct Hrep as [->|Hrep]; unfold pick in *;
        destruct (numGt (cost init) (cost c)) eqn:Hgt; auto;
        right; num_cases. }
    assert (Hc : numGt (cost best) (cost c) = false).
    { clearbody best.
      pose proof (Hmin (pick init c) ltac:(left)) as H0.
      unfold pick in H0. destruct (numGt (cost init) (cost c)) eqn:Hgt; auto.
      destruct Hinit as [->|Hinit]; auto. num_cases. }
    split; [|split; [|exact Hinit]].
    + intros d Hd. apply elem_of_cons in Hd as [->|Hd].
      * clearbody best. destruct Hinit as [->|Hinit]; num_cases.
      * apply elem_of_cons in Hd as [->|Hd]; [exact Hc|].
        apply Hmin. right. exact Hd.
    + clearbody best. unfold pick in Hk, Hear, Hrep.
      destruct (numGt (cost init) (cost c)) eqn:Hgt.
      * exists (S k). split; [exact Hk|].
        intros [|j] d Hj Hd; simpl in Hd.
        -- simplify_eq. destruct Hrep as [->|Hrep]; num_cases.
        -- apply (Hear j); [lia|exact Hd].
      * destruct k as [|k].
        -- exists 0%nat. split; [exact Hk|]. intros j d Hj. lia.
        -- exists (S (S k)). split; [exact Hk|].
           assert (Hne : cost init <> cost best).
           { apply (Hear 0%nat); [lia|reflexivity]. }
           intros [|[|j]] d Hj Hd; simpl in Hd.
           ++ simplify_eq. exact Hne.
           ++ simplify_eq. destruct Hinit as [->|Hinit]; [congruence|].
              num_cases.
           ++ apply (Hear (S j)); [lia|exact Hd].
Qed.

Variable estimate : Index -> list criterion -> num.

Lemma bestCase_foldl (t : Table) (criteria : list criterion) (single : num) :
  bestCase estimate t criteria single
  = foldl pick (worstCase t criteria single)
      ((fun ix => computeCost estimate ix criteria) <$> indicies t).
Proof.
  unfold bestCase. generalize (worstCase t criteria single).
  induction (indicies t) as [|ix ixs IH]; intros w; [reflexivity|].
  simpl. rewrite <- IH. reflexivity.
Qed.

Lemma foldl_cost (criteria : list criterion) : forall n : Z,
  Forall countedIn criteria ->
  foldl (fun cost c =>
           cost ← cost;
           match criterionTest c with
           | Between _ => Ok (numAdd cost (Some 1))
           | In v => len ← operandLength v;
                     Ok (numSub (numAdd cost len) (Some 1))
           | Compare _ _ => Ok cost
           end) (Ok (Some n)) criteria
  = Ok (Some (n + foldr (fun c s => extraCost c + s) 0 criteria)).
Proof.
  induction criteria as [|c criteria IH]; intros n Hall.
  - cbn. do 2 f_equal; lia.
  - apply Forall_cons in Hall as [Hc Hall]. unfold countedIn in Hc.
    cbn [foldl foldr].
    cbn [mbind result_bind]. unfold extraCost at 1.
    destruct (criterionTest c) as [o v|v|v].
    + rewrite IH by exact Hall. do 2 f_equal; lia.
    + cbn [numAdd mbind option_bind]. rewrite IH by exact Hall.
      do 2 f_equal; lia.
    + destruct v as [v|b e|array|array]; try contradiction;
        cbn [operandLength mbind result_bind numAdd numSub option_bind];
        rewrite IH by exact Hall; do 2 f_equal; try lia.
Qed.

(** C4: whatever the cost of testing one row is, the full scan is seeded
    with the number of rows times that cost, and the access path that the
    fold of [getRows] selects never costs more: no candidate costs strictly
    less than it; every candidate seeded before it has another cost, so on
    a tie the earlier one is kept; and the full scan, seeded first, is only
    replaced by a plan that costs strictly less.  On a live table and
    criteria whose [in] operands are arrays or sets, the cost of testing
    one row is the sum of the single-row costs of the criteria, [getRows]
    runs the path selected for it, and the cost of that path is a number
    that is not above the number of rows times that sum. *)
Theorem planner_keeps_baseline (t : Table) (criteria : list criterion) :
  (forall single : num,
     let worst := worstCase t criteria single in
     let best := bestCase estimate t criteria single in
     let candidates :=
       worst :: ((fun ix => computeCost estimate ix criteria) <$> indicies t) in
     cost worst = numMul (Some (Z.of_nat (length (rows t)))) single
     /\ numGt (cost best) (cost worst) = false
     /\ (forall c, c ∈ candidates -> numGt (cost best) (cost c) = false)
     /\ (exists k : nat, candidates !! k = Some best
           /\ forall (j : nat) c, (j < k)%nat -> candidates !! j = Some c ->
                cost c <> cost best)
     /\ (best = worst \/ numGt (cost worst) (cost best) = true))
  /\ (active t = true -> Forall countedIn criteria ->
      let single := foldr (fun c s => singleRowCost c + s) 0 criteria in
      let baseline := Z.of_nat (length (rows t)) * single in
      let best := bestCase estimate t criteria (Some single) in
      calculateSingleRowCriteriaCost criteria = Ok (Some single)
      /\ queryGetRows estimate criteria t = (t, runPlan t best)
      /\ cost (worstCase t criteria (Some single)) = Some baseline
      /\ exists c, cost best = Some c /\ c <= baseline).
Proof.
  assert (Hfold : forall single : num,
    let worst := worstCase t criteria single in
    let best := bestCase estimate t criteria single in
    let candidates :=
      worst :: ((fun ix => computeCost estimate ix criteria) <$> indicies t) in
    (forall c, c ∈ candidates -> numGt (cost best) (cost c) = false)
    /\ (exists k : nat, candidates !! k = Some best
          /\ forall (j : nat) c, (j < k)%nat -> candidates !! j = Some c ->
               cost c <> cost best)
    /\ (best = worst \/ numGt (cost worst) (cost best) = true)).
  { intros single worst best candidates. subst best candidates.
    rewrite bestCase_foldl. fold worst.
    apply (foldl_pick ((fun ix => computeCost estimate ix criteria)
                         <$> indicies t) worst). }
  split.
  { intros single worst best candidates.
    destruct (Hfold single) as (Hmin & Hk & Hrep).
    split; [reflexivity|]. split; [apply Hmin; left|]. auto. }
  intros Hlive Hin single baseline best.
  assert (Hsingle : calculateSingleRowCriteriaCost criteria = Ok (Some single)).
  { unfold calculateSingleRowCriteriaCost. rewrite foldl_cost by exact Hin.
    do 2 f_equal. subst single. unfold singleRowCost. clear.
    induction criteria as [|c criteria IH]; [reflexivity|].
    cbn [length foldr]. rewrite <- IH. lia. }
  split; [exact Hsingle|]. split.
  { unfold queryGetRows. rewrite checkActive_live by exact Hlive.
    rewrite !op_bind_unfold. cbn [get]. rewrite op_bind_unfold.
    unfold lift at 1. rewrite Hsingle. fold best. unfold runPlan.
    rewrite op_bind_unfold. unfold lift at 1.
    destruct (reduceOf best ()) as [matched|e]; [|reflexivity].
    cbn [mbind result_bind]. rewrite op_bind_unfold. unfold lift at 1.
    destruct (applyUnused (criteriaUnused best) matched); reflexivity. }
  split; [reflexivity|].
  destruct (Hfold (Some single)) as (_ & _ & Hrep). fold best in Hrep.
  destruct Hrep as [->|Hgt].
  - exists baseline. split; [reflexivity|lia].
  - change (cost (worstCase t criteria (Some single))) with (Some baseline)
      in Hgt.
    unfold numGt in Hgt.
    destruct (cost best) as [c|]; [|discriminate].
    exists c. split; [reflexivity|]. lia.
Qed.
End PlannerSpec.

Lemma planner_keeps_baseline_witness :
  active tableAB = true /\ Forall countedIn criteriaAB
  /\ calculateSingleRowCriteriaCost criteriaAB = Ok (Some 3)
  /\ cost (worstCase tableAB criteriaAB (Some 3)) = Some 6
  /\ cost (bestCase estimateFour tableAB criteriaAB (Some 3)) = Some 4
  /\ exists c, cost (bestCase estimateFour tableAB criteriaAB (Some 3)) = Some c
               /\ c <= 6.
Proof.
  assert (Hin : Forall countedIn criteriaAB) by (repeat constructor).
  pose proof (proj2 (planner_keeps_baseline estimateFour tableAB criteriaAB)
                eq_refl Hin) as H.
  cbv zeta in H. destruct H as (Hsingle & _ & Hworst & Hbest).
  split; [reflexivity|]. split; [exact Hin|]. split; [exact Hsingle|].
  split; [exact Hworst|]. split; [reflexivity|]. exact Hbest.
Defined.


(** ** The dropped table *)

(** Every method that starts with [self._.active()] fails on a dropped
    table and leaves it as it is. *)
Lemma dropped_methods_fail (t : Table) : active t = false ->
  getCount t = (t, Err dropped)
  /\ getRows t = (t, Err dropped)
  /\ (forall rows, insert rows t = (t, Err dropped))
  /\ (forall rows, update rows t = (t, Err dropped))
  /\ (forall rows, remove rows t = (t, Err dropped))
  /\ (forall name c, findWhere name c t = (t, Err dropped))
  /\ (forall q name c, and_ q name c t = (t, Err dropped))
  /\ (forall estimate q, queryGetRows estimate q t = (t, Err dropped))
  /\ (forall names, indexOn names t = (t, Err dropped))
  /\ tableValidateIndex t = (t, Err dropped)
  /\ getParanoia t = (t, Err dropped)
  /\ (forall b, paranoiaSet b t = (t, Err dropped))
  /\ getVerbose t = (t, Err dropped)
  /\ (forall b, verboseSet b t = (t, Err dropped))
  /\ tableDrop t = (t, Err dropped).
Proof.
  intros H. repeat split; intros; apply checkActive_dropped; exact H.
Qed.

(** C7: after [drop], [index()] without arguments does not fail: it returns
    the column lists of the indexes, because it returns before the table
    is asked whether it is active. *)
Theorem indexList_after_drop (t : Table) : active t = true ->
  (_ ← tableDrop; indexList) t
  = (setActive t false, Ok (columns <$> indicies t))
  /\ active (setActive t false) = false.
Proof.
  intros H. split; [|reflexivity].
  rewrite op_bind_unfold. unfold tableDrop. rewrite checkActive_live by exact H.
  reflexivity.
Qed.

Lemma indexList_after_drop_witness :
  active tableA = true /\
  (_ ← tableDrop; indexList) tableA = (setActive tableA false, Ok []).
Proof.
  split; [reflexivity|]. exact (proj1 (indexList_after_drop tableA eq_refl)).
Defined.

(** ** [between] on a full scan *)

(** A function made by [bind] with a context answers [undefined], so the
    filter keeps no row. *)
Lemma findAll_bind (f : value -> result value) (name : string)
    (matchedRows : rowArray) :
  (forall x, exists y, f x = Ok y) ->
  Forall is_Some matchedRows ->
  findAll (bind f false) name matchedRows = Ok [].
Proof.
  intros Hf. induction 1 as [|r rest [r' ->] _ IH]; [reflexivity|].
  change (findAll (bind f false) name (Some r' :: rest))
    with (keep ← bind f false (cell r' name);
          kept ← findAll (bind f false) name rest;
          Ok (if truthy keep then Some r' :: kept else kept)).
  rewrite IH.
  replace (bind f false (cell r' name)) with (Ok VUndefined : result value);
    [reflexivity|].
  unfold bind. destruct (Hf (cell r' name)) as [y ->]. reflexivity.
Qed.

(** Whatever the rows are, [between] answered by the full scan returns no
    row. *)
Lemma between_full_scan (estimate : Index -> list criterion -> num)
    (t : Table) (name : string) (a b : value) :
  active t = true -> indicies t = [] -> Forall is_Some (rows t) ->
  queryGetRows estimate [Criterion name (Between (Range a b))] t = (t, Ok []).
Proof.
  intros Hlive Hix Hrows. unfold queryGetRows.
  rewrite checkActive_live by exact Hlive.
  rewrite !op_bind_unfold. cbn -[bind findAll].
  unfold bestCase. rewrite Hix. cbn -[bind findAll].
  do 2 (rewrite op_bind_unfold; unfold lift at 1; cbn -[bind findAll]).
  rewrite findAll_bind; [reflexivity| |exact Hrows].
  intros x. eexists. reflexivity.
Qed.

(** C6: on a table without index that holds one row with [c = 5],
    [findWhere("c", "between", new Range(1, 10)).getRows()] returns no row,
    although the range includes 5; with an index on [c] that the planner
    selects, the same query returns the row. *)
Theorem between_full_scan_misses_rows
    (estimate : Index -> list criterion -> num) :
  (betweenQuery estimate tableC).2 = Ok []
  /\ rangeInclude (VNum 1) (VNum 10) (VNum 5) = Ok (VBool true)
  /\ rows (betweenQuery estimate tableC).1
     = [Some (Row {[ "c" := VNum 5 ]} (DHandle 0 0))]
  /\ (betweenQueryIndexed (fun _ _ => Some 0) tableC).2
     = Ok [Row {[ "c" := VNum 5 ]} (DHandle 0 0)].
Proof. repeat split; vm_compute; reflexivity. Qed.

(** ** Rows that already carry [$] *)

Definition isTypeError (e : error) : Prop := exists msg, e = TypeError msg.

Lemma mapM_TypeError {A B} (f : A -> result B) (l : list A) (x : A) :
  x ∈ l ->
  (forall y e, f y = Err e -> isTypeError e) ->
  (exists e, f x = Err e) ->
  exists msg, mapM f l = Err (TypeError msg).
Proof.
  intros Hx Hf [e0 He0]. induction l as [|y l IH]; [by apply elem_of_nil in Hx|].
  simpl. destruct (f y) as [b|e] eqn:Hy.
  - apply elem_of_cons in Hx as [->|Hx]; [congruence|].
    destruct (IH Hx) as [msg ->]. exists msg. reflexivity.
  - destruct (Hf y e Hy) as [msg ->]. exists msg. reflexivity.
Qed.

Lemma definedRows_None (rs : rowArray) :
  None ∈ rs -> exists msg, definedRows rs = Err (TypeError msg).
Proof.
  intros H. apply (mapM_TypeError _ rs None H).
  - intros [r|] e He; simplify_eq. eexists; reflexivity.
  - eexists; reflexivity.
Qed.

Lemma cloneArg_None (names : list string) (rs : rowArray) :
  None ∈ rs -> exists msg, mapM (cloneArg names) rs = Err (TypeError msg).
Proof.
  intros H. apply (mapM_TypeError _ rs None H).
  - intros [r|] e He; simpl in He; simplify_eq. eexists; reflexivity.
  - eexists; reflexivity.
Qed.

(** The [collect] of [insert] leaves the indexes and the flags alone; it
    throws a [TypeError] or leaves [undefined] in the place of every row
    that carries [$]. *)
Lemma collect_insertRow (rs : rowArray) : forall t : Table,
  let out := collect insertRow rs t in
  indicies out.1 = indicies t /\ paranoia out.1 = paranoia t
  /\ active out.1 = active t /\ columnNames out.1 = columnNames t
  /\ match out.2 with
     | Ok result =>
         forall r, Some r ∈ rs -> dollarTruthy (rowDollar r) = true ->
                   None ∈ result
     | Err e => isTypeError e
     end.
Proof.
  induction rs as [|x rs IH]; intros t; simpl.
  - repeat split. intros r Hr. by apply elem_of_nil in Hr.
  - rewrite op_bind_unfold. destruct x as [r|]; simpl.
    + destruct (dollarTruthy (rowDollar r)) eqn:Hd; simpl.
      * rewrite op_bind_unfold.
        destruct (IH t) as (H1 & H2 & H3 & H4 & H5).
        destruct (collect insertRow rs t) as [t' [result|e]]; simpl in *;
          repeat split; auto.
        intros r' _ _. left.
      * rewrite op_bind_unfold.
        match goal with
        | |- context [collect insertRow rs ?t1] =>
            destruct (IH t1) as (H1 & H2 & H3 & H4 & H5);
            destruct (collect insertRow rs t1) as [t' [result|e]]
        end; simpl in *; repeat split; auto.
        intros r' Hr' Hd'. right.
        apply elem_of_cons in Hr' as [Heq|Hr']; [congruence|]. eauto.
    + repeat split. eexists; reflexivity.
Qed.

Lemma rowsAdded_None (ix : Index) (result : rowArray) :
  None ∈ result -> exists msg, rowsAdded ix result = (ix, Some (TypeError msg)).
Proof.
  intros H. destruct (definedRows_None result H) as [msg Hmsg].
  exists msg. unfold rowsAdded, buildIndex. rewrite Hmsg. reflexivity.
Qed.

Lemma eachIndex_rowsAdded_None (result : rowArray) (t : Table) :
  None ∈ result ->
  (indicies t = [] /\ eachIndex (fun i => callRowsAdded i result) t = (t, Ok ()))
  \/ exists t' msg,
       eachIndex (fun i => callRowsAdded i result) t = (t', Err (TypeError msg)).
Proof.
  intros H. unfold eachIndex. rewrite op_bind_unfold. simpl.
  destruct (indicies t) as [|ix ixs] eqn:Hix; [left; split; reflexivity|].
  right. simpl. rewrite op_bind_unfold.
  unfold callRowsAdded at 1, callIndex. rewrite Hix. simpl.
  destruct (rowsAdded_None ix result H) as [msg ->].
  eexists _, msg. reflexivity.
Qed.

Lemma tableValidateIndex_no_index (t : Table) :
  active t = true -> indicies t = [] ->
  whenParanoid tableValidateIndex t = (t, Ok ()).
Proof.
  intros Hlive Hix. unfold whenParanoid. rewrite op_bind_unfold. simpl.
  destruct (paranoia t); [|reflexivity].
  unfold tableValidateIndex. rewrite checkActive_live by exact Hlive.
  unfold eachIndex. rewrite op_bind_unfold. simpl. rewrite Hix. reflexivity.
Qed.

(** C8: [insert] of a batch that holds a row carrying [$] does not
    complete: whatever the table and the other rows are, it throws a
    [TypeError].  The skipped row leaves [undefined] in the array that is
    handed to the indexes and cloned for the caller. *)
Theorem insert_row_with_dollar_throws (t : Table) (rs : rowArray) :
  active t = true ->
  (exists r, Some r ∈ rs /\ dollarTruthy (rowDollar r) = true) ->
  exists t' msg, insert (ArgArray rs) t = (t', Err (TypeError msg)).
Proof.
  intros Hlive (r & Hr & Hd). unfold insert.
  rewrite checkActive_live by exact Hlive. simpl toArray.
  rewrite op_bind_unfold.
  destruct (collect_insertRow rs t) as (Hix & Hpar & Hact & Hcols & Hres).
  destruct (collect insertRow rs t) as [t1 [result|e]]; simpl in *.
  - specialize (Hres r Hr Hd). rewrite op_bind_unfold.
    destruct (eachIndex_rowsAdded_None result t1 Hres)
      as [[Hnone ->]|(t2 & msg & ->)].
    + rewrite op_bind_unfold.
      rewrite tableValidateIndex_no_index by congruence.
      rewrite op_bind_unfold. simpl.
      destruct (cloneArg_None (columnNames t1) result Hres) as [msg Hmsg].
      exists t1, msg. unfold lift. rewrite Hmsg. reflexivity.
    + exists t2, msg. reflexivity.
  - destruct Hres as [msg ->]. exists t1, msg. reflexivity.
Qed.

Lemma insert_tableA1 :
  insert (ArgArray [Some (rowOf [("a", VNum 1)])]) tableA = (tableA1, Ok [rowA1]).
Proof. vm_compute. reflexivity. Qed.

Lemma insert_row_with_dollar_throws_witness :
  active tableA1 = true /\
  (exists r, Some r ∈ [Some rowA1] /\ dollarTruthy (rowDollar r) = true) /\
  exists t' msg, insert (ArgArray [Some rowA1]) tableA1 = (t', Err (TypeError msg)).
Proof.
  assert (H : exists r, Some r ∈ [Some rowA1]
                        /\ dollarTruthy (rowDollar r) = true).
  { exists rowA1. split; [left|reflexivity]. }
  split; [reflexivity|]. split; [exact H|].
  exact (insert_row_with_dollar_throws tableA1 [Some rowA1] eq_refl H).
Defined.

(** ** Calls that leave the indexes as they are *)

Lemma mergeWalk_right_nil (cb : callbacks)
    (mergeEntries : entry -> entry -> entry * option error)
    (prevR : option entry) (todo : list entry) :
  (forall e, cbProcessLeftSideEntry cb e prevR = e) ->
  forall done, mergeWalk cb mergeEntries todo done prevR []
               = (reverse done ++ todo, None).
Proof.
  intros Hleft. induction todo as [|le todo IH]; intros done; simpl.
  - rewrite app_nil_r. reflexivity.
  - rewrite IH, Hleft, reverse_cons, <- app_assoc. reflexivity.
Qed.

Lemma buildIndex_nil (ix : Index) :
  columns ix <> [] -> buildIndex ix [] = Ok ([], 0).
Proof.
  intros H. unfold buildIndex. simpl.
  destruct (columns ix) as [|c rest]; [congruence|]. reflexivity.
Qed.

Lemma setIndex_same (ix : Index) : setIndex ix (index ix, indexTotal ix) = ix.
Proof. destruct ix. reflexivity. Qed.

(** Removing no row leaves an index as it is. *)
Lemma rowsRemoved_nil (ix : Index) :
  columns ix <> [] -> rowsRemoved ix [] = (ix, None).
Proof.
  intros H. unfold rowsRemoved. rewrite buildIndex_nil by exact H.
  unfold mergeIndex.
  assert (Hm : forall depth,
             mergeIndexRec removeCallbacks depth (index ix, indexTotal ix) ([], 0)
             = ((index ix, indexTotal ix), None)).
  { intros depth. destruct depth as [|depth]; simpl;
      rewrite mergeWalk_right_nil by reflexivity; simpl;
      rewrite Z.sub_0_r; reflexivity. }
  rewrite Hm. rewrite setIndex_same. reflexivity.
Qed.

Lemma addCalls_nil (t : Table) : addCalls t [] = t.
Proof. destruct t. unfold addCalls. simpl. rewrite app_nil_r. reflexivity. Qed.

Lemma addCalls_app (t : Table) (cs1 cs2 : list indexCall) :
  addCalls (addCalls t cs1) cs2 = addCalls t (cs1 ++ cs2).
Proof. unfold addCalls. simpl. rewrite app_assoc. reflexivity. Qed.

(** A method that leaves every index as it is and does not throw only adds
    to the record of the calls. *)
Lemma each_callIndex_same (call : string -> indexCall)
    (f : Index -> Index * option error) (ixs : list Index) :
  Forall (fun ix => f ix = (ix, None)) ixs ->
  forall (n s : nat) (t : Table), indicies t = ixs ->
    (s + n <= length ixs)%nat ->
    each (fun k => callIndex k call f) (seq s n) t
    = (addCalls t (callsOf call (take n (drop s ixs))), Ok ()).
Proof.
  intros Hf. induction n as [|n IH]; intros s t Hix Hlen; simpl.
  - rewrite addCalls_nil. reflexivity.
  - destruct (lookup_lt_is_Some_2 ixs s) as [ix Hs]; [lia|].
    rewrite op_bind_unfold. unfold callIndex at 1. rewrite Hix, Hs.
    rewrite (Forall_lookup_1 _ _ _ _ Hf Hs).
    rewrite list_insert_id by exact Hs.
    rewrite IH; [|reflexivity|lia].
    rewrite (drop_S _ _ _ Hs). simpl.
    unfold logCall, setIndicies, addCalls. simpl.
    rewrite <- Hix, <- app_assoc. reflexivity.
Qed.

Lemma eachIndex_callIndex_same (call : string -> indexCall)
    (f : Index -> Index * option error) (t : Table) :
  Forall (fun ix => f ix = (ix, None)) (indicies t) ->
  eachIndex (fun k => callIndex k call f) t
  = (addCalls t (callsOf call (indicies t)), Ok ()).
Proof.
  intros Hf. unfold eachIndex. rewrite op_bind_unfold. simpl.
  rewrite (each_callIndex_same call f (indicies t) Hf); [|reflexivity|lia].
  rewrite drop_0, firstn_all. reflexivity.
Qed.

Lemma tableValidateIndex_valid (t : Table) :
  active t = true -> indexesValid (indicies t) ->
  tableValidateIndex t
  = (addCalls t (callsOf CallValidateIndex (indicies t)), Ok ()).
Proof.
  intros Hlive Hvalid. unfold tableValidateIndex.
  rewrite checkActive_live by exact Hlive.
  apply (eachIndex_callIndex_same CallValidateIndex).
  eapply Forall_impl; [exact Hvalid|]. intros ix ->. reflexivity.
Qed.

(** ** [remove] of one row object *)

(** On a live table whose indexes are valid when paranoia is on, [remove]
    of one row object from which [apply] reads no argument completes and
    changes neither the rows, nor the indexes, nor the closures: every
    index is asked to remove no row, and is validated when paranoia is
    on. *)
Lemma remove_single_row_no_effect (t : Table) (r : row) :
  active t = true -> argumentsLength r = 0%nat -> indexedColumns t ->
  (paranoia t = true -> indexesValid (indicies t)) ->
  remove (ArgRow r) t
  = (addCalls t (callsOf CallRowsRemoved (indicies t)
                 ++ if paranoia t then callsOf CallValidateIndex (indicies t)
                    else []),
     Ok ())
  /\ (getCount (remove (ArgRow r) t).1).2 = (getCount t).2.
Proof.
  intros Hlive Hlen Hcols Hvalid.
  assert (Heq : remove (ArgRow r) t
    = (addCalls t (callsOf CallRowsRemoved (indicies t)
                   ++ if paranoia t then callsOf CallValidateIndex (indicies t)
                      else []), Ok ())).
  { unfold remove. rewrite checkActive_live by exact Hlive.
    simpl toArrayApply. rewrite Hlen. simpl replicate.
    rewrite !op_bind_unfold. simpl collect. cbn [mret op_ret fmap list_fmap].
    unfold callRowsRemoved. rewrite op_bind_unfold.
    rewrite (eachIndex_callIndex_same CallRowsRemoved).
    2:{ eapply Forall_impl; [exact Hcols|]. intros ix Hix.
        apply rowsRemoved_nil. exact Hix. }
    rewrite op_bind_unfold. simpl each. cbn [mret op_ret].
    unfold whenParanoid. rewrite op_bind_unfold. simpl.
    destruct (paranoia t) eqn:Hpar.
    - rewrite tableValidateIndex_valid; [|exact Hlive|apply Hvalid; reflexivity].
      rewrite addCalls_app. reflexivity.
    - rewrite app_nil_r. reflexivity. }
  split; [exact Heq|]. rewrite Heq. unfold getCount.
  rewrite !checkActive_live by exact Hlive. reflexivity.
Qed.

(** C9: on a table with a column named [length], [remove] of the row
    object that [insert] returned for [{length: 1}] throws a [TypeError]
    and removes nothing: [newArray.apply(null, rows)] reads the row as an
    argument list of one [undefined], where [insert] and [update] make the
    array with [newArray(rows)]. *)
Theorem remove_single_row_length_throws :
  newTable 0 ["length"] = Ok tableLength
  /\ insert (ArgRow (rowOf [("length", VNum 1)])) tableLength
     = (tableLength1, Ok [lengthRow])
  /\ active tableLength1 = true
  /\ remove (ArgRow lengthRow) tableLength1
     = (tableLength1, Err (TypeError "cannot read a property of undefined")).
Proof. repeat split; vm_compute; reflexivity. Qed.

Lemma remove_single_row_tableA1 :
  active tableA1 = true /\ argumentsLength rowA1 = 0%nat /\
  remove (ArgRow rowA1) tableA1 = (tableA1, Ok ()).
Proof.
  assert (Hc : indexedColumns tableA1) by constructor.
  assert (Hv : paranoia tableA1 = true -> indexesValid (indicies tableA1))
    by (intros _; constructor).
  split; [reflexivity|]. split; [reflexivity|].
  destruct (remove_single_row_no_effect tableA1 rowA1 eq_refl eq_refl Hc Hv)
    as [Heq _].
  rewrite Heq. reflexivity.
Qed.

(** ** The shape of the indexes *)

Lemma mergeWalk_nil_nil (cb : callbacks) me done prevR :
  mergeWalk cb me [] done prevR [] = (reverse done, None).
Proof. reflexivity. Qed.

Lemma mergeWalk_nil_cons (cb : callbacks) me done prevR re rs :
  mergeWalk cb me [] done prevR (re :: rs)
  = match cbProcessRightSideEntry cb (head done) re with
    | Err e => (reverse done, Some e)
    | Ok (Some newEntry) => mergeWalk cb me [] (newEntry :: done) (Some re) rs
    | Ok None => mergeWalk cb me [] done (Some re) rs
    end.
Proof. reflexivity. Qed.

Lemma mergeWalk_cons_nil (cb : callbacks) me le todo done prevR :
  mergeWalk cb me (le :: todo) done prevR []
  = mergeWalk cb me todo (cbProcessLeftSideEntry cb le prevR :: done) prevR [].
Proof. reflexivity. Qed.

Lemma mergeWalk_cons_cons (cb : callbacks) me le todo done prevR re rs :
  mergeWalk cb me (le :: todo) done prevR (re :: rs)
  = if looseEq (eValue le) (eValue re) then
      match me le re with
      | (merged, Some e) => (reverse done ++ merged :: todo, Some e)
      | (merged, None) =>
          if eSize merged =? 0
          then mergeWalk cb me todo done (Some re) rs
          else mergeWalk cb me todo (merged :: done) (Some re) rs
      end
    else if jsLt (eValue le) (eValue re) then
      mergeWalk cb me todo (cbProcessLeftSideEntry cb le prevR :: done)
        prevR (re :: rs)
    else
      match cbProcessRightSideEntry cb (head done) re with
      | Err e => (reverse done ++ le :: todo, Some e)
      | Ok (Some newEntry) =>
          mergeWalk cb me (le :: todo) (newEntry :: done) (Some re) rs
      | Ok None => mergeWalk cb me (le :: todo) done (Some re) rs
      end.
Proof. reflexivity. Qed.

Section MergeAdd.
Variable D : data -> Prop.
Variable mergeEntries : entry -> entry -> entry * option error.
Hypothesis mergeEntries_ok : forall le re, D (eData le) -> D (eData re) ->
  exists m, mergeEntries le re = (m, None) /\ D (eData m).

Lemma processLeft_add_data (le : entry) (prevR : option entry) :
  eData (cbProcessLeftSideEntry addCallbacks le prevR) = eData le.
Proof. destruct prevR; reflexivity. Qed.

(** The walk of [rowsAdded] does not throw and keeps the shape of the
    entries. *)
Lemma mergeWalk_add (todo : list entry) :
  Forall (fun e => D (eData e)) todo ->
  forall rs, Forall (fun e => D (eData e)) rs ->
  forall done prevR, Forall (fun e => D (eData e)) done ->
  exists res, mergeWalk addCallbacks mergeEntries todo done prevR rs = (res, None)
              /\ Forall (fun e => D (eData e)) res.
Proof.
  induction 1 as [|le todo Hle Htodo IHtodo].
  - induction 1 as [|re rs Hre Hrs IHrs]; intros done prevR Hdone.
    + rewrite mergeWalk_nil_nil. eexists. split; [reflexivity|].
      apply Forall_reverse. exact Hdone.
    + rewrite mergeWalk_nil_cons. cbn [cbProcessRightSideEntry addCallbacks].
      apply IHrs. constructor; [exact Hre|exact Hdone].
  - induction 1 as [|re rs Hre Hrs IHrs]; intros done prevR Hdone.
    + rewrite mergeWalk_cons_nil. apply IHtodo; [constructor|].
      constructor; [|exact Hdone]. rewrite processLeft_add_data. exact Hle.
    + rewrite mergeWalk_cons_cons.
      destruct (looseEq (eValue le) (eValue re)).
      * destruct (mergeEntries_ok le re Hle Hre) as (m & -> & Hm).
        cbv iota. destruct (eSize m =? 0); apply IHtodo; auto.
      * destruct (jsLt (eValue le) (eValue re)).
        -- apply IHtodo; [constructor; assumption|].
           constructor; [|exact Hdone]. rewrite processLeft_add_data. exact Hle.
        -- cbn [cbProcessRightSideEntry addCallbacks].
           apply IHrs. constructor; [exact Hre|exact Hdone].
Qed.
End MergeAdd.

Lemma Forall_sortInsert {A} (P : A -> Prop) (cmp : A -> A -> Z) (x : A)
    (l : list A) : P x -> Forall P l -> Forall P (sortInsert cmp x l).
Proof.
  intros Hx. induction 1 as [|y l Hy Hl IH]; simpl.
  - constructor; [exact Hx|constructor].
  - destruct (cmp x y <=? 0); repeat constructor; auto.
Qed.

Lemma Forall_sort {A} (P : A -> Prop) (cmp : A -> A -> Z) (l : list A) :
  Forall P l -> Forall P (sort cmp l).
Proof.
  unfold sort. induction 1 as [|x l Hx Hl IH]; simpl; [constructor|].
  apply Forall_sortInsert; assumption.
Qed.

Lemma shaped_leaf (depth : nat) (es : list entry) : (depth <= 1)%nat ->
  shaped depth es
  = Forall (fun e => match eData e with
                     | RowData _ => True
                     | SubIndex _ _ => False
                     end) es.
Proof. destruct depth as [|[|depth]]; [reflexivity..|lia]. Qed.

Lemma mergeIndexRec_leaf (cb : callbacks) (depth : nat) (left right : level) :
  (depth <= 1)%nat ->
  mergeIndexRec cb depth left right
  = match mergeWalk cb
            (fun le re =>
               match cbMergeLeftAndRightEntries cb le re true with
               | Ok merged => (merged, None)
               | Err e => (le, Some e)
               end) left.1 [] None right.1 with
    | (entries, Some e) => ((entries, left.2), Some e)
    | (entries, None) => (cbMergeTotals cb (entries, left.2) right true, None)
    end.
Proof. destruct depth as [|[|depth]]; [reflexivity..|lia]. Qed.

Lemma mergeIndexRec_add_leaf (depth : nat) (left right : level) :
  (depth <= 1)%nat -> shaped depth left.1 -> shaped depth right.1 ->
  exists lvl, mergeIndexRec addCallbacks depth left right = (lvl, None)
              /\ shaped depth lvl.1.
Proof.
  intros Hd Hl Hr. rewrite shaped_leaf in Hl, Hr by exact Hd.
  rewrite mergeIndexRec_leaf by exact Hd.
  destruct (mergeWalk_add
              (fun d => match d with RowData _ => True | SubIndex _ _ => False end)
              (fun le re =>
                 match cbMergeLeftAndRightEntries addCallbacks le re true with
                 | Ok merged => (merged, None)
                 | Err e => (le, Some e)
                 end))
    with (todo := left.1) (rs := right.1) (done := @nil entry)
         (prevR := @None entry) as (res & Hres & HP); auto.
  { intros le re Hle Hre. cbn [cbMergeLeftAndRightEntries addCallbacks].
    destruct (eData le), (eData re); try contradiction. simpl.
    eexists. split; [reflexivity|]. exact I. }
  rewrite Hres. eexists. split; [reflexivity|].
  rewrite shaped_leaf by exact Hd. cbn [cbMergeTotals addCallbacks fst].
  apply Forall_sort. exact HP.
Qed.

(** The merge of [rowsAdded] does not throw on indexes of the same depth,
    and the merged index has that depth. *)
Lemma mergeIndexRec_add_shaped (depth : nat) : forall left right : level,
  shaped depth left.1 -> shaped depth right.1 ->
  exists lvl, mergeIndexRec addCallbacks depth left right = (lvl, None)
              /\ shaped depth lvl.1.
Proof.
  induction depth as [|depth IH]; intros left right Hl Hr.
  - apply mergeIndexRec_add_leaf; auto.
  - destruct depth as [|depth].
    + apply mergeIndexRec_add_leaf; auto.
    + change (shaped (S (S depth)) left.1) with
        (Forall (fun e => match eData e with
                          | SubIndex sub _ => shaped (S depth) sub
                          | RowData _ => False
                          end) left.1) in Hl.
      change (shaped (S (S depth)) right.1) with
        (Forall (fun e => match eData e with
                          | SubIndex sub _ => shaped (S depth) sub
                          | RowData _ => False
                          end) right.1) in Hr.
      set (me := fun leftEntry rightEntry : entry =>
        match eData leftEntry, eData rightEntry with
        | SubIndex le lt, SubIndex re rt =>
            match mergeIndexRec addCallbacks (S depth) (le, lt) (re, rt) with
            | (sub, Some e) => (withData leftEntry (SubIndex sub.1 sub.2), Some e)
            | (sub, None) =>
                match cbMergeLeftAndRightEntries addCallbacks
                        (withData leftEntry (SubIndex sub.1 sub.2)) rightEntry
                        false with
                | Ok merged => (merged, None)
                | Err e => (withData leftEntry (SubIndex sub.1 sub.2), Some e)
                end
            end
        | _, _ =>
            (leftEntry, Some (TypeError "index data is not an array of entries"))
        end).
      assert (Hunfold : mergeIndexRec addCallbacks (S (S depth)) left right
        = match mergeWalk addCallbacks me left.1 [] None right.1 with
          | (entries, Some e) => ((entries, left.2), Some e)
          | (entries, None) =>
              (cbMergeTotals addCallbacks (entries, left.2) right false, None)
          end) by reflexivity.
      rewrite Hunfold.
      destruct (mergeWalk_add
                  (fun d => match d with
                            | SubIndex sub _ => shaped (S depth) sub
                            | RowData _ => False
                            end) me)
        with (todo := left.1) (rs := right.1) (done := @nil entry)
             (prevR := @None entry) as (res & Hres & HP); auto.
      { intros le re Hle Hre. subst me. cbv beta.
        destruct (eData le) as [|l lt], (eData re) as [|r rt]; try contradiction.
        destruct (IH (l, lt) (r, rt) Hle Hre) as (sub & -> & Hsub).
        cbn [cbMergeLeftAndRightEntries addCallbacks].
        eexists. split; [reflexivity|]. exact Hsub. }
      rewrite Hres. eexists. split; [reflexivity|].
      change (Forall (fun e => match eData e with
                               | SubIndex sub _ => shaped (S depth) sub
                               | RowData _ => False
                               end) (sort pluckValue res)).
      apply Forall_sort. exact HP.
Qed.

Lemma mapM_ok {A B} (f : A -> result B) (P : B -> Prop) (l : list A) :
  (forall x, exists y, f x = Ok y /\ P y) ->
  exists ys, mapM f l = Ok ys /\ Forall P ys.
Proof.
  intros Hf. induction l as [|x l (ys & Hys & HP)]; simpl.
  - exists []. split; [reflexivity|constructor].
  - destruct (Hf x) as (y & -> & Hy). rewrite Hys. simpl.
    exists (y :: ys). split; [reflexivity|]. constructor; assumption.
Qed.

(** [buildIndex] does not throw when the index has a column, and builds an
    index of the depth of the column list. *)
Lemma buildIndexRec_shaped (names : list string) : names <> [] ->
  forall rs, exists lvl, buildIndexRec names rs = Ok lvl
                         /\ shaped (length names) lvl.1.
Proof.
  induction names as [|c rest IH]; [congruence|]. intros _ rs.
  cbn [buildIndexRec].
  destruct (buildShallowIndex rs c) as [sh total].
  match goal with
  | |- context [mapM ?f sh] =>
      destruct (mapM_ok f
                  (fun e => match rest with
                            | [] => match eData e with
                                    | RowData _ => True
                                    | SubIndex _ _ => False
                                    end
                            | _ :: _ => match eData e with
                                        | SubIndex sub _ => shaped (length rest) sub
                                        | RowData _ => False
                                        end
                            end) sh) as (es & -> & Hes)
  end.
  - intros e. destruct rest as [|c' rest'].
    + eexists. split; [reflexivity|]. exact I.
    + destruct (IH ltac:(discriminate) (shData e)) as (sub & -> & Hsub).
      eexists. split; [reflexivity|]. exact Hsub.
  - eexists. split; [reflexivity|]. destruct rest; exact Hes.
Qed.

Lemma definedRows_Some (rs : list row) : definedRows (Some <$> rs) = Ok rs.
Proof.
  unfold definedRows. induction rs as [|r rs IH]; [reflexivity|].
  rewrite fmap_cons. cbn [mapM]. rewrite IH. reflexivity.
Qed.

(** [rowsAdded] does not throw on an index of the right shape and keeps
    it so. *)
Lemma rowsAdded_shaped (ix : Index) (rs : list row) :
  wellShaped ix ->
  exists ix', rowsAdded ix (Some <$> rs) = (ix', None) /\ wellShaped ix'
              /\ columns ix' = columns ix /\ signature ix' = signature ix.
Proof.
  intros [Hcols Hshape]. unfold rowsAdded, buildIndex.
  rewrite definedRows_Some. simpl.
  destruct (buildIndexRec_shaped (columns ix) Hcols rs) as (right & -> & Hr).
  unfold mergeIndex.
  destruct (mergeIndexRec_add_shaped (length (columns ix))
              (index ix, indexTotal ix) right Hshape Hr) as (lvl & -> & Hlvl).
  eexists. split; [reflexivity|]. repeat split; auto.
Qed.

(** A method that does not throw on any index is applied to every index,
    in their order. *)
Lemma each_callIndex_map (call : string -> indexCall)
    (f : Index -> Index * option error) (ixs : list Index) :
  Forall (fun ix => (f ix).2 = None) ixs ->
  forall (n s : nat) (t : Table),
    indicies t = take s ((fun ix => (f ix).1) <$> ixs) ++ drop s ixs ->
    (s + n <= length ixs)%nat ->
    each (fun k => callIndex k call f) (seq s n) t
    = (addCalls
         (setIndicies t (take (s + n) ((fun ix => (f ix).1) <$> ixs)
                         ++ drop (s + n) ixs))
         (callsOf call (take n (drop s ixs))), Ok ()).
Proof.
  intros Hf. induction n as [|n IH]; intros s t Hix Hlen.
  - simpl. rewrite Nat.add_0_r, <- Hix, addCalls_nil.
    destruct t; reflexivity.
  - destruct (lookup_lt_is_Some_2 ixs s) as [ix Hs]; [lia|].
    assert (Hlook : indicies t !! s = Some ix).
    { rewrite Hix, lookup_app_r; rewrite length_take, length_fmap; [|lia].
      replace (s - s `min` length ixs)%nat with 0%nat by lia.
      rewrite lookup_drop, Nat.add_0_r. exact Hs. }
    cbn [seq each]. rewrite op_bind_unfold. unfold callIndex at 1.
    rewrite Hlook.
    pose proof (Forall_lookup_1 _ _ _ _ Hf Hs) as Hnone. simpl in Hnone.
    destruct (f ix) as [ix' err] eqn:Hfix. simpl in Hnone. subst err.
    assert (Hins : <[s := ix']> (indicies t)
                   = take (S s) ((fun ix => (f ix).1) <$> ixs) ++ drop (S s) ixs).
    { rewrite Hix.
      rewrite insert_app_r_alt; rewrite length_take, length_fmap; [|lia].
      replace (s - s `min` length ixs)%nat with 0%nat by lia.
      rewrite (drop_S _ _ _ Hs). simpl.
      erewrite take_S_r; [|rewrite list_lookup_fmap, Hs; simpl; rewrite Hfix;
                           reflexivity].
      rewrite <- app_assoc. reflexivity. }
    rewrite Hins. rewrite IH; [|reflexivity|lia].
    rewrite (drop_S _ _ _ Hs). simpl.
    unfold logCall, setIndicies, addCalls. simpl.
    replace (S (s + n)) with (s + S n)%nat by lia.
    rewrite <- app_assoc. reflexivity.
Qed.

Lemma eachIndex_callIndex_map (call : string -> indexCall)
    (f : Index -> Index * option error) (t : Table) :
  Forall (fun ix => (f ix).2 = None) (indicies t) ->
  eachIndex (fun k => callIndex k call f) t
  = (addCalls (setIndicies t ((fun ix => (f ix).1) <$> indicies t))
       (callsOf call (indicies t)), Ok ()).
Proof.
  intros Hf. unfold eachIndex. rewrite op_bind_unfold. simpl.
  rewrite (each_callIndex_map call f (indicies t) Hf); [|reflexivity|lia].
  simpl. rewrite drop_0, !firstn_all.
  rewrite drop_all, app_nil_r.
  rewrite <- (length_fmap (fun ix => (f ix).1) (indicies t)) at 1.
  rewrite firstn_all. reflexivity.
Qed.

(** ** Clones *)

Lemma lookup_cloneCells (names : list string) (r : row) (c : string) :
  c ∈ names -> cloneCells names r !! c = Some (cell r c).
Proof.
  unfold cloneCells. induction names as [|x names IH]; intros Hc.
  - by apply elem_of_nil in Hc.
  - simpl. destruct (decide (x = c)) as [->|Hne].
    + apply lookup_insert_eq.
    + rewrite lookup_insert_ne by exact Hne.
      apply IH. apply elem_of_cons in Hc as [Hc|Hc]; [congruence|exact Hc].
Qed.

(** The clone of a clone has the cells of the clone. *)
Lemma cloneCells_clone (names : list string) (r : row) (d : dollar) :
  cloneCells names (Row (cloneCells names r) d) = cloneCells names r.
Proof.
  unfold cloneCells at 1 3. f_equal.
  apply list_fmap_ext. intros i c Hc. f_equal.
  unfold cell at 1. simpl.
  rewrite lookup_cloneCells by (eapply list_elem_of_lookup_2; exact Hc).
  reflexivity.
Qed.

(** ** [insert] of one row object *)



(** ** [update] *)

Lemma checkTableIdentity_belongs (t : Table) (r : row) :
  belongs t r -> checkTableIdentity (Some r) t = (t, Ok ()).
Proof.
  intros (h & c & Hd & Hc). unfold checkTableIdentity. rewrite Hd.
  rewrite op_bind_unfold. simpl. rewrite bool_decide_eq_true_2 by reflexivity.
  reflexivity.
Qed.

Lemma original_belongs (t : Table) (r : row) :
  active t = true -> belongs t r ->
  original (Some r) t = (t, Ok (snapshotOf t r)).
Proof.
  intros Hlive (h & c & Hd & Hc). unfold original, snapshotOf.
  rewrite checkActive_live by exact Hlive.
  rewrite op_bind_unfold. unfold closureOf. rewrite Hd.
  rewrite op_bind_unfold. simpl. rewrite Hc. reflexivity.
Qed.

(** The [findAll] of [update] keeps the rows that changed and marks their
    changed columns; it does not touch the table. *)
Lemma findChanged_belongs (t : Table) (rs : list row) :
  active t = true -> Forall (belongs t) rs ->
  forall acc, findChanged (Some <$> rs) acc t
              = (t, Ok (Some <$> changedRows t rs, acc ++ changedColumnsOf t rs)).
Proof.
  intros Hlive. induction 1 as [|r rs Hr Hrs IH]; intros acc.
  - simpl. rewrite app_nil_r. reflexivity.
  - rewrite fmap_cons. cbn [findChanged].
    rewrite op_bind_unfold, checkTableIdentity_belongs by exact Hr.
    rewrite op_bind_unfold, original_belongs by assumption.
    rewrite op_bind_unfold. cbn [get from_option].
    rewrite op_bind_unfold, IH.
    unfold changedRows, changedColumnsOf. cbn [mbind list_bind].
    fold (changedOf t r). unfold mret, op_ret. cbn [fst snd].
    rewrite <- app_assoc. f_equal. f_equal. f_equal.
    destruct (changedOf t r) eqn:Hch.
    + rewrite filter_cons_False by (rewrite Hch; auto). reflexivity.
    + rewrite filter_cons_True by (rewrite Hch; discriminate).
      reflexivity.
Qed.

Lemma collect_original (t : Table) (rs : list row) :
  active t = true -> Forall (belongs t) rs ->
  collect original (Some <$> rs) t = (t, Ok (snapshotOf t <$> rs)).
Proof.
  intros Hlive. induction 1 as [|r rs Hr Hrs IH]; [reflexivity|].
  rewrite fmap_cons. cbn [collect].
  rewrite op_bind_unfold, original_belongs by assumption.
  rewrite op_bind_unfold, IH. reflexivity.
Qed.

Lemma signature_rowsRemoved (ix : Index) (rs : rowArray) :
  signature (rowsRemoved ix rs).1 = signature ix.
Proof.
  unfold rowsRemoved. destruct (buildIndex ix rs); [|reflexivity].
  unfold mergeIndex. destruct (mergeIndexRec _ _ _ _). reflexivity.
Qed.

Lemma signature_rowsAdded (ix : Index) (rs : rowArray) :
  signature (rowsAdded ix rs).1 = signature ix.
Proof.
  unfold rowsAdded. destruct (buildIndex ix rs); [|reflexivity].
  unfold mergeIndex. destruct (mergeIndexRec _ _ _ _). reflexivity.
Qed.

Lemma stepsAt_callIndex (s : nat) (sig : string) (p : bool)
    (call : string -> indexCall) (f : Index -> Index * option error) :
  (forall ix, signature (f ix).1 = signature ix) ->
  stepsAt s sig p (callIndex s call f) [call sig].
Proof.
  intros Hsig t ix Hs Hix Hp. unfold callIndex. rewrite Hs.
  specialize (Hsig ix). destruct (f ix) as [ix' err]. simpl in Hsig.
  exists ix', [call sig]. simpl. rewrite Hix.
  repeat split; auto. congruence.
Qed.

Lemma stepsAt_bind (s : nat) (sig : string) (p : bool) (m1 m2 : op ())
    (cs1 cs2 : list indexCall) :
  stepsAt s sig p m1 cs1 -> stepsAt s sig p m2 cs2 ->
  stepsAt s sig p (_ ← m1; m2) (cs1 ++ cs2).
Proof.
  intros H1 H2 t ix Hs Hix Hp. rewrite op_bind_unfold.
  destruct (H1 t ix Hs Hix Hp) as (ix1 & L1 & Hi1 & Hs1 & Hp1 & Hc1 & Hpre1 & Hok1).
  destruct (m1 t) as [t1 [[]|e]] eqn:Hm1; simpl in *.
  - specialize (Hok1 eq_refl). subst L1.
    assert (Hs' : indicies t1 !! s = Some ix1).
    { rewrite Hi1. apply list_lookup_insert_eq. eapply lookup_lt_Some. exact Hs. }
    destruct (H2 t1 ix1 Hs' Hs1 Hp1)
      as (ix2 & L2 & Hi2 & Hs2 & Hp2 & Hc2 & Hpre2 & Hok2).
    exists ix2, (cs1 ++ L2). repeat split; auto.
    + rewrite Hi2, Hi1. apply list_insert_insert_eq.
    + rewrite Hc2, Hc1. rewrite app_assoc. reflexivity.
    + apply prefix_app. exact Hpre2.
    + intros Hok. rewrite (Hok2 Hok). reflexivity.
  - exists ix1, L1. repeat split; auto.
    + apply prefix_app_r. exact Hpre1.
    + discriminate.
Qed.

Lemma stepsAt_whenParanoid (s : nat) (sig : string) (p : bool) (m : op ())
    (cs : list indexCall) :
  stepsAt s sig p m cs ->
  stepsAt s sig p (whenParanoid m) (if p then cs else []).
Proof.
  intros H t ix Hs Hix Hp. unfold whenParanoid. rewrite op_bind_unfold.
  simpl. rewrite Hp. destruct p.
  - apply (H t ix); assumption.
  - exists ix, []. simpl. rewrite list_insert_id by exact Hs.
    rewrite app_nil_r. repeat split; auto.
Qed.

Lemma updateIndex_step (oldRows rs : rowArray) (changed : list string)
    (s : nat) (t : Table) (ix : Index) :
  indicies t !! s = Some ix ->
  let out := updateIndex oldRows rs changed s t in
  exists ix' L,
    indicies out.1 = <[s := ix']> (indicies t)
    /\ signature ix' = signature ix /\ paranoia out.1 = paranoia t
    /\ calls out.1 = calls t ++ L
    /\ L `prefix_of` updateCalls (paranoia t) changed ix
    /\ (out.2 = Ok () -> L = updateCalls (paranoia t) changed ix)
    /\ (touches changed ix = false -> ix' = ix).
Proof.
  intros Hs out. subst out. unfold updateIndex, updateCalls.
  rewrite op_bind_unfold. simpl. rewrite Hs. simpl.
  destruct (touches changed ix) eqn:Ht.
  - assert (H : stepsAt s (signature ix) (paranoia t)
                  (_ ← callRowsRemoved s oldRows;
                   _ ← whenParanoid (callValidateIndex s);
                   _ ← callRowsAdded s rs;
                   whenParanoid (callValidateIndex s))
                  ([CallRowsRemoved (signature ix)]
                   ++ (if paranoia t then [CallValidateIndex (signature ix)] else [])
                   ++ [CallRowsAdded (signature ix)]
                   ++ (if paranoia t then [CallValidateIndex (signature ix)] else []))).
    { repeat apply stepsAt_bind;
        try apply stepsAt_whenParanoid; apply stepsAt_callIndex; intros ix0.
      - apply signature_rowsRemoved.
      - reflexivity.
      - apply signature_rowsAdded.
      - reflexivity. }
    destruct (H t ix Hs eq_refl eq_refl)
      as (ix' & L & Hi & Hsig & Hp & Hc & Hpre & Hok).
    exists ix', L. repeat split; auto. discriminate.
  - exists ix, []. simpl. rewrite list_insert_id by exact Hs.
    rewrite app_nil_r. repeat split; auto.
Qed.

(** The loop of [update] over the indexes: an index without a changed
    column stays as it is, and the calls follow [expectedCalls] up to the
    first one that throws. *)
Lemma each_updateIndex (oldRows rs : rowArray) (changed : list string)
    (n : nat) : forall (s : nat) (t : Table),
  (s + n <= length (indicies t))%nat ->
  let out := each (updateIndex oldRows rs changed) (seq s n) t in
  (forall k ix, indicies t !! k = Some ix ->
     (k < s)%nat \/ (s + n <= k)%nat \/ touches changed ix = false ->
     indicies out.1 !! k = Some ix)
  /\ length (indicies out.1) = length (indicies t)
  /\ paranoia out.1 = paranoia t
  /\ exists L, calls out.1 = calls t ++ L
       /\ L `prefix_of` expectedCalls (paranoia t) changed
                          (take n (drop s (indicies t)))
       /\ (out.2 = Ok () ->
           L = expectedCalls (paranoia t) changed (take n (drop s (indicies t)))).
Proof.
  induction n as [|n IH]; intros s t Hlen out; subst out.
  - simpl. repeat split; auto. exists []. rewrite app_nil_r.
    repeat split; auto.
  - destruct (lookup_lt_is_Some_2 (indicies t) s) as [ix Hs]; [lia|].
    cbn [seq each]. rewrite op_bind_unfold.
    destruct (updateIndex_step oldRows rs changed s t ix Hs)
      as (ix' & L1 & Hi1 & Hsig1 & Hp1 & Hc1 & Hpre1 & Hok1 & Hsame).
    rewrite (drop_S _ _ _ Hs). cbn [take].
    unfold expectedCalls. cbn [mbind list_bind].
    fold (expectedCalls (paranoia t) changed (take n (drop (S s) (indicies t)))).
    destruct (updateIndex oldRows rs changed s t) as [t1 [[]|e]] eqn:Hstep;
      simpl in Hi1, Hp1, Hc1, Hok1.
    + specialize (Hok1 eq_refl). subst L1.
      assert (Hlen1 : (S s + n <= length (indicies t1))%nat).
      { rewrite Hi1, length_insert. lia. }
      destruct (IH (S s) t1 Hlen1) as (Hframe & Hlen' & Hp' & L & Hc & Hpre & Hok).
      assert (Hdrop : drop (S s) (indicies t1) = drop (S s) (indicies t)).
      { rewrite Hi1. apply drop_insert_lt. lia. }
      rewrite Hdrop, Hp1 in Hpre, Hok.
      split; [|split; [|split]].
      * intros k ix0 Hk Hcase.
        destruct (decide (k = s)) as [->|Hne].
        -- assert (ix0 = ix) by congruence. subst ix0.
           apply Hframe; [|left; lia].
           rewrite Hi1. rewrite list_lookup_insert_eq by (eapply lookup_lt_Some; eauto).
           f_equal. apply Hsame.
           destruct Hcase as [?|[?|Hc0]]; [lia|lia|exact Hc0].
        -- apply Hframe.
           ++ rewrite Hi1, list_lookup_insert_ne by congruence. exact Hk.
           ++ destruct Hcase as [?|[?|?]]; [left; lia|right; left; lia|auto].
      * rewrite Hlen', Hi1, length_insert. reflexivity.
      * rewrite Hp', Hp1. reflexivity.
      * exists (updateCalls (paranoia t) changed ix ++ L).
        split; [rewrite Hc, Hc1, app_assoc; reflexivity|].
        split; [apply prefix_app; exact Hpre|].
        intros H. rewrite (Hok H). reflexivity.
    + simpl. split; [|split; [|split]].
      * intros k ix0 Hk Hcase. rewrite Hi1.
        destruct (decide (k = s)) as [->|Hne].
        -- assert (ix0 = ix) by congruence. subst ix0.
           rewrite list_lookup_insert_eq by (eapply lookup_lt_Some; eauto).
           f_equal. apply Hsame.
           destruct Hcase as [?|[?|Hc0]]; [lia|lia|exact Hc0].
        -- rewrite list_lookup_insert_ne by congruence. exact Hk.
      * rewrite Hi1, length_insert. reflexivity.
      * exact Hp1.
      * exists L1. split; [exact Hc1|].
        split; [apply prefix_app_r; exact Hpre1|discriminate].
Qed.

Lemma frames_bind {A B} (m : op A) (k : A -> op B) :
  frames m -> (forall a, frames (k a)) -> frames (m ≫= k).
Proof.
  intros Hm Hk t. rewrite op_bind_unfold. destruct (Hm t) as [H1 H2].
  destruct (m t) as [t1 [a|e]]; simpl in *.
  - destruct (Hk a t1) as [H3 H4]. split; congruence.
  - split; assumption.
Qed.

Lemma frames_const {A} (r : result A) : frames (fun t => (t, r)).
Proof. intros t. split; reflexivity. Qed.

Lemma frames_checkActive : frames checkActive.
Proof. intros t. unfold checkActive. destruct (active t); split; reflexivity. Qed.

Lemma frames_closureOf (r : option row) : frames (closureOf r).
Proof.
  intros t. unfold closureOf. destruct r as [r|]; [|split; reflexivity].
  destruct (rowDollar r) as [tid h| |v]; [|split; reflexivity..].
  rewrite op_bind_unfold. simpl.
  destruct (closures t !! h); split; reflexivity.
Qed.

Lemma frames_storeRow (r : option row) : frames (storeRow r).
Proof.
  unfold storeRow. apply frames_bind; [intros t; split; reflexivity|]. intros t.
  apply frames_bind; [intros t'; split; reflexivity|]. intros newRow.
  apply frames_bind.
  { unfold setOriginal. apply frames_bind; [apply frames_checkActive|].
    intros _. apply frames_bind; [apply frames_closureOf|].
    intros hc t'. split; reflexivity. }
  intros _. apply frames_bind.
  { unfold rowIndex. apply frames_bind; [apply frames_checkActive|].
    intros _. apply frames_bind; [apply frames_closureOf|].
    intros hc t'. split; reflexivity. }
  intros i t'. split; reflexivity.
Qed.

Lemma frames_each {A} (f : A -> op ()) (l : list A) :
  (forall x, frames (f x)) -> frames (each f l).
Proof.
  intros Hf. induction l as [|x l IH]; simpl.
  - intros t. split; reflexivity.
  - apply frames_bind; [apply Hf|]. intros _. exact IH.
Qed.

Lemma touches_nil (ix : Index) : touches [] ix = false.
Proof.
  unfold touches, any. induction (columns ix) as [|c cs IH]; [reflexivity|].
  cbn [existsb]. rewrite IH. rewrite bool_decide_eq_false_2; [reflexivity|].
  apply not_elem_of_nil.
Qed.

Lemma expectedCalls_nil (p : bool) (ixs : list Index) :
  expectedCalls p [] ixs = [].
Proof.
  unfold expectedCalls. induction ixs as [|ix ixs IH]; [reflexivity|].
  cbn [mbind list_bind]. unfold updateCalls at 1. rewrite touches_nil.
  exact IH.
Qed.

Lemma changedRows_nil (t : Table) (rs : list row) :
  changedRows t rs = [] <-> changedColumnsOf t rs = [].
Proof.
  unfold changedRows, changedColumnsOf.
  induction rs as [|r rs IH]; [split; reflexivity|].
  cbn [mbind list_bind]. destruct (changedOf t r) eqn:Hch.
  - rewrite filter_cons_False by (rewrite Hch; auto). exact IH.
  - rewrite filter_cons_True by (rewrite Hch; discriminate).
    split; discriminate.
Qed.

(** On a live table, [update] of rows that belong to it and on which
    [markChangedColumns] marks nothing calls no index and leaves the table
    as it is.  Otherwise, with [changed] the properties it marks, an index
    without a column in [changed] stays as it is,
    and the calls to the indexes are, in the order of the indexes, those of
    the indexes with a column in [changed]: [rowsRemoved], then
    [rowsAdded], each followed by [validateIndex] when paranoia is on --
    all of them when [update] completes, and those up to the first call
    that throws when it does not. *)
Lemma update_locality (t : Table) (rs : list row) :
  active t = true -> Forall (belongs t) rs ->
  let changed := changedColumnsOf t rs in
  let out := update (ArgArray (Some <$> rs)) t in
  (changed = [] -> out = (t, Ok ()))
  /\ (forall k ix, indicies t !! k = Some ix -> touches changed ix = false ->
        indicies out.1 !! k = Some ix)
  /\ exists L, calls out.1 = calls t ++ L
       /\ L `prefix_of` expectedCalls (paranoia t) changed (indicies t)
       /\ (out.2 = Ok () ->
           L = expectedCalls (paranoia t) changed (indicies t)).
Proof.
  intros Hlive Hrs changed out.
  assert (Hchanged : Forall (belongs t) (changedRows t rs)).
  { unfold changedRows. apply Forall_forall. intros r Hr.
    apply list_elem_of_filter in Hr as [_ Hr].
    eapply Forall_forall in Hrs; eauto. }
  assert (Hout : out
    = match changedRows t rs with
      | [] => (t, Ok ())
      | _ :: _ =>
          (_ ← eachIndex (updateIndex (Some <$> (snapshotOf t <$> changedRows t rs))
                            (Some <$> changedRows t rs) changed);
           each storeRow (Some <$> changedRows t rs)) t
      end).
  { subst out. unfold update. rewrite checkActive_live by exact Hlive.
    cbn [toArray]. rewrite op_bind_unfold.
    rewrite findChanged_belongs by assumption. cbn [app].
    rewrite op_bind_unfold, collect_original by assumption.
    fold changed. destruct (changedRows t rs); reflexivity. }
  destruct (changedRows t rs) as [|r0 rows'] eqn:Hrows.
  - assert (Hnil : changed = []) by (apply changedRows_nil; exact Hrows).
    rewrite Hout. simpl. split; [reflexivity|]. split; [auto|].
    exists []. rewrite app_nil_r, Hnil, expectedCalls_nil.
    repeat split; auto.
  - assert (Hne : changed <> []).
    { intros Hnil. apply changedRows_nil in Hnil. congruence. }
    rewrite <- Hrows in Hout. rewrite Hout. clear Hout.
    split; [intros H; contradiction|].
    rewrite op_bind_unfold.
    assert (Heq : forall f, eachIndex f t = each f (seq 0 (length (indicies t))) t)
      by reflexivity.
    rewrite Heq. clear Heq.
    destruct (each_updateIndex (Some <$> (snapshotOf t <$> changedRows t rs))
                (Some <$> changedRows t rs) changed (length (indicies t)) 0 t
                ltac:(lia)) as (Hframe & Hlen & Hp & L & Hc & Hpre & Hok).
    rewrite drop_0, firstn_all in Hpre, Hok.
    destruct (each (updateIndex (Some <$> (snapshotOf t <$> changedRows t rs))
                      (Some <$> changedRows t rs) changed)
                (seq 0 (length (indicies t))) t) as [t2 [[]|e]] eqn:Heach;
      simpl in Hframe, Hlen, Hp, Hc, Hok.
    + cbv iota beta.
      destruct (frames_each storeRow (Some <$> changedRows t rs)
                  frames_storeRow t2) as [Hi Hcalls].
      split.
      * intros k ix Hk Hun. rewrite Hi. apply Hframe; auto.
      * exists L. rewrite Hcalls. split; [exact Hc|]. split; [exact Hpre|].
        intros _. apply Hok. reflexivity.
    + simpl. split.
      * intros k ix Hk Hun. apply Hframe; auto.
      * exists L. split; [exact Hc|]. split; [exact Hpre|]. discriminate.
Qed.

(** An index operation of [update] can throw: a clone of a row that was
    since removed still has its snapshot; its column [a] changed and the
    index on [a] is asked to remove the old row, which it does not hold, so
    that [rowsRemoved] throws and [rowsAdded] is never called. *)
Lemma update_stale_clone_throws :
  active tableStale = true
  /\ belongs tableStale staleRow
  /\ changedColumnsOf tableStale [staleRow] = ["a"]
  /\ columns <$> indicies tableStale = [["a"]]
  /\ update (ArgArray [Some staleRow]) tableStale
     = (addCalls tableStale [CallRowsRemoved "[a]"],
        Err (NotInList
               (Entry (VNum 5) 1 1
                  (RowData [Row {[ "a" := VNum 5 ]} (DHandle 0 0)])) None)).
Proof.
  split; [reflexivity|]. split.
  { eexists _, _. split; reflexivity. }
  repeat split; vm_compute; reflexivity.
Qed.

Lemma rowB9_belongs : Forall (belongs tableAB) [rowB9].
Proof. repeat constructor. eexists _, _. split; reflexivity. Qed.

Lemma update_locality_tableAB :
  active tableAB = true /\ Forall (belongs tableAB) [rowB9] /\
  changedColumnsOf tableAB [rowB9] = ["b"] /\
  indicies (update (ArgArray [Some rowB9]) tableAB).1 !! 0%nat
  = indicies tableAB !! 0%nat /\
  calls (update (ArgArray [Some rowB9]) tableAB).1
  = calls tableAB ++ [CallRowsRemoved "[b]"; CallRowsAdded "[b]"].
Proof.
  split; [reflexivity|]. split; [exact rowB9_belongs|].
  split; [vm_compute; reflexivity|].
  destruct (update_locality tableAB [rowB9] eq_refl rowB9_belongs)
    as (_ & Hframe & L & Hc & _ & Hok).
  change (Some <$> [rowB9]) with [Some rowB9] in *.
  split.
  - apply Hframe; vm_compute; reflexivity.
  - rewrite Hc. f_equal. rewrite Hok; vm_compute; reflexivity.
Qed.

(** C3: on a table whose column is named [a$$b], with an index on that
    column, [update] of a row whose value in the column changed from 1 to 2
    calls no index and stores nothing: the table is as it was and still
    answers 1.  The line that [markChangedColumns] runs for the column
    compares the property [a$b], because the column name was inserted as a
    replacement pattern.  On the table with the columns [a] and [b], the
    same change of [b] does reach the index on [b]. *)
Theorem update_misses_changed_column :
  newTable 0 ["a$$b"] = Ok tableDollars0
  /\ (_ ← indexOn ["a$$b"];
      insert (ArgArray [Some (rowOf [("a$$b", VNum 1)])])) tableDollars0
     = (tableDollars, Ok [Row {[ "a$$b" := VNum 1 ]} (DHandle 0 0)])
  /\ columns <$> indicies tableDollars = [["a$$b"]]
  /\ belongs tableDollars dollarsRow
  /\ cell (snapshotOf tableDollars dollarsRow) "a$$b" = VNum 1
  /\ cell dollarsRow "a$$b" = VNum 2
  /\ replacementOf "a$$b" = "a$b"
  /\ update (ArgArray [Some dollarsRow]) tableDollars = (tableDollars, Ok ())
  /\ (getRows tableDollars).2 = Ok [Row {[ "a$$b" := VNum 1 ]} (DHandle 0 0)]
  /\ calls (update (ArgArray [Some rowB9]) tableAB).1
     = calls tableAB ++ [CallRowsRemoved "[b]"; CallRowsAdded "[b]"].
Proof.
  split; [reflexivity|]. split; [vm_compute; reflexivity|].
  split; [reflexivity|]. split.
  { eexists _, _. split; reflexivity. }
  repeat split; vm_compute; reflexivity.
Qed.

(** ** The shape of the indexes of a reachable table *)

Section MergeShape.
Variable cb : callbacks.
Variable D : data -> Prop.
Variable mergeEntries : entry -> entry -> entry * option error.
Hypothesis processLeft_D : forall le prevR,
  D (eData le) -> D (eData (cbProcessLeftSideEntry cb le prevR)).
Hypothesis processRight_D : forall prevL re newEntry,
  D (eData re) -> cbProcessRightSideEntry cb prevL re = Ok (Some newEntry) ->
  D (eData newEntry).
Hypothesis mergeEntries_D : forall le re, D (eData le) -> D (eData re) ->
  D (eData (mergeEntries le re).1).

(** Whether it throws or not, the walk leaves entries of the same shape. *)
Lemma mergeWalk_shape (todo : list entry) :
  Forall (fun e => D (eData e)) todo ->
  forall rs, Forall (fun e => D (eData e)) rs ->
  forall done prevR, Forall (fun e => D (eData e)) done ->
  Forall (fun e => D (eData e))
    (mergeWalk cb mergeEntries todo done prevR rs).1.
Proof.
  induction 1 as [|le todo Hle Htodo IHtodo].
  - induction 1 as [|re rs Hre Hrs IHrs]; intros done prevR Hdone.
    + rewrite mergeWalk_nil_nil. apply Forall_reverse. exact Hdone.
    + rewrite mergeWalk_nil_cons.
      destruct (cbProcessRightSideEntry cb (head done) re) as [[n|]|e] eqn:Hr.
      * apply IHrs. constructor; [|exact Hdone]. eapply processRight_D; eauto.
      * apply IHrs. exact Hdone.
      * apply Forall_reverse. exact Hdone.
  - induction 1 as [|re rs Hre Hrs IHrs]; intros done prevR Hdone.
    + rewrite mergeWalk_cons_nil. apply IHtodo; [constructor|].
      constructor; [|exact Hdone]. apply processLeft_D. exact Hle.
    + rewrite mergeWalk_cons_cons.
      destruct (looseEq (eValue le) (eValue re)).
      * pose proof (mergeEntries_D le re Hle Hre) as Hm.
        destruct (mergeEntries le re) as [m [e|]]; simpl in Hm.
        -- simpl. apply Forall_app. split; [apply Forall_reverse; exact Hdone|].
           constructor; assumption.
        -- destruct (eSize m =? 0); apply IHtodo; auto.
      * destruct (jsLt (eValue le) (eValue re)).
        -- apply IHtodo; [constructor; assumption|].
           constructor; [|exact Hdone]. apply processLeft_D. exact Hle.
        -- destruct (cbProcessRightSideEntry cb (head done) re)
             as [[n|]|e] eqn:Hr.
           ++ apply IHrs. constructor; [|exact Hdone].
              eapply processRight_D; eauto.
           ++ apply IHrs. exact Hdone.
           ++ simpl. apply Forall_app.
              split; [apply Forall_reverse; exact Hdone|].
              constructor; assumption.
Qed.
End MergeShape.

Section CallbackShape.
Variable cb : callbacks.
Hypothesis left_data : forall le prevR,
  eData (cbProcessLeftSideEntry cb le prevR) = eData le.
Hypothesis right_data : forall prevL re newEntry,
  cbProcessRightSideEntry cb prevL re = Ok (Some newEntry) ->
  eData newEntry = eData re.
Hypothesis merge_rows : forall le re m a b,
  cbMergeLeftAndRightEntries cb le re true = Ok m ->
  eData le = RowData a -> eData re = RowData b -> exists c, eData m = RowData c.
Hypothesis merge_sub : forall le re m,
  cbMergeLeftAndRightEntries cb le re false = Ok m -> eData m = eData le.
Hypothesis totals : forall (P : entry -> Prop) left right b,
  Forall P left.1 -> Forall P (cbMergeTotals cb left right b).1.

(** Whether it throws or not, a merge leaves an index of the same depth. *)
Lemma mergeIndexRec_shape (depth : nat) : forall left right : level,
  shaped depth left.1 -> shaped depth right.1 ->
  shaped depth (mergeIndexRec cb depth left right).1.1.
Proof.
  induction depth as [|depth IH]; intros left right Hl Hr.
  2: destruct depth as [|depth].
  1,2: rewrite shaped_leaf in Hl, Hr |- * by lia;
       rewrite mergeIndexRec_leaf by lia;
       match goal with
       | |- context [mergeWalk cb ?me _ _ _ _] =>
           pose proof (mergeWalk_shape cb
             (fun d => match d with RowData _ => True | SubIndex _ _ => False end)
             me) as Hwalk
       end;
       match type of Hwalk with
       | ?A -> ?B -> ?C -> _ =>
           assert (HA : A); [|assert (HB : B); [|assert (HC : C);
             [|specialize (Hwalk HA HB HC left.1 Hl right.1 Hr [] None
                         ltac:(constructor))]]]
       end.
  1,5: intros le prevR H; rewrite left_data; exact H.
  1,4: intros prevL re n H Hn; rewrite (right_data _ _ _ Hn); exact H.
  1,3: intros le re Hle Hre;
       destruct (cbMergeLeftAndRightEntries cb le re true) as [m|e] eqn:Hm;
       [|exact Hle];
       destruct (eData le) as [a|] eqn:Ha, (eData re) as [b|] eqn:Hb;
       try contradiction;
       destruct (merge_rows le re m a b Hm Ha Hb) as [c Hc];
       simpl; rewrite Hc; exact I.
  1,2: destruct (mergeWalk cb _ left.1 [] None right.1) as [es [e|]];
       simpl in *; [exact Hwalk|apply totals; exact Hwalk].
  change (shaped (S (S depth)) left.1) with
    (Forall (fun e => match eData e with
                      | SubIndex sub _ => shaped (S depth) sub
                      | RowData _ => False
                      end) left.1) in Hl.
  change (shaped (S (S depth)) right.1) with
    (Forall (fun e => match eData e with
                      | SubIndex sub _ => shaped (S depth) sub
                      | RowData _ => False
                      end) right.1) in Hr.
  set (me := fun leftEntry rightEntry : entry =>
    match eData leftEntry, eData rightEntry with
    | SubIndex le lt, SubIndex re rt =>
        match mergeIndexRec cb (S depth) (le, lt) (re, rt) with
        | (sub, Some e) => (withData leftEntry (SubIndex sub.1 sub.2), Some e)
        | (sub, None) =>
            match cbMergeLeftAndRightEntries cb
                    (withData leftEntry (SubIndex sub.1 sub.2)) rightEntry
                    false with
            | Ok merged => (merged, None)
            | Err e => (withData leftEntry (SubIndex sub.1 sub.2), Some e)
            end
        end
    | _, _ =>
        (leftEntry, Some (TypeError "index data is not an array of entries"))
    end).
  assert (Hunfold : mergeIndexRec cb (S (S depth)) left right
    = match mergeWalk cb me left.1 [] None right.1 with
      | (entries, Some e) => ((entries, left.2), Some e)
      | (entries, None) => (cbMergeTotals cb (entries, left.2) right false, None)
      end) by reflexivity.
  rewrite Hunfold.
  assert (Hwalk : Forall (fun e => match eData e with
                                   | SubIndex sub _ => shaped (S depth) sub
                                   | RowData _ => False
                                   end)
                    (mergeWalk cb me left.1 [] None right.1).1).
  { apply (mergeWalk_shape cb
             (fun d => match d with
                       | SubIndex sub _ => shaped (S depth) sub
                       | RowData _ => False
                       end) me); auto.
    - intros le prevR H. rewrite left_data. exact H.
    - intros prevL re n H Hn. rewrite (right_data _ _ _ Hn). exact H.
    - intros le re Hle Hre. subst me. cbv beta.
      destruct (eData le) as [|l lt] eqn:El, (eData re) as [|r rt] eqn:Er;
        try contradiction.
      pose proof (IH (l, lt) (r, rt) Hle Hre) as Hsub.
      destruct (mergeIndexRec cb (S depth) (l, lt) (r, rt)) as [sub [e|]];
        simpl in Hsub; [exact Hsub|].
      destruct (cbMergeLeftAndRightEntries cb
                  (withData le (SubIndex sub.1 sub.2)) re false) as [m|e] eqn:Hm.
      + simpl. rewrite (merge_sub _ _ _ Hm). exact Hsub.
      + exact Hsub. }
  destruct (mergeWalk cb me left.1 [] None right.1) as [es [e|]];
    simpl in *.
  - exact Hwalk.
  - change (Forall (fun e => match eData e with
                             | SubIndex sub _ => shaped (S depth) sub
                             | RowData _ => False
                             end)
              (cbMergeTotals cb (es, left.2) right false).1).
    apply totals. exact Hwalk.
Qed.
End CallbackShape.

Lemma mergeIndexRec_add_shape (depth : nat) (left right : level) :
  shaped depth left.1 -> shaped depth right.1 ->
  shaped depth (mergeIndexRec addCallbacks depth left right).1.1.
Proof.
  apply mergeIndexRec_shape.
  - intros le [p|]; reflexivity.
  - intros prevL re n H. simpl in H. simplify_eq. reflexivity.
  - intros le re m a b H Ha Hb. simpl in H. rewrite Ha, Hb in H. simpl in H.
    simplify_eq. eexists. reflexivity.
  - intros le re m H. simpl in H. simplify_eq. reflexivity.
  - intros P left0 right0 b H. simpl. apply Forall_sort. exact H.
Qed.

Lemma mergeIndexRec_remove_shape (depth : nat) (left right : level) :
  shaped depth left.1 -> shaped depth right.1 ->
  shaped depth (mergeIndexRec removeCallbacks depth left right).1.1.
Proof.
  apply mergeIndexRec_shape.
  - intros le [p|]; reflexivity.
  - intros prevL re n H. simpl in H. discriminate.
  - intros le re m a b H Ha Hb. simpl in H. rewrite Ha, Hb in H. simpl in H.
    simplify_eq. eexists. reflexivity.
  - intros le re m H. simpl in H. simplify_eq. reflexivity.
  - intros P left0 right0 b H. exact H.
Qed.

(** Whether they throw or not, [rowsAdded] and [rowsRemoved] keep the shape
    of an index. *)
Lemma wellShaped_rowsAdded (ix : Index) (rs : rowArray) :
  wellShaped ix -> wellShaped (rowsAdded ix rs).1.
Proof.
  intros [Hcols Hshape]. unfold rowsAdded, buildIndex.
  destruct (definedRows rs) as [rows|e]; simpl; [|split; assumption].
  destruct (buildIndexRec_shaped (columns ix) Hcols rows) as (right & -> & Hr).
  unfold mergeIndex.
  pose proof (mergeIndexRec_add_shape (length (columns ix))
                (index ix, indexTotal ix) right Hshape Hr) as H.
  destruct (mergeIndexRec _ _ _ _) as [lvl err]. split; assumption.
Qed.

Lemma wellShaped_rowsRemoved (ix : Index) (rs : rowArray) :
  wellShaped ix -> wellShaped (rowsRemoved ix rs).1.
Proof.
  intros [Hcols Hshape]. unfold rowsRemoved, buildIndex.
  destruct (definedRows rs) as [rows|e]; simpl; [|split; assumption].
  destruct (buildIndexRec_shaped (columns ix) Hcols rows) as (right & -> & Hr).
  unfold mergeIndex.
  pose proof (mergeIndexRec_remove_shape (length (columns ix))
                (index ix, indexTotal ix) right Hshape Hr) as H.
  destruct (mergeIndexRec _ _ _ _) as [lvl err]. split; assumption.
Qed.

Lemma keeps_bind {A B} (P : Index -> Prop) (m : op A) (k : A -> op B) :
  keeps P m -> (forall a, keeps P (k a)) -> keeps P (m ≫= k).
Proof.
  intros Hm Hk t Ht. rewrite op_bind_unfold. specialize (Hm t Ht).
  destruct (m t) as [t1 [a|e]]; simpl in *; [apply Hk|]; exact Hm.
Qed.

Lemma keeps_frames {A} (P : Index -> Prop) (m : op A) : frames m -> keeps P m.
Proof. intros Hm t Ht. destruct (Hm t) as [-> _]. exact Ht. Qed.

Lemma keeps_same {A} (P : Index -> Prop) (m : op A) :
  (forall t, indicies (m t).1 = indicies t) -> keeps P m.
Proof. intros Hm t Ht. rewrite Hm. exact Ht. Qed.

Lemma keeps_callIndex (P : Index -> Prop) (k : nat)
    (call : string -> indexCall) (f : Index -> Index * option error) :
  (forall ix, P ix -> P (f ix).1) -> keeps P (callIndex k call f).
Proof.
  intros Hf t Ht. unfold callIndex.
  destruct (indicies t !! k) as [ix|] eqn:Hk; [|exact Ht].
  pose proof (Hf ix (Forall_lookup_1 _ _ _ _ Ht Hk)) as Hix.
  destruct (f ix) as [ix' err]. simpl in *.
  apply Forall_insert; assumption.
Qed.

Lemma keeps_each {A} (P : Index -> Prop) (f : A -> op ()) (l : list A) :
  (forall x, keeps P (f x)) -> keeps P (each f l).
Proof.
  intros Hf. induction l as [|x l IH]; simpl.
  - intros t Ht. exact Ht.
  - apply keeps_bind; [apply Hf|]. intros _. exact IH.
Qed.

Lemma keeps_eachIndex (P : Index -> Prop) (f : nat -> op ()) :
  (forall k, keeps P (f k)) -> keeps P (eachIndex f).
Proof.
  intros Hf. unfold eachIndex. apply keeps_bind.
  - intros t Ht. exact Ht.
  - intros t. apply keeps_each. exact Hf.
Qed.

Lemma keeps_collect {A B} (P : Index -> Prop) (f : A -> op B) (l : list A) :
  (forall x, keeps P (f x)) -> keeps P (collect f l).
Proof.
  intros Hf. induction l as [|x l IH]; simpl.
  - intros t Ht. exact Ht.
  - apply keeps_bind; [apply Hf|]. intros y.
    apply keeps_bind; [exact IH|]. intros ys t Ht. exact Ht.
Qed.

Ltac keeps_step :=
  first
    [ apply keeps_bind; [|intros ?]
    | apply keeps_eachIndex; intros ?
    | apply keeps_each; intros ?
    | apply keeps_collect; intros ?
    | apply keeps_callIndex; intros ? ?
    | apply keeps_frames; first [apply frames_checkActive | apply frames_closureOf
                                | apply frames_storeRow]
    | (apply keeps_same; intros ?; reflexivity) ].

Lemma keeps_validate (P : Index -> Prop) : keeps P tableValidateIndex.
Proof.
  unfold tableValidateIndex. repeat keeps_step. assumption.
Qed.

Lemma keeps_whenParanoid (P : Index -> Prop) (m : op ()) :
  keeps P m -> keeps P (whenParanoid m).
Proof.
  intros Hm. unfold whenParanoid. apply keeps_bind.
  - intros t Ht. exact Ht.
  - intros t. destruct (paranoia t); [exact Hm|]. intros t' Ht'. exact Ht'.
Qed.

Ltac frames_done := intros ?; split; reflexivity.

Lemma frames_insertRow (r : option row) : frames (insertRow r).
Proof.
  unfold insertRow. destruct r as [r|]; [|frames_done].
  destruct (dollarTruthy (rowDollar r)); frames_done.
Qed.

Lemma frames_checkTableIdentity (r : option row) : frames (checkTableIdentity r).
Proof.
  unfold checkTableIdentity. destruct r as [r|]; [|frames_done].
  destruct (rowDollar r) as [tid h| |v]; [|frames_done..].
  intros t. rewrite op_bind_unfold. simpl.
  destruct (bool_decide (tid = id t)); split; reflexivity.
Qed.

Lemma frames_original (r : option row) : frames (original r).
Proof.
  unfold original. apply frames_bind; [apply frames_checkActive|]. intros _.
  apply frames_bind; [apply frames_closureOf|]. intros hc. frames_done.
Qed.

Lemma frames_rowIndex (r : option row) : frames (rowIndex r).
Proof.
  unfold rowIndex. apply frames_bind; [apply frames_checkActive|]. intros _.
  apply frames_bind; [apply frames_closureOf|]. intros hc. frames_done.
Qed.

Lemma frames_setRowIndex (r : option row) (i : nat) : frames (setRowIndex r i).
Proof.
  unfold setRowIndex. apply frames_bind; [apply frames_checkActive|]. intros _.
  apply frames_bind; [apply frames_closureOf|]. intros hc. frames_done.
Qed.

Lemma frames_removeRow (r : row) : frames (removeRow r).
Proof.
  unfold removeRow. apply frames_bind; [frames_done|]. intros t.
  apply frames_bind.
  - destruct (1 <? length (rows t))%nat; [|frames_done].
    apply frames_bind; [apply frames_rowIndex|]. intros i.
    apply frames_bind; [frames_done|]. intros _. apply frames_setRowIndex.
  - intros _. unfold shrinkRows. apply frames_bind; [frames_done|]. intros t'.
    destruct (rows t'); frames_done.
Qed.

Lemma frames_findChanged (rs : rowArray) :
  forall acc, frames (findChanged rs acc).
Proof.
  induction rs as [|r rs IH]; intros acc; simpl; [frames_done|].
  apply frames_bind; [apply frames_checkTableIdentity|]. intros _.
  apply frames_bind; [apply frames_original|]. intros o.
  apply frames_bind; [frames_done|]. intros t.
  apply frames_bind; [apply IH|]. intros res. frames_done.
Qed.

Lemma frames_collect {A B} (f : A -> op B) (l : list A) :
  (forall x, frames (f x)) -> frames (collect f l).
Proof.
  intros Hf. induction l as [|x l IH]; simpl; [frames_done|].
  apply frames_bind; [apply Hf|]. intros y.
  apply frames_bind; [exact IH|]. intros ys. frames_done.
Qed.

Lemma keeps_insert (rows : rowsArg) : keeps wellShaped (insert rows).
Proof.
  unfold insert. apply keeps_bind; [apply keeps_frames, frames_checkActive|].
  intros _. apply keeps_bind.
  { apply keeps_frames, frames_collect, frames_insertRow. }
  intros result. apply keeps_bind.
  { apply keeps_eachIndex. intros k. apply keeps_callIndex.
    intros ix. apply wellShaped_rowsAdded. }
  intros _. apply keeps_bind; [apply keeps_whenParanoid, keeps_validate|].
  intros _. apply keeps_frames. apply frames_bind; [frames_done|].
  intros t. frames_done.
Qed.

Lemma keeps_remove (rows : rowsArg) : keeps wellShaped (remove rows).
Proof.
  unfold remove. apply keeps_bind; [apply keeps_frames, frames_checkActive|].
  intros _. apply keeps_bind.
  { apply keeps_frames, frames_collect. intros r.
    apply frames_bind; [apply frames_checkTableIdentity|]. intros _.
    apply frames_original. }
  intros origRows. apply keeps_bind.
  { apply keeps_eachIndex. intros k. apply keeps_callIndex.
    intros ix. apply wellShaped_rowsRemoved. }
  intros _. apply keeps_bind.
  { apply keeps_frames, frames_each, frames_removeRow. }
  intros _. apply keeps_whenParanoid, keeps_validate.
Qed.

Lemma keeps_update (rows : rowsArg) : keeps wellShaped (update rows).
Proof.
  unfold update. apply keeps_bind; [apply keeps_frames, frames_checkActive|].
  intros _. apply keeps_bind; [apply keeps_frames, frames_findChanged|].
  intros [rs changed]. apply keeps_bind.
  { apply keeps_frames, frames_collect, frames_original. }
  intros oldRows. destruct rs as [|r rs]; [intros t Ht; exact Ht|].
  apply keeps_bind.
  - apply keeps_eachIndex. intros k. unfold updateIndex.
    apply keeps_bind; [intros t Ht; exact Ht|]. intros t.
    destruct (from_option (touches changed) false (indicies t !! k));
      [|intros t' Ht'; exact Ht'].
    apply keeps_bind.
    { apply keeps_callIndex. intros ix. apply wellShaped_rowsRemoved. }
    intros _. apply keeps_bind.
    { apply keeps_whenParanoid, keeps_callIndex. intros ix H. exact H. }
    intros _. apply keeps_bind.
    { apply keeps_callIndex. intros ix. apply wellShaped_rowsAdded. }
    intros _. apply keeps_whenParanoid, keeps_callIndex. intros ix H. exact H.
  - intros _. apply keeps_frames, frames_each, frames_storeRow.
Qed.

Lemma checkColumnNames_nonempty (names : list string) sup :
  checkColumnNames names sup = Ok () -> names <> [].
Proof. destruct names; [discriminate|discriminate]. Qed.

Lemma shaped_nil (depth : nat) : shaped depth [].
Proof. destruct depth as [|[|depth]]; constructor. Qed.

Lemma keeps_indexOn (names : list string) : keeps wellShaped (indexOn names).
Proof.
  intros t Ht. unfold indexOn. rewrite op_bind_unfold.
  unfold checkActive. destruct (active t); [|exact Ht].
  rewrite !op_bind_unfold. cbn [get lift].
  destruct (checkColumnNames names (Some (columnNames t))) as [u|e] eqn:Hnames;
    [destruct u|exact Ht].
  destruct (List.find _ (indicies t)); [exact Ht|].
  assert (Hnew : wellShaped (rowsAdded (newIndex names) (rows t)).1).
  { apply wellShaped_rowsAdded. split; [|apply shaped_nil].
    apply checkColumnNames_nonempty in Hnames. exact Hnames. }
  destruct (rowsAdded (newIndex names) (rows t)) as [ix [e|]]; simpl in *.
  - exact Ht.
  - apply Forall_app. split; [exact Ht|]. constructor; [exact Hnew|constructor].
Qed.

(** The indexes of a reachable table have the shape of their column
    lists. *)
Lemma reachable_wellShaped (t : Table) :
  reachable t -> Forall wellShaped (indicies t).
Proof.
  induction 1 as [id names t Hnew| | | | | | | |].
  - unfold newTable in Hnew.
    destruct (checkColumnNames names None); simpl in Hnew; simplify_eq.
    constructor.
  - apply keeps_insert. assumption.
  - apply keeps_update. assumption.
  - apply keeps_remove. assumption.
  - apply keeps_indexOn. assumption.
  - apply keeps_validate. assumption.
  - unfold paranoiaSet. rewrite op_bind_unfold. unfold checkActive.
    destruct (active t); assumption.
  - unfold verboseSet. rewrite op_bind_unfold. unfold checkActive.
    destruct (active t); assumption.
  - unfold tableDrop. rewrite op_bind_unfold. unfold checkActive.
    destruct (active t); assumption.
Qed.

Lemma reachable_indexedColumns (t : Table) : reachable t -> indexedColumns t.
Proof.
  intros H. eapply Forall_impl; [exact (reachable_wellShaped t H)|].
  intros ix [Hcols _]. exact Hcols.
Qed.

(** The example tables are reachable. *)
Lemma reachable_tableA5 : reachable tableA5.
Proof.
  pose proof (reach_insert _ (ArgArray [Some (rowOf [("a", VNum 5)])])
                (reach_paranoia _ (VBool true)
                   (reach_index _ ["a"] (reach_new 0 ["a"] tableA eq_refl))))
    as H.
  vm_compute in H. exact H.
Qed.

(** ** [simpleLog2Cost] *)

Lemma toInt32_small (n : Z) : 0 <= n < 2 ^ 31 -> toInt32 n = n.
Proof.
  intros Hn. unfold toInt32. rewrite Z.mod_small by lia.
  destruct (Z.ltb_spec n (2 ^ 31)); lia.
Qed.

Lemma toInt32_range (n : Z) : - 2 ^ 31 <= toInt32 n < 2 ^ 31.
Proof.
  unfold toInt32. pose proof (Z.mod_pos_bound n (2 ^ 32) ltac:(lia)).
  destruct (Z.ltb_spec (n mod 2 ^ 32) (2 ^ 31)); lia.
Qed.

Lemma log2Loop_S (fuel : nat) (size log : Z) :
  log2Loop (S fuel) size log
  = if size >? 0 then log2Loop fuel (Z.shiftr (toInt32 size) 1) (log + 1)
    else Some log.
Proof. reflexivity. Qed.

Lemma log2_half (size : Z) : 1 < size -> Z.log2 size = Z.log2 (size / 2) + 1.
Proof.
  intros Hsize.
  assert (Hhalf : 0 < size / 2) by (Z.to_euclidean_division_equations; lia).
  pose proof (Z.log2_nonneg (size / 2)) as Hk.
  destruct (Z.log2_spec (size / 2) Hhalf) as [Hlo Hhi].
  apply Z.log2_unique; [lia|].
  rewrite <- !Z.add_1_r, !Z.pow_add_r in * by lia. change (2 ^ 1) with 2 in *.
  Z.to_euclidean_division_equations. lia.
Qed.

Lemma log2Loop_small (fuel : nat) : forall size log : Z,
  0 < size < 2 ^ Z.of_nat fuel -> Z.of_nat fuel <= 31 ->
  log2Loop fuel size log = Some (log + Z.log2 size + 1).
Proof.
  induction fuel as [|fuel IH]; intros size log Hsize Hfuel.
  - simpl in Hsize. lia.
  - rewrite log2Loop_S. destruct (Z.gtb_spec size 0); [|lia].
    assert (H31 : 2 ^ Z.of_nat (S fuel) <= 2 ^ 31)
      by (apply Z.pow_le_mono_r; lia).
    rewrite toInt32_small by lia.
    rewrite Z.shiftr_div_pow2 by lia. change (2 ^ 1) with 2.
    destruct (Z.eq_dec size 1) as [->|Hne].
    + change (1 / 2) with 0.
      assert (log2Loop fuel 0 (log + 1) = Some (log + 1)) as ->
        by (destruct fuel; reflexivity).
      f_equal. change (Z.log2 1) with 0. lia.
    + assert (Hhalf : 0 < size / 2) by (Z.to_euclidean_division_equations; lia).
      rewrite IH.
      * f_equal. rewrite (log2_half size) by lia. lia.
      * split; [lia|]. rewrite Nat2Z.inj_succ, Z.pow_succ_r in Hsize by lia.
        Z.to_euclidean_division_equations. lia.
      * lia.
Qed.

Lemma log2Loop_ends (size log : Z) :
  exists k, log2Loop 32 size log = Some k /\ log <= k <= log + 32.
Proof.
  rewrite log2Loop_S. destruct (Z.gtb_spec size 0); [|exists log; split; [reflexivity|lia]].
  set (s := Z.shiftr (toInt32 size) 1).
  assert (Hs : s < 2 ^ 30).
  { subst s. rewrite Z.shiftr_div_pow2 by lia. change (2 ^ 1) with 2.
    pose proof (toInt32_range size). Z.to_euclidean_division_equations. lia. }
  destruct (Z.le_gt_cases s 0) as [Hle|Hgt].
  - exists (log + 1). split; [|lia].
    change 31%nat with (S 30). rewrite log2Loop_S.
    destruct (Z.gtb_spec s 0); [lia|reflexivity].
  - assert (Hlog : Z.log2 s < 30) by (apply Z.log2_lt_pow2; lia).
    pose proof (Z.log2_nonneg s).
    exists (log + 1 + Z.log2 s + 1). split; [|lia].
    apply log2Loop_small; [|lia]. change (Z.of_nat 31) with 31. lia.
Qed.

(** X2: the loop of [simpleLog2Cost] ends within 32 turns for every size;
    the result is 0 for a size that is not positive, and for a positive
    size below 2^31 it is the number of binary digits of the size, [Z.log2
    size + 1]. *)
Theorem simpleLog2Cost_bits (size : Z) :
  (exists k, simpleLog2Cost size = Some k /\ 0 <= k <= 32)
  /\ (size <= 0 -> simpleLog2Cost size = Some 0)
  /\ (0 < size < 2 ^ 31 ->
      simpleLog2Cost size = Some (Z.log2 size + 1)
      /\ 2 ^ (Z.log2 size) <= size < 2 ^ (Z.log2 size + 1)).
Proof.
  split; [|split].
  - apply log2Loop_ends.
  - intros Hle. unfold simpleLog2Cost. rewrite log2Loop_S.
    destruct (Z.gtb_spec size 0); [lia|reflexivity].
  - intros Hsize. split.
    + unfold simpleLog2Cost.
      rewrite log2Loop_S. destruct (Z.gtb_spec size 0); [|lia].
      rewrite toInt32_small by lia.
      rewrite Z.shiftr_div_pow2 by lia. change (2 ^ 1) with 2.
      destruct (Z.eq_dec size 1) as [->|Hne]; [reflexivity|].
      rewrite (log2Loop_small 31); [| |lia].
      * f_equal. rewrite (log2_half size) by lia. lia.
      * change (Z.of_nat 31) with 31. Z.to_euclidean_division_equations. lia.
    + rewrite Z.add_1_r. apply Z.log2_spec. lia.
Qed.

(** ** Binary search with any comparator *)

Section BinarySearchAny.
Context {E V : Type}.
Variable truthyElement : E -> bool.
Variable comparator : E -> V -> Z.
Variable index : list E.
Variable value : V.

Lemma searchLoop_range (fuel : nat) : forall l r : Z,
  -1 <= l < r -> r <= Z.of_nat (length index) ->
  exists p, searchLoop comparator fuel index value l r = Ok p /\ l < p <= r.
Proof.
  induction fuel as [|fuel IH]; intros l r Hlr Hr; simpl.
  - destruct (r - l >? 1); exists r; split; auto; lia.
  - destruct (Z.gtb_spec (r - l) 1) as [Hgt|Hle].
    + set (m := Z.shiftr (r + l) 1).
      assert (Hm : l < m < r).
      { subst m. rewrite Z.shiftr_div_pow2 by lia.
        change (2 ^ 1) with 2. Z.to_euclidean_division_equations. lia. }
      destruct (at_in_range index m) as [e He]; [lia|]. rewrite He.
      destruct (comparator e value <? 0).
      * destruct (IH m r) as (p & Hp & ?); [lia..|]. exists p. split; [exact Hp|lia].
      * destruct (IH l m) as (p & Hp & ?); [lia..|]. exists p. split; [exact Hp|lia].
    + exists r. split; [reflexivity|lia].
Qed.

(** X1: over the whole index, [binarySearch] returns for every comparator
    and every index, sorted or not; the result lies between -1 and the
    length of the index, and when it is a position of the index, the
    comparator is 0 on the entry at that position. *)
Theorem binarySearch_any_comparator :
  exists h, binarySearch truthyElement comparator index value None None = Ok h
    /\ twice (ofInt (-1)) <= twice h <= twice (ofInt (Z.of_nat (length index)))
    /\ (forall i : nat, (i < length index)%nat -> h = ofInt (Z.of_nat i) ->
          exists e, index !! i = Some e /\ comparator e value = 0).
Proof.
  unfold binarySearch. simpl.
  destruct index as [|e0 index'] eqn:Hindex.
  - exists (ofInt (-1)). split; [reflexivity|]. split; [simpl; lia|].
    intros i Hi. simpl in Hi. lia.
  - rewrite <- Hindex. set (len := Z.of_nat (length index)).
    assert (Hlen : 0 < len) by (subst len; rewrite Hindex; simpl; lia).
    destruct (searchLoop_range (Z.to_nat (len - -1)) (-1) len) as (p & Hp & Hrange);
      [lia..|].
    rewrite Hp. simpl. eexists. split; [reflexivity|].
    unfold clampResult, hltb, ofInt, minusHalf.
    destruct (at_ index p) as [e|] eqn:He;
      [destruct (truthyElement e); destruct (Z.eqb_spec (comparator e value) 0)|];
      simpl;
      repeat match goal with |- context [?a <? ?b] => destruct (Z.ltb_spec a b) end;
      simpl; (split; [lia|]); intros i Hi Heq; inversion Heq; try lia.
    exists e. split; [|assumption].
    apply at_Some in He as [? He]. replace i with (Z.to_nat p) by lia. exact He.
Qed.
End BinarySearchAny.

(** ** The names [checkColumnNames] accepts *)

Lemma checkNamesFrom_Ok (superSet : option (list string)) (names : list string) :
  forall cNames : list string,
  checkNamesFrom cNames superSet names = Ok ()
  <-> Forall (fun n => validName n = true) names
      /\ NoDup names
      /\ Forall (fun n => n ∉ cNames) names
      /\ (forall sup, superSet = Some sup -> Forall (fun n => n ∈ sup) names).
Proof.
  induction names as [|name rest IH]; intros cNames; simpl.
  - split; [|reflexivity]. intros _. repeat split; try constructor.
  - destruct (validName name) eqn:Hvalid; simpl.
    2: { split; [discriminate|]. intros (Hv & _). inversion Hv. congruence. }
    destruct (bool_decide_reflect (name ∈ cNames)) as [Hin|Hnotin].
    { split; [discriminate|]. intros (_ & _ & Hc & _). inversion Hc. contradiction. }
    destruct superSet as [sup|]; simpl.
    + destruct (bool_decide_reflect (name ∈ sup)) as [Hsup|Hnsup]; simpl.
      * rewrite IH. split.
        -- intros (Hv & Hnd & Hc & Hs). repeat split.
           ++ constructor; assumption.
           ++ constructor; [|assumption]. intros Hrest.
              apply (proj1 (Forall_forall _ _) Hc name Hrest). left.
           ++ constructor; [assumption|].
              eapply Forall_impl; [exact Hc|]. intros x Hx Hin. apply Hx. by right.
           ++ intros sup' [= <-]. constructor; [assumption|]. by apply Hs.
        -- intros (Hv & Hnd & Hc & Hs).
           apply Forall_cons in Hv as [_ Hv]. apply NoDup_cons in Hnd as [Hn Hnd].
           apply Forall_cons in Hc as [_ Hc].
           split; [exact Hv|]. split; [exact Hnd|]. split.
           ++ apply Forall_forall. intros x Hx Hin.
              apply elem_of_cons in Hin as [->|Hin]; [contradiction|].
              by apply (proj1 (Forall_forall _ _) Hc x Hx).
           ++ intros sup' Heq. specialize (Hs sup' Heq).
              by apply Forall_cons in Hs as [_ Hs].
      * split; [discriminate|]. intros (_ & _ & _ & Hs).
        specialize (Hs sup eq_refl). inversion Hs. contradiction.
    + rewrite IH. split.
      * intros (Hv & Hnd & Hc & Hs). repeat split.
        -- constructor; assumption.
        -- constructor; [|assumption]. intros Hrest.
           apply (proj1 (Forall_forall _ _) Hc name Hrest). left.
        -- constructor; [assumption|].
           eapply Forall_impl; [exact Hc|]. intros x Hx Hin. apply Hx. by right.
        -- discriminate.
      * intros (Hv & Hnd & Hc & Hs).
        apply Forall_cons in Hv as [_ Hv]. apply NoDup_cons in Hnd as [Hn Hnd].
        apply Forall_cons in Hc as [_ Hc].
        split; [exact Hv|]. split; [exact Hnd|]. split; [|discriminate].
        apply Forall_forall. intros x Hx Hin.
        apply elem_of_cons in Hin as [->|Hin]; [contradiction|].
        by apply (proj1 (Forall_forall _ _) Hc x Hx).
Qed.

(** X3: [checkColumnNames] returns without a throw exactly when the list
    of names is not empty, every name matches the pattern of a name, no
    name occurs twice, no name is a property of [Object.prototype], and
    every name is in the superset when one is given. *)
Theorem checkColumnNames_accepts (names : list string)
    (superSet : option (list string)) :
  checkColumnNames names superSet = Ok ()
  <-> names <> []
      /\ Forall (fun n => validName n = true) names
      /\ NoDup names
      /\ Forall (fun n => n ∉ objectPrototypeNames) names
      /\ (forall sup, superSet = Some sup -> Forall (fun n => n ∈ sup) names).
Proof.
  unfold checkColumnNames. destruct names as [|name rest].
  - split; [discriminate|]. intros (Hne & _). contradiction.
  - rewrite checkNamesFrom_Ok. split.
    + intros H. split; [discriminate|exact H].
    + intros (_ & H). exact H.
Qed.

(** ** [uniq] *)

Lemma uniq_elem (l : list value) : forall (seen : list value) (x : value),
  x ∈ uniq seen l <-> x ∈ l /\ x ∉ seen.
Proof.
  induction l as [|v l IH]; intros seen x; simpl.
  - split; [intros H; by apply elem_of_nil in H|intros [H _]; by apply elem_of_nil in H].
  - destruct (bool_decide_reflect (v ∈ seen)) as [Hin|Hnotin].
    + rewrite IH, elem_of_cons. split; [tauto|].
      intros [[->|Hx] Hs]; [contradiction|tauto].
    + rewrite !elem_of_cons, IH, elem_of_cons. split.
      * intros [->|[Hx Hs]]; [tauto|]. split; [tauto|]. intros H. apply Hs. by right.
      * intros [[->|Hx] Hs]; [by left|].
        destruct (decide (x = v)) as [->|Hne]; [by left|]. right.
        split; [exact Hx|]. intros [?|?]; contradiction.
Qed.

Lemma uniq_NoDup (l : list value) : forall seen : list value, NoDup (uniq seen l).
Proof.
  induction l as [|v l IH]; intros seen; simpl; [constructor|].
  destruct (bool_decide_reflect (v ∈ seen)); [apply IH|].
  constructor; [|apply IH]. rewrite uniq_elem. intros [_ H]. apply H. left.
Qed.

(** [uniq] goes through the array from the left: a value at the end of the
    array is added at the end of the result unless it occurred before. *)
Lemma uniq_snoc (l : list value) (x : value) : forall seen : list value,
  uniq seen (l ++ [x])
  = uniq seen l ++ (if bool_decide (x ∈ seen ++ l) then [] else [x]).
Proof.
  induction l as [|v l IH]; intros seen; cbn [app uniq].
  - rewrite app_nil_r. by destruct (bool_decide (x ∈ seen)).
  - destruct (bool_decide_reflect (v ∈ seen)) as [Hin|Hnotin].
    + rewrite IH. f_equal.
      rewrite (bool_decide_ext (x ∈ seen ++ l) (x ∈ seen ++ v :: l));
        [reflexivity|].
      rewrite !elem_of_app, elem_of_cons. split; [tauto|].
      intros [?|[->|?]]; tauto.
    + cbn [app]. rewrite IH. f_equal. f_equal.
      rewrite (bool_decide_ext (x ∈ (v :: seen) ++ l) (x ∈ seen ++ v :: l));
        [reflexivity|].
      rewrite !elem_of_app, !elem_of_cons. tauto.
Qed.

(** X4: [uniq] keeps the first occurrence of every value, in the order of
    the array: the result for an array with one more value at its end is
    the result for the array, followed by that value unless the array
    holds it already.  So the result has no value twice, has the values of
    the array and no others, and is a subsequence of the array. *)
Theorem uniq_first_occurrences (l : list value) :
  uniq [] [] = []
  /\ (forall x, uniq [] (l ++ [x])
                = uniq [] l ++ (if bool_decide (x ∈ l) then [] else [x]))
  /\ NoDup (uniq [] l)
  /\ (forall x, x ∈ uniq [] l <-> x ∈ l)
  /\ uniq [] l `sublist_of` l.
Proof.
  split; [reflexivity|]. split; [intros x; apply uniq_snoc|].
  split; [apply uniq_NoDup|]. split.
  - intros x. rewrite uniq_elem. split; [tauto|]. intros H. split; [exact H|].
    apply not_elem_of_nil.
  - generalize (@nil value). induction l as [|v l IH]; intros seen; simpl.
    + constructor.
    + destruct (bool_decide (v ∈ seen)).
      * apply sublist_cons, IH.
      * apply sublist_skip, IH.
Qed.

(** ** The full scan *)

Lemma includeOf_Compare (o : compareOp) (x : value) :
  exists f, includeOf (Compare o x) = Ok f
            /\ forall v, f v = Ok (VBool (holds o (Comparator v x))).
Proof. destruct o; eexists; (split; [reflexivity|]); intros v; reflexivity. Qed.

Lemma findAll_filter (f : value -> result value) (p : value -> bool)
    (name : string) (rs : list row) :
  (forall v, f v = Ok (VBool (p v))) ->
  findAll f name (Some <$> rs)
  = Ok (Some <$> filter (fun r => p (cell r name) = true) rs).
Proof.
  intros Hf. induction rs as [|r rs IH]; [reflexivity|].
  cbn [fmap list_fmap findAll]. change (list_fmap row (option row) Some rs) with (Some <$> rs).
  rewrite Hf, IH.
  destruct (p (cell r name)) eqn:Hp.
  - rewrite filter_cons_True by exact Hp. reflexivity.
  - rewrite filter_cons_False by congruence. reflexivity.
Qed.

Lemma applyUnused_comparisons (criteria : list criterion) :
  Forall isComparison criteria -> forall rs : list row,
  applyUnused criteria (Some <$> rs)
  = Ok (Some <$> filter (fun r => forallb (satisfies r) criteria = true) rs).
Proof.
  induction 1 as [|c criteria (o & x & Hc) _ IH]; intros rs.
  - cbn. rewrite filter_all; [reflexivity|]. by apply Forall_forall.
  - cbn [applyUnused]. rewrite Hc.
    destruct (includeOf_Compare o x) as (f & -> & Hf). cbn.
    rewrite (findAll_filter f (fun v => holds o (Comparator v x))) by exact Hf.
    cbn. rewrite IH. do 2 f_equal.
    assert (Hsat : forall r, satisfies r c
                             = holds o (Comparator (cell r (columnName c)) x)).
    { intros r. unfold satisfies. rewrite Hc. reflexivity. }
    induction rs as [|r rs IHrs]; [reflexivity|].
    destruct (holds o (Comparator (cell r (columnName c)) x)) eqn:Hh.
    + rewrite (filter_cons_True (fun r => holds o _ = true)) by exact Hh.
      destruct (forallb (satisfies r) criteria) eqn:Hall.
      * rewrite !filter_cons_True;
          [|cbn [forallb]; rewrite Hsat, Hh; exact Hall|exact Hall].
        f_equal. exact IHrs.
      * rewrite !filter_cons_False; [exact IHrs| |congruence].
        cbn [forallb]. rewrite Hsat, Hh, Hall. discriminate.
    + rewrite (filter_cons_False (fun r => holds o _ = true)) by congruence.
      rewrite filter_cons_False; [exact IHrs|].
      cbn [forallb]. rewrite Hsat, Hh. discriminate.
Qed.

Lemma singleRowCost_comparisons (criteria : list criterion) :
  Forall isComparison criteria ->
  calculateSingleRowCriteriaCost criteria
  = Ok (Some (Z.of_nat (length criteria))).
Proof.
  unfold calculateSingleRowCriteriaCost.
  generalize (Some (Z.of_nat (length criteria))). intros n Hall. revert n.
  induction Hall as [|c criteria (cmp & x & Hc) _ IH]; intros n; [reflexivity|].
  cbn. rewrite Hc. apply IH.
Qed.

Lemma mapM_cloneArg (names : list string) (rs : list row) :
  mapM (cloneArg names) (Some <$> rs) = Ok (clone names <$> rs).
Proof.
  induction rs as [|r rs IH]; [reflexivity|].
  cbn [fmap list_fmap mapM]. change (list_fmap row (option row) Some rs) with (Some <$> rs).
  rewrite IH. reflexivity.
Qed.

(** X6: on a live table without indexes whose row vector has no hole, the
    query of comparison criteria that compare strings with strings only,
    and other values with values that are not strings, leaves the table as
    it is and returns the clones of the rows that pass every comparison, in
    the order of the row vector. *)
Theorem full_scan_comparisons (estimate : Index -> list criterion -> num)
    (t : Table) (criteria : list criterion) (rs : list row) :
  active t = true -> indicies t = [] -> rows t = Some <$> rs ->
  Forall (plainComparison rs) criteria ->
  queryGetRows estimate criteria t
  = (t, Ok (clone (columnNames t)
              <$> filter (fun r => forallb (satisfies r) criteria = true) rs)).
Proof.
  intros Hlive Hix Hrows Hplain.
  assert (Hcmp : Forall isComparison criteria).
  { eapply Forall_impl; [exact Hplain|]. by intros c [? _]. }
  unfold queryGetRows.
  rewrite checkActive_live by exact Hlive.
  rewrite op_bind_unfold. cbn [get].
  rewrite op_bind_unfold. unfold lift at 1.
  rewrite (singleRowCost_comparisons criteria Hcmp).
  unfold bestCase. rewrite Hix. cbn [foldl worstCase reduceOf criteriaUnused].
  rewrite op_bind_unfold. unfold lift at 1. rewrite Hrows.
  rewrite op_bind_unfold. unfold lift at 1.
  rewrite (applyUnused_comparisons criteria Hcmp).
  unfold lift. rewrite mapM_cloneArg. reflexivity.
Qed.

(** ** Lookup in a sorted index of integers *)

Lemma sliceIndex_nonneg (len h : Z) : 0 <= h ->
  sliceIndex len (Half h) = Z.min (h / 2) len.
Proof.
  intros Hh. unfold sliceIndex. cbn [twice].
  rewrite Z.quot_div_nonneg by lia.
  destruct (Z.ltb_spec (h / 2) 0); [|reflexivity].
  Z.to_euclidean_division_equations. lia.
Qed.

Lemma slice_prefix {A} (a : list A) (h : Z) : 0 <= h ->
  slice a (ofInt 0) (Some (Half h)) = take (Z.to_nat (h / 2)) a.
Proof.
  intros Hh. unfold slice. cbn [from_option].
  rewrite sliceIndex_nonneg by exact Hh.
  unfold ofInt. rewrite sliceIndex_nonneg by lia.
  change (2 * 0 / 2) with 0.
  rewrite (Z.min_l 0) by lia. change (Z.to_nat 0) with 0%nat.
  rewrite drop_0, Z.sub_0_r.
  destruct (Z.le_ge_cases (h / 2) (Z.of_nat (length a))).
  - rewrite Z.min_l by lia. reflexivity.
  - rewrite Z.min_r by lia. rewrite Nat2Z.id.
    rewrite !firstn_all2; [reflexivity|lia..].
Qed.

Lemma slice_suffix {A} (a : list A) (h : Z) : 0 <= h ->
  slice a (Half h) None = drop (Z.to_nat (h / 2)) a.
Proof.
  intros Hh. unfold slice. cbn [from_option].
  rewrite sliceIndex_nonneg by exact Hh.
  assert (0 <= h / 2) by (Z.to_euclidean_division_equations; lia).
  destruct (Z.le_ge_cases (h / 2) (Z.of_nat (length a))).
  - rewrite Z.min_l by lia. apply firstn_all2. rewrite length_drop. lia.
  - rewrite Z.min_r by lia. rewrite Z.sub_diag. cbn [Z.to_nat take].
    symmetry. apply drop_ge. lia.
Qed.

Lemma slice_between {A} (a : list A) (b e : Z) : 0 <= b -> 0 <= e ->
  slice a (Half b) (Some (Half e))
  = take (Z.to_nat (e / 2) - Z.to_nat (b / 2)) (drop (Z.to_nat (b / 2)) a).
Proof.
  intros Hb He. unfold slice. cbn [from_option].
  rewrite !sliceIndex_nonneg by assumption.
  assert (0 <= b / 2) by (Z.to_euclidean_division_equations; lia).
  assert (0 <= e / 2) by (Z.to_euclidean_division_equations; lia).
  set (len := Z.of_nat (length a)).
  destruct (Z.le_ge_cases (b / 2) len), (Z.le_ge_cases (e / 2) len).
  - rewrite !Z.min_l by lia. f_equal. lia.
  - rewrite (Z.min_l (b / 2)), (Z.min_r (e / 2)) by lia.
    rewrite !firstn_all2; [reflexivity|rewrite length_drop; subst len; lia..].
  - rewrite (Z.min_r (b / 2)), (Z.min_l (e / 2)) by lia.
    rewrite (drop_ge a (Z.to_nat (b / 2))) by (subst len; lia).
    rewrite drop_ge by (subst len; lia). by rewrite !take_nil.
  - rewrite !Z.min_r by lia.
    rewrite (drop_ge a (Z.to_nat (b / 2))) by (subst len; lia).
    rewrite drop_ge by (subst len; lia). by rewrite !take_nil.
Qed.

Lemma filter_take {A} (P : A -> Prop) `{!forall x, Decision (P x)}
    (l : list A) (n : nat) :
  (forall i x, l !! i = Some x -> P x <-> (i < n)%nat) ->
  filter P l = take n l.
Proof.
  intros Hiff. rewrite <- (take_drop n l) at 1.
  rewrite filter_app, (filter_all P (take n l)), (filter_none P (drop n l)),
    app_nil_r; [reflexivity| |].
  - apply Forall_lookup. intros i x Hx. rewrite lookup_drop in Hx.
    rewrite (Hiff _ _ Hx). lia.
  - apply Forall_lookup. intros i x Hx. apply lookup_take_Some in Hx as [Hx Hi].
    by apply (Hiff _ _ Hx).
Qed.

Lemma filter_drop {A} (P : A -> Prop) `{!forall x, Decision (P x)}
    (l : list A) (n : nat) :
  (forall i x, l !! i = Some x -> P x <-> (n <= i)%nat) ->
  filter P l = drop n l.
Proof.
  intros Hiff. rewrite <- (take_drop n l) at 1.
  rewrite filter_app, (filter_none P (take n l)), (filter_all P (drop n l));
    [reflexivity| |].
  - apply Forall_lookup. intros i x Hx. rewrite lookup_drop in Hx.
    apply (Hiff _ _ Hx). lia.
  - apply Forall_lookup. intros i x Hx. apply lookup_take_Some in Hx as [Hx Hi].
    rewrite (Hiff _ _ Hx). lia.
Qed.

Lemma filter_range {A} (P : A -> Prop) `{!forall x, Decision (P x)}
    (l : list A) (b e : nat) :
  (forall i x, l !! i = Some x -> P x <-> (b <= i < e)%nat) ->
  filter P l = take (e - b) (drop b l).
Proof.
  intros Hiff. rewrite <- (take_drop b l) at 1.
  rewrite filter_app, filter_none.
  2: { apply Forall_lookup. intros i x Hx. apply lookup_take_Some in Hx as [Hx Hi].
       rewrite (Hiff _ _ Hx). lia. }
  cbn [app]. apply filter_take. intros i x Hx. rewrite lookup_drop in Hx.
  rewrite (Hiff _ _ Hx). lia.
Qed.

Lemma holds_compareValues (x : Z) (o : compareOp) (e : entry) (n : Z) :
  eValue e = VNum n ->
  holds o (compareValues e (VNum x))
  = match o with
    | OpEq => n =? x
    | OpNe => negb (n =? x)
    | OpLe => n <=? x
    | OpLt => n <? x
    | OpGe => x <=? n
    | OpGt => x <? n
    end.
Proof.
  intros Hn. unfold compareValues. rewrite Hn, Comparator_num.
  destruct o, (Z.compare_spec n x); cbn;
    repeat match goal with
           | |- context [?a =? ?b] => destruct (Z.eqb_spec a b)
           | |- context [?a <=? ?b] => destruct (Z.leb_spec a b)
           | |- context [?a <? ?b] => destruct (Z.ltb_spec a b)
           end; try reflexivity; lia.
Qed.

Section NumericLookup.
Variable entries : list entry.
Variable x : Z.
Hypothesis Hsorted : strictlySorted entries pluckValue.
Hypothesis Hnum : numericEntries entries.

Let len := Z.of_nat (length entries).
Let p := countBelow compareValues entries (VNum x).

Lemma numeric_lookup (i : nat) (e : entry) :
  entries !! i = Some e -> exists n, eValue e = VNum n.
Proof.
  intros He. apply (proj1 (Forall_forall _ _) Hnum e).
  by eapply list_elem_of_lookup_2.
Qed.

Lemma sorted_keys (i j : nat) (a b : entry) (m n : Z) :
  (i < j)%nat -> entries !! i = Some a -> entries !! j = Some b ->
  eValue a = VNum m -> eValue b = VNum n -> m < n.
Proof.
  intros Hij Ha Hb Hm Hn. pose proof (Hsorted i j a b Hij Ha Hb) as Hlt.
  unfold pluckValue in Hlt. rewrite Hm, Hn, Comparator_num in Hlt.
  destruct (Z.compare_spec m n); lia.
Qed.

Lemma compareValues_num (e : entry) (n : Z) : eValue e = VNum n ->
  compareValues e (VNum x)
  = match n ?= x with Eq => 0 | Lt => -1 | Gt => 1 end.
Proof. intros He. unfold compareValues. rewrite He. apply Comparator_num. Qed.

Lemma split_point : 0 <= p <= len /\
  forall (i : nat) (e : entry) (n : Z), entries !! i = Some e ->
    eValue e = VNum n -> (n < x <-> Z.of_nat i < p).
Proof.
  destruct (searchLoop_default compareValues entries (VNum x)) as (q & _ & Hq).
  { apply (sorted_partitioned _ _ _ pluckValue Hsorted).
    apply numeric_consistent. exact Hnum. }
  pose proof (splitsAt_count _ _ _ q Hq) as Hcount. fold p in Hcount. subst q.
  destruct Hq as (Hrange & Hlow & Hhigh). split; [exact Hrange|].
  intros i e n He Hn. split.
  - intros Hlt. destruct (Z.lt_ge_cases (Z.of_nat i) p) as [|Hge]; [assumption|].
    exfalso. apply (Hhigh (Z.of_nat i) e Hge).
    + apply at_Some. split; [lia|]. by rewrite Nat2Z.id.
    + rewrite (compareValues_num e n Hn). destruct (Z.compare_spec n x); lia.
  - intros Hlt. assert (Hc : compareValues e (VNum x) < 0).
    { apply (Hlow (Z.of_nat i)); [exact Hlt|].
      apply at_Some. split; [lia|]. by rewrite Nat2Z.id. }
    rewrite (compareValues_num e n Hn) in Hc. destruct (Z.compare_spec n x); lia.
Qed.

(** The element equal to [x], if any, sits at the split point. *)
Lemma equal_at_split (i : nat) (e : entry) :
  entries !! i = Some e -> eValue e = VNum x -> Z.of_nat i = p.
Proof.
  intros He Hx. destruct split_point as [Hrange Hsplit].
  pose proof (proj2 (Hsplit i e x He Hx)) as Hnot.
  destruct (Z.lt_trichotomy (Z.of_nat i) p) as [Hlt|[Heq|Hgt]]; [lia|exact Heq|].
  exfalso. destruct (lookup_lt_is_Some_2 entries (Z.to_nat p)) as [e' He'].
  { apply lookup_lt_Some in He. lia. }
  destruct (numeric_lookup _ _ He') as [n Hn].
  pose proof (sorted_keys (Z.to_nat p) i e' e n x ltac:(lia) He' He Hn Hx).
  pose proof (proj1 (Hsplit _ _ _ He' Hn)). lia.
Qed.

Lemma above_split (i : nat) (e : entry) (n : Z) :
  entries !! i = Some e -> eValue e = VNum n -> p < Z.of_nat i -> x < n.
Proof.
  intros He Hn Hi. destruct split_point as [Hrange Hsplit].
  destruct (lookup_lt_is_Some_2 entries (Z.to_nat p)) as [e' He'].
  { apply lookup_lt_Some in He. lia. }
  destruct (numeric_lookup _ _ He') as [m Hm].
  pose proof (sorted_keys (Z.to_nat p) i e' e m n ltac:(lia) He' He Hm Hn).
  destruct (Z.lt_ge_cases m x) as [Hlt|]; [|lia].
  apply (Hsplit _ _ _ He' Hm) in Hlt. lia.
Qed.

(** What the binary search answers. *)
Lemma binarySearch_numeric :
  binarySearch (fun _ => true) compareValues entries (VNum x) None None
  = Ok (match entries !! Z.to_nat p with
        | Some e => if bool_decide (eValue e = VNum x) then ofInt p
                    else insertionPoint entries p
        | None => insertionPoint entries p
        end).
Proof.
  destruct (searchLoop_default compareValues entries (VNum x)) as (q & Hloop & Hq).
  { apply (sorted_partitioned _ _ _ pluckValue Hsorted).
    apply numeric_consistent. exact Hnum. }
  pose proof (splitsAt_count _ _ _ q Hq) as Hcount. fold p in Hcount. subst q.
  destruct split_point as [Hrange Hsplit].
  unfold binarySearch. cbn [default]. rewrite Hloop. cbn [mbind result_bind].
  f_equal. unfold at_. destruct (Z.ltb_spec p 0); [lia|].
  destruct (entries !! Z.to_nat p) as [e|] eqn:He.
  - destruct (numeric_lookup _ _ He) as [n Hn].
    rewrite (compareValues_num e n Hn), Hn.
    assert (p < len) by (apply lookup_lt_Some in He; subst len; lia).
    destruct (bool_decide_reflect (VNum n = VNum x)) as [[= ->]|Hne].
    + rewrite Z.compare_refl. cbn. apply clampResult_exact. lia.
    + destruct (Z.compare_spec n x); [congruence|..]; cbn;
        apply clampResult_between; lia.
  - apply clampResult_between. lia.
Qed.

Lemma getIndexEntry_exact (e : entry) (beforeOrAfter : half) :
  entries !! Z.to_nat p = Some e -> eValue e = VNum x ->
  getIndexEntry entries (VNum x) beforeOrAfter
  = Ok (Probe true (ofInt p) (Some e)).
Proof.
  intros He Hx. unfold getIndexEntry. rewrite binarySearch_numeric, He.
  rewrite bool_decide_eq_true_2 by exact Hx. cbn [mbind result_bind].
  destruct split_point as [Hrange _].
  assert (Hp : p < len) by (apply lookup_lt_Some in He; subst len; lia).
  unfold isInteger, hleb, hltb, atHalf, isInteger, hfloor, ofInt. cbn [twice].
  rewrite Z.even_mul. cbn [Z.even orb andb].
  destruct (Z.leb_spec (2 * 0) (2 * p)); [|lia].
  destruct (Z.ltb_spec (2 * p) (2 * Z.of_nat (length entries)));
    [|subst len; lia].
  cbn [andb]. rewrite (Z.mul_comm 2 p), Z.div_mul by lia.
  unfold at_. destruct (Z.ltb_spec p 0); [lia|]. rewrite He. reflexivity.
Qed.

Lemma getIndexEntry_miss (beforeOrAfter : half) :
  (forall e, entries !! Z.to_nat p = Some e -> eValue e <> VNum x) ->
  getIndexEntry entries (VNum x) beforeOrAfter
  = Ok (Probe false (hadd (insertionPoint entries p) beforeOrAfter) None).
Proof.
  intros Hmiss. unfold getIndexEntry. rewrite binarySearch_numeric.
  destruct split_point as [Hrange _].
  assert (match entries !! Z.to_nat p with
          | Some e => if bool_decide (eValue e = VNum x) then ofInt p
                      else insertionPoint entries p
          | None => insertionPoint entries p
          end = insertionPoint entries p) as ->.
  { destruct (entries !! Z.to_nat p) as [e|] eqn:He; [|reflexivity].
    rewrite bool_decide_eq_false_2; [reflexivity|]. by apply Hmiss. }
  cbn [mbind result_bind].
  unfold insertionPoint, isInteger, hleb, hltb, ofInt, minusHalf. fold len.
  destruct (Z.eqb_spec p 0); [reflexivity|].
  destruct (Z.eqb_spec p len); cbn [twice].
  - destruct (Z.ltb_spec (2 * len) (2 * len)); [lia|].
    by rewrite !andb_false_r.
  - replace (2 * p - 1) with (1 + 2 * (p - 1)) by lia.
    rewrite Z.even_add_mul_2. reflexivity.
Qed.

(** The order of the value of an entry against [x], by its position. *)
Lemma order_by_position (i : nat) (e : entry) :
  entries !! i = Some e ->
  exists n, eValue e = VNum n
    /\ (n < x <-> Z.of_nat i < p)
    /\ (n = x -> Z.of_nat i = p)
    /\ (p < Z.of_nat i -> x < n).
Proof.
  intros He. destruct (numeric_lookup _ _ He) as [n Hn]. exists n.
  destruct split_point as [_ Hsplit].
  split; [exact Hn|]. split; [exact (Hsplit i e n He Hn)|]. split.
  - intros ->. by apply (equal_at_split i e).
  - by apply (above_split i e n).
Qed.

End NumericLookup.

Lemma slice_from_minus_half {A} (a : list A) : slice a (Half (-1)) None = a.
Proof.
  unfold slice, sliceIndex. cbn [from_option twice].
  change (Z.quot (-1) 2) with 0. cbn [Z.ltb Z.compare].
  rewrite Z.min_l by lia. rewrite Z.sub_0_r, Nat2Z.id.
  change (Z.to_nat 0) with 0%nat. rewrite drop_0. apply firstn_all.
Qed.

Lemma take_1_drop {A} (l : list A) (i : nat) (x : A) :
  l !! i = Some x -> take 1 (drop i l) = [x].
Proof.
  intros Hx. rewrite <- (take_drop_middle l i x Hx).
  rewrite drop_app_length'; [reflexivity|].
  rewrite length_take. apply lookup_lt_Some in Hx. lia.
Qed.

Ltac order_cases Hpos :=
  let i := fresh "i" in let e' := fresh "e'" in let He' := fresh "He'" in
  let n := fresh "n" in let Hn := fresh "Hn" in
  intros i e' He'; destruct (Hpos i e' He') as (n & Hn & ? & ? & ?);
  match goal with
  | |- context [holds ?o (compareValues e' (VNum ?x))] =>
      rewrite (holds_compareValues x o e' n Hn)
  end;
  repeat match goal with
         | |- context [?a =? ?b] => destruct (Z.eqb_spec a b)
         | |- context [?a <=? ?b] => destruct (Z.leb_spec a b)
         | |- context [?a <? ?b] => destruct (Z.ltb_spec a b)
         end;
  split; try discriminate; try reflexivity; try lia.

(** On entries sorted by numeric values, the entries the index path finds
    for a comparison are those whose value passes it. *)
Lemma reduceStep_comparison (entries : list entry) (name : string)
    (o : compareOp) (x : Z) :
  o <> OpNe -> strictlySorted entries pluckValue -> numericEntries entries ->
  reduceStep (Criterion name (Compare o (VNum x))) entries
  = Ok (filter (fun e => holds o (compareValues e (VNum x)) = true) entries).
Proof.
  intros Hne Hsorted Hnum.
  set (p := countBelow compareValues entries (VNum x)).
  set (len := Z.of_nat (length entries)).
  destruct (split_point entries x Hsorted Hnum) as [Hrange _]. fold p len in Hrange.
  pose proof (order_by_position entries x Hsorted Hnum) as Hpos. fold p in Hpos.
  assert (Hexact : (exists e, entries !! Z.to_nat p = Some e /\ eValue e = VNum x)
                   \/ (forall e, entries !! Z.to_nat p = Some e -> eValue e <> VNum x)).
  { destruct (entries !! Z.to_nat p) as [e|]; [|right; discriminate].
    destruct (decide (eValue e = VNum x)); [left; eauto|].
    right. intros e' [= <-]. assumption. }
  unfold reduceStep. cbn [criterionTest].
  destruct Hexact as [(e & He & Hx)|Hmiss].
  - assert (Hp : p < len) by (apply lookup_lt_Some in He; subst len; lia).
    assert (Hpos' : forall i e', entries !! i = Some e' ->
              exists n, eValue e' = VNum n
                /\ (n < x <-> Z.of_nat i < p)
                /\ (n = x <-> Z.of_nat i = p)
                /\ (x < n <-> p < Z.of_nat i)).
    { intros i e' He'. destruct (Hpos i e' He') as (n & Hn & Hlt & Heq & Hgt).
      exists n. split; [exact Hn|]. split; [exact Hlt|].
      assert (Hat : Z.of_nat i = p -> n = x).
      { intros Hi. assert (i = Z.to_nat p) as -> by lia. congruence. }
      split; split; lia. }
    destruct o; try contradiction;
      rewrite (getIndexEntry_exact entries x Hsorted Hnum e) by assumption;
      cbn [mbind result_bind foundExactMatch matchedIndex probeEntry option_list];
      f_equal; symmetry; fold p.
    + change (option_list (Some e)) with [e].
      rewrite <- (take_1_drop entries (Z.to_nat p) e He).
      replace 1%nat with (S (Z.to_nat p) - Z.to_nat p)%nat by lia.
      apply filter_range. order_cases Hpos'.
    + unfold hleb, hadd, ofInt. cbn [twice].
      destruct (Z.leb_spec (2 * 0) (2 * p)); [|lia].
      rewrite slice_prefix by lia.
      replace ((2 * p + 2 * 1) / 2) with (p + 1)
        by (Z.to_euclidean_division_equations; lia).
      apply filter_take. order_cases Hpos'.
    + unfold hleb, hadd, ofInt. cbn [twice].
      destruct (Z.leb_spec (2 * 0) (2 * p)); [|lia].
      rewrite slice_prefix by lia.
      replace ((2 * p + 2 * 0) / 2) with p
        by (Z.to_euclidean_division_equations; lia).
      apply filter_take. order_cases Hpos'.
    + unfold hmax0, hltb, ofInt. cbn [twice].
      destruct (Z.ltb_spec (2 * p) (2 * 0)); [lia|].
      rewrite slice_suffix by lia.
      replace (2 * p / 2) with p by (Z.to_euclidean_division_equations; lia).
      apply filter_drop. order_cases Hpos'.
    + unfold hadd, ofInt. cbn [twice].
      rewrite slice_suffix by lia.
      replace ((2 * p + 2 * 1) / 2) with (p + 1)
        by (Z.to_euclidean_division_equations; lia).
      apply filter_drop. order_cases Hpos'.
  - assert (Hpos' : forall i e', entries !! i = Some e' ->
              exists n, eValue e' = VNum n
                /\ (n < x <-> Z.of_nat i < p)
                /\ n <> x
                /\ (x < n <-> p <= Z.of_nat i)).
    { intros i e' He'. destruct (Hpos i e' He') as (n & Hn & Hlt & Heq & Hgt).
      exists n. split; [exact Hn|]. split; [exact Hlt|].
      assert (Hnoteq : n <> x).
      { intros ->. specialize (Heq eq_refl).
        apply (Hmiss e'); [|exact Hn]. rewrite <- Heq, Nat2Z.id. exact He'. }
      split; [exact Hnoteq|]. split; lia. }
    assert (Hip : insertionPoint entries p
                  = if p =? 0 then Half (-2)
                    else if p =? len then Half (2 * len) else Half (2 * p - 1)).
    { reflexivity. }
    destruct o; try contradiction;
      rewrite (getIndexEntry_miss entries x Hsorted Hnum) by assumption;
      cbn [mbind result_bind foundExactMatch matchedIndex probeEntry option_list];
      f_equal; symmetry; fold p; rewrite ?Hip.
    + rewrite <- (take_0 entries). apply filter_take. order_cases Hpos'.
    + unfold hleb, hadd, ofInt, matchBefore. cbn [twice].
      replace (Z.to_nat 0) with 0%nat by reflexivity.
      destruct (Z.eqb_spec p 0) as [H0|H0]; [|destruct (Z.eqb_spec p len)];
        cbn [twice].
      * destruct (Z.leb_spec (2 * 0) (-2 + -1)); [lia|].
        rewrite <- (take_0 entries). apply filter_take. order_cases Hpos'.
      * destruct (Z.leb_spec (2 * 0) (2 * len + -1)); [|lia].
        rewrite slice_prefix by lia.
        replace ((2 * len + -1 + 2 * 1) / 2) with p
          by (Z.to_euclidean_division_equations; lia).
        apply filter_take. order_cases Hpos'.
      * destruct (Z.leb_spec (2 * 0) (2 * p - 1 + -1)); [|lia].
        rewrite slice_prefix by lia.
        replace ((2 * p - 1 + -1 + 2 * 1) / 2) with p
          by (Z.to_euclidean_division_equations; lia).
        apply filter_take. order_cases Hpos'.
    + unfold hleb, hadd, ofInt, matchBefore. cbn [twice].
      destruct (Z.eqb_spec p 0) as [H0|H0]; [|destruct (Z.eqb_spec p len)];
        cbn [twice].
      * destruct (Z.leb_spec (2 * 0) (-2 + -1)); [lia|].
        rewrite <- (take_0 entries). apply filter_take. order_cases Hpos'.
      * destruct (Z.leb_spec (2 * 0) (2 * len + -1)); [|lia].
        rewrite slice_prefix by lia.
        replace ((2 * len + -1 + 2 * 1) / 2) with p
          by (Z.to_euclidean_division_equations; lia).
        apply filter_take. order_cases Hpos'.
      * destruct (Z.leb_spec (2 * 0) (2 * p - 1 + -1)); [|lia].
        rewrite slice_prefix by lia.
        replace ((2 * p - 1 + -1 + 2 * 1) / 2) with p
          by (Z.to_euclidean_division_equations; lia).
        apply filter_take. order_cases Hpos'.
    + unfold hmax0, hltb, hadd, ofInt, matchAfter. cbn [twice].
      destruct (Z.eqb_spec p 0) as [H0|H0]; [|destruct (Z.eqb_spec p len)];
        cbn [twice].
      * destruct (Z.ltb_spec (-2 + 1) (2 * 0)); [|lia].
        rewrite slice_suffix by lia. change (2 * 0 / 2) with 0.
        apply filter_drop. order_cases Hpos'.
      * destruct (Z.ltb_spec (2 * len + 1) (2 * 0)); [lia|].
        rewrite slice_suffix by lia.
        replace ((2 * len + 1) / 2) with p
          by (Z.to_euclidean_division_equations; lia).
        apply filter_drop. order_cases Hpos'.
      * destruct (Z.ltb_spec (2 * p - 1 + 1) (2 * 0)); [lia|].
        rewrite slice_suffix by lia.
        replace ((2 * p - 1 + 1) / 2) with p
          by (Z.to_euclidean_division_equations; lia).
        apply filter_drop. order_cases Hpos'.
    + unfold hadd, ofInt, matchAfter. cbn [twice].
      destruct (Z.eqb_spec p 0) as [H0|H0]; [|destruct (Z.eqb_spec p len)];
        cbn [twice].
      * change (-2 + 1 + 2 * 0) with (-1). rewrite slice_from_minus_half.
        rewrite <- (drop_0 entries) at 2. apply filter_drop. order_cases Hpos'.
      * rewrite slice_suffix by lia.
        replace ((2 * len + 1 + 2 * 0) / 2) with p
          by (Z.to_euclidean_division_equations; lia).
        apply filter_drop. order_cases Hpos'.
      * rewrite slice_suffix by lia.
        replace ((2 * p - 1 + 1 + 2 * 0) / 2) with p
          by (Z.to_euclidean_division_equations; lia).
        apply filter_drop. order_cases Hpos'.
Qed.

(** ** Valid indexes pass [validateIndex] *)

Lemma validLevel_unfold (depth : nat) (es : list entry) (total : Z) :
  validLevel depth es total
  = (numericEntries es
     /\ StronglySorted (fun a b => keyOf a < keyOf b) es
     /\ subtotalsFrom 0 es
     /\ total = sizes es
     /\ Forall (fun e =>
          match depth with
          | S (S _ as depth') =>
              match eData e with
              | SubIndex sub t =>
                  validLevel depth' sub t /\ sub <> []
                  /\ Z.of_nat (length sub) <= eSize e
              | RowData _ => False
              end
          | _ =>
              match eData e with
              | RowData rs => rs <> [] /\ Z.of_nat (length rs) = eSize e
              | SubIndex _ _ => False
              end
          end) es).
Proof. destruct depth; reflexivity. Qed.

Lemma keyOf_value (e : entry) (n : Z) : eValue e = VNum n -> keyOf e = n.
Proof. unfold keyOf. by intros ->. Qed.

Lemma numeric_value (e : entry) :
  (exists n, eValue e = VNum n) -> eValue e = VNum (keyOf e).
Proof. intros [n Hn]. by rewrite (keyOf_value e n Hn). Qed.

(** Sorted by keys is sorted under the comparator. *)
Lemma sorted_keys_strictlySorted (es : list entry) :
  numericEntries es -> StronglySorted (fun a b => keyOf a < keyOf b) es ->
  strictlySorted es pluckValue.
Proof.
  intros Hnum Hs i j a b Hij Ha Hb.
  assert (Hlt : keyOf a < keyOf b).
  { revert i j Hij Ha Hb. clear Hnum.
    induction Hs as [|e es Hs IH Hall]; intros i j Hij Ha Hb; [done|].
    destruct i as [|i], j as [|j]; try lia; cbn in Ha, Hb.
    - simplify_eq. apply (proj1 (Forall_forall _ _) Hall).
      by eapply list_elem_of_lookup_2.
    - apply (IH i j); [lia|assumption..]. }
  unfold pluckValue.
  rewrite (numeric_value a), (numeric_value b), Comparator_num.
  - destruct (Z.compare_spec (keyOf a) (keyOf b)); lia.
  - apply (proj1 (Forall_forall _ _) Hnum). by eapply list_elem_of_lookup_2.
  - apply (proj1 (Forall_forall _ _) Hnum). by eapply list_elem_of_lookup_2.
Qed.

(** *** A valid level passes [check] *)

Lemma checkEntry_Ok (e : entry) (subtotal : Z) (lastValue : option value) :
  0 < eSize e -> 0 < dataLength (eData e) <= eSize e ->
  (forall v, lastValue = Some v ->
     exists m, v = VNum m /\ m < keyOf e) ->
  (exists n, eValue e = VNum n) ->
  subtotal = eSubtotal e ->
  checkEntry e subtotal lastValue = Ok ().
Proof.
  intros Hsize Hdata Hlast Hnum Hsub. unfold checkEntry.
  destruct (Z.eqb_spec (eSize e) 0); [lia|].
  destruct (Z.eqb_spec (dataLength (eData e)) 0); [lia|].
  destruct (Z.gtb_spec (dataLength (eData e)) (eSize e)); [lia|].
  rewrite (numeric_value e Hnum).
  destruct lastValue as [v|]; cbn [from_option].
  - destruct (Hlast v eq_refl) as (m & -> & Hm).
    unfold looseEq, jsLt. cbn.
    destruct (Z.eqb_spec (keyOf e) m); [lia|].
    destruct (Z.ltb_spec (keyOf e) m); [lia|].
    destruct (Z.eqb_spec subtotal (eSubtotal e)); [reflexivity|lia].
  - destruct (Z.eqb_spec subtotal (eSubtotal e)); [reflexivity|lia].
Qed.

Lemma sizes_nonneg (es : list entry) :
  Forall (fun e => 0 < eSize e) es -> 0 <= sizes es.
Proof.
  induction 1 as [|e es He _ IH]; [done|].
  unfold sizes in *. cbn [foldr]. lia.
Qed.

Lemma checkLoop_Ok (checkData : entry -> result ()) (es : list entry) :
  forall (sub : Z) (lastValue : option value),
  numericEntries es ->
  StronglySorted (fun a b => keyOf a < keyOf b) es ->
  (forall v, lastValue = Some v ->
     exists m, v = VNum m /\ Forall (fun e => m < keyOf e) es) ->
  subtotalsFrom sub es ->
  Forall (fun e => 0 < eSize e /\ 0 < dataLength (eData e) <= eSize e
                   /\ checkData e = Ok ()) es ->
  checkLoop checkData es sub lastValue = Ok (sub + sizes es).
Proof.
  induction es as [|e es IH]; intros sub lastValue Hnum Hs Hlast Hsub Hall.
  - cbn. f_equal. lia.
  - cbn [checkLoop sizes foldr]. fold (sizes es).
    destruct Hsub as [Hsub Hsubs].
    apply Forall_cons in Hnum as [Hn Hnum].
    apply StronglySorted_inv in Hs as [Hs Hlt].
    apply Forall_cons in Hall as [(Hsize & Hdata & Hcd) Hall].
    assert (Hentry : checkEntry e (sub + eSize e) lastValue = Ok ()).
    { apply checkEntry_Ok; [exact Hsize|exact Hdata| |exact Hn|lia].
      intros v Hv. destruct (Hlast v Hv) as (m & -> & Hm).
      exists m. split; [reflexivity|]. by apply Forall_cons in Hm as [? _]. }
    rewrite Hentry. cbn [mbind result_bind]. rewrite Hcd. cbn [mbind result_bind].
    rewrite IH; try assumption.
    + f_equal. lia.
    + intros v [= <-]. exists (keyOf e). split; [by apply numeric_value|exact Hlt].
Qed.

Lemma validLevel_check (cols : list string) : cols <> [] ->
  forall (es : list entry) (total : Z),
  validLevel (length cols) es total -> check cols (es, total) = Ok ().
Proof.
  induction cols as [|c cols IH]; [done|]. intros _ es total.
  rewrite validLevel_unfold. intros (Hnum & Hs & Hsub & Htotal & Hall).
  assert (Hsizes : Forall (fun e => 0 < eSize e) es).
  { eapply Forall_impl; [exact Hall|]. intros e He. cbn [length] in He.
    destruct cols as [|c' cols]; cbn [length] in He;
      destruct (eData e) as [rws|sub st]; try contradiction.
    - destruct He as [Hne <-]. destruct rws; [done|cbn; lia].
    - destruct He as (_ & Hne & Hle). destruct sub; [done|cbn in Hle; lia]. }
  unfold check; fold check. cbn [fst snd].
  rewrite (checkLoop_Ok _ es 0 None); try assumption.
  - cbn [mbind result_bind]. rewrite Z.add_0_l.
    destruct (Z.eqb_spec total (sizes es)); [reflexivity|contradiction].
  - discriminate.
  - apply Forall_forall. intros e He.
    pose proof (proj1 (Forall_forall _ _) Hall e He) as Hd.
    pose proof (proj1 (Forall_forall _ _) Hsizes e He) as Hsz.
    split; [exact Hsz|]. cbn [length] in Hd.
    destruct cols as [|c' cols]; cbn [length] in Hd;
      destruct (eData e) as [rws|sub st] eqn:Hdata; try contradiction.
    + destruct Hd as [Hne Hlen]. cbn [dataLength].
      split; [destruct rws; [done|cbn [length] in *; lia]|].
      rewrite Hlen. destruct (Z.eqb_spec (eSize e) (eSize e)); [reflexivity|lia].
    + destruct Hd as (Hv & Hne & Hle). cbn [dataLength].
      split; [destruct sub; [done|cbn in *; lia]|].
      apply IH; [discriminate|exact Hv].
Qed.

Lemma validIndex_validateIndex (ix : Index) :
  validIndex ix -> validateIndex ix = Ok ().
Proof. intros [Hne Hv]. by apply validLevel_check. Qed.

(** ** The plan of an index on one column *)

Lemma rangeInclude_num (a b n : Z) :
  rangeInclude (VNum a) (VNum b) (VNum n) = Ok (VBool ((a <=? n) && (n <=? b))).
Proof. reflexivity. Qed.

Lemma slice_to_minus_half {A} (l : list A) (b : Z) : 0 <= b ->
  slice l (Half b) (Some (Half (-1))) = [].
Proof.
  intros Hb. unfold slice. cbn [from_option].
  rewrite (sliceIndex_nonneg _ b) by exact Hb.
  unfold sliceIndex at 1. cbn [twice]. change (Z.quot (-1) 2) with 0.
  cbn [Z.ltb Z.compare]. rewrite (Z.min_l 0) by lia.
  assert (0 <= b / 2) by (Z.to_euclidean_division_equations; lia).
  replace (Z.to_nat (0 - (b / 2) `min` Z.of_nat (length l))) with 0%nat by lia.
  reflexivity.
Qed.

(** The start of the slice of [between], and the end when the end value is
    not in the index. *)
Lemma after_insertionPoint (entries : list entry) (p : Z) :
  0 <= p <= Z.of_nat (length entries) ->
  exists h, hadd (insertionPoint entries p) matchAfter = Half h
    /\ -1 <= h /\ (h = -1 -> p = 0) /\ (0 <= h -> h / 2 = p).
Proof.
  intros Hp. unfold insertionPoint, hadd, matchAfter, ofInt, minusHalf.
  destruct (Z.eqb_spec p 0); [|destruct (Z.eqb_spec p (Z.of_nat (length entries)))];
    cbn [twice]; eexists; (split; [reflexivity|]);
    repeat split; intros; try lia; Z.to_euclidean_division_equations; lia.
Qed.

Lemma exact_or_miss (entries : list entry) (p : nat) (x : Z) :
  (exists e, entries !! p = Some e /\ eValue e = VNum x)
  \/ (forall e, entries !! p = Some e -> eValue e <> VNum x).
Proof.
  destruct (entries !! p) as [e|]; [|right; discriminate].
  destruct (decide (eValue e = VNum x)); [left; eauto|].
  right. intros e' [= <-]. assumption.
Qed.

Lemma reduceStep_between (entries : list entry) (name : string) (a b : Z) :
  strictlySorted entries pluckValue -> numericEntries entries ->
  reduceStep (Criterion name (Between (Range (VNum a) (VNum b)))) entries
  = Ok (filter (fun e => accepted (rangeInclude (VNum a) (VNum b) (eValue e))
                         = true) entries).
Proof.
  intros Hsorted Hnum.
  set (pa := countBelow compareValues entries (VNum a)).
  set (pb := countBelow compareValues entries (VNum b)).
  destruct (split_point entries a Hsorted Hnum) as [Hra _]. fold pa in Hra.
  destruct (split_point entries b Hsorted Hnum) as [Hrb _]. fold pb in Hrb.
  pose proof (order_by_position entries a Hsorted Hnum) as Hposa. fold pa in Hposa.
  pose proof (order_by_position entries b Hsorted Hnum) as Hposb. fold pb in Hposb.
  unfold reduceStep. cbn [criterionTest operandStart operandEnd mbind result_bind].
  (* the start of the slice is [pa] *)
  assert (Hbegin : exists p1 h, getIndexEntry entries (VNum a) matchAfter = Ok p1
            /\ hmax0 (matchedIndex p1) = Half h /\ 0 <= h /\ h / 2 = pa).
  { destruct (exact_or_miss entries (Z.to_nat pa) a) as [(e & He & Hx)|Hmiss].
    - rewrite (getIndexEntry_exact entries a Hsorted Hnum e) by assumption.
      do 2 eexists. split; [reflexivity|]. fold pa. cbn [matchedIndex].
      unfold hmax0, hltb, ofInt. cbn [twice].
      destruct (Z.ltb_spec (2 * pa) (2 * 0)); [lia|].
      split; [reflexivity|]. split; [lia|].
      Z.to_euclidean_division_equations; lia.
    - rewrite (getIndexEntry_miss entries a Hsorted Hnum) by exact Hmiss.
      fold pa. destruct (after_insertionPoint entries pa Hra) as (h & Hh & H1 & H2 & H3).
      destruct (Z.lt_ge_cases h 0).
      + exists (Probe false (hadd (insertionPoint entries pa) matchAfter) None), 0.
        split; [reflexivity|]. cbn [matchedIndex]. rewrite Hh.
        unfold hmax0, hltb, ofInt. cbn [twice].
        destruct (Z.ltb_spec h (2 * 0)); [|lia].
        split; [reflexivity|]. split; [lia|]. rewrite H2 by lia. reflexivity.
      + exists (Probe false (hadd (insertionPoint entries pa) matchAfter) None), h.
        split; [reflexivity|]. cbn [matchedIndex]. rewrite Hh.
        unfold hmax0, hltb, ofInt. cbn [twice].
        destruct (Z.ltb_spec h (2 * 0)); [lia|].
        split; [reflexivity|]. split; [lia|]. apply H3. lia. }
  destruct Hbegin as (p1 & hb & Hg1 & Hg2 & Hhb & Hpa).
  rewrite Hg1. cbn [mbind result_bind]. rewrite Hg2.
  destruct (exact_or_miss entries (Z.to_nat pb) b) as [(e & He & Hx)|Hmiss].
  - (* the end value is in the index *)
    rewrite (getIndexEntry_exact entries b Hsorted Hnum e) by assumption.
    cbn [mbind result_bind foundExactMatch matchedIndex]. fold pb.
    unfold hadd, ofInt. cbn [twice]. f_equal.
    rewrite slice_between by lia. rewrite Hpa.
    replace ((2 * pb + 2 * 1) / 2) with (pb + 1)
      by (Z.to_euclidean_division_equations; lia).
    replace (Z.to_nat (pb + 1)) with (S (Z.to_nat pb)) by lia.
    symmetry. apply filter_range. intros i e' He'.
    destruct (Hposa i e' He') as (n & Hn & Hlta & Heqa & Hgta).
    destruct (Hposb i e' He') as (n' & Hn' & Hltb & Heqb & Hgtb).
    rewrite Hn in Hn'. simplify_eq. rewrite Hn, rangeInclude_num.
    cbn [accepted truthy].
    assert (Hat : Z.of_nat i = pb -> n' = b).
    { intros Hi. assert (i = Z.to_nat pb) as -> by lia. congruence. }
    destruct (Z.leb_spec a n'), (Z.leb_spec n' b); cbn [andb];
      split; try discriminate; try reflexivity; try lia.
  - rewrite (getIndexEntry_miss entries b Hsorted Hnum) by exact Hmiss.
    cbn [mbind result_bind foundExactMatch matchedIndex]. fold pb.
    destruct (after_insertionPoint entries pb Hrb) as (h & Hh & H1 & H2 & H3).
    rewrite Hh. unfold hadd at 1, ofInt. cbn [twice]. rewrite Z.add_0_r. f_equal.
    assert (Hne : forall i e' n, entries !! i = Some e' -> eValue e' = VNum n ->
                    Z.of_nat i = pb -> n <> b).
    { intros i e' n He' Hn Hi ->. assert (i = Z.to_nat pb) as -> by lia.
      by apply (Hmiss e'). }
    destruct (Z.eq_dec h (-1)) as [->|Hh1].
    + rewrite slice_to_minus_half by lia. symmetry. apply filter_none.
      apply Forall_lookup. intros i e' He'.
      destruct (Hposb i e' He') as (n' & Hn' & Hltb & Heqb & Hgtb).
      rewrite Hn', rangeInclude_num. cbn [accepted truthy].
      specialize (Hne i e' n' He' Hn').
      destruct (Z.leb_spec a n'), (Z.leb_spec n' b); cbn [andb];
        try discriminate. lia.
    + rewrite slice_between by lia. rewrite Hpa, H3 by lia.
      symmetry. apply filter_range. intros i e' He'.
      destruct (Hposa i e' He') as (n & Hn & Hlta & Heqa & Hgta).
      destruct (Hposb i e' He') as (n' & Hn' & Hltb & Heqb & Hgtb).
      rewrite Hn in Hn'. simplify_eq. rewrite Hn, rangeInclude_num.
      cbn [accepted truthy].
      specialize (Hne i e' n' He' Hn).
      destruct (Z.leb_spec a n'), (Z.leb_spec n' b); cbn [andb];
        split; try discriminate; try reflexivity; try lia.
Qed.

Lemma mapM_rowsOf (es : list entry) :
  Forall (fun e => match eData e with RowData _ => True | SubIndex _ _ => False end) es ->
  mapM rowsOf (eData <$> es) = Ok (entryRows <$> es).
Proof.
  induction 1 as [|e es He _ IH]; [reflexivity|].
  cbn [fmap list_fmap mapM]. change (list_fmap entry data eData es) with (eData <$> es).
  rewrite IH. cbn [fmap list_fmap]. unfold entryRows at 2.
  destruct (eData e); [reflexivity|contradiction].
Qed.

Lemma validLevel_leaves (es : list entry) (total : Z) :
  validLevel 1 es total ->
  Forall (fun e => match eData e with RowData _ => True | SubIndex _ _ => False end) es.
Proof.
  intros (_ & _ & _ & _ & Hall). eapply Forall_impl; [exact Hall|].
  intros e He. cbn beta iota in He. destruct (eData e); [exact I|contradiction].
Qed.

Lemma Forall_filter_keep {A} (P : A -> Prop) (Q : A -> Prop)
    `{!forall x, Decision (Q x)} (l : list A) :
  Forall P l -> Forall P (filter Q l).
Proof.
  intros Hl. apply Forall_forall. intros x Hx.
  apply list_elem_of_filter in Hx as [_ Hx].
  by apply (proj1 (Forall_forall _ _) Hl).
Qed.

(** [reduce] on an index of one column, for one criterion. *)
Lemma reduce_one_column (ix : Index) (c : criterion) (found : list entry) :
  length (columns ix) = 1%nat ->
  reduceStep c (index ix) = Ok found ->
  Forall (fun e => match eData e with RowData _ => True | SubIndex _ _ => False end)
    found ->
  reduce ix [c] = Ok (Some <$> concat (entryRows <$> found)).
Proof.
  intros Hlen Hstep Hleaf. unfold reduce.
  cbn [reduceCriteria mapM entriesOf mbind result_bind]. rewrite Hstep.
  cbn [mbind result_bind concat]. rewrite app_nil_r, Hlen.
  cbn [length Nat.sub flatten]. rewrite (mapM_rowsOf found Hleaf).
  cbn [mbind result_bind]. reflexivity.
Qed.

Lemma splitCriteria_one (name : string) (t : test) :
  splitCriteria [name] [Criterion name t] [Criterion name t]
  = ([Criterion name t], []).
Proof.
  cbn [splitCriteria List.find columnName]. rewrite String.eqb_refl.
  cbn [splitCriteria removeFirst columnName]. rewrite String.eqb_refl. reflexivity.
Qed.

(** X7: for a valid index on one column of numbers and a comparison of
    that column with a number by [==], [<=], [<], [>=] or [>], the plan of
    the index uses the criterion, and its [reduce] returns the rows of the
    entries whose value passes the comparison, in the order of the index. *)
Theorem index_plan_comparison (estimate : Index -> list criterion -> num)
    (ix : Index) (name : string) (o : compareOp) (x : Z) :
  columns ix = [name] -> validIndex ix -> o <> OpNe ->
  criteriaUnused (computeCost estimate ix [Criterion name (Compare o (VNum x))])
  = []
  /\ reduceOf (computeCost estimate ix [Criterion name (Compare o (VNum x))]) ()
     = Ok (Some <$> concat (entryRows
             <$> filter (fun e => holds o (compareValues e (VNum x)) = true)
                   (index ix))).
Proof.
  intros Hcols [_ Hvalid] Ho. rewrite Hcols in Hvalid. cbn [length] in Hvalid.
  unfold computeCost. rewrite Hcols, splitCriteria_one.
  cbn [criteriaUnused reduceOf]. split; [reflexivity|].
  pose proof Hvalid as (Hnum & Hs & _).
  apply reduce_one_column.
  - by rewrite Hcols.
  - apply reduceStep_comparison; [exact Ho| |exact Hnum].
    by apply sorted_keys_strictlySorted.
  - apply Forall_filter_keep. by eapply validLevel_leaves.
Qed.

(** X8: for a valid index on one column of numbers and a [between]
    criterion on that column with numbers as bounds, the plan of the index
    uses the criterion, and its [reduce] returns the rows of the entries
    whose value the range includes, in the order of the index. *)
Theorem index_plan_between (estimate : Index -> list criterion -> num)
    (ix : Index) (name : string) (a b : Z) :
  columns ix = [name] -> validIndex ix ->
  criteriaUnused
    (computeCost estimate ix [Criterion name (Between (Range (VNum a) (VNum b)))])
  = []
  /\ reduceOf
       (computeCost estimate ix
          [Criterion name (Between (Range (VNum a) (VNum b)))]) ()
     = Ok (Some <$> concat (entryRows
             <$> filter (fun e => accepted (rangeInclude (VNum a) (VNum b)
                                              (eValue e)) = true)
                   (index ix))).
Proof.
  intros Hcols [_ Hvalid]. rewrite Hcols in Hvalid. cbn [length] in Hvalid.
  unfold computeCost. rewrite Hcols, splitCriteria_one.
  cbn [criteriaUnused reduceOf]. split; [reflexivity|].
  pose proof Hvalid as (Hnum & Hs & _).
  apply reduce_one_column.
  - by rewrite Hcols.
  - apply reduceStep_between; [|exact Hnum].
    by apply sorted_keys_strictlySorted.
  - apply Forall_filter_keep. by eapply validLevel_leaves.
Qed.

(** ** [buildIndex] on rows of integers *)

Section SortByKey.
Context {A : Type}.
Variable cmp : A -> A -> Z.
Variable key : A -> Z.
Variable P : A -> Prop.
Hypothesis cmp_key : forall x y, P x -> P y -> (cmp x y <= 0 <-> key x <= key y).

Lemma sortInsert_Permutation (x : A) (l : list A) : sortInsert cmp x l ≡ₚ x :: l.
Proof.
  induction l as [|y l IH]; cbn [sortInsert]; [reflexivity|].
  destruct (cmp x y <=? 0); [reflexivity|].
  rewrite IH. apply Permutation_swap.
Qed.

Lemma sort_Permutation (l : list A) : sort cmp l ≡ₚ l.
Proof.
  unfold sort. induction l as [|x l IH]; cbn [foldr]; [reflexivity|].
  rewrite sortInsert_Permutation. by rewrite IH.
Qed.

Lemma sortInsert_sorted (x : A) (l : list A) :
  P x -> Forall P l ->
  StronglySorted (fun a b => key a <= key b) l ->
  StronglySorted (fun a b => key a <= key b) (sortInsert cmp x l).
Proof.
  intros Hx Hl Hs. induction Hs as [|y l Hs IH Hy]; cbn [sortInsert].
  - repeat constructor.
  - apply Forall_cons in Hl as [HPy Hl].
    destruct (Z.leb_spec (cmp x y) 0) as [Hle|Hgt].
    + apply (cmp_key x y Hx HPy) in Hle.
      constructor; [by constructor|]. constructor; [exact Hle|].
      eapply Forall_impl; [exact Hy|]. intros z Hz. cbn in *. lia.
    + assert (Hyx : key y <= key x).
      { destruct (Z.le_gt_cases (key x) (key y)) as [H|H]; [|lia].
        apply (cmp_key x y Hx HPy) in H. lia. }
      constructor; [by apply IH|].
      rewrite sortInsert_Permutation. by constructor.
Qed.

Lemma sort_sorted (l : list A) : Forall P l ->
  StronglySorted (fun a b => key a <= key b) (sort cmp l).
Proof.
  unfold sort. induction 1 as [|x l Hx Hl IH]; cbn [foldr]; [constructor|].
  apply sortInsert_sorted; [exact Hx| |exact IH].
  fold (sort cmp l). by rewrite sort_Permutation.
Qed.

(** Sorting a sorted array leaves it as it is. *)
Lemma sort_id (l : list A) : Forall P l ->
  StronglySorted (fun a b => key a <= key b) l -> sort cmp l = l.
Proof.
  unfold sort. intros Hl Hs. induction Hs as [|x l Hs IH Hx]; [reflexivity|].
  apply Forall_cons in Hl as [HPx Hl]. cbn [foldr]. rewrite IH by exact Hl.
  destruct l as [|y l]; [reflexivity|]. cbn [sortInsert].
  apply Forall_cons in Hx as [Hxy _]. apply Forall_cons in Hl as [HPy _].
  destruct (Z.leb_spec (cmp x y) 0) as [|Hgt]; [reflexivity|].
  apply (cmp_key x y HPx HPy) in Hxy. lia.
Qed.
End SortByKey.

Lemma sizes_app (l1 l2 : list entry) : sizes (l1 ++ l2) = sizes l1 + sizes l2.
Proof.
  unfold sizes. induction l1 as [|e l1 IH]; cbn [app foldr]; [lia|].
  rewrite IH. lia.
Qed.

Lemma sizes_cons (e : entry) (l : list entry) : sizes (e :: l) = eSize e + sizes l.
Proof. reflexivity. Qed.

Lemma subtotalsFrom_app (l1 l2 : list entry) : forall s : Z,
  subtotalsFrom s (l1 ++ l2)
  <-> subtotalsFrom s l1 /\ subtotalsFrom (s + sizes l1) l2.
Proof.
  induction l1 as [|e l1 IH]; intros s; cbn [app subtotalsFrom].
  - unfold sizes. cbn [foldr]. rewrite Z.add_0_r. tauto.
  - rewrite IH, sizes_cons. rewrite Z.add_assoc. tauto.
Qed.

(** *** Arrays of entries held last entry first *)

Lemma descending_cons (x : entry) (done : list entry) :
  StronglySorted (fun a b => keyOf b < keyOf a) done ->
  (forall y, head done = Some y -> keyOf y < keyOf x) ->
  StronglySorted (fun a b => keyOf b < keyOf a) (x :: done).
Proof.
  intros Hs Hhead. constructor; [exact Hs|].
  destruct done as [|y done]; [constructor|].
  specialize (Hhead y eq_refl). apply StronglySorted_inv in Hs as [_ Hy].
  constructor; [exact Hhead|].
  eapply Forall_impl; [exact Hy|]. intros z Hz. cbn in *. lia.
Qed.

Lemma descending_reverse (done : list entry) :
  StronglySorted (fun a b => keyOf b < keyOf a) done ->
  StronglySorted (fun a b => keyOf a < keyOf b) (reverse done).
Proof.
  induction 1 as [|x done Hs IH Hx]; [constructor|].
  rewrite reverse_cons.
  assert (Hall : Forall (fun y => keyOf y < keyOf x) (reverse done))
    by (by apply Forall_reverse).
  clear Hs Hx. revert IH Hall. generalize (reverse done). intros l Hl.
  induction Hl as [|y l Hl IH Hy]; intros Hall; cbn [app].
  - repeat constructor.
  - apply Forall_cons in Hall as [Hyx Hall]. constructor; [by apply IH|].
    apply Forall_app. split; [exact Hy|]. by constructor.
Qed.

Lemma subtotalsRev_reverse (done : list entry) : subtotalsRev done ->
  subtotalsFrom 0 (reverse done)
  /\ sizes (reverse done) = from_option eSubtotal 0 (head done).
Proof.
  induction done as [|e done IH]; [by split|].
  intros [He Hdone]. destruct (IH Hdone) as [Hsub Hsizes].
  rewrite reverse_cons. split.
  - apply subtotalsFrom_app. split; [exact Hsub|].
    cbn [subtotalsFrom]. split; [|exact I]. rewrite Hsizes. lia.
  - rewrite sizes_app, Hsizes. cbn [head from_option].
    unfold sizes at 1. cbn [foldr]. lia.
Qed.

(** *** [buildShallowIndex] on rows sorted by a numeric column *)

Section Shallow.
Variable c : string.
Variable Q : row -> Prop.
Local Abbreviation goodShallow := (goodShallow Q).

Lemma shallowStep_good (acc : list shallowEntry) (r : row) (k : Z) :
  goodShallow acc -> cell r c = VNum k -> Q r ->
  (forall sh, head acc = Some sh -> keyOf (leafOf sh) <= k) ->
  goodShallow (shallowStep c acc r)
  /\ (exists sh, head (shallowStep c acc r) = Some sh /\ shValue sh = VNum k)
  /\ from_option shSubtotal 0 (head (shallowStep c acc r))
     = from_option shSubtotal 0 (head acc) + 1.
Proof.
  intros (Hnum & Hs & Hsub & Hdata) Hk HQ Hbound.
  destruct acc as [|lastEntry acc]; cbn [shallowStep].
  - split; [|split; [eexists; split; [reflexivity|exact Hk]|reflexivity]].
    rewrite Hk. split; [|split; [|split]].
    + repeat constructor. by exists k.
    + repeat constructor.
    + cbn. split; [lia|exact I].
    + constructor; [|constructor]. cbn [shData shSize].
      split; [done|]. split; [reflexivity|]. constructor; [exact HQ|constructor].
  - specialize (Hbound lastEntry eq_refl).
    cbn [fmap list_fmap] in Hnum, Hs, Hsub.
    apply Forall_cons in Hnum as [[m Hm] Hnum].
    apply StronglySorted_inv in Hs as [Hs Hlt].
    destruct Hsub as [Hsub0 Hsub].
    apply Forall_cons in Hdata as [(Hne & Hlen & HQs) Hdata].
    cbn [leafOf eValue] in Hm. unfold keyOf in Hbound.
    cbn [leafOf eValue] in Hbound. rewrite Hm in Hbound.
    unfold strictEq. rewrite Hk, Hm.
    destruct (bool_decide_reflect (VNum k = VNum m)) as [[= ->]|Hkm].
    + split; [|split; [eexists; split; [reflexivity|reflexivity]|reflexivity]].
      split; [|split; [|split]]; cbn [fmap list_fmap].
      * constructor; [by exists m|exact Hnum].
      * constructor; [exact Hs|].
        eapply Forall_impl; [exact Hlt|]. intros z Hz.
        unfold keyOf in *. cbn [leafOf eValue] in *. by rewrite Hm in Hz.
      * cbn [subtotalsRev leafOf eSubtotal eSize shSubtotal shSize] in *.
        split; [lia|exact Hsub].
      * constructor; [|exact Hdata]. cbn [shData shSize].
        split; [by destruct (shData lastEntry)|].
        split; [rewrite length_app; cbn [length]; lia|].
        apply Forall_app. split; [exact HQs|]. constructor; [exact HQ|constructor].
    + split; [|split; [eexists; split; [reflexivity|reflexivity]|reflexivity]].
      split; [|split; [|split]]; cbn [fmap list_fmap].
      * constructor; [by exists k|]. constructor; [by exists m|exact Hnum].
      * apply descending_cons; [by constructor|].
        intros y [= <-]. unfold keyOf. cbn [leafOf eValue shValue]. rewrite Hm.
        assert (k <> m) by congruence. lia.
      * cbn [subtotalsRev leafOf eSubtotal eSize head from_option
               shSubtotal shSize] in *.
        split; [lia|]. split; [exact Hsub0|exact Hsub].
      * constructor; [|constructor; [done|exact Hdata]]. cbn [shData shSize].
        split; [done|]. split; [reflexivity|]. constructor; [exact HQ|constructor].
Qed.

Lemma foldl_shallowStep_good (l : list row) : forall acc : list shallowEntry,
  goodShallow acc ->
  Forall (fun r => (exists k, cell r c = VNum k) /\ Q r) l ->
  StronglySorted (fun a b => rowKey c a <= rowKey c b) l ->
  (forall sh, head acc = Some sh ->
     Forall (fun r => keyOf (leafOf sh) <= rowKey c r) l) ->
  goodShallow (foldl (shallowStep c) acc l)
  /\ from_option shSubtotal 0 (head (foldl (shallowStep c) acc l))
     = from_option shSubtotal 0 (head acc) + Z.of_nat (length l)
  /\ (l <> [] -> foldl (shallowStep c) acc l <> []).
Proof.
  induction l as [|r l IH]; intros acc Hgood Hl Hs Hbound.
  - cbn. split; [exact Hgood|]. split; [lia|done].
  - apply Forall_cons in Hl as [[[k Hk] HQ] Hl].
    apply StronglySorted_inv in Hs as [Hs Hr].
    assert (Hrk : rowKey c r = k) by (unfold rowKey; by rewrite Hk).
    destruct (shallowStep_good acc r k Hgood Hk HQ) as (Hgood' & (sh & Hsh & Hv) & Hsub').
    { intros sh Hsh. specialize (Hbound sh Hsh).
      apply Forall_cons in Hbound as [Hb _]. lia. }
    cbn [foldl]. destruct (IH (shallowStep c acc r) Hgood' Hl Hs) as (Hg & Hsub & Hne).
    { intros sh' Hsh'. rewrite Hsh in Hsh'. simplify_eq.
      unfold keyOf. cbn [leafOf eValue]. rewrite Hv.
      eapply Forall_impl; [exact Hr|]. intros z Hz. cbn in Hz. lia. }
    split; [exact Hg|]. split.
    + rewrite Hsub, Hsub'. cbn [length]. lia.
    + intros _. destruct l as [|r' l]; [|apply Hne; discriminate].
      cbn [foldl]. intros Hnil. by rewrite Hnil in Hsh.
Qed.
End Shallow.

Lemma pluckRow_key (c : string) (x y : row) :
  (exists k, cell x c = VNum k) -> (exists k, cell y c = VNum k) ->
  pluckRow c x y <= 0 <-> rowKey c x <= rowKey c y.
Proof.
  intros [kx Hx] [ky Hy]. unfold pluckRow, rowKey.
  rewrite Hx, Hy, Comparator_num. destruct (Z.compare_spec kx ky); lia.
Qed.

Lemma buildShallowIndex_good (c : string) (Q : row -> Prop) (rows : list row) :
  Forall (fun r => (exists k, cell r c = VNum k) /\ Q r) rows ->
  exists sh total, buildShallowIndex rows c = (sh, total)
    /\ numericEntries (leafOf <$> sh)
    /\ StronglySorted (fun a b => keyOf a < keyOf b) (leafOf <$> sh)
    /\ subtotalsFrom 0 (leafOf <$> sh)
    /\ total = sizes (leafOf <$> sh)
    /\ total = Z.of_nat (length rows)
    /\ Forall (fun sh => shData sh <> []
                         /\ Z.of_nat (length (shData sh)) = shSize sh
                         /\ Forall Q (shData sh)) sh
    /\ (rows <> [] -> sh <> []).
Proof.
  intros Hrows. unfold buildShallowIndex.
  set (sorted := sort (pluckRow c) rows).
  assert (Hsorted : Forall (fun r => (exists k, cell r c = VNum k) /\ Q r) sorted)
    by (by apply Forall_sort).
  assert (Hord : StronglySorted (fun a b => rowKey c a <= rowKey c b) sorted).
  { apply (sort_sorted (pluckRow c) (rowKey c)
             (fun r => exists k, cell r c = VNum k)).
    - intros x y. apply pluckRow_key.
    - eapply Forall_impl; [exact Hrows|]. by intros r [? _]. }
  assert (Hlen : length sorted = length rows)
    by (apply Permutation_length, sort_Permutation).
  destruct (foldl_shallowStep_good c Q sorted [] ) as (Hgood & Htotal & Hne);
    [|exact Hsorted|exact Hord|discriminate|].
  { repeat split; constructor. }
  set (acc := foldl (shallowStep c) [] sorted) in *.
  destruct Hgood as (Hnum & Hs & Hsub & Hdata).
  destruct (subtotalsRev_reverse _ Hsub) as [Hfrom Hsizes].
  do 2 eexists. split; [reflexivity|]. rewrite fmap_reverse.
  split; [by apply Forall_reverse|]. split; [by apply descending_reverse|].
  split; [exact Hfrom|].
  assert (Hhead : match acc with lastEntry :: _ => shSubtotal lastEntry | [] => 0 end
                  = from_option eSubtotal 0 (head (leafOf <$> acc))).
  { by destruct acc. }
  assert (Hhead' : from_option eSubtotal 0 (head (leafOf <$> acc))
                   = from_option shSubtotal 0 (head acc)).
  { by destruct acc. }
  split; [by rewrite Hsizes|]. split; [rewrite Hhead, Hhead', Htotal; cbn; lia|].
  split; [by apply Forall_reverse|].
  intros Hrne. assert (sorted <> []).
  { intros Hnil. rewrite Hnil in Hlen. by destruct rows. }
  intros Hrev. apply Hne; [assumption|].
  apply (f_equal reverse) in Hrev. by rewrite reverse_involutive in Hrev.
Qed.

(** *** [buildIndex] builds a valid index *)

Lemma mapM_Forall2 {A B} (f : A -> result B) (R : A -> B -> Prop) (l : list A) :
  Forall (fun x => exists y, f x = Ok y /\ R x y) l ->
  exists ys, mapM f l = Ok ys /\ Forall2 R l ys.
Proof.
  induction 1 as [|x l (y & Hy & HR) _ (ys & Hys & HRs)]; cbn [mapM].
  - exists []. split; [reflexivity|constructor].
  - rewrite Hy, Hys. exists (y :: ys). split; [reflexivity|by constructor].
Qed.

Lemma sameHeader_keyOf (a b : entry) : sameHeader a b -> keyOf a = keyOf b.
Proof. intros (Hv & _). unfold keyOf. by rewrite Hv. Qed.

Lemma sameHeader_transfer (l1 l2 : list entry) :
  Forall2 sameHeader l1 l2 ->
  (numericEntries l1 -> numericEntries l2)
  /\ (StronglySorted (fun a b => keyOf a < keyOf b) l1 ->
      StronglySorted (fun a b => keyOf a < keyOf b) l2)
  /\ (forall s, subtotalsFrom s l1 -> subtotalsFrom s l2)
  /\ sizes l2 = sizes l1.
Proof.
  induction 1 as [|a b l1 l2 Hab Hl (IHn & IHs & IHsub & IHsz)].
  - repeat split; auto.
  - pose proof (sameHeader_keyOf a b Hab) as Hkey.
    destruct Hab as (Hv & Hsz & Hst). split; [|split; [|split]].
    + intros Hn. apply Forall_cons in Hn as [[n Hn] Hns].
      constructor; [exists n; congruence|by apply IHn].
    + intros Hs. apply StronglySorted_inv in Hs as [Hs Ha].
      constructor; [by apply IHs|].
      clear -Hl Ha Hkey. induction Hl as [|x y l1 l2 Hxy Hl IH]; [constructor|].
      apply Forall_cons in Ha as [Hax Ha]. constructor; [|by apply IH].
      rewrite <- Hkey, <- (sameHeader_keyOf x y Hxy). exact Hax.
    + intros s [Hs Hsub]. cbn [subtotalsFrom]. rewrite <- Hsz, <- Hst.
      split; [exact Hs|by apply IHsub].
    + rewrite !sizes_cons. lia.
Qed.

Lemma mapM_pure {A B} (g : A -> B) (l : list A) :
  mapM (fun x => Ok (g x)) l = Ok (g <$> l).
Proof.
  induction l as [|x l IH]; [reflexivity|]. cbn [mapM]. rewrite IH. reflexivity.
Qed.

Lemma length_le_sizes (es : list entry) :
  Forall (fun e => 0 < eSize e) es -> Z.of_nat (length es) <= sizes es.
Proof.
  induction 1 as [|e es He _ IH]; [done|].
  rewrite sizes_cons. cbn [length]. lia.
Qed.

Lemma numericRow_cons (c : string) (rest : list string) (r : row) :
  numericRow (c :: rest) r
  <-> (exists k, cell r c = VNum k) /\ numericRow rest r.
Proof.
  unfold numericRow. split.
  - intros H. by apply Forall_cons in H.
  - intros [? ?]. by constructor.
Qed.

Lemma buildIndexRec_valid (cols : list string) : cols <> [] ->
  forall rows : list row, Forall (numericRow cols) rows ->
  exists es total, buildIndexRec cols rows = Ok (es, total)
    /\ validLevel (length cols) es total
    /\ total = Z.of_nat (length rows)
    /\ (length es <= length rows)%nat
    /\ (rows <> [] -> es <> []).
Proof.
  induction cols as [|c rest IH]; [done|]. intros _ rows Hrows.
  cbn [buildIndexRec].
  destruct (buildShallowIndex_good c (numericRow rest) rows)
    as (sh & total & Hbuild & Hnum & Hs & Hsub & Htotal & Hlen & Hdata & Hne).
  { eapply Forall_impl; [exact Hrows|]. intros r Hr. by apply numericRow_cons. }
  rewrite Hbuild.
  assert (Hsizes : Forall (fun e => 0 < eSize e) (leafOf <$> sh)).
  { apply Forall_fmap. eapply Forall_impl; [exact Hdata|].
    intros e (Hd & Hl & _). cbn. destruct (shData e); [done|cbn in Hl; lia]. }
  assert (Hcount : (length sh <= length rows)%nat).
  { pose proof (length_le_sizes _ Hsizes) as Hle.
    rewrite length_fmap in Hle. lia. }
  destruct rest as [|c' rest'].
  - change (mapM _ sh) with
      (mapM (fun e => Ok (leafOf e)) sh). rewrite mapM_pure.
    cbn [mbind result_bind]. exists (leafOf <$> sh), total.
    split; [reflexivity|]. split; [|split; [exact Hlen|split]].
    + cbn [length]. rewrite validLevel_unfold.
      split; [exact Hnum|]. split; [exact Hs|]. split; [exact Hsub|].
      split; [exact Htotal|]. apply Forall_fmap.
      eapply Forall_impl; [exact Hdata|]. intros e (Hd & Hl & _).
      cbn. split; assumption.
    + by rewrite length_fmap.
    + intros Hr Hnil. apply (Hne Hr). by destruct sh.
  - match goal with
    | |- context [mapM ?f sh] =>
        destruct (mapM_Forall2 f
                    (fun s e => sameHeader (leafOf s) e
                       /\ exists sub t, eData e = SubIndex sub t
                            /\ validLevel (length (c' :: rest')) sub t
                            /\ sub <> []
                            /\ Z.of_nat (length sub) <= eSize e) sh)
          as (es & Hes & Hrel)
    end.
    { eapply Forall_impl; [exact Hdata|]. intros e (Hd & Hl & HQ). cbv beta.
      destruct (IH ltac:(discriminate) (shData e) HQ)
        as (sub & t & Hsubix & Hv & Ht & Hc & Hn).
      rewrite Hsubix. cbn [mbind result_bind fst snd]. eexists.
      split; [reflexivity|]. split; [by repeat split|].
      exists sub, t. split; [reflexivity|]. split; [exact Hv|].
      split; [by apply Hn|]. cbn [eSize]. lia. }
    rewrite Hes. cbn [mbind result_bind]. exists es, total.
    split; [reflexivity|].
    assert (Hhead : Forall2 sameHeader (leafOf <$> sh) es).
    { apply Forall2_fmap_l. eapply Forall2_impl; [exact Hrel|]. by intros ?? [? _]. }
    destruct (sameHeader_transfer _ _ Hhead) as (Tn & Ts & Tsub & Tsz).
    pose proof (Forall2_length _ _ _ Hrel) as Hlen2.
    split; [|split; [exact Hlen|split]].
    + change (length (c :: c' :: rest')) with (S (S (length rest'))).
      rewrite validLevel_unfold.
      split; [by apply Tn|]. split; [by apply Ts|]. split; [by apply Tsub|].
      split; [by rewrite Tsz|].
      apply Forall_forall. intros e He.
      apply list_elem_of_lookup_1 in He as [i He].
      destruct (Forall2_lookup_r _ _ _ _ _ Hrel He) as (s & Hs' & _ & Hd').
      destruct Hd' as (sub & t & Hd' & Hv & Hn & Hc). rewrite Hd'.
      split; [exact Hv|]. split; [exact Hn|exact Hc].
    + lia.
    + intros Hr Hnil. apply (Hne Hr). subst es. by destruct sh.
Qed.

(** ** [mergeIndex] on valid indexes *)

Lemma validLevel_entries (depth : nat) (es : list entry) (total : Z) :
  validLevel depth es total
  <-> numericEntries es
      /\ StronglySorted (fun a b => keyOf a < keyOf b) es
      /\ subtotalsFrom 0 es
      /\ total = sizes es
      /\ Forall (validEntry depth) es.
Proof. rewrite validLevel_unfold. reflexivity. Qed.

Lemma validEntry_size (depth : nat) (e : entry) : validEntry depth e -> 0 < eSize e.
Proof.
  unfold validEntry.
  destruct depth as [|[|depth]]; destruct (eData e) as [rws|sub st];
    try contradiction.
  - intros [Hne <-]. destruct rws; [done|cbn; lia].
  - intros [Hne <-]. destruct rws; [done|cbn; lia].
  - intros (_ & Hne & Hle). destruct sub; [done|cbn in Hle; lia].
Qed.

Section MergeValid.
Variable depth : nat.
Local Abbreviation walked := (walked depth).
Local Abbreviation ahead := (ahead depth).
Local Abbreviation merged := (merged depth).
Variable mergeEntries : entry -> entry -> entry * option error.
Hypothesis mergeEntries_valid : forall le re,
  validEntry depth le -> validEntry depth re ->
  exists m, mergeEntries le re = (m, None)
    /\ eValue m = eValue le /\ eSize m = eSize le + eSize re
    /\ eSubtotal m = eSubtotal le + eSubtotal re /\ validEntry depth m.

Lemma walked_end (done : list entry) (prevR : option entry) (sL sR : Z) :
  walked done prevR sL sR -> merged (reverse done) (sL + sR) (length done).
Proof.
  intros (Hn & Hv & Hs & Hsub & Hhead & _).
  destruct (subtotalsRev_reverse done Hsub) as [Hfrom Hsizes].
  split; [by apply Forall_reverse|]. split; [by apply Forall_reverse|].
  split; [by apply descending_reverse|]. split; [exact Hfrom|].
  split; [lia|]. by rewrite length_reverse.
Qed.

Lemma ahead_nil (done : list entry) (s : Z) : ahead done [] s.
Proof. repeat split; constructor. Qed.

Lemma ahead_tail (done : list entry) (e x : entry) (es : list entry) (s : Z) :
  ahead done (e :: es) s -> keyOf x = keyOf e ->
  ahead (x :: done) es (s + eSize e).
Proof.
  intros (Hn & Hv & Hs & Hsub & Hb) Hx.
  apply Forall_cons in Hn as [_ Hn]. apply Forall_cons in Hv as [_ Hv].
  apply StronglySorted_inv in Hs as [Hs He]. destruct Hsub as [_ Hsub].
  repeat split; try assumption.
  intros y [= <-]. rewrite Hx. exact He.
Qed.

(** The other side, when an entry with a smaller key is pushed. *)
Lemma ahead_push (done : list entry) (x : entry) (es : list entry) (s : Z) :
  ahead done es s -> Forall (fun e => keyOf x < keyOf e) es ->
  ahead (x :: done) es s.
Proof.
  intros (Hn & Hv & Hs & Hsub & Hb) Hx. repeat split; try assumption.
  by intros y [= <-].
Qed.

Lemma ahead_head_bound (done : list entry) (e : entry) (es : list entry) (s : Z) :
  ahead done (e :: es) s -> forall y, head done = Some y -> keyOf y < keyOf e.
Proof.
  intros (_ & _ & _ & _ & Hb) y Hy. specialize (Hb y Hy).
  by apply Forall_cons in Hb as [? _].
Qed.

Lemma ahead_above (done : list entry) (e : entry) (es : list entry) (s : Z)
    (x : entry) :
  ahead done (e :: es) s -> keyOf x < keyOf e ->
  Forall (fun e' => keyOf x < keyOf e') (e :: es).
Proof.
  intros (_ & _ & Hs & _) Hx. apply StronglySorted_inv in Hs as [_ He].
  constructor; [exact Hx|]. eapply Forall_impl; [exact He|].
  intros z Hz. cbn in Hz. lia.
Qed.

Lemma walked_push (done : list entry) (prevR prevR' : option entry)
    (sL sR sL' sR' : Z) (x : entry) :
  walked done prevR sL sR ->
  (exists n, eValue x = VNum n) -> validEntry depth x ->
  (forall y, head done = Some y -> keyOf y < keyOf x) ->
  eSubtotal x = sL + sR + eSize x ->
  sL' + sR' = sL + sR + eSize x ->
  from_option eSubtotal 0 prevR' = sR' ->
  walked (x :: done) prevR' sL' sR'.
Proof.
  intros (Hn & Hv & Hs & Hsub & Hhead & Hp) Hx Hvx Hb Hsx Hsum Hp'.
  split; [by constructor|]. split; [by constructor|].
  split; [by apply descending_cons|]. split; [|split; [|exact Hp']].
  - cbn [subtotalsRev]. split; [lia|exact Hsub].
  - cbn [head from_option]. lia.
Qed.

Lemma mergeWalk_valid (todo : list entry) : forall rs done prevR sL sR,
  walked done prevR sL sR -> ahead done todo sL -> ahead done rs sR ->
  exists res, mergeWalk addCallbacks mergeEntries todo done prevR rs = (res, None)
    /\ merged res (sL + sR + sizes todo + sizes rs)
         (length done + length todo + length rs)
    /\ (done <> [] \/ todo <> [] \/ rs <> [] -> res <> []).
Proof.
  induction todo as [|le todo IHtodo].
  - induction rs as [|re rs IHrs]; intros done prevR sL sR Hw Hl Hr.
    + rewrite mergeWalk_nil_nil. eexists. split; [reflexivity|].
      pose proof (walked_end _ _ _ _ Hw) as Hm.
      split.
      * unfold sizes. cbn [foldr length]. rewrite !Z.add_0_r, !Nat.add_0_r.
        exact Hm.
      * intros [Hd|[?|?]]; try done. intros Hrev.
        apply (f_equal reverse) in Hrev. rewrite reverse_involutive in Hrev.
        by apply Hd.
    + rewrite mergeWalk_nil_cons. cbn [cbProcessRightSideEntry addCallbacks].
      pose proof Hr as (Hrn & Hrv & Hrs & Hrsub & Hrb).
      apply Forall_cons in Hrn as [Hren _]. apply Forall_cons in Hrv as [Hrev _].
      destruct Hrsub as [Hresub _].
      set (new := Entry (eValue re) (eSize re)
                    match head done with
                    | Some p => eSize re + eSubtotal p
                    | None => eSize re
                    end (eData re)).
      assert (Hnew : walked (new :: done) (Some re) sL (sR + eSize re)).
      { pose proof Hw as (_ & _ & _ & _ & Hhead & Hp).
        apply (walked_push done prevR (Some re) sL sR _ _ _ Hw).
        - exact Hren.
        - exact Hrev.
        - intros y Hy. by apply (ahead_head_bound done re rs sR Hr).
        - subst new. cbn [eSubtotal eSize]. destruct (head done); cbn in *; lia.
        - subst new. cbn [eSize]. lia.
        - cbn. lia. }
      destruct (IHrs (new :: done) (Some re) sL (sR + eSize re) Hnew)
        as (res & Hres & Hm & Hne).
      { apply ahead_nil. }
      { by apply (ahead_tail done re new rs sR). }
      exists res. split; [exact Hres|]. split.
      * destruct Hm as (? & ? & ? & ? & Hsz & Hlen).
        repeat split; try assumption.
        -- rewrite Hsz, sizes_cons. unfold sizes. cbn [foldr]. lia.
        -- cbn [length] in *. lia.
      * intros _. apply Hne. by left.
  - induction rs as [|re rs IHrs]; intros done prevR sL sR Hw Hl Hr.
    + rewrite mergeWalk_cons_nil.
      pose proof Hl as (Hln & Hlv & Hls & Hlsub & Hlb).
      apply Forall_cons in Hln as [Hlen _]. apply Forall_cons in Hlv as [Hlev _].
      destruct Hlsub as [Hlesub _].
      set (new := cbProcessLeftSideEntry addCallbacks le prevR).
      assert (Hhdr : eValue new = eValue le /\ eSize new = eSize le
                     /\ eData new = eData le
                     /\ eSubtotal new = eSubtotal le + from_option eSubtotal 0 prevR).
      { subst new. cbn [cbProcessLeftSideEntry addCallbacks].
        destruct prevR; cbn; repeat split; lia. }
      destruct Hhdr as (Hnv & Hnsz & Hnd & Hnsub).
      assert (Hkey : keyOf new = keyOf le) by (unfold keyOf; by rewrite Hnv).
      assert (Hnew : walked (new :: done) prevR (sL + eSize le) sR).
      { pose proof Hw as (_ & _ & _ & _ & _ & Hp).
        apply (walked_push done prevR prevR sL sR _ _ _ Hw).
        - rewrite Hnv. exact Hlen.
        - unfold validEntry in *. rewrite Hnd, Hnsz. exact Hlev.
        - intros y Hy. rewrite Hkey. by apply (ahead_head_bound done le todo sL Hl).
        - lia.
        - lia.
        - exact Hp. }
      destruct (IHtodo [] (new :: done) prevR (sL + eSize le) sR Hnew)
        as (res & Hres & Hm & Hne).
      { by apply (ahead_tail done le new todo sL). }
      { apply ahead_nil. }
      exists res. split; [exact Hres|]. split.
      * destruct Hm as (? & ? & ? & ? & Hsz & Hlen').
        repeat split; try assumption.
        -- rewrite Hsz, sizes_cons. unfold sizes. cbn [foldr]. lia.
        -- cbn [length] in *. lia.
      * intros _. apply Hne. by left.
    + rewrite mergeWalk_cons_cons.
      pose proof Hl as (Hln & Hlv & Hls & Hlsub & Hlb).
      apply Forall_cons in Hln as [[kl Hkl] _]. apply Forall_cons in Hlv as [Hlev _].
      destruct Hlsub as [Hlesub _].
      pose proof Hr as (Hrn & Hrv & Hrs & Hrsub & Hrb).
      apply Forall_cons in Hrn as [[kr Hkr] _]. apply Forall_cons in Hrv as [Hrev _].
      destruct Hrsub as [Hresub _].
      assert (Hkeyl : keyOf le = kl) by (by apply keyOf_value).
      assert (Hkeyr : keyOf re = kr) by (by apply keyOf_value).
      rewrite Hkl, Hkr. unfold looseEq, jsLt. cbn [boolToNum toNumber].
      destruct (Z.eqb_spec kl kr) as [Heq|Hne].
      * (* the value is on both sides *)
        destruct (mergeEntries_valid le re Hlev Hrev)
          as (m & -> & Hmv & Hmsz & Hmsub & Hmvalid).
        pose proof (validEntry_size _ _ Hlev). pose proof (validEntry_size _ _ Hrev).
        destruct (Z.eqb_spec (eSize m) 0); [lia|].
        assert (Hkey : keyOf m = keyOf le) by (unfold keyOf; by rewrite Hmv).
        assert (Hnew : walked (m :: done) (Some re) (sL + eSize le) (sR + eSize re)).
        { pose proof Hw as (_ & _ & _ & _ & _ & Hp).
          apply (walked_push done prevR (Some re) sL sR _ _ _ Hw).
          - exists kl. congruence.
          - exact Hmvalid.
          - intros y Hy. rewrite Hkey.
            by apply (ahead_head_bound done le todo sL Hl).
          - lia.
          - lia.
          - cbn. lia. }
        destruct (IHtodo rs (m :: done) (Some re) (sL + eSize le) (sR + eSize re) Hnew)
          as (res & Hres & Hm & Hne').
        { by apply (ahead_tail done le m todo sL). }
        { apply (ahead_tail done re m rs sR); [exact Hr|]. lia. }
        exists res. split; [exact Hres|]. split.
        -- destruct Hm as (? & ? & ? & ? & Hsz & Hlen').
           repeat split; try assumption.
           ++ rewrite Hsz, !sizes_cons. lia.
           ++ cbn [length] in *. lia.
        -- intros _. apply Hne'. by left.
      * destruct (Z.ltb_spec kl kr) as [Hlt|Hge].
        -- (* the left value comes first *)
           set (new := cbProcessLeftSideEntry addCallbacks le prevR).
           assert (Hhdr : eValue new = eValue le /\ eSize new = eSize le
                     /\ eData new = eData le
                     /\ eSubtotal new
                        = eSubtotal le + from_option eSubtotal 0 prevR).
           { subst new. cbn [cbProcessLeftSideEntry addCallbacks].
             destruct prevR; cbn; repeat split; lia. }
           destruct Hhdr as (Hnv & Hnsz & Hnd & Hnsub).
           assert (Hkey : keyOf new = keyOf le) by (unfold keyOf; by rewrite Hnv).
           assert (Hnew : walked (new :: done) prevR (sL + eSize le) sR).
           { pose proof Hw as (_ & _ & _ & _ & _ & Hp).
             apply (walked_push done prevR prevR sL sR _ _ _ Hw).
             - rewrite Hnv. by exists kl.
             - unfold validEntry in *. rewrite Hnd, Hnsz. exact Hlev.
             - intros y Hy. rewrite Hkey.
               by apply (ahead_head_bound done le todo sL Hl).
             - lia.
             - lia.
             - exact Hp. }
           destruct (IHtodo (re :: rs) (new :: done) prevR (sL + eSize le) sR Hnew)
             as (res & Hres & Hm & Hne').
           { by apply (ahead_tail done le new todo sL). }
           { apply ahead_push; [exact Hr|].
             apply (ahead_above done re rs sR new Hr). lia. }
           exists res. split; [exact Hres|]. split.
           ++ destruct Hm as (? & ? & ? & ? & Hsz & Hlen').
              repeat split; try assumption.
              ** rewrite Hsz, !sizes_cons. lia.
              ** cbn [length] in *. lia.
           ++ intros _. apply Hne'. by left.
        -- (* the right value comes first *)
           cbn [cbProcessRightSideEntry addCallbacks].
           set (new := Entry (eValue re) (eSize re)
                         match head done with
                         | Some p => eSize re + eSubtotal p
                         | None => eSize re
                         end (eData re)).
           assert (Hkey : keyOf new = keyOf re) by reflexivity.
           assert (Hnew : walked (new :: done) (Some re) sL (sR + eSize re)).
           { pose proof Hw as (_ & _ & _ & _ & Hhead & Hp).
             apply (walked_push done prevR (Some re) sL sR _ _ _ Hw).
             - by exists kr.
             - exact Hrev.
             - intros y Hy. by apply (ahead_head_bound done re rs sR Hr).
             - subst new. cbn [eSubtotal eSize]. destruct (head done); cbn in *; lia.
             - subst new. cbn [eSize]. lia.
             - cbn. lia. }
           destruct (IHrs (new :: done) (Some re) sL (sR + eSize re) Hnew)
             as (res & Hres & Hm & Hne').
           { apply ahead_push; [exact Hl|].
             apply (ahead_above done le todo sL new Hl). lia. }
           { by apply (ahead_tail done re new rs sR). }
           exists res. split; [exact Hres|]. split.
           ++ destruct Hm as (? & ? & ? & ? & Hsz & Hlen').
              repeat split; try assumption.
              ** rewrite Hsz, !sizes_cons. lia.
              ** cbn [length] in *. lia.
           ++ intros _. apply Hne'. by left.
Qed.
End MergeValid.

Lemma pluckValue_key (a b : entry) :
  (exists n, eValue a = VNum n) -> (exists n, eValue b = VNum n) ->
  pluckValue a b <= 0 <-> keyOf a <= keyOf b.
Proof.
  intros Ha Hb. unfold pluckValue.
  rewrite (numeric_value a Ha), (numeric_value b Hb), Comparator_num.
  destruct (Z.compare_spec (keyOf a) (keyOf b)); lia.
Qed.

Lemma sorted_weaken (es : list entry) :
  StronglySorted (fun a b => keyOf a < keyOf b) es ->
  StronglySorted (fun a b => keyOf a <= keyOf b) es.
Proof.
  induction 1 as [|e es Hs IH He]; constructor; [exact IH|].
  eapply Forall_impl; [exact He|]. intros z Hz. cbn in *. lia.
Qed.

(** The [sort] of [mergeTotals] finds the merged entries in order. *)
Lemma sort_merged (es : list entry) :
  numericEntries es -> StronglySorted (fun a b => keyOf a < keyOf b) es ->
  sort pluckValue es = es.
Proof.
  intros Hn Hs.
  apply (sort_id pluckValue keyOf (fun e => exists n, eValue e = VNum n)).
  - apply pluckValue_key.
  - exact Hn.
  - by apply sorted_weaken.
Qed.

Lemma mergeIndexRec_nested (cb : callbacks) (depth : nat) (left right : level) :
  mergeIndexRec cb (S (S depth)) left right
  = match mergeWalk cb
            (fun leftEntry rightEntry =>
               match eData leftEntry, eData rightEntry with
               | SubIndex le lt, SubIndex re rt =>
                   match mergeIndexRec cb (S depth) (le, lt) (re, rt) with
                   | (sub, Some e) =>
                       (withData leftEntry (SubIndex sub.1 sub.2), Some e)
                   | (sub, None) =>
                       match cbMergeLeftAndRightEntries cb
                               (withData leftEntry (SubIndex sub.1 sub.2))
                               rightEntry false with
                       | Ok merged => (merged, None)
                       | Err e =>
                           (withData leftEntry (SubIndex sub.1 sub.2), Some e)
                       end
                   end
               | _, _ =>
                   (leftEntry,
                    Some (TypeError "index data is not an array of entries"))
               end) left.1 [] None right.1 with
    | (entries, Some e) => ((entries, left.2), Some e)
    | (entries, None) => (cbMergeTotals cb (entries, left.2) right false, None)
    end.
Proof. reflexivity. Qed.

Lemma walk_start (depth : nat) (es : list entry) (total : Z) :
  validLevel depth es total -> ahead depth [] es 0.
Proof.
  intros (Hn & Hs & Hsub & _ & Hv)%validLevel_entries.
  repeat split; try assumption. discriminate.
Qed.

Lemma mergeIndexRec_valid_leaf (depth : nat) (l : list entry) (lt : Z)
    (r : list entry) (rt : Z) :
  (depth <= 1)%nat ->
  validLevel depth l lt -> validLevel depth r rt ->
  exists es, mergeIndexRec addCallbacks depth (l, lt) (r, rt)
             = ((es, lt + rt), None)
    /\ validLevel depth es (lt + rt)
    /\ (length es <= length l + length r)%nat
    /\ (l <> [] -> es <> []).
Proof.
  intros Hleaf Hl Hr. rewrite mergeIndexRec_leaf by exact Hleaf. cbn [fst snd].
  match goal with
  | |- context [mergeWalk addCallbacks ?me l [] None r] =>
      destruct (mergeWalk_valid depth me) with (todo := l) (rs := r)
        (done := @nil entry) (prevR := @None entry) (sL := 0) (sR := 0)
        as (res & Hres & (Hn & Hv & Hs & Hsub & Hsz & Hlen) & Hne)
  end.
  - intros le re Hle Hre. cbn [cbMergeLeftAndRightEntries addCallbacks].
    assert (Hshape : forall e, validEntry depth e ->
              exists a, eData e = RowData a /\ a <> []
                        /\ Z.of_nat (length a) = eSize e).
    { intros e He. unfold validEntry in He.
      destruct depth as [|[|depth]]; [..|lia];
        destruct (eData e) as [a|]; try contradiction; exists a; by split. }
    destruct (Hshape le Hle) as (a & Ha & Hane & Halen).
    destruct (Hshape re Hre) as (b & Hb & Hbne & Hblen).
    rewrite Ha, Hb. cbn [appendData mbind result_bind]. eexists.
    split; [reflexivity|]. cbn [eValue eSize eSubtotal].
    do 3 (split; [reflexivity|]). unfold validEntry.
    destruct depth as [|[|depth]]; [..|lia]; cbn [eData eSize];
      (split; [by destruct a|rewrite length_app; lia]).
  - repeat split; constructor.
  - eapply walk_start; exact Hl.
  - eapply walk_start; exact Hr.
  - rewrite Hres. cbn [cbMergeTotals addCallbacks fst snd].
    rewrite (sort_merged res Hn Hs).
    apply validLevel_entries in Hl as (_ & _ & _ & Hlt & _).
    apply validLevel_entries in Hr as (_ & _ & _ & Hrt & _).
    exists res. split; [reflexivity|]. split.
    + apply validLevel_entries. repeat split; try assumption. lia.
    + split; [cbn [length] in Hlen; lia|intros Hl'; apply Hne; auto].
Qed.

Lemma mergeIndexRec_valid (depth : nat) : forall (l : list entry) (lt : Z)
    (r : list entry) (rt : Z),
  validLevel depth l lt -> validLevel depth r rt ->
  exists es, mergeIndexRec addCallbacks depth (l, lt) (r, rt)
             = ((es, lt + rt), None)
    /\ validLevel depth es (lt + rt)
    /\ (length es <= length l + length r)%nat
    /\ (l <> [] -> es <> []).
Proof.
  induction depth as [|depth IH]; intros l lt r rt Hl Hr.
  { apply mergeIndexRec_valid_leaf; [lia|assumption..]. }
  destruct depth as [|depth].
  { apply mergeIndexRec_valid_leaf; [lia|assumption..]. }
  rewrite mergeIndexRec_nested. cbn [fst snd].
  match goal with
  | |- context [mergeWalk addCallbacks ?me l [] None r] =>
      destruct (mergeWalk_valid (S (S depth)) me) with (todo := l) (rs := r)
        (done := @nil entry) (prevR := @None entry) (sL := 0) (sR := 0)
        as (res & Hres & (Hn & Hv & Hs & Hsub & Hsz & Hlen) & Hne)
  end.
  - intros le re Hle Hre. unfold validEntry in Hle, Hre.
    destruct (eData le) as [|sl slt] eqn:Hdl, (eData re) as [|sr srt] eqn:Hdr;
      try contradiction.
    destruct Hle as (Hvl & Hnl & Hcl), Hre as (Hvr & Hnr & Hcr).
    destruct (IH sl slt sr srt Hvl Hvr) as (sub & -> & Hvsub & Hclen & Hsne).
    cbn [cbMergeLeftAndRightEntries addCallbacks mbind result_bind fst snd
         withData eData eValue eSize eSubtotal].
    eexists. split; [reflexivity|].
    cbn [eValue eSize eSubtotal]. do 3 (split; [reflexivity|]).
    unfold validEntry. cbn [eData eSize].
    split; [exact Hvsub|]. split; [by apply Hsne|]. lia.
  - repeat split; constructor.
  - eapply walk_start; exact Hl.
  - eapply walk_start; exact Hr.
  - rewrite Hres. cbn [cbMergeTotals addCallbacks fst snd].
    rewrite (sort_merged res Hn Hs).
    apply validLevel_entries in Hl as (_ & _ & _ & Hlt & _).
    apply validLevel_entries in Hr as (_ & _ & _ & Hrt & _).
    exists res. split; [reflexivity|]. split.
    + apply validLevel_entries. repeat split; try assumption. lia.
    + split; [cbn [length] in Hlen; lia|intros Hl'; apply Hne; auto].
Qed.

(** ** [buildIndex] and [rowsAdded] keep an index valid *)

(** X9: on rows that have numbers in the columns of the index,
    [buildIndex] returns an index that passes the checks of
    [validateIndex] and whose total is the number of rows. *)
Theorem buildIndex_valid (ix : Index) (rs : list row) :
  columns ix <> [] -> Forall (numericRow (columns ix)) rs ->
  exists lvl, buildIndex ix (Some <$> rs) = Ok lvl
    /\ check (columns ix) lvl = Ok ()
    /\ lvl.2 = Z.of_nat (length rs).
Proof.
  intros Hcols Hrs. unfold buildIndex. rewrite definedRows_Some.
  cbn [mbind result_bind].
  destruct (buildIndexRec_valid (columns ix) Hcols rs Hrs)
    as (es & total & -> & Hv & Ht & _).
  exists (es, total). split; [reflexivity|]. split; [|exact Ht].
  by apply validLevel_check.
Qed.

Lemma rowsAdded_numeric_valid (ix : Index) (rs : list row) :
  validIndex ix -> Forall (numericRow (columns ix)) rs ->
  exists ix', rowsAdded ix (Some <$> rs) = (ix', None)
    /\ validIndex ix'
    /\ validateIndex ix' = Ok ()
    /\ indexTotal ix' = indexTotal ix + Z.of_nat (length rs)
    /\ columns ix' = columns ix /\ signature ix' = signature ix.
Proof.
  intros [Hcols Hvalid] Hrs. unfold rowsAdded, buildIndex.
  rewrite definedRows_Some. cbn [mbind result_bind].
  destruct (buildIndexRec_valid (columns ix) Hcols rs Hrs)
    as (es & total & -> & Hv & Ht & _).
  unfold mergeIndex.
  destruct (mergeIndexRec_valid (length (columns ix)) (index ix) (indexTotal ix)
              es total Hvalid Hv) as (res & -> & Hres & _).
  eexists. split; [reflexivity|].
  assert (Hix : validIndex (setIndex ix (res, indexTotal ix + total))).
  { split; [exact Hcols|exact Hres]. }
  split; [exact Hix|]. split; [by apply validIndex_validateIndex|].
  cbn. repeat split. lia.
Qed.

(** X10: [rowsAdded] of rows that have integers in the columns of a valid
    index of integers does not throw and leaves a valid index: it passes
    [validateIndex], its total has grown by the number of rows, and its
    columns and signature are unchanged. *)
Theorem rowsAdded_valid (ix : Index) (rs : list row) :
  validIndex ix -> Forall (numericRow (columns ix)) rs ->
  exists ix', rowsAdded ix (Some <$> rs) = (ix', None)
    /\ validIndex ix'
    /\ validateIndex ix' = Ok ()
    /\ indexTotal ix' = indexTotal ix + Z.of_nat (length rs)
    /\ columns ix' = columns ix /\ signature ix' = signature ix.
Proof. apply rowsAdded_numeric_valid. Qed.

(** ** Tables of integers keep their indexes valid *)

Lemma hoare_bind {A B} (P : Table -> Prop) (m : op A) (Q : A -> Table -> Prop)
    (k : A -> op B) (R : B -> Table -> Prop) (E : Table -> Prop) :
  hoare P m Q E -> (forall a, hoare (Q a) (k a) R E) -> hoare P (m ≫= k) R E.
Proof.
  intros Hm Hk t Ht. rewrite op_bind_unfold. specialize (Hm t Ht).
  destruct (m t) as [t1 [a|e]]; [|exact Hm]. by apply Hk.
Qed.

Lemma hoare_weaken {A} (P P' : Table -> Prop) (m : op A)
    (Q Q' : A -> Table -> Prop) (E E' : Table -> Prop) :
  hoare P' m Q' E' -> (forall t, P t -> P' t) ->
  (forall a t, Q' a t -> Q a t) -> (forall t, E' t -> E t) ->
  hoare P m Q E.
Proof.
  intros Hm HP HQ HE t Ht. specialize (Hm t (HP t Ht)).
  destruct (m t) as [t1 [a|e]]; auto.
Qed.

Lemma hoare_ret {A} (P : Table -> Prop) (a : A) (E : Table -> Prop) :
  hoare P (mret a) (fun b t => b = a /\ P t) E.
Proof. intros t Ht. by split. Qed.

Lemma hoare_get (P : Table -> Prop) (E : Table -> Prop) :
  hoare P get (fun s t => s = t /\ P t) E.
Proof. intros t Ht. by split. Qed.

Lemma hoare_lift {A} (P : Table -> Prop) (r : result A) :
  hoare P (lift r) (fun a t => r = Ok a /\ P t) P.
Proof. intros t Ht. unfold lift. destruct r; [by split|exact Ht]. Qed.

Lemma hoare_throw {A} (P : Table -> Prop) (e : error) (Q : A -> Table -> Prop) :
  hoare P (throw e) Q P.
Proof. intros t Ht. exact Ht. Qed.

Lemma hoare_modify (P Q : Table -> Prop) (f : Table -> Table) (E : Table -> Prop) :
  (forall t, P t -> Q (f t)) -> hoare P (modify f) (fun _ => Q) E.
Proof. intros Hf t Ht. by apply Hf. Qed.

Lemma hoare_checkActive (P : Table -> Prop) :
  hoare P checkActive (fun _ t => P t /\ active t = true) P.
Proof.
  intros t Ht. unfold checkActive. destruct (active t) eqn:Ha; [by split|exact Ht].
Qed.

Lemma hoare_each {A} (I : Table -> Prop) (f : A -> op ()) (l : list A) :
  (forall x, x ∈ l -> hoare I (f x) (fun _ => I) I) ->
  hoare I (each f l) (fun _ => I) I.
Proof.
  induction l as [|x l IH]; intros Hf; cbn [each].
  - intros t Ht. exact Ht.
  - eapply hoare_bind; [apply Hf; left|]. intros u. apply IH.
    intros y Hy. apply Hf. by right.
Qed.

Lemma hoare_collect {A B} (I : Table -> Prop) (R : B -> Prop) (f : A -> op B)
    (l : list A) :
  (forall x, x ∈ l -> hoare I (f x) (fun y t => I t /\ R y) I) ->
  hoare I (collect f l) (fun ys t => I t /\ Forall R ys) I.
Proof.
  induction l as [|x l IH]; intros Hf; cbn [collect].
  - intros t Ht. split; [exact Ht|constructor].
  - eapply hoare_bind; [apply Hf; left|]. intros y. cbv beta.
    intros t [Ht Hy]. rewrite op_bind_unfold.
    assert (Hl : forall z, z ∈ l -> hoare I (f z) (fun y t => I t /\ R y) I).
    { intros z Hz. apply Hf. by right. }
    specialize (IH Hl t Ht). destruct (collect f l t) as [t1 [ys|e]]; [|exact IH].
    destruct IH as [Ht1 Hys]. split; [exact Ht1|by constructor].
Qed.

(** *** Tables of integers *)

Lemma numericRow_clone (cols : list string) (r : row) (d : dollar) :
  numericRow cols r -> numericRow cols (Row (cloneCells cols r) d).
Proof.
  intros Hr. apply Forall_forall. intros c Hc.
  destruct (proj1 (Forall_forall _ _) Hr c Hc) as [n Hn]. exists n.
  unfold cell at 1. cbn [cells]. rewrite lookup_cloneCells by exact Hc.
  exact Hn.
Qed.

Lemma numericRow_subseteq (cols names : list string) (r : row) :
  names ⊆ cols -> numericRow cols r -> numericRow names r.
Proof.
  intros Hsub Hr. apply Forall_forall. intros c Hc.
  apply (proj1 (Forall_forall _ _) Hr c). by apply Hsub.
Qed.

Lemma numericRows_snoc (cols : list string) (rs : rowArray) (r : row) :
  numericRows cols rs -> numericRow cols r -> numericRows cols (rs ++ [Some r]).
Proof.
  intros (l & -> & Hl) Hr. exists (l ++ [r]). split.
  - by rewrite fmap_app.
  - apply Forall_app. split; [exact Hl|]. constructor; [exact Hr|constructor].
Qed.

Lemma hoare_insertRow (cols : list string) (x : option row) :
  (forall r, x = Some r -> numericRow cols r) ->
  hoare (numericTable cols) (insertRow x)
    (fun y t => numericTable cols t /\ forall r, y = Some r -> numericRow cols r)
    (numericTable cols).
Proof.
  intros Hx t Ht. unfold insertRow. destruct x as [r|]; [|exact Ht].
  destruct (dollarTruthy (rowDollar r)).
  - cbn. split; [exact Ht|discriminate].
  - repeat (rewrite op_bind_unfold; cbn [get modify]).
    unfold mret, op_ret. cbn [columnNames setRows setClosures id closures].
    destruct Ht as (Hcols & Hrows & Hix). rewrite Hcols.
    assert (Hnum : numericRow cols
              (Row (cloneCells cols r) (DHandle (id t) (length (closures t))))).
    { apply numericRow_clone. by apply Hx. }
    split.
    + split; [exact Hcols|]. split; [|exact Hix]. cbn [rows].
      by apply numericRows_snoc.
    + intros r' [= <-]. exact Hnum.
Qed.

Lemma definedRows_Ok (result : rowArray) (rs : list row) :
  definedRows result = Ok rs -> result = Some <$> rs.
Proof.
  unfold definedRows. revert rs.
  induction result as [|x result IH]; intros rs; cbn [mapM].
  - by intros [= <-].
  - destruct x as [r|]; [|discriminate]. cbn [mbind result_bind].
    destruct (mapM _ result) as [ys|e]; [|discriminate].
    cbn [mbind result_bind]. intros [= <-]. rewrite fmap_cons.
    f_equal. by apply IH.
Qed.

Lemma rowsAdded_numeric (cols : list string) (result : rowArray) (ix : Index) :
  Forall (fun y => forall r, y = Some r -> numericRow cols r) result ->
  validIndex ix /\ columns ix ⊆ cols ->
  validIndex (rowsAdded ix result).1 /\ columns (rowsAdded ix result).1 ⊆ cols.
Proof.
  intros Hres [Hv Hsub].
  destruct (definedRows result) as [rs|e] eqn:Hdef.
  - apply definedRows_Ok in Hdef. subst result.
    destruct (rowsAdded_numeric_valid ix rs Hv) as (ix' & -> & Hv' & _ & _ & Hc & _).
    + apply Forall_forall. intros r Hr.
      apply (numericRow_subseteq cols); [exact Hsub|].
      apply (proj1 (Forall_forall _ _) Hres (Some r)); [|reflexivity].
      by apply list_elem_of_fmap_2.
    + cbn [fst]. split; [exact Hv'|]. by rewrite Hc.
  - unfold rowsAdded, buildIndex. rewrite Hdef. cbn. by split.
Qed.

Lemma hoare_callIndex (cols : list string) (k : nat)
    (call : string -> indexCall) (f : Index -> Index * option error) :
  (forall ix, validIndex ix /\ columns ix ⊆ cols ->
              validIndex (f ix).1 /\ columns (f ix).1 ⊆ cols) ->
  hoare (numericTable cols) (callIndex k call f) (fun _ => numericTable cols)
    (numericTable cols).
Proof.
  intros Hf t Ht. unfold callIndex.
  destruct (indicies t !! k) as [ix|] eqn:Hk; [|exact Ht].
  destruct Ht as (Hcols & Hrows & Hix).
  pose proof (Hf ix (Forall_lookup_1 _ _ _ _ Hix Hk)) as Hix'.
  destruct (f ix) as [ix' err].
  assert (Hnew : numericTable cols
            (logCall (setIndicies t (<[k:=ix']> (indicies t))) (call (signature ix)))).
  { split; [exact Hcols|]. split; [exact Hrows|]. cbn [indicies logCall setIndicies].
    apply Forall_insert; assumption. }
  destruct err; exact Hnew.
Qed.

Lemma hoare_eachIndex (I : Table -> Prop) (f : nat -> op ()) :
  (forall k, hoare I (f k) (fun _ => I) I) ->
  hoare I (eachIndex f) (fun _ => I) I.
Proof.
  intros Hf. unfold eachIndex. eapply hoare_bind; [apply hoare_get|].
  intros s. eapply hoare_weaken; [apply hoare_each| | |].
  - intros k _. apply Hf.
  - by intros t [_ Ht].
  - auto.
  - auto.
Qed.

Lemma hoare_validate (cols : list string) :
  hoare (numericTable cols) tableValidateIndex (fun _ => numericTable cols)
    (numericTable cols).
Proof.
  unfold tableValidateIndex. eapply hoare_bind; [apply hoare_checkActive|].
  intros u. eapply hoare_weaken; [apply hoare_eachIndex| | |].
  - intros k. apply hoare_callIndex. auto.
  - by intros t [Ht _].
  - auto.
  - auto.
Qed.

Lemma hoare_whenParanoid (I : Table -> Prop) (m : op ()) :
  hoare I m (fun _ => I) I -> hoare I (whenParanoid m) (fun _ => I) I.
Proof.
  intros Hm t Ht. unfold whenParanoid. rewrite op_bind_unfold. cbn [get].
  destruct (paranoia t); [by apply Hm|exact Ht].
Qed.

Lemma hoare_insert (cols : list string) (rows : rowsArg) :
  (forall r, Some r ∈ toArray rows -> numericRow cols r) ->
  hoare (numericTable cols) (insert rows) (fun _ => numericTable cols)
    (numericTable cols).
Proof.
  intros Hrows. unfold insert.
  eapply hoare_bind; [apply hoare_checkActive|]. intros u.
  eapply hoare_bind.
  { eapply hoare_weaken;
      [apply (hoare_collect (numericTable cols)
                (fun y => forall r, y = Some r -> numericRow cols r))| | |].
    - intros x Hx. apply hoare_insertRow. intros r ->. by apply Hrows.
    - by intros t [Ht _].
    - intros a t H. exact H.
    - auto. }
  intros result. cbv beta.
  intros t [Ht Hres]. revert t Ht.
  change (hoare (numericTable cols)
            (eachIndex (fun i => callRowsAdded i result)
               ≫= (fun _ => whenParanoid tableValidateIndex
               ≫= (fun _ => get
               ≫= (fun t => lift (mapM (cloneArg (columnNames t)) result)))))
            (fun _ => numericTable cols) (numericTable cols)).
  eapply hoare_bind.
  { apply hoare_eachIndex. intros k. apply hoare_callIndex.
    intros ix. by apply rowsAdded_numeric. }
  intros u'. eapply hoare_bind; [apply hoare_whenParanoid, hoare_validate|].
  intros u''. eapply hoare_bind; [apply hoare_get|].
  intros s. eapply hoare_weaken; [apply hoare_lift| | |].
  - by intros t [_ Ht].
  - by intros a t [_ Ht].
  - auto.
Qed.

Lemma validIndex_newIndex (names : list string) :
  names <> [] -> validIndex (newIndex names).
Proof.
  intros Hne. split; [exact Hne|]. cbn [newIndex columns index indexTotal].
  rewrite validLevel_unfold. repeat split; constructor.
Qed.

Lemma checkColumnNames_subseteq (names cols : list string) :
  checkColumnNames names (Some cols) = Ok () -> names <> [] /\ names ⊆ cols.
Proof.
  intros H. split; [by eapply checkColumnNames_nonempty|].
  unfold checkColumnNames in H. destruct names as [|n names]; [discriminate|].
  revert H. generalize objectPrototypeNames. generalize (n :: names).
  clear. intros l. induction l as [|x l IH]; intros cNames H.
  - intros y Hy. by apply elem_of_nil in Hy.
  - cbn [checkNamesFrom] in H.
    destruct (negb (validName x)); [discriminate|].
    destruct (bool_decide (x ∈ cNames)); [discriminate|].
    cbn [from_option] in H.
    destruct (bool_decide_reflect (x ∈ cols)) as [Hx|]; [|discriminate].
    cbn [negb] in H. intros y Hy.
    apply elem_of_cons in Hy as [->|Hy]; [exact Hx|]. by apply (IH _ H).
Qed.

Lemma hoare_indexOn (cols : list string) (names : list string) :
  hoare (numericTable cols) (indexOn names) (fun _ => numericTable cols)
    (numericTable cols).
Proof.
  intros t Ht. unfold indexOn. rewrite op_bind_unfold.
  unfold checkActive. destruct (active t); [|exact Ht].
  rewrite !op_bind_unfold. cbn [get lift].
  pose proof Ht as (Hcols & (l & Hl & Hnum) & Hix).
  destruct (checkColumnNames names (Some (columnNames t))) as [u|e] eqn:Hnames;
    [destruct u|exact Ht].
  rewrite Hcols in Hnames. apply checkColumnNames_subseteq in Hnames as [Hne Hsub].
  destruct (List.find _ (indicies t)); [exact Ht|].
  destruct (rowsAdded_numeric_valid (newIndex names) l (validIndex_newIndex names Hne))
    as (ix & Hadd & Hv & _ & _ & Hc & _).
  { eapply Forall_impl; [exact Hnum|]. intros r.
    by apply numericRow_subseteq. }
  rewrite Hl, Hadd. rewrite !op_bind_unfold. cbn [modify].
  unfold mret, op_ret.
  split; [exact Hcols|]. split; [by exists l|].
  cbn [indicies setIndicies logCall]. apply Forall_app. split; [exact Hix|].
  constructor; [|constructor]. split; [exact Hv|]. by rewrite Hc.
Qed.

Lemma numericHistory_numericTable (t : Table) :
  numericHistory t -> numericTable (columnNames t) t.
Proof.
  induction 1 as [id names t Hnew|t names _ IH|t rows _ IH Hrows|t _ IH
                 |t enable _ IH|t enable _ IH|t _ IH].
  - unfold newTable in Hnew.
    destruct (checkColumnNames names None); cbn in Hnew; simplify_eq.
    split; [reflexivity|]. split; [|constructor]. exists []. by split.
  - pose proof (hoare_indexOn _ names t IH) as H.
    destruct (indexOn names t) as [t' [a|e]]; cbn [fst];
      by rewrite (proj1 H).
  - pose proof (hoare_insert _ rows Hrows t IH) as H.
    destruct (insert rows t) as [t' [a|e]]; cbn [fst];
      by rewrite (proj1 H).
  - pose proof (hoare_validate _ t IH) as H.
    destruct (tableValidateIndex t) as [t' [a|e]]; cbn [fst];
      by rewrite (proj1 H).
  - unfold paranoiaSet. rewrite op_bind_unfold. unfold checkActive.
    destruct (active t); exact IH.
  - unfold verboseSet. rewrite op_bind_unfold. unfold checkActive.
    destruct (active t); exact IH.
  - unfold tableDrop. rewrite op_bind_unfold. unfold checkActive.
    destruct (active t); exact IH.
Qed.

(** ** [insert] of a batch *)

Lemma length_canonicalRows (cols : list string) (rs : list row) :
  forall tid h, length (canonicalRows cols tid h rs) = length rs.
Proof. induction rs as [|r rs IH]; intros tid h; cbn; [done|]. by rewrite IH. Qed.

Lemma withRows_nil (t : Table) : withRows t [] = t.
Proof.
  unfold withRows. cbn. rewrite !app_nil_r. by destruct t.
Qed.

Lemma collect_insertRow_batch (rs : list row) : forall t : Table,
  Forall (fun r => dollarTruthy (rowDollar r) = false) rs ->
  collect insertRow (Some <$> rs) t
  = (withRows t rs,
     Ok (Some <$> canonicalRows (columnNames t) (id t) (length (closures t)) rs)).
Proof.
  induction rs as [|r rs IH]; intros t Hrs.
  - cbn [fmap list_fmap collect canonicalRows]. by rewrite withRows_nil.
  - apply Forall_cons in Hrs as [Hr Hrs].
    cbn [fmap list_fmap collect]. rewrite op_bind_unfold.
    unfold insertRow at 1. rewrite Hr.
    repeat (rewrite op_bind_unfold; cbn [get modify]).
    unfold mret at 1, op_ret at 1.
    rewrite op_bind_unfold, IH by exact Hrs.
    unfold mret, op_ret. f_equal.
    + unfold withRows. cbn [rows closures columnNames id setRows setClosures
                           canonicalRows newClosures fmap list_fmap].
      rewrite !length_app. cbn [length].
      rewrite !Nat.add_1_r, <- !app_assoc. reflexivity.
    + cbn [canonicalRows columnNames id closures setRows setClosures
           fmap list_fmap].
      rewrite length_app. cbn [length]. rewrite Nat.add_1_r. reflexivity.
Qed.

Lemma clone_canonicalRows (cols : list string) (rs : list row) :
  forall tid h,
  clone cols <$> canonicalRows cols tid h rs = canonicalRows cols tid h rs.
Proof.
  induction rs as [|r rs IH]; intros tid h; [reflexivity|].
  cbn [canonicalRows fmap list_fmap]. f_equal; [|apply IH].
  unfold clone. cbn [rowDollar]. by rewrite cloneCells_clone.
Qed.

Lemma canonicalRows_cells (cols : list string) (rs : list row) :
  forall tid h,
  Forall2 (fun r s => forall c, c ∈ cols -> cell s c = cell r c)
    rs (canonicalRows cols tid h rs).
Proof.
  induction rs as [|r rs IH]; intros tid h; cbn [canonicalRows]; constructor.
  - intros c Hc. unfold cell at 1. cbn [cells].
    by rewrite lookup_cloneCells.
  - apply IH.
Qed.

Lemma mapM_app {A B} (f : A -> result B) (l1 l2 : list A) (ys1 ys2 : list B) :
  mapM f l1 = Ok ys1 -> mapM f l2 = Ok ys2 -> mapM f (l1 ++ l2) = Ok (ys1 ++ ys2).
Proof.
  revert ys1. induction l1 as [|x l1 IH]; intros ys1; cbn [mapM app].
  - by intros [= <-].
  - destruct (f x) as [y|]; [|discriminate]. cbn [mbind result_bind].
    destruct (mapM f l1) as [ys|]; [|discriminate]. cbn [mbind result_bind].
    intros [= <-] H2. by rewrite (IH ys eq_refl H2).
Qed.

(** What [insert] does with an array of rows that carry no [$]. *)
Lemma insert_batch_eq (t : Table) (rs : list row) :
  active t = true ->
  Forall (fun r => dollarTruthy (rowDollar r) = false) rs ->
  let stored :=
    canonicalRows (columnNames t) (id t) (length (closures t)) rs in
  let ixs' := (fun ix => (rowsAdded ix (Some <$> stored)).1) <$> indicies t in
  Forall (fun ix => (rowsAdded ix (Some <$> stored)).2 = None) (indicies t) ->
  (paranoia t = true -> indexesValid ixs') ->
  insert (ArgArray (Some <$> rs)) t
  = (addCalls (setIndicies (withRows t rs) ixs')
       (callsOf CallRowsAdded (indicies t)
        ++ if paranoia t then callsOf CallValidateIndex ixs' else []),
     Ok stored).
Proof.
  intros Hlive Hrs stored ixs' Hnone Hvalid. unfold insert.
  rewrite checkActive_live by exact Hlive.
  rewrite op_bind_unfold. cbn [toArray].
  rewrite collect_insertRow_batch by exact Hrs. fold stored.
  rewrite op_bind_unfold. unfold callRowsAdded.
  rewrite (eachIndex_callIndex_map CallRowsAdded) by exact Hnone.
  change (indicies (withRows t rs)) with (indicies t). fold ixs'.
  rewrite op_bind_unfold. unfold whenParanoid. rewrite op_bind_unfold.
  cbn [get fst snd addCalls setIndicies paranoia].
  change (paranoia (withRows t rs)) with (paranoia t).
  assert (Hclones : mapM (cloneArg (columnNames t)) (Some <$> stored) = Ok stored).
  { rewrite mapM_cloneArg. f_equal. apply clone_canonicalRows. }
  destruct (paranoia t) eqn:Hpar.
  - rewrite tableValidateIndex_valid; [|exact Hlive|exact (Hvalid eq_refl)].
    rewrite addCalls_app. rewrite op_bind_unfold. cbn [get]. unfold lift.
    cbn [columnNames addCalls setIndicies].
    change (columnNames (withRows t rs)) with (columnNames t).
    by rewrite Hclones.
  - rewrite app_nil_r. unfold mret at 1, op_ret at 1.
    rewrite op_bind_unfold. cbn [get]. unfold lift.
    cbn [columnNames addCalls setIndicies].
    change (columnNames (withRows t rs)) with (columnNames t).
    by rewrite Hclones.
Qed.

Lemma numericRow_canonicalRows (cols : list string) (rs : list row) :
  Forall (numericRow cols) rs ->
  forall tid h, Forall (numericRow cols) (canonicalRows cols tid h rs).
Proof.
  induction 1 as [|r rs Hr _ IH]; intros tid h; cbn [canonicalRows];
    constructor; [by apply numericRow_clone|apply IH].
Qed.

(** X11: on a table made by the constructor, [index], [insert] of rows
    that have integers in every column, [validateIndex], [paranoia],
    [verbose] and [drop], every index passes [validateIndex], and a further
    [insert] of rows without [$] that have integers in every column into
    the live table returns one stored row per row and leaves every index
    passing [validateIndex]. *)
Theorem numericHistory_valid (t : Table) :
  numericHistory t ->
  indexesValid (indicies t)
  /\ forall rs : list row,
       active t = true ->
       Forall (fun r => dollarTruthy (rowDollar r) = false) rs ->
       Forall (numericRow (columnNames t)) rs ->
       exists t' stored,
         insert (ArgArray (Some <$> rs)) t = (t', Ok stored)
         /\ length stored = length rs
         /\ indexesValid (indicies t').
Proof.
  intros H. apply numericHistory_numericTable in H as (_ & _ & Hix).
  split.
  { eapply Forall_impl; [exact Hix|]. intros ix [Hv _].
    by apply validIndex_validateIndex. }
  intros rs Hlive Hdollar Hnum.
  set (stored := canonicalRows (columnNames t) (id t) (length (closures t)) rs).
  assert (Hstored : Forall (numericRow (columnNames t)) stored)
    by (by apply numericRow_canonicalRows).
  assert (Hadd : Forall (fun ix => (rowsAdded ix (Some <$> stored)).2 = None
                   /\ validateIndex (rowsAdded ix (Some <$> stored)).1 = Ok ())
                   (indicies t)).
  { eapply Forall_impl; [exact Hix|]. intros ix [Hv Hsub].
    destruct (rowsAdded_numeric_valid ix stored Hv) as (ix' & -> & _ & Hok & _).
    - eapply Forall_impl; [exact Hstored|]. intros r.
      by apply numericRow_subseteq.
    - by split. }
  assert (Hvalid : indexesValid
            ((fun ix => (rowsAdded ix (Some <$> stored)).1) <$> indicies t)).
  { apply Forall_fmap. eapply Forall_impl; [exact Hadd|]. by intros ix [_ ?]. }
  eexists _, stored. split.
  - apply insert_batch_eq; [exact Hlive|exact Hdollar| |by intros _].
    eapply Forall_impl; [exact Hadd|]. by intros ix [? _].
  - split; [apply length_canonicalRows|exact Hvalid].
Qed.

(** ** [update] of a row that no index covers *)

Lemma each_same {A} (f : A -> op ()) (l : list A) (t : Table) :
  Forall (fun x => f x t = (t, Ok ())) l -> each f l t = (t, Ok ()).
Proof.
  induction 1 as [|x l Hx _ IH]; [reflexivity|].
  cbn [each]. rewrite op_bind_unfold, Hx. exact IH.
Qed.

Lemma eachIndex_untouched (oldRows rs : rowArray) (changed : list string)
    (t : Table) :
  Forall (fun ix => touches changed ix = false) (indicies t) ->
  eachIndex (updateIndex oldRows rs changed) t = (t, Ok ()).
Proof.
  intros Hix. unfold eachIndex. rewrite op_bind_unfold. cbn [get].
  apply each_same. apply Forall_forall. intros k Hk.
  unfold updateIndex. rewrite op_bind_unfold. cbn [get].
  destruct (indicies t !! k) as [ix|] eqn:Hlook; [|reflexivity].
  cbn [from_option]. by rewrite (Forall_lookup_1 _ _ _ _ Hix Hlook).
Qed.

Lemma storeRow_belongs (t : Table) (r : row) (h : nat) (c : closure) :
  active t = true -> rowDollar r = DHandle (id t) h ->
  closures t !! h = Some c ->
  storeRow (Some r) t = (withUpdate t r h c, Ok ()).
Proof.
  intros Hlive Hd Hc. unfold storeRow.
  rewrite op_bind_unfold. cbn [get].
  rewrite op_bind_unfold. cbn [lift cloneArg].
  rewrite op_bind_unfold. unfold setOriginal.
  rewrite checkActive_live by exact Hlive.
  rewrite op_bind_unfold. unfold closureOf at 1. cbn [clone rowDollar].
  rewrite Hd. rewrite op_bind_unfold. cbn [get]. rewrite Hc.
  unfold mret at 1, op_ret at 1. cbn [modify fst snd cells].
  rewrite op_bind_unfold. unfold rowIndex.
  rewrite checkActive_live by exact Hlive.
  rewrite op_bind_unfold. unfold closureOf. rewrite Hd.
  rewrite op_bind_unfold. cbn [get closures setClosures].
  rewrite list_lookup_insert_eq by (by eapply lookup_lt_Some).
  unfold mret, op_ret. cbn [modify fst snd clIndex]. reflexivity.
Qed.

Lemma cell_clone (cols : list string) (r : row) (p : string) :
  p ∈ cols -> cell (clone cols r) p = cell r p.
Proof.
  intros Hp. unfold cell at 1, clone. cbn [cells].
  by rewrite lookup_cloneCells.
Qed.

Lemma markChangedColumns_clone (cols : list string) (r : row) (d : dollar) :
  Forall (fun c => replacementOf c = c) cols ->
  markChangedColumns cols r (clone cols (Row (cloneCells cols r) d)) = [].
Proof.
  intros Hrep. unfold markChangedColumns.
  assert (Hmap : replacementOf <$> cols = cols).
  { induction Hrep as [|c cols Hc _ IH]; [reflexivity|].
    cbn [fmap list_fmap]. by rewrite Hc, IH. }
  rewrite Hmap. apply filter_none. apply Forall_forall. intros p Hp.
  unfold strictEq. rewrite bool_decide_eq_true_2; [discriminate|].
  rewrite cell_clone by exact Hp. unfold cell at 2. cbn [cells].
  by rewrite lookup_cloneCells.
Qed.

(** [update] of one row of the table on which [markChangedColumns] marks
    a property, when no index has a marked column. *)
Lemma update_stores_marked (t : Table) (r : row) (h : nat) (c : closure) :
  active t = true ->
  rowDollar r = DHandle (id t) h -> closures t !! h = Some c ->
  changedOf t r <> [] ->
  Forall (fun ix => touches (changedOf t r) ix = false) (indicies t) ->
  update (ArgArray [Some r]) t = (withUpdate t r h c, Ok ())
  /\ original (Some r) (withUpdate t r h c)
     = (withUpdate t r h c, Ok (clone (columnNames t) r))
  /\ ((clIndex c < length (rows t))%nat ->
      rows (withUpdate t r h c) !! clIndex c
      = Some (Some (clone (columnNames t) r)))
  /\ (Forall (fun n => replacementOf n = n) (columnNames t) ->
      update (ArgArray [Some r]) (withUpdate t r h c)
      = (withUpdate t r h c, Ok ())).
Proof.
  intros Hlive Hd Hc Hchanged Hix.
  assert (Hbel : belongs t r) by (by exists h, c).
  set (t' := withUpdate t r h c).
  assert (Hlive' : active t' = true) by exact Hlive.
  assert (Hc' : closures t' !! h
                = Some (Closure (clIndex c) (cloneCells (columnNames t) r))).
  { cbn. apply list_lookup_insert_eq. by eapply lookup_lt_Some. }
  assert (Hbel' : belongs t' r) by (by eexists h, _).
  assert (Hsnap : snapshotOf t' r
                  = clone (columnNames t)
                      (Row (cloneCells (columnNames t) r) (DHandle (id t) h))).
  { unfold snapshotOf. rewrite Hd, Hc'. reflexivity. }
  split; [|split; [|split]].
  - unfold update. rewrite checkActive_live by exact Hlive.
    cbn [toArray]. rewrite op_bind_unfold.
    rewrite (findChanged_belongs t [r] Hlive) by (by constructor).
    cbn [app]. rewrite op_bind_unfold.
    assert (Hrows : changedRows t [r] = [r]).
    { unfold changedRows. by rewrite filter_cons_True. }
    assert (Hcols : changedColumnsOf t [r] = changedOf t r).
    { unfold changedColumnsOf. cbn. by rewrite app_nil_r. }
    rewrite Hrows, Hcols.
    rewrite (collect_original t [r] Hlive) by (by constructor).
    cbn [fmap list_fmap]. rewrite op_bind_unfold.
    rewrite eachIndex_untouched by exact Hix.
    cbn [each]. rewrite op_bind_unfold.
    rewrite (storeRow_belongs t r h c) by assumption. reflexivity.
  - rewrite (original_belongs t' r Hlive' Hbel'), Hsnap.
    do 2 f_equal. unfold clone. cbn [rowDollar].
    by rewrite cloneCells_clone, Hd.
  - intros Hi. unfold t', withUpdate. cbn [rows setRows]. unfold arraySet.
    destruct (Nat.ltb_spec (clIndex c) (length (rows t))); [|lia].
    by apply list_lookup_insert_eq.
  - intros Hrep. unfold update. rewrite checkActive_live by exact Hlive'.
    cbn [toArray]. rewrite op_bind_unfold.
    rewrite (findChanged_belongs t' [r] Hlive') by (by constructor).
    assert (Hnone : changedOf t' r = []).
    { unfold changedOf. rewrite Hsnap.
      by apply markChangedColumns_clone. }
    assert (Hrows : changedRows t' [r] = []).
    { unfold changedRows. rewrite filter_cons_False; [reflexivity|].
      rewrite Hnone. auto. }
    rewrite Hrows. reflexivity.
Qed.

Lemma replacementOf_columns (cols : list string) :
  Forall (fun n => replacementOf n = n) cols -> replacementOf <$> cols = cols.
Proof.
  induction 1 as [|c cols Hc _ IH]; [reflexivity|].
  cbn [fmap list_fmap]. by rewrite Hc, IH.
Qed.

(** X13: on a table none of whose column names holds [$$], [update] of one
    row of the table that differs from its snapshot in a column of the
    table, and in no column of an index, stores the clone of the row at the
    row's position and in its closure and leaves the indexes alone; [$()]
    of the row then returns that clone, and a second [update] of the same
    row changes nothing. *)
Theorem update_stores_row (t : Table) (r : row) (h : nat) (c : closure) :
  active t = true ->
  rowDollar r = DHandle (id t) h -> closures t !! h = Some c ->
  Forall (fun n => replacementOf n = n) (columnNames t) ->
  (exists col, col ∈ columnNames t
               /\ cell r col <> cell (snapshotOf t r) col) ->
  Forall (fun ix => Forall (fun col => cell r col = cell (snapshotOf t r) col)
                      (columns ix)) (indicies t) ->
  update (ArgArray [Some r]) t = (withUpdate t r h c, Ok ())
  /\ indicies (withUpdate t r h c) = indicies t
  /\ original (Some r) (withUpdate t r h c)
     = (withUpdate t r h c, Ok (clone (columnNames t) r))
  /\ ((clIndex c < length (rows t))%nat ->
      rows (withUpdate t r h c) !! clIndex c
      = Some (Some (clone (columnNames t) r)))
  /\ update (ArgArray [Some r]) (withUpdate t r h c)
     = (withUpdate t r h c, Ok ()).
Proof.
  intros Hlive Hd Hc Hrep (col & Hcol & Hne) Hix.
  assert (Hmarks : changedOf t r
            = filter (fun p => strictEq (cell r p) (cell (snapshotOf t r) p)
                               = false) (columnNames t)).
  { unfold changedOf, markChangedColumns.
    by rewrite replacementOf_columns. }
  assert (Hchanged : changedOf t r <> []).
  { rewrite Hmarks. intros Hnil.
    assert (Hin : col ∈ filter (fun p => strictEq (cell r p)
                                           (cell (snapshotOf t r) p) = false)
                          (columnNames t)).
    { apply list_elem_of_filter. split; [|exact Hcol].
      unfold strictEq. by apply bool_decide_eq_false_2. }
    rewrite Hnil in Hin. by apply elem_of_nil in Hin. }
  assert (Htouch : Forall (fun ix => touches (changedOf t r) ix = false)
                     (indicies t)).
  { eapply Forall_impl; [exact Hix|]. intros ix Hsame.
    unfold touches, any. apply not_true_is_false. intros Hex.
    apply existsb_exists in Hex as (x & Hx & Hdec).
    apply bool_decide_eq_true_1 in Hdec. rewrite Hmarks in Hdec.
    apply list_elem_of_filter in Hdec as [Hdiff _].
    apply list_elem_of_In in Hx.
    pose proof (proj1 (Forall_forall _ _) Hsame x Hx) as Heq. cbv beta in Heq.
    unfold strictEq in Hdiff. apply bool_decide_eq_false_1 in Hdiff.
    contradiction. }
  destruct (update_stores_marked t r h c Hlive Hd Hc Hchanged Htouch)
    as (H1 & H2 & H3 & H4).
  split; [exact H1|]. split; [reflexivity|]. split; [exact H2|].
  split; [exact H3|]. by apply H4.
Qed.

(** ** [remove] moves the last row *)

Lemma collect_identity_original (t : Table) (rs : list row) :
  active t = true -> Forall (belongs t) rs ->
  collect (fun r => _ ← checkTableIdentity r; original r) (Some <$> rs) t
  = (t, Ok (snapshotOf t <$> rs)).
Proof.
  intros Hlive. induction 1 as [|r rs Hr Hrs IH]; [reflexivity|].
  rewrite fmap_cons. cbn [collect].
  rewrite op_bind_unfold, op_bind_unfold.
  rewrite checkTableIdentity_belongs by exact Hr.
  rewrite original_belongs by assumption.
  rewrite op_bind_unfold, IH. reflexivity.
Qed.

Lemma removeRow_swaps (t : Table) (s : row) (h : nat) (c : closure)
    (rs : rowArray) (l : row) (tid hl : nat) (cl : closure) :
  active t = true ->
  rowDollar s = DHandle (id t) h -> closures t !! h = Some c ->
  rows t = rs ++ [Some l] -> rs <> [] -> (clIndex c <= length rs)%nat ->
  rowDollar l = DHandle tid hl -> closures t !! hl = Some cl ->
  removeRow s t
  = (setRows
       (setClosures t (<[hl := Closure (clIndex c) (clRow cl)]> (closures t)))
       (<[clIndex c := Some l]> rs),
     Ok ()).
Proof.
  intros Hlive Hd Hc Hrows Hne Hi Hdl Hcl. unfold removeRow.
  rewrite op_bind_unfold. cbn [get].
  assert (Hlen : length (rows t) = S (length rs)).
  { rewrite Hrows, length_app. cbn. lia. }
  destruct (Nat.ltb_spec 1 (length (rows t))) as [_|Hle].
  2: { destruct rs; [done|cbn in Hlen; lia]. }
  assert (Hlast : mjoin (List.last (Some <$> rows t) None) = Some l).
  { rewrite Hrows, fmap_app. cbn [fmap list_fmap].
    by rewrite List.last_last. }
  rewrite Hlast.
  rewrite op_bind_unfold, op_bind_unfold. unfold rowIndex.
  rewrite checkActive_live by exact Hlive.
  rewrite op_bind_unfold. unfold closureOf at 1. rewrite Hd.
  rewrite op_bind_unfold. cbn [get]. rewrite Hc.
  unfold mret at 1 2, op_ret at 1 2. cbn [fst snd].
  rewrite op_bind_unfold. cbn [modify].
  unfold setRowIndex. rewrite checkActive_live by exact Hlive.
  rewrite op_bind_unfold. unfold closureOf. rewrite Hdl.
  rewrite op_bind_unfold. cbn [get closures setRows]. rewrite Hcl.
  unfold mret, op_ret. cbn [modify fst snd].
  unfold shrinkRows. rewrite op_bind_unfold. cbn [get rows setRows setClosures].
  assert (Hset : arraySet (rows t) (clIndex c) (Some l)
                 = <[clIndex c := Some l]> rs ++ [Some l]).
  { unfold arraySet. rewrite Hlen.
    destruct (Nat.ltb_spec (clIndex c) (S (length rs))); [|lia].
    rewrite Hrows. destruct (decide (clIndex c = length rs)) as [Heq|Hneq].
    - rewrite Heq. rewrite insert_app_r_alt by lia.
      rewrite Nat.sub_diag. cbn.
      by rewrite list_insert_ge by lia.
    - by rewrite insert_app_l by lia. }
  rewrite Hset.
  destruct (<[clIndex c := Some l]> rs ++ [Some l]) eqn:Hnil.
  { by destruct (<[clIndex c := Some l]> rs). }
  rewrite <- Hnil. unfold modify. cbn [rows setRows setClosures].
  rewrite removelast_last. reflexivity.
Qed.

Lemma remove_swap_state (t : Table) (r : row) (h : nat) (c : closure)
    (rs : rowArray) (l : row) (tid hl : nat) (cl : closure) :
  active t = true ->
  rowDollar r = DHandle (id t) h -> closures t !! h = Some c ->
  rows t = rs ++ [Some l] -> rs <> [] -> (clIndex c <= length rs)%nat ->
  rowDollar l = DHandle tid hl -> closures t !! hl = Some cl ->
  Forall (fun ix => (rowsRemoved ix [Some (snapshotOf t r)]).2 = None)
    (indicies t) ->
  (paranoia t = true ->
   indexesValid ((fun ix => (rowsRemoved ix [Some (snapshotOf t r)]).1)
                   <$> indicies t)) ->
  exists t', remove (ArgArray [Some r]) t = (t', Ok ())
    /\ rows t' = <[clIndex c := Some l]> rs
    /\ (getCount t').2 = Ok (length rs)
    /\ closures t' !! hl = Some (Closure (clIndex c) (clRow cl))
    /\ indicies t'
       = (fun ix => (rowsRemoved ix [Some (snapshotOf t r)]).1) <$> indicies t
    /\ closures t' = <[hl := Closure (clIndex c) (clRow cl)]> (closures t)
    /\ active t' = active t /\ columnNames t' = columnNames t /\ id t' = id t.
Proof.
  intros Hlive Hd Hc Hrows Hne Hi Hdl Hcl Hnone Hvalid.
  assert (Hbel : belongs t r) by (by exists h, c).
  set (snap := snapshotOf t r) in *.
  assert (Hsnap : rowDollar snap = DHandle (id t) h).
  { unfold snap, snapshotOf. rewrite Hd, Hc. reflexivity. }
  set (ixs' := (fun ix => (rowsRemoved ix [Some snap]).1) <$> indicies t) in *.
  set (t1 := addCalls (setIndicies t ixs') (callsOf CallRowsRemoved (indicies t))).
  assert (Hstep : removeRow snap t1
    = (setRows
         (setClosures t1 (<[hl := Closure (clIndex c) (clRow cl)]> (closures t1)))
         (<[clIndex c := Some l]> rs), Ok ())).
  { by apply (removeRow_swaps t1 snap h c rs l tid hl cl). }
  set (t2 := setRows
               (setClosures t1
                  (<[hl := Closure (clIndex c) (clRow cl)]> (closures t1)))
               (<[clIndex c := Some l]> rs)) in *.
  exists (addCalls t2 (if paranoia t then callsOf CallValidateIndex ixs' else [])).
  split.
  - unfold remove. rewrite checkActive_live by exact Hlive.
    cbn [toArrayApply]. rewrite op_bind_unfold.
    change [Some r] with (Some <$> [r]).
    rewrite (collect_identity_original t [r] Hlive) by (by constructor).
    cbn [fmap list_fmap]. fold snap. rewrite op_bind_unfold.
    unfold callRowsRemoved.
    rewrite (eachIndex_callIndex_map CallRowsRemoved) by exact Hnone.
    fold ixs'. fold t1. rewrite op_bind_unfold. cbn [each].
    rewrite op_bind_unfold, Hstep. unfold mret at 1, op_ret at 1.
    unfold whenParanoid. rewrite op_bind_unfold. cbn [get].
    change (paranoia t2) with (paranoia t).
    destruct (paranoia t) eqn:Hpar.
    + rewrite tableValidateIndex_valid; [reflexivity|exact Hlive|].
      exact (Hvalid eq_refl).
    + rewrite addCalls_nil. reflexivity.
  - split; [reflexivity|]. split; [|split; [|split; [reflexivity|by repeat split]]].
    + unfold getCount.
      match goal with |- context [checkActive ≫= ?k] =>
        rewrite (checkActive_live k) by exact Hlive end.
      rewrite op_bind_unfold. cbn [get]. unfold mret, op_ret. cbn [snd].
      f_equal. cbn [rows addCalls]. unfold t2. cbn [rows setRows].
      apply length_insert.
    + cbn. apply list_lookup_insert_eq. by eapply lookup_lt_Some.
Qed.

(** X14: [remove] of one row of a table with two rows or more, when no
    index throws, moves the last row of the row vector to the position of
    the removed row, shortens the vector by one, records the new position
    in the closure of the moved row, and hands the snapshot of the removed
    row to [rowsRemoved] of every index. *)
Theorem remove_row_swaps_last (t : Table) (r : row) (h : nat) (c : closure)
    (rs : rowArray) (l : row) (tid hl : nat) (cl : closure) :
  active t = true ->
  rowDollar r = DHandle (id t) h -> closures t !! h = Some c ->
  rows t = rs ++ [Some l] -> rs <> [] -> (clIndex c <= length rs)%nat ->
  rowDollar l = DHandle tid hl -> closures t !! hl = Some cl ->
  Forall (fun ix => (rowsRemoved ix [Some (snapshotOf t r)]).2 = None)
    (indicies t) ->
  (paranoia t = true ->
   indexesValid ((fun ix => (rowsRemoved ix [Some (snapshotOf t r)]).1)
                   <$> indicies t)) ->
  exists t', remove (ArgArray [Some r]) t = (t', Ok ())
    /\ rows t' = <[clIndex c := Some l]> rs
    /\ (getCount t').2 = Ok (length rs)
    /\ closures t' !! hl = Some (Closure (clIndex c) (clRow cl))
    /\ indicies t'
       = (fun ix => (rowsRemoved ix [Some (snapshotOf t r)]).1) <$> indicies t.
Proof.
  intros Hlive Hd Hc Hrows Hne Hi Hdl Hcl Hnone Hvalid.
  destruct (remove_swap_state t r h c rs l tid hl cl Hlive Hd Hc Hrows Hne Hi
              Hdl Hcl Hnone Hvalid)
    as (t' & Heq & Hr & Hcount & Hclos & Hix & _).
  exists t'. by repeat split.
Qed.

(** [remove] of the only row of the table. *)
Lemma remove_only_state (t : Table) (r : row) (h : nat) (c : closure) (l : row) :
  active t = true ->
  rowDollar r = DHandle (id t) h -> closures t !! h = Some c ->
  rows t = [Some l] ->
  Forall (fun ix => (rowsRemoved ix [Some (snapshotOf t r)]).2 = None)
    (indicies t) ->
  (paranoia t = true ->
   indexesValid ((fun ix => (rowsRemoved ix [Some (snapshotOf t r)]).1)
                   <$> indicies t)) ->
  exists t', remove (ArgArray [Some r]) t = (t', Ok ())
    /\ rows t' = []
    /\ indicies t'
       = (fun ix => (rowsRemoved ix [Some (snapshotOf t r)]).1) <$> indicies t
    /\ closures t' = closures t
    /\ active t' = active t /\ columnNames t' = columnNames t /\ id t' = id t.
Proof.
  intros Hlive Hd Hc Hrows Hnone Hvalid.
  assert (Hbel : belongs t r) by (by exists h, c).
  set (snap := snapshotOf t r) in *.
  set (ixs' := (fun ix => (rowsRemoved ix [Some snap]).1) <$> indicies t) in *.
  set (t1 := addCalls (setIndicies t ixs') (callsOf CallRowsRemoved (indicies t))).
  assert (Hstep : removeRow snap t1 = (setRows t1 [], Ok ())).
  { unfold removeRow. rewrite op_bind_unfold. cbn [get].
    change (rows t1) with (rows t). rewrite Hrows. cbn [length Nat.ltb Nat.leb].
    unfold mret at 1, op_ret at 1. rewrite op_bind_unfold.
    unfold shrinkRows. rewrite op_bind_unfold. cbn [get].
    change (rows t1) with (rows t). rewrite Hrows. unfold modify.
    change (rows t1) with (rows t). by rewrite Hrows. }
  exists (addCalls (setRows t1 [])
            (if paranoia t then callsOf CallValidateIndex ixs' else [])).
  split.
  - unfold remove. rewrite checkActive_live by exact Hlive.
    cbn [toArrayApply]. rewrite op_bind_unfold.
    change [Some r] with (Some <$> [r]).
    rewrite (collect_identity_original t [r] Hlive) by (by constructor).
    cbn [fmap list_fmap]. fold snap. rewrite op_bind_unfold.
    unfold callRowsRemoved.
    rewrite (eachIndex_callIndex_map CallRowsRemoved) by exact Hnone.
    fold ixs'. fold t1. rewrite op_bind_unfold. cbn [each].
    rewrite op_bind_unfold, Hstep. unfold mret at 1, op_ret at 1.
    unfold whenParanoid. rewrite op_bind_unfold. cbn [get].
    change (paranoia (setRows t1 [])) with (paranoia t).
    destruct (paranoia t) eqn:Hpar.
    + rewrite tableValidateIndex_valid; [reflexivity|exact Hlive|].
      exact (Hvalid eq_refl).
    + rewrite addCalls_nil. reflexivity.
  - by repeat split.
Qed.

(** ** Errors, [index] twice, costs and queries *)

(** *** Rows of another table *)

Lemma checkTableIdentity_foreign (t : Table) (r : row) (tid h : nat) :
  rowDollar r = DHandle tid h -> tid <> id t ->
  checkTableIdentity (Some r) t = (t, Err foreignRow).
Proof.
  intros Hd Hne. unfold checkTableIdentity. rewrite Hd.
  rewrite op_bind_unfold. cbn [get].
  by rewrite bool_decide_eq_false_2.
Qed.

Lemma checkTableIdentity_dropped (t : Table) (r : row) :
  rowDollar r = DDropped ->
  checkTableIdentity (Some r) t = (t, Err dropped).
Proof. intros Hd. unfold checkTableIdentity. by rewrite Hd. Qed.

Lemma collect_rejected (t : Table) (pre : list row) (r : row) (post : rowArray)
    (e : error) :
  active t = true -> Forall (belongs t) pre ->
  checkTableIdentity (Some r) t = (t, Err e) ->
  collect (fun r => _ ← checkTableIdentity r; original r)
    ((Some <$> pre) ++ Some r :: post) t
  = (t, Err e).
Proof.
  intros Hlive Hpre Hr. induction Hpre as [|a pre Ha _ IH].
  - cbn [fmap list_fmap app collect]. rewrite !op_bind_unfold.
    by rewrite Hr.
  - rewrite fmap_cons. cbn [app collect]. rewrite !op_bind_unfold.
    rewrite checkTableIdentity_belongs by exact Ha.
    rewrite original_belongs by assumption.
    rewrite op_bind_unfold, IH. reflexivity.
Qed.

Lemma findChanged_rejected (t : Table) (pre : list row) (r : row)
    (post : rowArray) (e : error) :
  active t = true -> Forall (belongs t) pre ->
  checkTableIdentity (Some r) t = (t, Err e) ->
  forall acc, findChanged ((Some <$> pre) ++ Some r :: post) acc t
              = (t, Err e).
Proof.
  intros Hlive Hpre Hr. induction Hpre as [|a pre Ha _ IH]; intros acc.
  - cbn [fmap list_fmap app findChanged]. rewrite op_bind_unfold.
    by rewrite Hr.
  - rewrite fmap_cons. cbn [app findChanged]. rewrite op_bind_unfold.
    rewrite checkTableIdentity_belongs by exact Ha.
    rewrite op_bind_unfold, original_belongs by assumption.
    rewrite op_bind_unfold. cbn [get]. rewrite op_bind_unfold, IH. reflexivity.
Qed.

Lemma rejected_row (t : Table) (pre : list row) (r : row) (post : rowArray)
    (e : error) :
  active t = true -> Forall (belongs t) pre ->
  checkTableIdentity (Some r) t = (t, Err e) ->
  remove (ArgArray ((Some <$> pre) ++ Some r :: post)) t = (t, Err e)
  /\ update (ArgArray ((Some <$> pre) ++ Some r :: post)) t = (t, Err e).
Proof.
  intros Hlive Hpre Hr. split.
  - unfold remove. rewrite checkActive_live by exact Hlive.
    cbn [toArrayApply]. rewrite op_bind_unfold.
    by rewrite (collect_rejected t pre r post e).
  - unfold update. rewrite checkActive_live by exact Hlive.
    cbn [toArray]. rewrite op_bind_unfold.
    by rewrite (findChanged_rejected t pre r post e).
Qed.

(** X15: [remove] and [update] of an array in which the rows before [r] are
    rows of the table and [r] is a row of another table throw and leave
    the table as it was, whatever comes after [r]: they throw the error of
    [checkTableIdentity] when the other table is live and has another
    identity than the table, and the error of a dropped table when the
    other table has been dropped. *)
Theorem foreign_row_rejected (t : Table) (pre : list row) (r : row)
    (post : rowArray) :
  active t = true -> Forall (belongs t) pre ->
  (forall tid h, rowDollar r = DHandle tid h -> tid <> id t ->
     remove (ArgArray ((Some <$> pre) ++ Some r :: post)) t
     = (t, Err foreignRow)
     /\ update (ArgArray ((Some <$> pre) ++ Some r :: post)) t
        = (t, Err foreignRow))
  /\ (rowDollar r = DDropped ->
      remove (ArgArray ((Some <$> pre) ++ Some r :: post)) t
      = (t, Err dropped)
      /\ update (ArgArray ((Some <$> pre) ++ Some r :: post)) t
         = (t, Err dropped)).
Proof.
  intros Hlive Hpre. split.
  - intros tid h Hd Hne. apply rejected_row; [assumption..|].
    by apply (checkTableIdentity_foreign t r tid h).
  - intros Hd. apply rejected_row; [assumption..|].
    by apply checkTableIdentity_dropped.
Qed.

(** *** [index] on columns that are indexed already *)

Lemma find_app_None {A} (p : A -> bool) (l : list A) (x : A) :
  List.find p l = None -> p x = true -> List.find p (l ++ [x]) = Some x.
Proof.
  induction l as [|y l IH]; cbn [app List.find]; intros Hl Hx.
  - by rewrite Hx.
  - destruct (p y); [discriminate|]. by apply IH.
Qed.

Lemma find_elem {A} (p : A -> bool) (l : list A) (x : A) :
  List.find p l = Some x -> x ∈ l /\ p x = true.
Proof.
  induction l as [|y l IH]; cbn [List.find]; [discriminate|].
  destruct (p y) eqn:Hy.
  - intros [= <-]. split; [left|exact Hy].
  - intros H. destruct (IH H) as [? ?]. split; [by right|assumption].
Qed.

Lemma indexOn_found (t : Table) (names : list string) (ix : Index) :
  active t = true ->
  checkColumnNames names (Some (columnNames t)) = Ok () ->
  List.find (fun ix => (signature ix =? buildIndexSignature names)%string)
    (indicies t) = Some ix ->
  indexOn names t = (t, Ok ix).
Proof.
  intros Hlive Hnames Hfind. unfold indexOn.
  rewrite checkActive_live by exact Hlive.
  rewrite !op_bind_unfold. cbn [get lift]. rewrite Hnames.
  by rewrite Hfind.
Qed.

(** X16: when [index(names)] returns an index, the index is in the list of
    the table and has the signature of the names, and a second
    [index(names)] returns the same index and leaves the table as it is. *)
Theorem indexOn_again (t t' : Table) (names : list string) (ix : Index) :
  indexOn names t = (t', Ok ix) ->
  ix ∈ indicies t'
  /\ signature ix = buildIndexSignature names
  /\ indexOn names t' = (t', Ok ix).
Proof.
  intros Hrun. pose proof Hrun as Hrun'.
  unfold indexOn in Hrun'. rewrite op_bind_unfold in Hrun'.
  unfold checkActive in Hrun'.
  destruct (active t) eqn:Hlive; [|discriminate].
  rewrite !op_bind_unfold in Hrun'. cbn [get lift] in Hrun'.
  destruct (checkColumnNames names (Some (columnNames t))) as [[]|e] eqn:Hnames;
    [|discriminate].
  destruct (List.find _ (indicies t)) as [ix0|] eqn:Hfind.
  - injection Hrun' as <- <-.
    apply find_elem in Hfind as Hin. destruct Hin as [Hin Hsig].
    apply String.eqb_eq in Hsig. split; [exact Hin|]. split; [exact Hsig|].
    exact Hrun.
  - pose proof (signature_rowsAdded (newIndex names) (rows t)) as Hsig.
    destruct (rowsAdded (newIndex names) (rows t)) as [ix1 [e|]] eqn:Hadd;
      rewrite !op_bind_unfold in Hrun'; cbn [modify] in Hrun';
      [discriminate|].
    unfold mret, op_ret in Hrun'. injection Hrun' as <- <-.
    cbn [fst signature newIndex] in Hsig.
    split; [|split; [exact Hsig|]].
    + cbn [indicies setIndicies logCall]. apply elem_of_app. right. left.
    + apply indexOn_found; [exact Hlive|exact Hnames|].
      cbn [indicies setIndicies logCall].
      apply find_app_None; [exact Hfind|].
      rewrite Hsig. apply String.eqb_refl.
Qed.

(** *** The cost of testing one row *)

(** X5: when every [in] criterion has an array or a set,
    [calculateSingleRowCriteriaCost] is the number of criteria, plus 1 for
    every [between], plus the length of its operand less 1 for every [in]. *)
Theorem singleRowCost_sum (criteria : list criterion) :
  Forall (fun c => match criterionTest c with
                   | In (Scalar _ | Range _ _) => False
                   | _ => True
                   end) criteria ->
  calculateSingleRowCriteriaCost criteria
  = Ok (Some (Z.of_nat (length criteria)
              + foldr (fun c s => extraCost c + s) 0 criteria)).
Proof. intros H. by apply foldl_cost. Qed.

(** *** Queries change nothing *)

(** A query, whatever plan it runs and whether or not it throws, and
    [findWhere], [and], [getRows], [getCount] and [index()] leave the
    table, its rows and its indexes as they are. *)
Lemma queries_read_only (estimate : Index -> list criterion -> num)
    (criteria : list criterion) (name : string) (c : test) (t : Table) :
  (queryGetRows estimate criteria t).1 = t
  /\ (findWhere name c t).1 = t
  /\ (and_ criteria name c t).1 = t
  /\ (getRows t).1 = t
  /\ (getCount t).1 = t
  /\ (indexList t).1 = t.
Proof.
  assert (Hlift : forall A (r : result A) (s : Table), (lift r s).1 = s)
    by reflexivity.
  repeat split.
  - unfold queryGetRows. rewrite op_bind_unfold. unfold checkActive.
    destruct (active t); [|reflexivity]. rewrite !op_bind_unfold. cbn [get lift].
    destruct (calculateSingleRowCriteriaCost criteria); [|reflexivity].
    rewrite !op_bind_unfold. cbn [lift].
    destruct (reduceOf _ ()); [|reflexivity].
    rewrite !op_bind_unfold. cbn [lift].
    destruct (applyUnused _ _); reflexivity.
  - unfold findWhere. rewrite op_bind_unfold. unfold checkActive.
    destruct (active t); [|reflexivity]. rewrite !op_bind_unfold. cbn [get lift].
    destruct (checkColumnNames _ _); reflexivity.
  - unfold and_. rewrite op_bind_unfold. unfold checkActive.
    destruct (active t); [|reflexivity]. rewrite !op_bind_unfold. cbn [get lift].
    destruct (checkColumnNames _ _); reflexivity.
  - unfold getRows. rewrite op_bind_unfold. unfold checkActive.
    destruct (active t); reflexivity.
  - unfold getCount. rewrite op_bind_unfold. unfold checkActive.
    destruct (active t); reflexivity.
Qed.

(** ** The rows [buildIndex] holds *)

Lemma levelRows_bind (depth : nat) (es : list entry) :
  levelRows depth es = es ≫= belowEntry depth.
Proof. destruct depth as [|[|depth]]; reflexivity. Qed.

Lemma levelRows_nil (depth : nat) : levelRows depth [] = [].
Proof. by rewrite levelRows_bind. Qed.

Lemma levelRows_cons (depth : nat) (e : entry) (es : list entry) :
  levelRows depth (e :: es) = belowEntry depth e ++ levelRows depth es.
Proof. by rewrite !levelRows_bind. Qed.

Lemma levelRows_app (depth : nat) (es1 es2 : list entry) :
  levelRows depth (es1 ++ es2) = levelRows depth es1 ++ levelRows depth es2.
Proof. rewrite !levelRows_bind. apply bind_app. Qed.

Lemma levelRows_Permutation (depth : nat) (es1 es2 : list entry) :
  es1 ≡ₚ es2 -> levelRows depth es1 ≡ₚ levelRows depth es2.
Proof. intros H. rewrite !levelRows_bind. by rewrite H. Qed.

Lemma strictEq_true (a b : value) : strictEq a b = true -> a = b.
Proof. unfold strictEq. apply bool_decide_eq_true_1. Qed.

(** *** The rows [buildShallowIndex] groups *)

Lemma shallowStep_rows (c : string) (acc : list shallowEntry) (r : row) :
  concat (shData <$> reverse (shallowStep c acc r))
  = concat (shData <$> reverse acc) ++ [r]
  /\ (Forall (fun sh => Forall (fun r => cell r c = shValue sh) (shData sh)
                       /\ shSize sh = Z.of_nat (length (shData sh))) acc ->
      Forall (fun sh => Forall (fun r => cell r c = shValue sh) (shData sh)
                       /\ shSize sh = Z.of_nat (length (shData sh)))
        (shallowStep c acc r)).
Proof.
  destruct acc as [|lastEntry acc]; cbn [shallowStep].
  - split; [reflexivity|]. intros _. repeat constructor.
  - destruct (strictEq (cell r c) (shValue lastEntry)) eqn:Heq.
    + apply strictEq_true in Heq. split.
      * rewrite !reverse_cons, !fmap_app, !concat_app. cbn [fmap list_fmap concat shData].
        rewrite !app_nil_r. by rewrite app_assoc.
      * intros H. apply Forall_cons in H as [[Hl Hsz] H]. constructor; [|exact H].
        cbn [shData shValue shSize]. split.
        -- apply Forall_app. split; [exact Hl|].
           constructor; [exact Heq|constructor].
        -- rewrite length_app, Hsz. cbn [length]. lia.
    + split.
      * rewrite (reverse_cons (lastEntry :: acc)), fmap_app, concat_app.
        cbn [fmap list_fmap concat shData]. by rewrite app_nil_r.
      * intros H. constructor; [|exact H]. repeat constructor.
Qed.

Lemma foldl_shallowStep_rows (c : string) (l : list row) :
  forall acc : list shallowEntry,
  concat (shData <$> reverse (foldl (shallowStep c) acc l))
  = concat (shData <$> reverse acc) ++ l
  /\ (Forall (fun sh => Forall (fun r => cell r c = shValue sh) (shData sh)
                       /\ shSize sh = Z.of_nat (length (shData sh))) acc ->
      Forall (fun sh => Forall (fun r => cell r c = shValue sh) (shData sh)
                       /\ shSize sh = Z.of_nat (length (shData sh)))
        (foldl (shallowStep c) acc l)).
Proof.
  induction l as [|r l IH]; intros acc; cbn [foldl].
  - by rewrite app_nil_r.
  - destruct (IH (shallowStep c acc r)) as [Hrows Hkeys].
    destruct (shallowStep_rows c acc r) as [Hrows1 Hkeys1].
    split; [rewrite Hrows, Hrows1, <- app_assoc; reflexivity|].
    intros H. by apply Hkeys, Hkeys1.
Qed.

Lemma buildShallowIndex_rows (c : string) (rows : list row) :
  concat (shData <$> (buildShallowIndex rows c).1) ≡ₚ rows
  /\ Forall (fun sh => Forall (fun r => cell r c = shValue sh) (shData sh)
                       /\ shSize sh = Z.of_nat (length (shData sh)))
       (buildShallowIndex rows c).1.
Proof.
  unfold buildShallowIndex. cbn [fst].
  destruct (foldl_shallowStep_rows c (sort (pluckRow c) rows) []) as [Hrows Hkeys].
  split.
  - rewrite Hrows. cbn. apply sort_Permutation.
  - apply Forall_reverse, Hkeys. constructor.
Qed.

(** *** The rows [buildIndex] holds *)

Lemma mapM_Ok_Forall2 {A B} (f : A -> result B) (l : list A) :
  forall ys, mapM f l = Ok ys -> Forall2 (fun x y => f x = Ok y) l ys.
Proof.
  induction l as [|x l IH]; intros ys; cbn [mapM].
  - intros [= <-]. constructor.
  - destruct (f x) as [y|e] eqn:Hx; [|discriminate]. cbn [mbind result_bind].
    destruct (mapM f l) as [ys'|e]; [|discriminate]. cbn [mbind result_bind].
    intros [= <-]. constructor; [exact Hx|by apply IH].
Qed.

Lemma concat_fmap_bind {A B} (f : A -> list B) (l : list A) :
  concat (f <$> l) = l ≫= f.
Proof. induction l as [|x l IH]; [reflexivity|]. cbn. by rewrite IH. Qed.

Lemma bind_Forall2_Permutation {A B C} (f : A -> list C) (g : B -> list C)
    (l : list A) (k : list B) :
  Forall2 (fun x y => f x ≡ₚ g y) l k -> l ≫= f ≡ₚ k ≫= g.
Proof.
  induction 1 as [|x y l k Hxy _ IH]; [reflexivity|].
  cbn [mbind list_bind]. by rewrite Hxy, IH.
Qed.

Lemma exactLevel_nil (cols : list string) : exactLevel cols [].
Proof. destruct cols; [exact I|constructor]. Qed.

Lemma exactLevel_cons (c : string) (rest : list string) (es : list entry) :
  exactLevel (c :: rest) es
  <-> Forall (fun e =>
                Forall (fun r => cell r c = eValue e)
                  (belowEntry (length (c :: rest)) e)
                /\ eSize e = Z.of_nat (length (belowEntry (length (c :: rest)) e))
                /\ exactLevel rest (subEntries e)) es.
Proof. reflexivity. Qed.

Lemma buildIndexRec_rows (cols : list string) :
  forall (rows : list row) (es : list entry) (total : Z),
  buildIndexRec cols rows = Ok (es, total) ->
  levelRows (length cols) es ≡ₚ rows /\ exactLevel cols es.
Proof.
  induction cols as [|c rest IH]; intros rows es total; [discriminate|].
  cbn [buildIndexRec].
  destruct (buildShallowIndex_rows c rows) as [Hrows Hkeys].
  destruct (buildShallowIndex rows c) as [sh tot]. cbn [fst] in Hrows, Hkeys.
  destruct (mapM _ sh) as [entries|e] eqn:Hmap; [|discriminate].
  cbn [mbind result_bind]. intros [= <- <-].
  apply mapM_Ok_Forall2 in Hmap.
  assert (Hrel : Forall2 (fun s e => belowEntry (length (c :: rest)) e ≡ₚ shData s
                                     /\ eValue e = shValue s
                                     /\ eSize e = shSize s
                                     /\ exactLevel rest (subEntries e)) sh entries).
  { eapply Forall2_impl; [exact Hmap|]. intros s e He. cbv beta in He.
    destruct rest as [|c' rest'].
    - injection He as <-. split; [reflexivity|]. split; [reflexivity|].
      split; [reflexivity|exact I].
    - destruct (buildIndexRec (c' :: rest') (shData s)) as [[sub t]|err] eqn:Hsub;
        [|discriminate].
      cbn [mbind result_bind fst snd] in He. injection He as <-.
      destruct (IH _ _ _ Hsub) as [Hperm Hk].
      split; [|split; [reflexivity|split; [reflexivity|exact Hk]]].
      change (belowEntry (length (c :: c' :: rest')) ?e)
        with (match eData e with
              | SubIndex sub _ => levelRows (length (c' :: rest')) sub
              | RowData _ => []
              end).
      cbn [eData]. exact Hperm. }
  split.
  - rewrite levelRows_bind, <- Hrows, concat_fmap_bind. symmetry.
    apply bind_Forall2_Permutation.
    eapply Forall2_impl; [exact Hrel|]. by intros s e [-> _].
  - apply exactLevel_cons. apply Forall_forall. intros e He.
    apply list_elem_of_lookup_1 in He as [i He].
    destruct (Forall2_lookup_r _ _ _ _ _ Hrel He)
      as (s & Hs & Hperm & Hv & Hsz & Hk).
    pose proof (proj1 (Forall_forall _ _) Hkeys s
                  ltac:(by eapply list_elem_of_lookup_2)) as [Hks Hss].
    split; [by rewrite Hperm, Hv|]. split; [|exact Hk].
    by rewrite Hperm, Hsz.
Qed.

(** ** The rows [rowsAdded] holds *)

(** *** The rows a merge that adds holds *)

Section MergeRows.
Variable cb : callbacks.
Variable mergeEntries : entry -> entry -> entry * option error.
Variable R : entry -> list row.
Variables P K : entry -> Prop.
Hypothesis left_R : forall le prevR, R (cbProcessLeftSideEntry cb le prevR) = R le.
Hypothesis left_K : forall le prevR, K le -> K (cbProcessLeftSideEntry cb le prevR).
Hypothesis right_R : forall prevL re n,
  cbProcessRightSideEntry cb prevL re = Ok (Some n) ->
  R n = R re /\ (K re -> K n).
Hypothesis right_some : forall prevL re,
  cbProcessRightSideEntry cb prevL re <> Ok None.
Hypothesis merge_R : forall le re m,
  P le -> P re -> looseEq (eValue le) (eValue re) = true ->
  mergeEntries le re = (m, None) ->
  eSize m <> 0 /\ R m ≡ₚ R le ++ R re /\ (K le -> K re -> K m).

Lemma mergeWalk_rows (todo : list entry) :
  Forall P todo ->
  forall rs, Forall P rs ->
  forall done prevR res,
  mergeWalk cb mergeEntries todo done prevR rs = (res, None) ->
  res ≫= R ≡ₚ (reverse done ≫= R) ++ (todo ≫= R) ++ (rs ≫= R)
  /\ (Forall K done -> Forall K todo -> Forall K rs -> Forall K res).
Proof.
  induction 1 as [|le todo Hle Htodo IHtodo].
  - induction 1 as [|re rs Hre Hrs IHrs]; intros done prevR res.
    + rewrite mergeWalk_nil_nil. intros [= <-]. split.
      * cbn [mbind list_bind]. by rewrite !app_nil_r.
      * intros Hd _ _. by apply Forall_reverse.
    + rewrite mergeWalk_nil_cons.
      destruct (cbProcessRightSideEntry cb (head done) re) as [[n|]|e] eqn:Hr;
        [|by destruct (right_some _ _ Hr)|discriminate].
      intros Hw. destruct (IHrs _ _ _ Hw) as [Hperm HK].
      destruct (right_R _ _ _ Hr) as [HRn HKn]. split.
      * rewrite Hperm, reverse_cons, bind_app. cbn [mbind list_bind].
        rewrite HRn, !app_nil_r, <- !app_assoc. reflexivity.
      * intros Hd Ht Hrs'. apply Forall_cons in Hrs' as [Hre' Hrs'].
        apply HK; [|exact Ht|exact Hrs']. constructor; [by apply HKn|exact Hd].
  - induction 1 as [|re rs Hre Hrs IHrs]; intros done prevR res.
    + rewrite mergeWalk_cons_nil. intros Hw.
      destruct (IHtodo [] ltac:(constructor) _ _ _ Hw) as [Hperm HK]. split.
      * rewrite Hperm, reverse_cons, bind_app. cbn [mbind list_bind].
        rewrite left_R, !app_nil_r, <- !app_assoc. reflexivity.
      * intros Hd Ht _. apply Forall_cons in Ht as [Hle' Ht].
        apply HK; [|exact Ht|constructor].
        constructor; [by apply left_K|exact Hd].
    + rewrite mergeWalk_cons_cons.
      destruct (looseEq (eValue le) (eValue re)) eqn:Heq.
      * destruct (mergeEntries le re) as [m [e|]] eqn:Hm; [discriminate|].
        destruct (merge_R le re m Hle Hre Heq Hm) as (Hsz & HRm & HKm).
        apply Z.eqb_neq in Hsz. rewrite Hsz. intros Hw.
        destruct (IHtodo rs Hrs _ _ _ Hw) as [Hperm HK]. split.
        -- rewrite Hperm, reverse_cons, bind_app. cbn [mbind list_bind].
           rewrite HRm, !app_nil_r, <- !app_assoc.
           apply Permutation_app_head. rewrite !app_assoc.
           apply Permutation_app_tail. rewrite <- !app_assoc.
           apply Permutation_app_head. apply Permutation_app_comm.
        -- intros Hd Ht Hrs'. apply Forall_cons in Ht as [Hle' Ht].
           apply Forall_cons in Hrs' as [Hre' Hrs'].
           apply HK; [|exact Ht|exact Hrs']. constructor; [by apply HKm|exact Hd].
      * destruct (jsLt (eValue le) (eValue re)).
        -- intros Hw.
           destruct (IHtodo (re :: rs) ltac:(by constructor) _ _ _ Hw)
             as [Hperm HK]. split.
           ++ rewrite Hperm, reverse_cons, bind_app. cbn [mbind list_bind].
              rewrite left_R, !app_nil_r, <- !app_assoc. reflexivity.
           ++ intros Hd Ht Hrs'. apply Forall_cons in Ht as [Hle' Ht].
              apply HK; [|exact Ht|exact Hrs'].
              constructor; [by apply left_K|exact Hd].
        -- destruct (cbProcessRightSideEntry cb (head done) re)
             as [[n|]|e] eqn:Hr;
             [|by destruct (right_some _ _ Hr)|discriminate].
           intros Hw. destruct (IHrs _ _ _ Hw) as [Hperm HK].
           destruct (right_R _ _ _ Hr) as [HRn HKn]. split.
           ++ rewrite Hperm, reverse_cons, bind_app. cbn [mbind list_bind].
              rewrite HRn, !app_nil_r, <- !app_assoc.
              apply Permutation_app_head. rewrite !app_assoc.
              apply Permutation_app_tail. rewrite <- app_assoc.
              apply Permutation_app_comm.
           ++ intros Hd Ht Hrs'. apply Forall_cons in Hrs' as [Hre' Hrs'].
              apply HK; [|exact Ht|exact Hrs'].
              constructor; [by apply HKn|exact Hd].
Qed.
End MergeRows.

Lemma looseEq_num (a b : Z) : looseEq (VNum a) (VNum b) = true -> a = b.
Proof.
  intros H. destruct (Z.eq_dec a b) as [|Hne]; [assumption|].
  pose proof (Comparator_num a b) as Hc. unfold Comparator in Hc.
  rewrite H in Hc. destruct (Z.compare_spec a b); lia.
Qed.

Lemma belowEntry_leaf (depth : nat) (e : entry) : (depth <= 1)%nat ->
  belowEntry depth e
  = match eData e with RowData rs => rs | SubIndex _ _ => [] end.
Proof. destruct depth as [|[|depth]]; [reflexivity..|lia]. Qed.

Section AddRows.

Let keyed (cols : list string) (e : entry) : Prop :=
  match cols with
  | c :: rest =>
      Forall (fun r => cell r c = eValue e) (belowEntry (length cols) e)
      /\ eSize e = Z.of_nat (length (belowEntry (length cols) e))
      /\ exactLevel rest (subEntries e)
  | [] => True
  end.
Let good (depth : nat) (e : entry) : Prop :=
  validEntry depth e /\ exists n, eValue e = VNum n.

Lemma exactLevel_keyed (cols : list string) (es : list entry) :
  exactLevel cols es <-> Forall (keyed cols) es.
Proof.
  destruct cols as [|c rest]; [|reflexivity].
  split; [|done]. intros _. by apply Forall_forall.
Qed.

Lemma validLevel_good (depth : nat) (es : list entry) (total : Z) :
  validLevel depth es total -> Forall (good depth) es.
Proof.
  intros (Hn & _ & _ & _ & Hv)%validLevel_entries.
  apply Forall_forall. intros e He. split.
  - by apply (proj1 (Forall_forall _ _) Hv).
  - by apply (proj1 (Forall_forall _ _) Hn).
Qed.

Lemma keyed_merged (cols : list string) (le re m : entry) :
  good (length cols) le -> good (length cols) re ->
  looseEq (eValue le) (eValue re) = true ->
  eValue m = eValue le -> eSize m = eSize le + eSize re ->
  belowEntry (length cols) m
  ≡ₚ belowEntry (length cols) le ++ belowEntry (length cols) re ->
  exactLevel (tail cols) (subEntries m) ->
  keyed cols le -> keyed cols re -> keyed cols m.
Proof.
  intros [_ [a Ha]] [_ [b Hb]] Heq Hv Hsz Hperm Hsub Hl Hr.
  destruct cols as [|c rest]; [exact I|].
  destruct Hl as (Hl & Hsl & _), Hr as (Hr & Hsr & _).
  split; [|split; [|exact Hsub]].
  - rewrite Ha, Hb in Heq. apply looseEq_num in Heq as ->.
    rewrite Hperm, Hv. apply Forall_app. split; [exact Hl|].
    by rewrite Ha, <- Hb.
  - rewrite Hperm, length_app, Hsz, Hsl, Hsr. lia.
Qed.

Lemma subEntries_leaf (depth : nat) (e : entry) :
  (depth <= 1)%nat -> validEntry depth e -> subEntries e = [].
Proof.
  intros Hd He. unfold validEntry in He. unfold subEntries.
  destruct depth as [|[|depth]]; [..|lia]; by destruct (eData e).
Qed.

Lemma mergeIndexRec_rows_leaf (c : string) (l : list entry) (lt : Z)
    (r : list entry) (rt : Z) (res : level) :
  validLevel 1 l lt -> validLevel 1 r rt ->
  mergeIndexRec addCallbacks 1 (l, lt) (r, rt) = (res, None) ->
  levelRows 1 res.1 ≡ₚ levelRows 1 l ++ levelRows 1 r
  /\ (exactLevel [c] l -> exactLevel [c] r -> exactLevel [c] res.1).
Proof.
  intros Hl Hr. rewrite mergeIndexRec_leaf by lia. cbn [fst snd].
  match goal with
  | |- context [mergeWalk addCallbacks ?me l [] None r] =>
      pose proof (mergeWalk_rows addCallbacks me
                    (belowEntry 1) (good 1) (keyed [c])) as Hwalk;
      destruct (mergeWalk addCallbacks me l [] None r) as [es [e|]] eqn:Hw
  end; [discriminate|].
  intros [= <-]. cbn [cbMergeTotals addCallbacks fst snd].
  apply Hwalk in Hw as [Hperm HK].
  - split.
    + rewrite (levelRows_Permutation _ _ es) by apply sort_Permutation.
      rewrite levelRows_bind, Hperm. cbn [reverse mbind list_bind app].
      by rewrite !levelRows_bind.
    + intros Hkl Hkr. apply exactLevel_keyed.
      rewrite (sort_Permutation pluckValue es).
      apply HK; [constructor|by apply exactLevel_keyed..].
  - intros le prevR. by destruct prevR.
  - intros le prevR H. by destruct prevR.
  - intros prevL re n [= <-]. split; [|intros H; exact H]. reflexivity.
  - discriminate.
  - intros le re m Hle Hre Heq.
    cbn [cbMergeLeftAndRightEntries addCallbacks].
    assert (Hshape : forall e, validEntry 1 e ->
              exists a, eData e = RowData a /\ a <> []
                        /\ Z.of_nat (length a) = eSize e).
    { intros e He. unfold validEntry in He.
      destruct (eData e) as [a|]; try contradiction; exists a; by split. }
    destruct (Hshape le (proj1 Hle)) as (a & Ha & Hane & Halen).
    destruct (Hshape re (proj1 Hre)) as (b & Hb & Hbne & Hblen).
    rewrite Ha, Hb. cbn [appendData mbind result_bind]. intros [= <-].
    cbn [eSize].
    assert (Hperm : belowEntry 1
              (Entry (eValue le) (eSize le + eSize re)
                 (eSubtotal le + eSubtotal re) (RowData (a ++ b)))
            ≡ₚ belowEntry 1 le ++ belowEntry 1 re).
    { unfold belowEntry. cbn [eData]. by rewrite Ha, Hb. }
    split; [|split; [exact Hperm|]].
    + destruct a; [done|]. destruct b; [done|]. cbn [length] in *. lia.
    + apply (keyed_merged [c]);
        [exact Hle|exact Hre|exact Heq|reflexivity|reflexivity|exact Hperm
        |exact I].
  - by eapply validLevel_good.
  - by eapply validLevel_good.
Qed.

Lemma mergeIndexRec_rows (cols : list string) : cols <> [] ->
  forall (l : list entry) (lt : Z) (r : list entry) (rt : Z) (res : level),
  validLevel (length cols) l lt -> validLevel (length cols) r rt ->
  mergeIndexRec addCallbacks (length cols) (l, lt) (r, rt) = (res, None) ->
  levelRows (length cols) res.1
  ≡ₚ levelRows (length cols) l ++ levelRows (length cols) r
  /\ (exactLevel cols l -> exactLevel cols r -> exactLevel cols res.1).
Proof.
  induction cols as [|c rest IH]; [done|]. intros _ l lt r rt res Hl Hr.
  destruct rest as [|c' rest].
  { by apply mergeIndexRec_rows_leaf. }
  specialize (IH ltac:(discriminate)).
  change (length (c :: c' :: rest)) with (S (S (length rest))) in *.
  change (length (c' :: rest)) with (S (length rest)) in IH.
  rewrite mergeIndexRec_nested. cbn [fst snd].
  match goal with
  | |- context [mergeWalk addCallbacks ?me l [] None r] =>
      pose proof (mergeWalk_rows addCallbacks me
                    (belowEntry (S (S (length rest))))
                    (good (S (S (length rest))))
                    (keyed (c :: c' :: rest))) as Hwalk;
      destruct (mergeWalk addCallbacks me l [] None r) as [es [e|]] eqn:Hw
  end; [discriminate|].
  intros [= <-]. cbn [cbMergeTotals addCallbacks fst snd].
  apply Hwalk in Hw as [Hperm HK].
  - split.
    + rewrite (levelRows_Permutation _ _ es) by apply sort_Permutation.
      rewrite levelRows_bind, Hperm. cbn [reverse mbind list_bind app].
      by rewrite !levelRows_bind.
    + intros Hkl Hkr. apply exactLevel_keyed.
      rewrite (sort_Permutation pluckValue es).
      apply HK; [constructor|by apply exactLevel_keyed..].
  - intros le prevR. by destruct prevR.
  - intros le prevR H. by destruct prevR.
  - intros prevL re n [= <-]. split; [|intros H; exact H]. reflexivity.
  - discriminate.
  - intros le re m Hle Hre Heq.
    pose proof (proj1 Hle) as Hvle. pose proof (proj1 Hre) as Hvre.
    unfold validEntry in Hvle, Hvre.
    destruct (eData le) as [|sl slt] eqn:Hdl, (eData re) as [|sr srt] eqn:Hdr;
      try contradiction.
    destruct Hvle as (Hvl & Hnl & Hcl), Hvre as (Hvr & Hnr & Hcr).
    destruct (mergeIndexRec_valid (S (length rest)) sl slt sr srt Hvl Hvr)
      as (sub & Hsub & Hvsub & Hclen & Hsne).
    rewrite Hsub.
    cbn [cbMergeLeftAndRightEntries addCallbacks mbind result_bind fst snd
         withData eData eValue eSize eSubtotal].
    intros [= <-]. cbn [eSize].
    destruct (IH sl slt sr srt _ Hvl Hvr Hsub) as [Hrows Hkeys].
    assert (Hperm : belowEntry (S (S (length rest)))
              (Entry (eValue le) (eSize le + eSize re)
                 (eSubtotal le + eSubtotal re) (SubIndex sub (slt + srt)))
            ≡ₚ belowEntry (S (S (length rest))) le
               ++ belowEntry (S (S (length rest))) re).
    { unfold belowEntry. cbn [eData]. rewrite Hdl, Hdr. exact Hrows. }
    split; [|split; [exact Hperm|]].
    + destruct sl; [done|]. destruct sr; [done|]. cbn [length] in *. lia.
    + intros Hkle Hkre.
      apply (keyed_merged (c :: c' :: rest) le re);
        [exact Hle|exact Hre|exact Heq|reflexivity|reflexivity|exact Hperm|
        |exact Hkle|exact Hkre].
      cbn [tail]. unfold subEntries at 1. cbn [eData]. cbn [fst] in Hkeys.
      destruct Hkle as (_ & _ & Hkl), Hkre as (_ & _ & Hkr).
      unfold subEntries in Hkl, Hkr.
      rewrite Hdl in Hkl. rewrite Hdr in Hkr. by apply Hkeys.
  - by eapply validLevel_good.
  - by eapply validLevel_good.
Qed.
End AddRows.

(** *** The rows [rowsAdded] leaves in an index *)

Lemma rowsAdded_numeric_rows (ix : Index) (rs : list row) :
  validIndex ix -> Forall (numericRow (columns ix)) rs ->
  indexRows (rowsAdded ix (Some <$> rs)).1 ≡ₚ indexRows ix ++ rs
  /\ (exactIndex ix -> exactIndex (rowsAdded ix (Some <$> rs)).1).
Proof.
  intros [Hcols Hvalid] Hrs. unfold rowsAdded, buildIndex.
  rewrite definedRows_Some. cbn [mbind result_bind].
  destruct (buildIndexRec_valid (columns ix) Hcols rs Hrs)
    as (es & total & Hbuild & Hv & _).
  rewrite Hbuild. unfold mergeIndex.
  destruct (mergeIndexRec_valid (length (columns ix)) (index ix) (indexTotal ix)
              es total Hvalid Hv) as (res & Hmerge & _).
  rewrite Hmerge. cbn [fst].
  destruct (buildIndexRec_rows (columns ix) rs es total Hbuild) as [Hrows Hkeys].
  unfold indexRows, exactIndex. cbn [columns index setIndex fst].
  destruct (mergeIndexRec_rows (columns ix) Hcols (index ix) (indexTotal ix)
              es total _ Hvalid Hv Hmerge) as [Hperm HK].
  split.
  - cbn [fst] in Hperm. by rewrite Hperm, Hrows.
  - intros Hk. by apply HK.
Qed.

(** X18: [rowsAdded] of rows of numbers to a valid index leaves an index
    that holds the rows it held and the added rows, each once; and when,
    at every level, the rows below an entry had the value of the entry and
    the size of the entry was their number, this is still so. *)
Theorem rowsAdded_rows (ix : Index) (rs : list row) :
  validIndex ix -> Forall (numericRow (columns ix)) rs ->
  indexRows (rowsAdded ix (Some <$> rs)).1 ≡ₚ indexRows ix ++ rs
  /\ (exactIndex ix -> exactIndex (rowsAdded ix (Some <$> rs)).1).
Proof. apply rowsAdded_numeric_rows. Qed.

(** ** [insert] into a table whose indexes are valid *)

Lemma numericRow_canonicalRows_sub (cols names : list string) (rs : list row) :
  names ⊆ cols -> Forall (numericRow names) rs ->
  forall tid h, Forall (numericRow names) (canonicalRows cols tid h rs).
Proof.
  intros Hsub. induction 1 as [|r rs Hr _ IH]; intros tid h;
    cbn [canonicalRows]; constructor; [|apply IH].
  apply Forall_forall. intros c Hc.
  destruct (proj1 (Forall_forall _ _) Hr c Hc) as [n Hn]. exists n.
  unfold cell at 1. cbn [cells].
  rewrite lookup_cloneCells by (by apply Hsub). exact Hn.
Qed.

(** What [insert] does with an array of rows without [$] that have
    integers in the columns of the indexes, the indexes being valid. *)
Lemma insert_valid_indexes (t : Table) (rs : list row) :
  active t = true ->
  Forall (fun r => dollarTruthy (rowDollar r) = false) rs ->
  Forall (fun ix => validIndex ix /\ columns ix ⊆ columnNames t
                    /\ Forall (numericRow (columns ix)) rs) (indicies t) ->
  let stored :=
    canonicalRows (columnNames t) (id t) (length (closures t)) rs in
  exists t',
    insert (ArgArray (Some <$> rs)) t = (t', Ok stored)
    /\ rows t' = rows t ++ (Some <$> stored)
    /\ active t' = true /\ columnNames t' = columnNames t
    /\ Forall2 (fun ix ix' =>
                  rowsAdded ix (Some <$> stored) = (ix', None)
                  /\ validIndex ix' /\ validateIndex ix' = Ok ()
                  /\ indexRows ix' ≡ₚ indexRows ix ++ stored
                  /\ indexTotal ix' = indexTotal ix + Z.of_nat (length rs)
                  /\ columns ix' = columns ix)
         (indicies t) (indicies t').
Proof.
  intros Hlive Hrs Hix stored.
  assert (Hadd : Forall (fun ix =>
            rowsAdded ix (Some <$> stored)
            = ((rowsAdded ix (Some <$> stored)).1, None)
            /\ validIndex (rowsAdded ix (Some <$> stored)).1
            /\ validateIndex (rowsAdded ix (Some <$> stored)).1 = Ok ()
            /\ indexRows (rowsAdded ix (Some <$> stored)).1
               ≡ₚ indexRows ix ++ stored
            /\ indexTotal (rowsAdded ix (Some <$> stored)).1
               = indexTotal ix + Z.of_nat (length rs)
            /\ columns (rowsAdded ix (Some <$> stored)).1 = columns ix)
            (indicies t)).
  { eapply Forall_impl; [exact Hix|]. intros ix (Hv & Hsub & Hnum).
    assert (Hstored : Forall (numericRow (columns ix)) stored)
      by (by apply numericRow_canonicalRows_sub).
    destruct (rowsAdded_numeric_rows ix stored Hv Hstored) as [Hrows _].
    destruct (rowsAdded_numeric_valid ix stored Hv Hstored)
      as (ix' & Heq & Hv' & Hok & Htotal & Hcols & _).
    rewrite Heq in Hrows |- *. cbn [fst] in Hrows |- *.
    unfold stored in Htotal. rewrite length_canonicalRows in Htotal.
    split; [reflexivity|]. split; [exact Hv'|]. split; [exact Hok|].
    split; [exact Hrows|]. split; [exact Htotal|exact Hcols]. }
  eexists. split.
  - apply insert_batch_eq; [exact Hlive|exact Hrs| |].
    + eapply Forall_impl; [exact Hadd|]. intros ix [H _]. exact (f_equal snd H).
    + intros _. apply Forall_fmap.
      eapply Forall_impl; [exact Hadd|]. by intros ix (_ & _ & ? & _).
  - split; [reflexivity|]. split; [exact Hlive|]. split; [reflexivity|].
    cbn [indicies addCalls setIndicies]. apply Forall2_fmap_r.
    apply Forall_Forall2_diag.
    eapply Forall_impl; [exact Hadd|]. intros ix H. exact H.
Qed.


(** X12: on a live table whose indexes are valid indexes on columns of
    the table, [insert] of an array of rows that carry no [$] and have
    integers in the columns of the indexes returns one stored row per row,
    with the cells of the row in the table's columns, appends the stored
    rows to the row vector and raises [getCount] by their number; every
    index adds them without a throw, passes [validateIndex] and then holds
    the rows it held and the stored rows; and [getRows] returns the old
    rows followed by the stored ones. *)
Theorem insert_batch (t : Table) (rs : list row) :
  active t = true ->
  Forall (fun r => dollarTruthy (rowDollar r) = false) rs ->
  Forall (fun ix => validIndex ix /\ columns ix ⊆ columnNames t
                    /\ Forall (numericRow (columns ix)) rs) (indicies t) ->
  exists t' stored,
    insert (ArgArray (Some <$> rs)) t = (t', Ok stored)
    /\ Forall2 (fun r s => forall c, c ∈ columnNames t -> cell s c = cell r c)
         rs stored
    /\ rows t' = rows t ++ (Some <$> stored)
    /\ (getCount t').2 = Ok (length (rows t) + length rs)%nat
    /\ Forall2 (fun ix ix' =>
                  rowsAdded ix (Some <$> stored) = (ix', None)
                  /\ validateIndex ix' = Ok ()
                  /\ indexRows ix' ≡ₚ indexRows ix ++ stored)
         (indicies t) (indicies t')
    /\ (forall old, (getRows t).2 = Ok old ->
                    (getRows t').2 = Ok (old ++ stored)).
Proof.
  intros Hlive Hrs Hix.
  destruct (insert_valid_indexes t rs Hlive Hrs Hix)
    as (t' & Heq & Hrows & Hlive' & Hcols & Hall).
  set (stored := canonicalRows (columnNames t) (id t) (length (closures t)) rs)
    in *.
  exists t', stored. split; [exact Heq|].
  split; [apply canonicalRows_cells|]. split; [exact Hrows|].
  split; [|split].
  - unfold getCount. rewrite checkActive_live by exact Hlive'.
    rewrite op_bind_unfold. cbn [get]. unfold mret, op_ret. cbn [snd].
    f_equal. rewrite Hrows, length_app, length_fmap. unfold stored.
    by rewrite length_canonicalRows.
  - eapply Forall2_impl; [exact Hall|].
    intros ix ix' (H1 & _ & H2 & H3 & _). by repeat split.
  - intros old. unfold getRows.
    rewrite checkActive_live by exact Hlive.
    rewrite checkActive_live by exact Hlive'.
    rewrite !op_bind_unfold. cbn [get]. unfold lift. cbn [snd].
    rewrite Hrows, Hcols.
    intros Hold. apply mapM_app; [exact Hold|].
    rewrite mapM_cloneArg. f_equal. apply clone_canonicalRows.
Qed.

(** ** The plan of an index of any depth *)

(** *** [reduce] opens the levels below the entries it found *)

Lemma belowEntry_sub (depth : nat) (e : entry) :
  belowEntry (S (S depth)) e = levelRows (S depth) (subEntries e).
Proof.
  unfold belowEntry, subEntries. destruct (eData e); [|reflexivity].
  by rewrite levelRows_nil.
Qed.

Lemma levelRows_sub (depth : nat) (es : list entry) :
  levelRows (S (S depth)) es = levelRows (S depth) (es ≫= subEntries).
Proof.
  induction es as [|e es IH]; [by rewrite !levelRows_nil|].
  rewrite levelRows_cons, IH, belowEntry_sub. cbn [mbind list_bind].
  by rewrite levelRows_app.
Qed.

Lemma mapM_entriesOf (depth : nat) (es : list entry) :
  Forall (validEntry (S (S depth))) es ->
  mapM entriesOf (eData <$> es) = Ok (subEntries <$> es)
  /\ Forall (validEntry (S depth)) (es ≫= subEntries).
Proof.
  induction 1 as [|e es He _ [IH1 IH2]]; [split; [reflexivity|constructor]|].
  cbn [fmap list_fmap mapM]. change (list_fmap entry data eData es) with (eData <$> es).
  change (list_fmap entry (list entry) subEntries es) with (subEntries <$> es).
  rewrite IH1.
  assert (Hsub : exists sub st, eData e = SubIndex sub st
                                /\ validLevel (S depth) sub st).
  { unfold validEntry in He. destruct (eData e) as [|sub st]; [contradiction|].
    destruct He as (Hv & _). by exists sub, st. }
  destruct Hsub as (sub & st & Hd & Hv).
  assert (Hse : subEntries e = sub) by (unfold subEntries; by rewrite Hd).
  rewrite Hd, Hse. cbn [entriesOf mbind result_bind]. split; [reflexivity|].
  cbn [mbind list_bind]. rewrite Hse. apply Forall_app. split; [|exact IH2].
  by apply validLevel_entries in Hv as (_ & _ & _ & _ & Hv).
Qed.

Lemma mapM_rowsOf_leaf (es : list entry) :
  Forall (validEntry 1) es ->
  mapM rowsOf (eData <$> es) = Ok (belowEntry 1 <$> es).
Proof.
  induction 1 as [|e es He _ IH]; [reflexivity|].
  cbn [fmap list_fmap mapM]. change (list_fmap entry data eData es) with (eData <$> es).
  rewrite IH. unfold validEntry in He. unfold belowEntry at 2.
  destruct (eData e); [reflexivity|contradiction].
Qed.

Lemma flatten_level (depth : nat) : forall es : list entry,
  Forall (validEntry (S depth)) es ->
  flatten depth (eData <$> es) = Ok (levelRows (S depth) es).
Proof.
  induction depth as [|depth IH]; intros es Hes; cbn [flatten].
  - rewrite (mapM_rowsOf_leaf es Hes). cbn [mbind result_bind].
    by rewrite concat_fmap_bind, levelRows_bind.
  - destruct (mapM_entriesOf depth es Hes) as [-> Hsub].
    cbn [mbind result_bind]. rewrite concat_fmap_bind.
    rewrite (IH _ Hsub). by rewrite levelRows_sub.
Qed.

Lemma flatten_index (ix : Index) :
  validIndex ix ->
  flatten (length (columns ix)) [SubIndex (index ix) (indexTotal ix)]
  = Ok (indexRows ix).
Proof.
  intros [Hcols Hvalid]. unfold indexRows.
  destruct (columns ix) as [|c cols]; [done|]. cbn [length flatten mapM entriesOf].
  cbn [mbind result_bind concat]. rewrite app_nil_r.
  apply flatten_level.
  by apply validLevel_entries in Hvalid as (_ & _ & _ & _ & Hv).
Qed.

(** *** The rows below the entries that pass a test of the key *)

Lemma filter_keyed (c : string) (depth : nat) (p : value -> bool)
    (es : list entry) :
  Forall (fun e => Forall (fun r => cell r c = eValue e) (belowEntry depth e))
    es ->
  levelRows depth (filter (fun e => p (eValue e) = true) es)
  = filter (fun r => p (cell r c) = true) (levelRows depth es).
Proof.
  induction 1 as [|e es He _ IH]; [by rewrite !levelRows_nil|].
  rewrite levelRows_cons, filter_app, <- IH.
  destruct (p (eValue e)) eqn:Hp.
  - rewrite filter_cons_True by exact Hp. rewrite levelRows_cons. f_equal.
    symmetry. apply filter_all. eapply Forall_impl; [exact He|].
    intros r Hr. cbn beta in Hr. by rewrite Hr.
  - rewrite filter_cons_False by congruence.
    rewrite (filter_none _ (belowEntry depth e)); [reflexivity|].
    eapply Forall_impl; [exact He|].
    intros r Hr. cbn beta in Hr. rewrite Hr. congruence.
Qed.

(** *** The plan of an index for one comparison *)

Lemma splitCriteria_single (cols : list string) (crit : criterion) :
  NoDup cols ->
  splitCriteria cols [crit] [crit]
  = match cols with
    | c :: _ => if String.eqb (columnName crit) c then ([crit], [])
                else ([], [crit])
    | [] => ([], [crit])
    end.
Proof.
  intros Hnd. destruct cols as [|c rest]; [reflexivity|].
  cbn [splitCriteria List.find removeFirst].
  destruct (String.eqb_spec (columnName crit) c) as [Hc|Hc]; [|reflexivity].
  destruct rest as [|c2 rest]; [reflexivity|].
  cbn [splitCriteria List.find].
  destruct (String.eqb_spec (columnName crit) c2) as [Hc2|Hc2]; [|reflexivity].
  apply NoDup_cons in Hnd as [Hnotin _]. exfalso. apply Hnotin.
  rewrite <- Hc, Hc2. left.
Qed.

Lemma satisfies_comparison (r : row) (name : string) (o : compareOp) (x : value) :
  satisfies r (Criterion name (Compare o x))
  = holds o (Comparator (cell r name) x).
Proof. reflexivity. Qed.

Lemma plan_of_index (estimate : Index -> list criterion -> num) (ix : Index)
    (name : string) (o : compareOp) (x : Z) :
  validIndex ix -> NoDup (columns ix) -> exactIndex ix -> o <> OpNe ->
  let crit := Criterion name (Compare o (VNum x)) in
  exists found,
    reduceOf (computeCost estimate ix [crit]) () = Ok (Some <$> found)
    /\ applyUnused (criteriaUnused (computeCost estimate ix [crit]))
         (Some <$> found)
       = Ok (Some <$> filter (fun r => satisfies r crit = true) (indexRows ix)).
Proof.
  intros Hvalid Hnd Hkeyed Ho crit. unfold computeCost.
  rewrite (splitCriteria_single (columns ix) crit Hnd).
  pose proof Hvalid as [Hcols Hlevel].
  unfold exactIndex in Hkeyed.
  destruct (columns ix) as [|c cols] eqn:Hc; [done|].
  apply exactLevel_cons in Hkeyed.
  change (columnName crit) with name.
  destruct (String.eqb_spec name c) as [->|Hne]; cbn [reduceOf criteriaUnused];
    subst crit.
  - pose proof Hlevel as (Hnum & Hs & _ & _ & Hentries)%validLevel_entries.
    set (found := filter (fun e => holds o (compareValues e (VNum x)) = true)
                    (index ix)).
    exists (levelRows (length (c :: cols)) found). split.
    + unfold reduce. cbn [reduceCriteria mapM entriesOf mbind result_bind].
      rewrite (reduceStep_comparison (index ix) c o x Ho); [|
        by apply sorted_keys_strictlySorted|exact Hnum].
      fold found. cbn [mbind result_bind concat]. rewrite app_nil_r, Hc.
      cbn [length Nat.sub]. rewrite Nat.sub_0_r.
      rewrite flatten_level; [reflexivity|].
      by apply Forall_filter_keep.
    + cbn [applyUnused]. do 2 f_equal. unfold found, indexRows. rewrite Hc.
      apply (filter_keyed c _ (fun v => holds o (Comparator v (VNum x)))).
      eapply Forall_impl; [exact Hkeyed|]. by intros e (? & _).
  - exists (indexRows ix). split.
    + unfold reduce. cbn [reduceCriteria mbind result_bind length].
      rewrite Nat.sub_0_r, Hc. rewrite <- Hc, flatten_index by exact Hvalid.
      reflexivity.
    + rewrite applyUnused_comparisons
        by (repeat constructor; by exists o, (VNum x)).
      do 2 f_equal. apply list_filter_iff. intros r. cbn [forallb].
      by rewrite andb_true_r.
Qed.

(** ** [insert] that throws *)

(** *** [insert] of a batch that holds a row with [$] *)

Lemma collect_insertRow_skip (rs1 : list row) (r : row) (rs2 : list row) :
  forall t : Table,
  Forall (fun r => dollarTruthy (rowDollar r) = false) rs1 ->
  dollarTruthy (rowDollar r) = true ->
  Forall (fun r => dollarTruthy (rowDollar r) = false) rs2 ->
  exists result,
    collect insertRow ((Some <$> rs1) ++ Some r :: (Some <$> rs2)) t
    = (withRows t (rs1 ++ rs2), Ok result)
    /\ None ∈ result.
Proof.
  induction rs1 as [|r1 rs1 IH]; intros t Hrs1 Hr Hrs2.
  - cbn [fmap list_fmap app collect]. rewrite op_bind_unfold.
    unfold insertRow at 1. rewrite Hr. unfold mret at 1, op_ret at 1.
    rewrite op_bind_unfold, collect_insertRow_batch by exact Hrs2.
    unfold mret, op_ret. eexists. split; [reflexivity|left].
  - apply Forall_cons in Hrs1 as [Hr1 Hrs1].
    cbn [fmap list_fmap app collect]. rewrite op_bind_unfold.
    unfold insertRow at 1. rewrite Hr1.
    repeat (rewrite op_bind_unfold; cbn [get modify]).
    unfold mret at 1, op_ret at 1. rewrite op_bind_unfold.
    match goal with
    | |- context [collect insertRow _ ?t1] =>
        destruct (IH t1 Hrs1 Hr Hrs2) as (result & Heq & Hnone)
    end.
    change (list_fmap row (option row) Some) with (fmap (M:=list) (@Some row)).
    rewrite Heq. unfold mret, op_ret. eexists. split; [|right; exact Hnone].
    f_equal. unfold withRows.
    cbn [rows closures columnNames id setRows setClosures app
         canonicalRows newClosures fmap list_fmap].
    rewrite !length_app. cbn [length].
    rewrite !Nat.add_1_r, <- !app_assoc. reflexivity.
Qed.

Lemma eachIndex_rowsAdded_undefined (result : rowArray) (t : Table) :
  None ∈ result ->
  exists t' r, eachIndex (fun i => callRowsAdded i result) t = (t', r)
    /\ rows t' = rows t /\ indicies t' = indicies t /\ active t' = active t
    /\ columnNames t' = columnNames t
    /\ match r with
       | Ok _ => indicies t = [] /\ t' = t
       | Err e => isTypeError e
       end.
Proof.
  intros H. unfold eachIndex. rewrite op_bind_unfold. cbn [get].
  destruct (indicies t) as [|ix ixs] eqn:Hix.
  - cbn [length seq each]. exists t, (Ok ()). by repeat split.
  - cbn [length seq each]. rewrite op_bind_unfold.
    unfold callRowsAdded at 1, callIndex. rewrite Hix. cbn [lookup list_lookup].
    destruct (rowsAdded_None ix result H) as [msg ->].
    eexists _, _. split; [reflexivity|].
    cbn [rows indicies active columnNames logCall setIndicies].
    repeat split. by exists msg.
Qed.

(** X19: [insert] of an array in which one row carries [$] and the other
    rows do not throws a [TypeError], and what it did before the throw
    stays: the clones of the other rows are at the end of the row vector,
    and no index has changed. *)
Theorem insert_not_rolled_back (t : Table) (rs1 : list row) (r : row)
    (rs2 : list row) :
  active t = true ->
  Forall (fun r => dollarTruthy (rowDollar r) = false) rs1 ->
  dollarTruthy (rowDollar r) = true ->
  Forall (fun r => dollarTruthy (rowDollar r) = false) rs2 ->
  exists t' msg,
    insert (ArgArray ((Some <$> rs1) ++ Some r :: (Some <$> rs2))) t
    = (t', Err (TypeError msg))
    /\ rows t'
       = rows t ++ (Some <$> canonicalRows (columnNames t) (id t)
                               (length (closures t)) (rs1 ++ rs2))
    /\ indicies t' = indicies t.
Proof.
  intros Hlive Hrs1 Hr Hrs2. unfold insert.
  rewrite checkActive_live by exact Hlive. cbn [toArray].
  rewrite op_bind_unfold.
  destruct (collect_insertRow_skip rs1 r rs2 t Hrs1 Hr Hrs2)
    as (result & -> & Hnone).
  rewrite op_bind_unfold.
  destruct (eachIndex_rowsAdded_undefined result (withRows t (rs1 ++ rs2)) Hnone)
    as (t1 & res & -> & Hrows & Hix & Hact & Hcols & Hres).
  destruct res as [[]|e].
  - destruct Hres as [Hnil ->].
    rewrite op_bind_unfold.
    rewrite tableValidateIndex_no_index by assumption.
    rewrite op_bind_unfold. cbn [get]. unfold lift.
    destruct (cloneArg_None (columnNames (withRows t (rs1 ++ rs2))) result Hnone)
      as [msg ->].
    exists (withRows t (rs1 ++ rs2)), msg. by repeat split.
  - destruct Hres as [msg ->]. exists t1, msg. split; [reflexivity|].
    split; [by rewrite Hrows|by rewrite Hix].
Qed.

(** ** [rowsRemoved] of one row *)

(** *** The walk of a merge that removes one row *)

Lemma looseEq_nums (a b : Z) : looseEq (VNum a) (VNum b) = (a =? b).
Proof. reflexivity. Qed.

Lemma jsLt_nums (a b : Z) : jsLt (VNum a) (VNum b) = (a <? b).
Proof. reflexivity. Qed.

Lemma mergeWalk_left_rest (cb : callbacks)
    (me : entry -> entry -> entry * option error) (prevR : option entry)
    (todo : list entry) :
  forall done,
  mergeWalk cb me todo done prevR []
  = (reverse done ++ ((fun e => cbProcessLeftSideEntry cb e prevR) <$> todo), None).
Proof.
  induction todo as [|le todo IH]; intros done.
  - rewrite mergeWalk_nil_nil. cbn. by rewrite app_nil_r.
  - rewrite mergeWalk_cons_nil, IH, reverse_cons, <- app_assoc. reflexivity.
Qed.

Lemma mergeWalk_remove_one (me : entry -> entry -> entry * option error)
    (l1 : list entry) (le : entry) (l2 : list entry) (re m : entry) :
  Forall (fun e => looseEq (eValue e) (eValue re) = false
                   /\ jsLt (eValue e) (eValue re) = true) l1 ->
  looseEq (eValue le) (eValue re) = true ->
  me le re = (m, None) ->
  forall done,
  mergeWalk removeCallbacks me (l1 ++ le :: l2) done None [re]
  = (reverse done ++ l1 ++ (if eSize m =? 0 then [] else [m])
       ++ ((fun e => addSubtotal e (- eSubtotal re)) <$> l2), None).
Proof.
  intros Hl1 Heq Hme. induction Hl1 as [|e l1 [He1 He2] _ IH]; intros done.
  - cbn [app]. rewrite mergeWalk_cons_cons, Heq, Hme.
    destruct (eSize m =? 0); rewrite mergeWalk_left_rest.
    + reflexivity.
    + rewrite reverse_cons, <- app_assoc. reflexivity.
  - cbn [app]. rewrite mergeWalk_cons_cons, He1, He2.
    cbn [cbProcessLeftSideEntry removeCallbacks].
    rewrite IH, reverse_cons, <- !app_assoc. reflexivity.
Qed.


(** *** Rows told apart by their [$] *)

Lemma otherThan_app (r : row) (l1 l2 : list row) :
  otherThan r (l1 ++ l2) = otherThan r l1 ++ otherThan r l2.
Proof. apply filter_app. Qed.

Lemma otherThan_all (r : row) (l : list row) :
  Forall (fun x => rowDollar x <> rowDollar r) l -> otherThan r l = l.
Proof. apply filter_all. Qed.

Lemma otherThan_one (r s : row) (l : list row) :
  NoDup (rowDollar <$> l) -> s ∈ l -> rowDollar s = rowDollar r ->
  Z.of_nat (length (otherThan r l)) = Z.of_nat (length l) - 1.
Proof.
  intros Hnd Hs Hd. induction l as [|x l IH]; [by apply elem_of_nil in Hs|].
  rewrite fmap_cons in Hnd. apply NoDup_cons in Hnd as [Hx Hnd].
  unfold otherThan in *. apply elem_of_cons in Hs as [<-|Hs].
  - rewrite filter_cons_False by (intros H; by apply H).
    rewrite filter_all; [cbn [length]; lia|].
    apply Forall_forall. intros y Hy Heq. apply Hx.
    rewrite Hd, <- Heq. by apply list_elem_of_fmap_2.
  - rewrite filter_cons_True.
    + cbn [length]. specialize (IH Hnd Hs). lia.
    + intros Heq. apply Hx. rewrite Heq, <- Hd. by apply list_elem_of_fmap_2.
Qed.

Lemma NoDup_dollar_apart (s r : row) (l1 l l2 : list row) :
  NoDup (rowDollar <$> (l1 ++ l ++ l2)) -> s ∈ l -> rowDollar s = rowDollar r ->
  Forall (fun x => rowDollar x <> rowDollar r) l1
  /\ Forall (fun x => rowDollar x <> rowDollar r) l2
  /\ NoDup (rowDollar <$> l).
Proof.
  rewrite !fmap_app. intros Hnd Hs Hd.
  apply NoDup_app in Hnd as (_ & H1 & Hnd).
  apply NoDup_app in Hnd as (Hl & H2 & _).
  assert (Hin : rowDollar r ∈ rowDollar <$> l)
    by (rewrite <- Hd; by apply list_elem_of_fmap_2).
  split; [|split; [|exact Hl]]; apply Forall_forall; intros x Hx Heq.
  - apply (H1 (rowDollar x)); [by apply list_elem_of_fmap_2|].
    apply elem_of_app. left. by rewrite Heq.
  - apply (H2 (rowDollar r)); [exact Hin|].
    rewrite <- Heq. by apply list_elem_of_fmap_2.
Qed.

(** *** A level of an index without one row *)

Lemma belowEntry_addSubtotal (depth : nat) (e : entry) (n : Z) :
  belowEntry depth (addSubtotal e n) = belowEntry depth e.
Proof. by destruct depth as [|[|depth]]. Qed.

Lemma validEntry_addSubtotal (depth : nat) (e : entry) (n : Z) :
  validEntry depth e -> validEntry depth (addSubtotal e n).
Proof. by destruct depth as [|[|depth]]. Qed.

Lemma levelRows_addSubtotal (depth : nat) (n : Z) (es : list entry) :
  levelRows depth ((fun e => addSubtotal e n) <$> es) = levelRows depth es.
Proof.
  induction es as [|e es IH]; [reflexivity|].
  rewrite fmap_cons, !levelRows_cons, IH, belowEntry_addSubtotal. reflexivity.
Qed.

Lemma sizes_addSubtotal (n : Z) (es : list entry) :
  sizes ((fun e => addSubtotal e n) <$> es) = sizes es.
Proof.
  induction es as [|e es IH]; [reflexivity|].
  rewrite fmap_cons, !sizes_cons, IH. reflexivity.
Qed.

Lemma subtotalsFrom_addSubtotal (n : Z) (es : list entry) : forall s : Z,
  subtotalsFrom s es ->
  subtotalsFrom (s + n) ((fun e => addSubtotal e n) <$> es).
Proof.
  induction es as [|e es IH]; intros s; [done|].
  intros [He Hes]. rewrite fmap_cons. cbn [subtotalsFrom addSubtotal eSubtotal eSize].
  split; [lia|]. replace (s + n + eSize e) with (s + eSize e + n) by lia.
  by apply IH.
Qed.

Lemma length_zero_nil {A} (l : list A) : Z.of_nat (length l) = 0 -> l = [].
Proof. destruct l; [done|]. cbn [length]. lia. Qed.

Section RemoveLevel.
Variable c : string.
Variable rest : list string.
Variable r : row.
Let depth := length (c :: rest).

Lemma remove_level_step (l1 : list entry) (le : entry) (l2 : list entry)
    (lt : Z) (s : row) (m : entry) :
  validLevel depth (l1 ++ le :: l2) lt ->
  exactLevel (c :: rest) (l1 ++ le :: l2) ->
  NoDup (rowDollar <$> levelRows depth (l1 ++ le :: l2)) ->
  s ∈ belowEntry depth le -> rowDollar s = rowDollar r ->
  eValue m = eValue le -> eSize m = eSize le - 1 ->
  eSubtotal m = eSubtotal le - 1 ->
  belowEntry depth m = otherThan r (belowEntry depth le) ->
  exactLevel rest (subEntries m) ->
  (eSize m <> 0 -> validEntry depth m) ->
  let l' := l1 ++ (if eSize m =? 0 then [] else [m])
               ++ ((fun e => addSubtotal e (- 1)) <$> l2) in
  validLevel depth l' (lt - 1)
  /\ exactLevel (c :: rest) l'
  /\ levelRows depth l' = otherThan r (levelRows depth (l1 ++ le :: l2)).
Proof.
  intros Hvalid Hexact Hnd Hs Hd Hmv Hmsz Hmsub Hmrows Hmexact Hmvalid l'.
  subst l'.
  apply validLevel_entries in Hvalid as (Hn & Hsorted & Hsub & Htot & Hv).
  apply exactLevel_cons in Hexact. change (length (c :: rest)) with depth in Hexact.
  apply Forall_app in Hexact as [He1 He2].
  apply Forall_cons in He2 as [(Hlek & Hlesz & Hlesub) He2].
  change (length (c :: rest)) with depth in Hlek, Hlesz.
  apply Forall_app in Hn as [Hn1 Hn2]. apply Forall_cons in Hn2 as [Hnle Hn2].
  apply Forall_app in Hv as [Hv1 Hv2]. apply Forall_cons in Hv2 as [Hvle Hv2].
  rewrite levelRows_app, levelRows_cons in Hnd.
  destruct (NoDup_dollar_apart s r _ _ _ Hnd Hs Hd) as (Hr1 & Hr2 & Hndle).
  assert (Hmexactsz : eSize m = Z.of_nat (length (belowEntry depth m))).
  { rewrite Hmrows, (otherThan_one r s _ Hndle Hs Hd). lia. }
  assert (Hpart : levelRows depth (if eSize m =? 0 then [] else [m])
                  = belowEntry depth m).
  { destruct (Z.eqb_spec (eSize m) 0) as [H0|H0].
    - rewrite levelRows_nil. symmetry. apply length_zero_nil. lia.
    - rewrite levelRows_cons, levelRows_nil. by rewrite app_nil_r. }
  split; [|split].
  - apply validLevel_entries. split; [|split; [|split; [|split]]].
    + apply Forall_app. split; [exact Hn1|]. apply Forall_app. split.
      * destruct (eSize m =? 0); constructor; [|constructor].
        destruct Hnle as [k Hk]. exists k. by rewrite Hmv.
      * apply Forall_fmap. exact Hn2.
    + apply StronglySorted_app in Hsorted as (H12 & Hs1 & Hs2).
      apply StronglySorted_inv in Hs2 as [Hs2 Hle2].
      apply StronglySorted_app. split; [|split; [exact Hs1|]].
      * intros x1 x2 Hx1 Hx2. apply elem_of_app in Hx2 as [Hx2|Hx2].
        -- destruct (eSize m =? 0); [by apply elem_of_nil in Hx2|].
           apply list_elem_of_singleton in Hx2 as ->.
           unfold keyOf at 2. rewrite Hmv. apply (H12 x1 le Hx1). left.
        -- apply list_elem_of_fmap in Hx2 as (y & -> & Hy).
           apply (H12 x1 y Hx1). by right.
      * apply StronglySorted_app. split; [|split].
        -- intros x1 x2 Hx1 Hx2.
           destruct (eSize m =? 0); [by apply elem_of_nil in Hx1|].
           apply list_elem_of_singleton in Hx1 as ->.
           apply list_elem_of_fmap in Hx2 as (y & -> & Hy).
           unfold keyOf at 1. rewrite Hmv.
           apply (proj1 (Forall_forall _ _) Hle2 y Hy).
        -- destruct (eSize m =? 0); repeat constructor.
        -- clear -Hs2. induction Hs2 as [|x l Hs IH Hx]; [constructor|].
           rewrite fmap_cons. constructor; [exact IH|].
           apply Forall_fmap. exact Hx.
    + apply subtotalsFrom_app in Hsub as [Hsub1 Hsub2].
      destruct Hsub2 as [Hle Hsub2].
      apply subtotalsFrom_app. split; [exact Hsub1|].
      apply subtotalsFrom_app. split.
      * destruct (eSize m =? 0); [exact I|]. cbn [subtotalsFrom].
        split; [lia|exact I].
      * apply (subtotalsFrom_addSubtotal (- 1)) in Hsub2.
        destruct (Z.eqb_spec (eSize m) 0) as [H0|H0].
        -- unfold sizes at 2. cbn [foldr].
           replace (0 + sizes l1 + 0) with (0 + sizes l1 + eSize le + - 1) by lia.
           exact Hsub2.
        -- unfold sizes at 2. cbn [foldr].
           replace (0 + sizes l1 + (eSize m + 0))
             with (0 + sizes l1 + eSize le + - 1) by lia.
           exact Hsub2.
    + rewrite Htot, !sizes_app, sizes_cons, sizes_addSubtotal.
      destruct (Z.eqb_spec (eSize m) 0) as [H0|H0].
      * change (sizes []) with 0. lia.
      * change (sizes [m]) with (eSize m + 0). lia.
    + apply Forall_app. split; [exact Hv1|]. apply Forall_app. split.
      * destruct (Z.eqb_spec (eSize m) 0) as [H0|H0]; constructor; [|constructor].
        by apply Hmvalid.
      * apply Forall_fmap. eapply Forall_impl; [exact Hv2|].
        intros e He. apply validEntry_addSubtotal. exact He.
  - apply exactLevel_cons. change (length (c :: rest)) with depth.
    apply Forall_app. split; [exact He1|].
    apply Forall_app. split.
    + destruct (eSize m =? 0); constructor; [|constructor].
      split; [|split; [exact Hmexactsz|exact Hmexact]].
      rewrite Hmrows, Hmv. by apply Forall_filter_keep.
    + apply Forall_fmap. eapply Forall_impl; [exact He2|].
      intros e (Hk & Hsz & Hsube). unfold compose.
      rewrite belowEntry_addSubtotal. by repeat split.
  - rewrite !levelRows_app, levelRows_cons, Hpart, Hmrows.
    rewrite levelRows_addSubtotal, !otherThan_app.
    by rewrite (otherThan_all r _ Hr1), (otherThan_all r _ Hr2).
Qed.
End RemoveLevel.

(** *** [rowsRemoved] of one row the index holds *)

Lemma buildIndexRec_one (c : string) (rest : list string) (r : row) :
  buildIndexRec (c :: rest) [r]
  = match rest with
    | [] => Ok ([Entry (cell r c) 1 1 (RowData [r])], 1)
    | _ :: _ =>
        sub ← buildIndexRec rest [r];
        Ok ([Entry (cell r c) 1 1 (SubIndex sub.1 sub.2)], 1)
    end.
Proof.
  destruct rest as [|c' rest]; [reflexivity|].
  change (buildIndexRec (c :: c' :: rest) [r])
    with (entries ← mapM (fun e =>
                       sub ← buildIndexRec (c' :: rest) (shData e);
                       Ok (Entry (shValue e) (shSize e) (shSubtotal e)
                             (SubIndex sub.1 sub.2)))
                     [Shallow (cell r c) [r] 1 1];
          Ok (entries, 1)).
  cbn [mapM shData shValue shSize shSubtotal].
  destruct (buildIndexRec (c' :: rest) [r]) as [sub|e]; reflexivity.
Qed.

Lemma length_le_rows (cols : list string) (es : list entry) (total : Z) :
  cols <> [] ->
  validLevel (length cols) es total -> exactLevel cols es ->
  Z.of_nat (length es) <= Z.of_nat (length (levelRows (length cols) es)).
Proof.
  intros Hne (_ & _ & _ & _ & Hv)%validLevel_entries Hexact.
  destruct cols as [|c rest]; [done|]. apply exactLevel_cons in Hexact.
  induction es as [|e es IH]; [done|].
  apply Forall_cons in Hv as [He Hv]. apply Forall_cons in Hexact as [(_ & Hsz & _) Hx].
  rewrite levelRows_cons, length_app.
  change (length (e :: es)) with (S (length es)).
  apply validEntry_size in He. specialize (IH Hv Hx). lia.
Qed.

(** The entry that holds the row, and the entries before it. *)
Lemma held_entry (c : string) (rest : list string) (es : list entry)
    (total : Z) (r s : row) :
  validLevel (length (c :: rest)) es total -> exactLevel (c :: rest) es ->
  s ∈ levelRows (length (c :: rest)) es -> cell r c = cell s c ->
  exists l1 le l2, es = l1 ++ le :: l2
    /\ s ∈ belowEntry (length (c :: rest)) le
    /\ looseEq (eValue le) (cell r c) = true
    /\ Forall (fun e => looseEq (eValue e) (cell r c) = false
                        /\ jsLt (eValue e) (cell r c) = true) l1.
Proof.
  intros (Hn & Hsorted & _)%validLevel_entries Hexact Hs Hc.
  rewrite levelRows_bind in Hs. apply list_elem_of_bind in Hs as (le & Hs & Hle).
  apply list_elem_of_split in Hle as (l1 & l2 & ->).
  exists l1, le, l2. split; [reflexivity|]. split; [exact Hs|].
  apply exactLevel_cons in Hexact. apply Forall_app in Hexact as [_ Hx].
  apply Forall_cons in Hx as [(Hk & _) _].
  pose proof (proj1 (Forall_forall _ _) Hk s Hs) as Hkey. cbn beta in Hkey.
  apply Forall_app in Hn as [Hn1 Hn2]. apply Forall_cons in Hn2 as [[k Hlek] _].
  rewrite Hc, Hkey, Hlek, looseEq_nums. split; [apply Z.eqb_refl|].
  apply StronglySorted_app in Hsorted as (H12 & _ & _).
  apply Forall_forall. intros e He.
  destruct (proj1 (Forall_forall _ _) Hn1 e He) as [a Ha].
  specialize (H12 e le He ltac:(left)).
  rewrite (keyOf_value e a Ha), (keyOf_value le k Hlek) in H12.
  rewrite Ha, looseEq_nums, jsLt_nums. split; [lia|]. by apply Z.ltb_lt.
Qed.

Lemma removeData_one (a : list row) (r : row) :
  removeData (RowData a) (RowData [r]) = Ok (RowData (otherThan r a)).
Proof.
  cbn [removeData]. do 2 f_equal. apply list_filter_iff. intros x.
  cbn [fmap list_fmap]. by rewrite list_elem_of_singleton.
Qed.

Lemma remove_one_leaf (c : string) (es : list entry) (lt : Z) (r s : row) :
  validLevel 1 es lt -> exactLevel [c] es ->
  NoDup (rowDollar <$> levelRows 1 es) ->
  s ∈ levelRows 1 es -> rowDollar s = rowDollar r -> cell r c = cell s c ->
  exists es',
    mergeIndexRec removeCallbacks 1 (es, lt)
      ([Entry (cell r c) 1 1 (RowData [r])], 1)
    = ((es', lt - 1), None)
    /\ validLevel 1 es' (lt - 1) /\ exactLevel [c] es'
    /\ levelRows 1 es' = otherThan r (levelRows 1 es).
Proof.
  intros Hvalid Hexact Hnd Hs Hd Hc.
  destruct (held_entry c [] es lt r s Hvalid Hexact Hs Hc)
    as (l1 & le & l2 & -> & Hsle & Heq & Hl1).
  change (length [c]) with 1%nat in Hsle.
  pose proof Hvalid as (_ & _ & _ & _ & Hv)%validLevel_entries.
  apply Forall_app in Hv as [_ Hv]. apply Forall_cons in Hv as [Hvle _].
  unfold validEntry in Hvle.
  destruct (eData le) as [a|] eqn:Ha; [|contradiction].
  destruct Hvle as [Hane Halen].
  set (m := Entry (eValue le) (eSize le - 1) (eSubtotal le - 1)
              (RowData (otherThan r a))).
  assert (Hbelow : belowEntry 1 le = a) by (unfold belowEntry; by rewrite Ha).
  pose proof Hnd as Hnd'. rewrite levelRows_app, levelRows_cons in Hnd'.
  destruct (NoDup_dollar_apart s r _ _ _ Hnd' Hsle Hd) as (_ & _ & Hndle).
  rewrite Hbelow in Hsle, Hndle.
  destruct (remove_level_step c [] r l1 le l2 lt s m Hvalid Hexact Hnd)
    as (Hv' & Hx' & Hrows'); try reflexivity.
  - change (length [c]) with 1%nat. by rewrite Hbelow.
  - exact Hd.
  - change (length [c]) with 1%nat. by rewrite Hbelow.
  - intros Hsz. cbn [m eSize] in Hsz. unfold validEntry. cbn [m eData eSize].
    pose proof (otherThan_one r s a Hndle Hsle Hd) as Hlen.
    split; [|lia]. intros Hnil. rewrite Hnil in Hlen. cbn [length] in Hlen. lia.
  - eexists. split; [|split; [exact Hv'|split; [exact Hx'|exact Hrows']]].
    rewrite mergeIndexRec_leaf by lia. cbn [fst snd].
    rewrite (mergeWalk_remove_one _ l1 le l2
               (Entry (cell r c) 1 1 (RowData [r])) m Hl1 Heq).
    + cbn [reverse app cbMergeTotals removeCallbacks fst snd eSubtotal].
      reflexivity.
    + cbn [cbMergeLeftAndRightEntries removeCallbacks eData eSize eSubtotal].
      rewrite Ha, removeData_one. reflexivity.
Qed.

Lemma remove_one_level (cols : list string) : cols <> [] ->
  forall (es : list entry) (lt : Z) (r s : row) (right : level),
  validLevel (length cols) es lt -> exactLevel cols es ->
  NoDup (rowDollar <$> levelRows (length cols) es) ->
  s ∈ levelRows (length cols) es -> rowDollar s = rowDollar r ->
  Forall (fun c => cell r c = cell s c) cols ->
  buildIndexRec cols [r] = Ok right ->
  right.2 = 1
  /\ exists es',
       mergeIndexRec removeCallbacks (length cols) (es, lt) right
       = ((es', lt - 1), None)
       /\ validLevel (length cols) es' (lt - 1) /\ exactLevel cols es'
       /\ levelRows (length cols) es' = otherThan r (levelRows (length cols) es).
Proof.
  induction cols as [|c rest IH]; [done|].
  intros _ es lt r s right Hvalid Hexact Hnd Hs Hd Hcells.
  apply Forall_cons in Hcells as [Hc Hcells].
  rewrite buildIndexRec_one. destruct rest as [|c' rest].
  { intros [= <-]. split; [reflexivity|]. by apply (remove_one_leaf c es lt r s). }
  specialize (IH ltac:(discriminate)).
  destruct (buildIndexRec (c' :: rest) [r]) as [[sub st]|err] eqn:Hsub;
    [|discriminate].
  cbn [mbind result_bind fst snd]. intros [= <-]. split; [reflexivity|].
  destruct (held_entry c (c' :: rest) es lt r s Hvalid Hexact Hs Hc)
    as (l1 & le & l2 & -> & Hsle & Heq & Hl1).
  change (length (c :: c' :: rest)) with (S (S (length rest))) in *.
  change (length (c' :: rest)) with (S (length rest)) in IH.
  pose proof Hvalid as (_ & _ & _ & _ & Hv)%validLevel_entries.
  apply Forall_app in Hv as [_ Hv]. apply Forall_cons in Hv as [Hvle _].
  unfold validEntry in Hvle.
  destruct (eData le) as [|sl slt] eqn:Hdle; [contradiction|].
  destruct Hvle as (Hvsl & Hslne & Hsllen).
  assert (Hbelow : belowEntry (S (S (length rest))) le
                   = levelRows (S (length rest)) sl).
  { unfold belowEntry. by rewrite Hdle. }
  assert (Hsubs : subEntries le = sl) by (unfold subEntries; by rewrite Hdle).
  pose proof Hexact as Hx. apply exactLevel_cons in Hx.
  apply Forall_app in Hx as [_ Hx].
  apply Forall_cons in Hx as [(_ & Hlesz & Hxsl) _].
  change (length (c :: c' :: rest)) with (S (S (length rest))) in Hlesz.
  rewrite Hsubs in Hxsl.
  pose proof Hnd as Hnd'. rewrite levelRows_app, levelRows_cons in Hnd'.
  destruct (NoDup_dollar_apart s r _ _ _ Hnd' Hsle Hd) as (_ & _ & Hndle).
  rewrite Hbelow in Hsle, Hndle, Hlesz.
  destruct (IH sl slt r s (sub, st) Hvsl Hxsl Hndle Hsle Hd Hcells Hsub)
    as (Hst & sl' & Hmerge & Hvsl' & Hxsl' & Hrowsl').
  cbn [snd] in Hst. subst st.
  set (m := Entry (eValue le) (eSize le - 1) (eSubtotal le - 1)
              (SubIndex sl' (slt - 1))).
  destruct (remove_level_step c (c' :: rest) r l1 le l2 lt s m Hvalid Hexact Hnd)
    as (Hv' & Hx' & Hrows'); try reflexivity.
  - change (length (c :: c' :: rest)) with (S (S (length rest))).
    by rewrite Hbelow.
  - exact Hd.
  - change (length (c :: c' :: rest)) with (S (S (length rest))).
    rewrite Hbelow, <- Hrowsl'. reflexivity.
  - exact Hxsl'.
  - intros Hsz. cbn [m eSize] in Hsz.
    change (length (c :: c' :: rest)) with (S (S (length rest))).
    unfold validEntry. cbn [m eData eSize].
    pose proof (otherThan_one r s _ Hndle Hsle Hd) as Hlen.
    rewrite <- Hrowsl' in Hlen.
    pose proof (length_le_rows (c' :: rest) sl' (slt - 1) ltac:(discriminate)
                  Hvsl' Hxsl') as Hle.
    change (length (c' :: rest)) with (S (length rest)) in Hle.
    split; [exact Hvsl'|]. split; [|lia].
    intros Hnil. rewrite Hnil, levelRows_nil in Hlen. cbn [length] in Hlen. lia.
  - eexists. split; [|split; [exact Hv'|split; [exact Hx'|exact Hrows']]].
    rewrite mergeIndexRec_nested. cbn [fst snd].
    rewrite (mergeWalk_remove_one _ l1 le l2
               (Entry (cell r c) 1 1 (SubIndex sub 1)) m Hl1 Heq).
    + cbn [reverse app cbMergeTotals removeCallbacks fst snd eSubtotal].
      reflexivity.
    + cbn [eData]. rewrite Hdle, Hmerge.
      cbn [cbMergeLeftAndRightEntries removeCallbacks withData eData eSize
           eSubtotal eValue mbind result_bind fst snd].
      reflexivity.
Qed.

Lemma rowsRemoved_held (ix : Index) (r s : row) :
  validIndex ix -> exactIndex ix -> NoDup (rowDollar <$> indexRows ix) ->
  s ∈ indexRows ix -> rowDollar s = rowDollar r ->
  Forall (fun c => cell r c = cell s c) (columns ix) ->
  exists ix',
    rowsRemoved ix [Some r] = (ix', None)
    /\ validIndex ix' /\ exactIndex ix'
    /\ indexRows ix' = otherThan r (indexRows ix)
    /\ indexTotal ix' = indexTotal ix - 1
    /\ columns ix' = columns ix /\ signature ix' = signature ix.
Proof.
  intros [Hcols Hvalid] Hexact Hnd Hs Hd Hcells.
  unfold rowsRemoved, buildIndex. change [Some r] with (Some <$> [r]).
  rewrite definedRows_Some. cbn [mbind result_bind].
  destruct (buildIndexRec (columns ix) [r]) as [right|e] eqn:Hbuild.
  - destruct (remove_one_level (columns ix) Hcols (index ix) (indexTotal ix) r s
                right Hvalid Hexact Hnd Hs Hd Hcells Hbuild)
      as (_ & es' & Hmerge & Hv' & Hx' & Hrows').
    unfold mergeIndex. rewrite Hmerge. eexists. split; [reflexivity|].
    split; [by split|]. by repeat split.
  - exfalso. revert e Hbuild. clear -Hcols.
    induction (columns ix) as [|c rest IH]; [done|]. intros e.
    rewrite buildIndexRec_one. destruct rest as [|c' rest]; [discriminate|].
    destruct (buildIndexRec (c' :: rest) [r]) as [sub|e'] eqn:Hsub;
      [discriminate|].
    by destruct (IH ltac:(discriminate) e').
Qed.

(** *** [rowsRemoved] of a row whose value the index does not hold *)



(** X20: [rowsRemoved] of one row that a valid and exact index holds, when
    no two rows of the index carry the same [$], does not throw; the index
    it leaves is valid and exact, passes [validateIndex], holds in the
    same order the rows that do not carry the [$] of the row, and its
    total is one less. *)
Theorem rowsRemoved_one (ix : Index) (r s : row) :
  validIndex ix -> exactIndex ix -> NoDup (rowDollar <$> indexRows ix) ->
  s ∈ indexRows ix -> rowDollar s = rowDollar r ->
  Forall (fun c => cell r c = cell s c) (columns ix) ->
  exists ix',
    rowsRemoved ix [Some r] = (ix', None)
    /\ validIndex ix' /\ validateIndex ix' = Ok () /\ exactIndex ix'
    /\ indexRows ix' = otherThan r (indexRows ix)
    /\ indexTotal ix' = indexTotal ix - 1.
Proof.
  intros Hv Hx Hnd Hs Hd Hc.
  destruct (rowsRemoved_held ix r s Hv Hx Hnd Hs Hd Hc)
    as (ix' & Heq & Hv' & Hx' & Hrows & Htotal & _).
  exists ix'. split; [exact Heq|]. split; [exact Hv'|].
  split; [by apply validIndex_validateIndex|]. by repeat split.
Qed.

(** ** Tables whose indexes hold their rows *)

(** *** Tables whose indexes hold their rows *)

Lemma checkColumnNames_NoDup (names : list string)
    (superSet : option (list string)) :
  checkColumnNames names superSet = Ok () -> NoDup names.
Proof.
  unfold checkColumnNames. destruct names as [|n names]; [discriminate|].
  intros H. by apply checkNamesFrom_Ok in H as (_ & H & _).
Qed.

Lemma faithfulIndex_valid (cols : list string) (l : list row) (ixs : list Index) :
  Forall (faithfulIndex cols l) ixs -> indexesValid ixs.
Proof.
  intros H. eapply Forall_impl; [exact H|]. intros ix (Hv & _).
  by apply validIndex_validateIndex.
Qed.

Lemma faithfulIndex_added (cols : list string) (l rs : list row) (ix : Index) :
  Forall (numericRow cols) rs -> faithfulIndex cols l ix ->
  (rowsAdded ix (Some <$> rs)).2 = None
  /\ faithfulIndex cols (l ++ rs) (rowsAdded ix (Some <$> rs)).1.
Proof.
  intros Hrs (Hv & Hsub & Hnd & Hk & Hrows).
  assert (Hnum : Forall (numericRow (columns ix)) rs).
  { eapply Forall_impl; [exact Hrs|]. intros r. by apply numericRow_subseteq. }
  destruct (rowsAdded_numeric_rows ix rs Hv Hnum) as [Hperm Hkeyed].
  destruct (rowsAdded_numeric_valid ix rs Hv Hnum)
    as (ix' & Heq & Hv' & _ & _ & Hc & _).
  rewrite Heq in *. cbn [fst snd] in *. split; [reflexivity|].
  split; [exact Hv'|]. rewrite Hc. split; [exact Hsub|]. split; [exact Hnd|].
  split; [by apply Hkeyed|]. by rewrite Hperm, Hrows.
Qed.

(** The invariant only reads the rows, the closures, the columns, the
    identity and the indexes of the table. *)
Lemma indexedTable_frame (l : list row) (t t' : Table) :
  active t' = true -> rows t' = rows t -> closures t' = closures t ->
  columnNames t' = columnNames t -> id t' = id t ->
  Forall (faithfulIndex (columnNames t) l) (indicies t') ->
  indexedTable l t -> indexedTable l t'.
Proof.
  intros Hlive Hrows Hclos Hcols Hid Hix (_ & Hr & Hnum & Hstored & Hnd & _).
  split; [exact Hlive|]. split; [by rewrite Hrows|].
  rewrite Hcols. split; [exact Hnum|]. split; [|split; [exact Hnd|exact Hix]].
  intros i s His. destruct (Hstored i s His) as (h & Hd & Hc & Hcan).
  exists h. by rewrite Hid, Hclos, Hcols.
Qed.

Lemma indexedTable_indexOn (l : list row) (t : Table) (names : list string) :
  indexedTable l t -> indexedTable l (indexOn names t).1.
Proof.
  intros Ht. pose proof Ht as (Hlive & Hrows & Hnum & _ & _ & Hix).
  unfold indexOn. rewrite checkActive_live by exact Hlive.
  rewrite !op_bind_unfold. cbn [get lift].
  destruct (checkColumnNames names (Some (columnNames t))) as [[]|e] eqn:Hnames;
    [|exact Ht].
  destruct (List.find _ (indicies t)); [exact Ht|].
  pose proof (checkColumnNames_NoDup _ _ Hnames) as Hnd.
  apply checkColumnNames_subseteq in Hnames as [Hne Hsub].
  destruct (faithfulIndex_added (columnNames t) [] l (newIndex names) Hnum)
    as [Hnone Hnew].
  { split; [by apply validIndex_newIndex|]. split; [exact Hsub|].
    split; [exact Hnd|]. split.
    - apply exactLevel_nil.
    - unfold indexRows. cbn [newIndex index]. by rewrite levelRows_nil. }
  rewrite <- Hrows in Hnone, Hnew.
  destruct (rowsAdded (newIndex names) (rows t)) as [ix err].
  cbn [fst snd] in Hnone, Hnew. subst err.
  rewrite !op_bind_unfold. cbn [modify].
  unfold mret, op_ret. cbn [fst].
  apply (indexedTable_frame l t); try reflexivity; [exact Hlive| |exact Ht].
  cbn [indicies setIndicies logCall].
  apply Forall_app. split; [exact Hix|]. constructor; [exact Hnew|constructor].
Qed.

(** *** [insert] keeps the invariant *)

Lemma lookup_canonicalRows (cols : list string) (tid : nat) (rs : list row) :
  forall (h k : nat) (s : row),
  canonicalRows cols tid h rs !! k = Some s ->
  exists r, rs !! k = Some r
    /\ s = Row (cloneCells cols r) (DHandle tid (h + k)).
Proof.
  induction rs as [|r rs IH]; intros h k s; [done|].
  cbn [canonicalRows]. destruct k as [|k]; cbn [lookup list_lookup].
  - intros [= <-]. exists r. by rewrite Nat.add_0_r.
  - intros Hs. destruct (IH (S h) k s Hs) as (r' & Hr' & ->).
    exists r'. split; [exact Hr'|]. do 2 f_equal. lia.
Qed.

Lemma lookup_newClosures (cols : list string) (rs : list row) :
  forall (index k : nat) (r : row),
  rs !! k = Some r ->
  newClosures cols index rs !! k = Some (Closure (index + k) (cloneCells cols r)).
Proof.
  induction rs as [|r0 rs IH]; intros index k r; [done|].
  cbn [newClosures]. destruct k as [|k]; cbn [lookup list_lookup].
  - intros [= <-]. by rewrite Nat.add_0_r.
  - intros Hr. rewrite <- Nat.add_succ_comm. exact (IH (S index) k r Hr).
Qed.

Lemma dollars_canonicalRows (cols : list string) (tid : nat) (rs : list row) :
  forall h, rowDollar <$> canonicalRows cols tid h rs
            = DHandle tid <$> seq h (length rs).
Proof.
  induction rs as [|r rs IH]; intros h; [reflexivity|].
  cbn [canonicalRows fmap list_fmap length seq rowDollar]. f_equal. apply IH.
Qed.

Lemma indexedTable_insert (l rs : list row) (t : Table) (arg : rowsArg) :
  toArray arg = Some <$> rs ->
  Forall (fun r => dollarTruthy (rowDollar r) = false) rs ->
  Forall (numericRow (columnNames t)) rs ->
  indexedTable l t ->
  exists stored, (insert arg t).2 = Ok stored
    /\ length stored = length rs
    /\ indexedTable (l ++ stored) (insert arg t).1.
Proof.
  intros Harg Hdollar Hrs (Hlive & Hrows & Hnum & Hst & Hnd & Hix).
  replace (insert arg t) with (insert (ArgArray (Some <$> rs)) t)
    by (rewrite <- Harg; by destruct arg).
  set (stored := canonicalRows (columnNames t) (id t) (length (closures t)) rs).
  assert (Hstored : Forall (numericRow (columnNames t)) stored)
    by (by apply numericRow_canonicalRows).
  assert (Hadd : Forall (fun ix =>
                   (rowsAdded ix (Some <$> stored)).2 = None
                   /\ faithfulIndex (columnNames t) (l ++ stored)
                        (rowsAdded ix (Some <$> stored)).1) (indicies t)).
  { eapply Forall_impl; [exact Hix|]. intros ix. by apply faithfulIndex_added. }
  assert (Hnew : Forall (faithfulIndex (columnNames t) (l ++ stored))
            ((fun ix => (rowsAdded ix (Some <$> stored)).1) <$> indicies t)).
  { apply Forall_fmap. eapply Forall_impl; [exact Hadd|]. by intros ix [_ ?]. }
  assert (Hlen : length (rows t) = length l) by (by rewrite Hrows, length_fmap).
  rewrite (insert_batch_eq t rs Hlive Hdollar).
  - fold stored. cbn [fst snd]. exists stored. split; [reflexivity|].
    split; [apply length_canonicalRows|].
    split; [exact Hlive|]. cbn [rows addCalls setIndicies withRows setRows].
    split; [by rewrite Hrows, fmap_app|].
    split; [by apply Forall_app|]. split; [|split; [|exact Hnew]].
    + intros i s His. apply lookup_app_Some in His as [His|[Hge His]].
      * destruct (Hst i s His) as (h & Hd & Hc & Hcan). exists h.
        split; [exact Hd|]. split; [|exact Hcan].
        cbn [closures addCalls setIndicies withRows setRows setClosures].
        by apply lookup_app_l_Some.
      * destruct (lookup_canonicalRows _ _ _ _ _ _ His) as (r & Hr & ->).
        exists (length (closures t) + (i - length l))%nat.
        split; [reflexivity|]. split.
        -- cbn [closures addCalls setIndicies withRows setRows setClosures cells].
           rewrite lookup_app_r by lia.
           replace (length (closures t) + (i - length l) - length (closures t))%nat
             with (i - length l)%nat by lia.
           rewrite (lookup_newClosures _ _ _ _ r Hr), Hlen.
           do 2 f_equal. lia.
        -- cbn [cells]. symmetry. apply cloneCells_clone.
    + rewrite fmap_app. apply NoDup_app. split; [exact Hnd|]. split.
      * intros d Hd Hd'. unfold stored in Hd'.
        rewrite dollars_canonicalRows in Hd'.
        apply list_elem_of_fmap in Hd' as (h & -> & Hh).
        apply elem_of_seq in Hh as [Hh _].
        apply list_elem_of_fmap in Hd as (s & Hs & Hin).
        apply list_elem_of_lookup_1 in Hin as [i Hi].
        destruct (Hst i s Hi) as (h' & Hd & Hc & _).
        rewrite Hd in Hs. injection Hs as ->.
        apply lookup_lt_Some in Hc. lia.
      * unfold stored. rewrite dollars_canonicalRows.
        apply NoDup_fmap_2; [|apply NoDup_seq]. by intros ?? [= ->].
  - eapply Forall_impl; [exact Hadd|]. by intros ix [? _].
  - intros _. by eapply faithfulIndex_valid.
Qed.

(** *** [remove] keeps the invariant *)

Lemma snapshot_stored (t : Table) (i : nat) (r s : row) :
  storedRow t i s -> rowDollar r = rowDollar s -> snapshotOf t r = s.
Proof.
  intros (h & Hd & Hc & Hcan) Hr. unfold snapshotOf. rewrite Hr, Hd, Hc.
  unfold clone. cbn [clRow rowDollar].
  change (cloneCells (columnNames t) (Row (cells s) (DHandle (id t) h)))
    with (cloneCells (columnNames t) s).
  rewrite <- Hcan, <- Hd. by destruct s.
Qed.

Lemma faithfulIndex_removed (cols : list string) (l : list row) (s : row)
    (ix : Index) :
  NoDup (rowDollar <$> l) -> s ∈ l -> faithfulIndex cols l ix ->
  (rowsRemoved ix [Some s]).2 = None
  /\ faithfulIndex cols (otherThan s l) (rowsRemoved ix [Some s]).1.
Proof.
  intros Hnd Hs (Hv & Hsub & Hndc & Hx & Hperm).
  destruct (rowsRemoved_held ix s s Hv Hx)
    as (ix' & Heq & Hv' & Hx' & Hrows' & _ & Hc & _).
  - by rewrite Hperm.
  - by rewrite Hperm.
  - reflexivity.
  - by apply Forall_forall.
  - rewrite Heq. cbn [fst snd]. split; [reflexivity|].
    split; [exact Hv'|]. rewrite Hc. split; [exact Hsub|].
    split; [exact Hndc|]. split; [exact Hx'|].
    rewrite Hrows'. unfold otherThan. by rewrite Hperm.
Qed.

Lemma otherThan_NoDup (s : row) (l : list row) :
  NoDup (rowDollar <$> l) -> NoDup (rowDollar <$> otherThan s l).
Proof.
  intros H. eapply sublist_NoDup; [exact H|].
  apply fmap_sublist. apply sublist_filter.
Qed.

Lemma otherThan_self (s : row) : otherThan s [s] = [].
Proof. unfold otherThan. by rewrite filter_cons_False by (intros H; by apply H). Qed.

(** The last row takes the place of the row that is removed. *)
Lemma swap_last_Permutation (rs : list row) (last s : row) (i : nat) :
  NoDup (rowDollar <$> (rs ++ [last])) -> (rs ++ [last]) !! i = Some s ->
  <[i := last]> rs ≡ₚ otherThan s (rs ++ [last]).
Proof.
  intros Hnd Hi. apply lookup_app_Some in Hi as [Hi|[Hge Hi]].
  - pose proof (lookup_lt_Some _ _ _ Hi) as Hlt.
    rewrite insert_take_drop by exact Hlt.
    rewrite <- (take_drop_middle rs i s Hi) in Hnd at 1.
    rewrite <- (take_drop_middle rs i s Hi) at 3.
    rewrite <- app_assoc in Hnd |- *. cbn [app] in Hnd |- *.
    destruct (NoDup_dollar_apart s s (take i rs) [s] (drop (S i) rs ++ [last]))
      as (H1 & H2 & _); [exact Hnd|left|reflexivity|].
    rewrite otherThan_app. change (s :: ?l) with ([s] ++ l).
    rewrite otherThan_app, otherThan_self, (otherThan_all s _ H1),
      (otherThan_all s _ H2).
    cbn [app]. apply Permutation_app_head. apply Permutation_cons_append.
  - rewrite list_insert_ge by lia.
    destruct (i - length rs)%nat as [|k] eqn:Hk; [|by destruct k].
    cbn in Hi. injection Hi as ->.
    destruct (NoDup_dollar_apart s s rs [s] []) as (H1 & _ & _);
      [by rewrite app_nil_r|left|reflexivity|].
    by rewrite otherThan_app, otherThan_self, (otherThan_all s _ H1), app_nil_r.
Qed.

Lemma list_snoc_cases {A} (l : list A) (x : A) :
  x ∈ l -> exists rs last, l = rs ++ [last].
Proof.
  intros Hx. destruct l as [|y l] using rev_ind; [by apply elem_of_nil in Hx|].
  by exists l, y.
Qed.

Lemma indexedTable_remove (l : list row) (t : Table) (r s : row) :
  indexedTable l t -> Some s ∈ rows t -> rowDollar r = rowDollar s ->
  (remove (ArgArray [Some r]) t).2 = Ok ()
  /\ exists l', l' ≡ₚ otherThan s l
       /\ indexedTable l' (remove (ArgArray [Some r]) t).1.
Proof.
  intros (Hlive & Hrows & Hnum & Hst & Hnd & Hix) Hs Hr.
  rewrite Hrows in Hs. apply list_elem_of_fmap in Hs as (s' & [= <-] & Hs).
  pose proof Hs as Hin. apply list_elem_of_lookup_1 in Hin as [i Hi].
  pose proof (Hst i s Hi) as Hstored.
  pose proof (snapshot_stored t i r s Hstored Hr) as Hsnap.
  destruct Hstored as (h & Hd & Hc & Hcan).
  assert (Hrem : Forall (fun ix =>
                   (rowsRemoved ix [Some (snapshotOf t r)]).2 = None
                   /\ faithfulIndex (columnNames t) (otherThan s l)
                        (rowsRemoved ix [Some (snapshotOf t r)]).1) (indicies t)).
  { rewrite Hsnap. eapply Forall_impl; [exact Hix|]. intros ix.
    by apply faithfulIndex_removed. }
  assert (Hnone : Forall (fun ix =>
                    (rowsRemoved ix [Some (snapshotOf t r)]).2 = None)
                    (indicies t)).
  { eapply Forall_impl; [exact Hrem|]. by intros ix [? _]. }
  assert (Hnew : Forall (faithfulIndex (columnNames t) (otherThan s l))
            ((fun ix => (rowsRemoved ix [Some (snapshotOf t r)]).1)
               <$> indicies t)).
  { apply Forall_fmap. eapply Forall_impl; [exact Hrem|]. by intros ix [_ ?]. }
  assert (Hvalid : paranoia t = true ->
            indexesValid ((fun ix => (rowsRemoved ix [Some (snapshotOf t r)]).1)
                            <$> indicies t)).
  { intros _. by eapply faithfulIndex_valid. }
  assert (Hdr : rowDollar r = DHandle (id t) h) by (by rewrite Hr).
  destruct (list_snoc_cases l s Hs) as (rs & last & ->).
  pose proof (Hst (length rs) last) as Hlast.
  rewrite lookup_app_r, Nat.sub_diag in Hlast by lia.
  destruct (Hlast eq_refl) as (hl & Hdl & Hcl & Hcanl).
  pose proof (lookup_lt_Some _ _ _ Hi) as Hlt.
  rewrite length_app in Hlt. cbn [length] in Hlt.
  destruct rs as [|r0 rs0].
  - (* the only row *)
    destruct (remove_only_state t r h (Closure i (cells s)) last Hlive Hdr Hc
                Hrows Hnone Hvalid)
      as (t' & Heq & Hrows' & Hix' & Hclos' & Hact' & Hcols' & Hid').
    rewrite Heq. cbn [fst snd]. split; [reflexivity|].
    assert (i = 0%nat) as -> by (cbn in Hlt; lia).
    cbn in Hi. injection Hi as ->.
    exists []. split; [by rewrite otherThan_self|].
    split; [by rewrite Hact'|]. split; [exact Hrows'|].
    split; [constructor|]. split; [by intros ???|]. split; [constructor|].
    rewrite Hix', Hcols'. by rewrite otherThan_self in Hnew.
  - (* the last row takes the place *)
    destruct (remove_swap_state t r h (Closure i (cells s)) (Some <$> (r0 :: rs0))
                last (id t) hl (Closure (length (r0 :: rs0)) (cells last))
                Hlive Hdr Hc)
      as (t' & Heq & Hrows' & _ & _ & Hix' & Hclos' & Hact' & Hcols' & Hid');
      [by rewrite Hrows, fmap_app|done|
       cbn [clIndex]; rewrite length_fmap; cbn [length] in *; lia|
       exact Hdl|exact Hcl|exact Hnone|exact Hvalid|].
    rewrite Heq. cbn [fst snd]. split; [reflexivity|].
    cbn [clIndex clRow] in Hrows', Hclos'.
    set (rs := r0 :: rs0) in *.
    pose proof (swap_last_Permutation rs last s i Hnd Hi) as Hperm.
    exists (<[i := last]> rs). split; [exact Hperm|].
    split; [by rewrite Hact'|].
    split; [by rewrite Hrows', list_fmap_insert|].
    rewrite Hcols', Hix'.
    split; [by rewrite Hperm; apply Forall_filter_keep|].
    split; [|split].
    + intros j s' Hj. unfold storedRow. rewrite Hid', Hclos', Hcols'.
      destruct (decide (j = i)) as [->|Hji].
      * assert (Hir : (i < length rs)%nat).
        { apply lookup_lt_Some in Hj. by rewrite length_insert in Hj. }
        rewrite list_lookup_insert_eq in Hj by exact Hir. injection Hj as <-.
        exists hl. split; [exact Hdl|]. split; [|exact Hcanl].
        apply list_lookup_insert_eq. by eapply lookup_lt_Some.
      * rewrite list_lookup_insert_ne in Hj by congruence.
        assert (Hj' : (rs ++ [last]) !! j = Some s') by (by apply lookup_app_l_Some).
        destruct (Hst j s' Hj') as (h' & Hd' & Hc' & Hcan').
        exists h'. split; [exact Hd'|]. split; [|exact Hcan'].
        rewrite list_lookup_insert_ne; [exact Hc'|].
        intros <-. apply lookup_lt_Some in Hj.
        assert (Hjj : j = length rs).
        { eapply (NoDup_lookup _ j (length rs) (rowDollar s') Hnd).
          - by rewrite list_lookup_fmap, Hj'.
          - rewrite list_lookup_fmap, lookup_app_r, Nat.sub_diag by lia. cbn.
            by rewrite Hdl, <- Hd'. }
        lia.
    + rewrite Hperm. by apply otherThan_NoDup.
    + eapply Forall_impl; [exact Hnew|]. intros ix (Hv & Hsub & Hn & Hx & Hp).
      split; [exact Hv|]. split; [exact Hsub|]. split; [exact Hn|].
      split; [exact Hx|]. by rewrite Hp, Hperm.
Qed.

(** *** The invariant of the histories *)

Lemma editHistory_indexedTable (t : Table) :
  editHistory t -> exists l, indexedTable l t.
Proof.
  induction 1 as [id names t Hnew|t names _ [l IH]|t rows rs _ [l IH] Harg Hd Hrs
                 |t r s _ [l IH] Hs Hr|t _ [l IH]|t enable _ [l IH]
                 |t enable _ [l IH]].
  - exists []. unfold newTable in Hnew.
    destruct (checkColumnNames names None); [|discriminate].
    cbn in Hnew. injection Hnew as <-.
    split; [reflexivity|]. split; [reflexivity|]. split; [constructor|].
    split; [by intros ???|]. split; constructor.
  - exists l. by apply indexedTable_indexOn.
  - destruct (indexedTable_insert l rs t rows Harg Hd Hrs IH)
      as (stored & _ & _ & H).
    by exists (l ++ stored).
  - destruct (indexedTable_remove l t r s IH Hs Hr) as (_ & l' & _ & H).
    by exists l'.
  - exists l. pose proof IH as (Hlive & _ & _ & _ & _ & Hix).
    rewrite tableValidateIndex_valid;
      [|exact Hlive|by eapply faithfulIndex_valid].
    by apply (indexedTable_frame l t).
  - exists l. pose proof IH as (Hlive & _ & _ & _ & _ & Hix).
    unfold paranoiaSet. rewrite checkActive_live by exact Hlive.
    by apply (indexedTable_frame l t).
  - exists l. pose proof IH as (Hlive & _ & _ & _ & _ & Hix).
    unfold verboseSet. rewrite checkActive_live by exact Hlive.
    by apply (indexedTable_frame l t).
Qed.

(** *** The planner chooses among plans that agree *)

Lemma bestCase_cases (estimate : Index -> list criterion -> num) (t : Table)
    (criteria : list criterion) (single : num) :
  bestCase estimate t criteria single = worstCase t criteria single
  \/ exists ix, ix ∈ indicies t
       /\ bestCase estimate t criteria single = computeCost estimate ix criteria.
Proof.
  unfold bestCase. generalize (worstCase t criteria single). intros start.
  assert (H : forall ixs d,
            foldl (better estimate criteria) d ixs = d
            \/ exists ix, ix ∈ ixs
                 /\ foldl (better estimate criteria) d ixs
                    = computeCost estimate ix criteria).
  { induction ixs as [|ix ixs IH]; intros d; [by left|]. cbn [foldl].
    destruct (IH (better estimate criteria d ix)) as [->|(ix' & Hin & ->)].
    - unfold better. destruct (numGt _ _); [|by left].
      right. exists ix. split; [left|reflexivity].
    - right. exists ix'. split; [by right|reflexivity]. }
  apply H.
Qed.

Lemma filter_satisfies (name : string) (o : compareOp) (x : Z) (l : list row) :
  filter (fun r => forallb (satisfies r) [Criterion name (Compare o (VNum x))]
                   = true) l
  = filter (fun r => holds o (Comparator (cell r name) (VNum x)) = true) l.
Proof.
  apply list_filter_iff. intros r. cbn [forallb].
  by rewrite andb_true_r, satisfies_comparison.
Qed.

Lemma indexedTable_query (estimate : Index -> list criterion -> num)
    (l : list row) (t : Table) (name : string) (o : compareOp) (x : Z) :
  indexedTable l t -> o <> OpNe ->
  exists res,
    queryGetRows estimate [Criterion name (Compare o (VNum x))] t = (t, Ok res)
    /\ res ≡ₚ clone (columnNames t)
                <$> filter (fun r => holds o (Comparator (cell r name) (VNum x))
                                     = true) l.
Proof.
  intros (Hlive & Hrows & Hnum & _ & _ & Hix) Ho.
  set (crit := Criterion name (Compare o (VNum x))).
  assert (Hcmp : Forall isComparison [crit])
    by (repeat constructor; by exists o, (VNum x)).
  unfold queryGetRows. rewrite checkActive_live by exact Hlive.
  rewrite op_bind_unfold. cbn [get].
  rewrite op_bind_unfold. unfold lift at 1.
  rewrite (singleRowCost_comparisons [crit] Hcmp).
  destruct (bestCase_cases estimate t [crit] (Some (Z.of_nat (length [crit]))))
    as [->|(ix & Hin & ->)].
  - cbn [worstCase reduceOf criteriaUnused].
    rewrite op_bind_unfold. unfold lift at 1. rewrite Hrows.
    rewrite op_bind_unfold. unfold lift at 1.
    rewrite (applyUnused_comparisons [crit] Hcmp).
    unfold lift. rewrite mapM_cloneArg. eexists. split; [reflexivity|].
    unfold crit. by rewrite filter_satisfies.
  - pose proof (proj1 (Forall_forall _ _) Hix ix Hin)
      as (Hv & Hsub & Hnd & Hk & Hperm).
    destruct (plan_of_index estimate ix name o x Hv Hnd Hk Ho)
      as (found & Hreduce & Hunused).
    fold crit in Hreduce, Hunused.
    rewrite op_bind_unfold. unfold lift at 1. rewrite Hreduce.
    rewrite op_bind_unfold. unfold lift at 1. rewrite Hunused.
    unfold lift. rewrite mapM_cloneArg. eexists. split; [reflexivity|].
    apply fmap_Permutation. rewrite Hperm. apply Permutation_refl'.
    apply list_filter_iff. intros r. unfold crit.
    by rewrite satisfies_comparison.
Qed.

(** X22: on a table made by the constructor, [index], [insert] of rows
    without [$] that have integers in every column, [remove] of one stored
    row at a time, [validateIndex], [paranoia] and [verbose], the row
    vector has no hole, and every index holds the rows of the table, each
    once, is exact and passes [validateIndex]. *)
Theorem editHistory_index_rows (t : Table) :
  editHistory t ->
  exists l, rows t = Some <$> l
    /\ Forall (fun ix => indexRows ix ≡ₚ l /\ exactIndex ix
                         /\ validateIndex ix = Ok ()) (indicies t).
Proof.
  intros [l (_ & Hrows & _ & _ & _ & Hix)]%editHistory_indexedTable.
  exists l. split; [exact Hrows|].
  eapply Forall_impl; [exact Hix|]. intros ix (Hv & _ & _ & Hk & Hperm).
  split; [exact Hperm|]. split; [exact Hk|]. by apply validIndex_validateIndex.
Qed.

(** X23: on a table with an edit history ([editHistory]: the
    constructor, [index], [insert] of rows without [$] that have integers
    in every column, [remove] of one stored row at a time,
    [validateIndex], [paranoia], [verbose]), for every
    estimate of the costs, the query of one comparison of a column with an
    integer by [==], [<=], [<], [>=] or [>] leaves the table as it is and
    returns, whichever plan the planner picks, the clones of the rows of
    the table that pass the comparison, in some order. *)
Theorem indexed_query_agrees (estimate : Index -> list criterion -> num)
    (t : Table) (name : string) (o : compareOp) (x : Z) :
  editHistory t -> o <> OpNe ->
  exists l res,
    rows t = Some <$> l
    /\ queryGetRows estimate [Criterion name (Compare o (VNum x))] t = (t, Ok res)
    /\ res ≡ₚ clone (columnNames t)
                <$> filter (fun r => holds o (Comparator (cell r name) (VNum x))
                                     = true) l.
Proof.
  intros [l Ht]%editHistory_indexedTable Ho.
  destruct (indexedTable_query estimate l t name o x Ht Ho) as (res & Hq & Hperm).
  exists l, res. split; [exact (proj1 (proj2 Ht))|]. by split.
Qed.

(** X24: on a table with an edit history ([editHistory]: the
    constructor, [index], [insert] of rows without [$] that have integers
    in every column, [remove] of one stored row at a time,
    [validateIndex], [paranoia], [verbose]), [remove] of an
    array of one clone of a stored row does not throw; the row vector it
    leaves has no hole and holds, in some order, the rows that do not carry
    the [$] of that row, and every index then holds these rows, each once,
    and passes [validateIndex]. *)
Theorem editHistory_remove (t : Table) (r s : row) :
  editHistory t -> Some s ∈ rows t -> rowDollar r = rowDollar s ->
  exists t' l l',
    remove (ArgArray [Some r]) t = (t', Ok ())
    /\ rows t = Some <$> l /\ rows t' = Some <$> l'
    /\ l' ≡ₚ filter (fun x => rowDollar x <> rowDollar s) l
    /\ Forall (fun ix => indexRows ix ≡ₚ l' /\ validateIndex ix = Ok ())
         (indicies t').
Proof.
  intros [l Ht]%editHistory_indexedTable Hs Hr.
  destruct (indexedTable_remove l t r s Ht Hs Hr)
    as (Hok & l' & Hperm & (_ & Hrows' & _ & _ & _ & Hix')).
  destruct (remove (ArgArray [Some r]) t) as [t' res]. cbn [fst snd] in *.
  subst res. exists t', l, l'. split; [reflexivity|].
  split; [exact (proj1 (proj2 Ht))|]. split; [exact Hrows'|].
  split; [exact Hperm|].
  eapply Forall_impl; [exact Hix'|]. intros ix (Hv & _ & _ & _ & Hp).
  split; [exact Hp|]. by apply validIndex_validateIndex.
Qed.

(** X25: on a table with an edit history ([editHistory]: the
    constructor, [index], [insert] of rows without [$] that have integers
    in every column, [remove] of one stored row at a time,
    [validateIndex], [paranoia], [verbose]), [insert] of an
    array of rows without [$] that have integers in every column does not
    throw and returns one stored row per row; the row vector is the old one
    followed by the stored rows, and every index then holds the old and
    the stored rows, each once, and passes [validateIndex]. *)
Theorem editHistory_insert (t : Table) (rs : list row) :
  editHistory t ->
  Forall (fun r => dollarTruthy (rowDollar r) = false) rs ->
  Forall (numericRow (columnNames t)) rs ->
  exists t' l stored,
    insert (ArgArray (Some <$> rs)) t = (t', Ok stored)
    /\ length stored = length rs
    /\ rows t = Some <$> l /\ rows t' = Some <$> (l ++ stored)
    /\ Forall (fun ix => indexRows ix ≡ₚ l ++ stored
                         /\ validateIndex ix = Ok ()) (indicies t').
Proof.
  intros [l Ht]%editHistory_indexedTable Hd Hrs.
  destruct (indexedTable_insert l rs t (ArgArray (Some <$> rs)) eq_refl Hd Hrs Ht)
    as (stored & Hok & Hlen & (_ & Hrows' & _ & _ & _ & Hix')).
  destruct (insert (ArgArray (Some <$> rs)) t) as [t' res]. cbn [fst snd] in *.
  subst res. exists t', l, stored. split; [reflexivity|].
  split; [exact Hlen|]. split; [exact (proj1 (proj2 Ht))|].
  split; [exact Hrows'|].
  eapply Forall_impl; [exact Hix'|]. intros ix (Hv & _ & _ & _ & Hp).
  split; [exact Hp|]. by apply validIndex_validateIndex.
Qed.

(** ** The properties on the example tables *)

Lemma comparison_isComparison (name : string) (o : compareOp) (x : value) :
  isComparison (Criterion name (Compare o x)).
Proof. by exists o, x. Qed.

Lemma full_scan_comparisons_witness :
  active tableA1 = true /\ indicies tableA1 = []
  /\ rows tableA1 = Some <$> [rowA1]
  /\ Forall (plainComparison [rowA1]) [Criterion "a" (Compare OpGe (VNum 1))]
  /\ queryGetRows noEstimate [Criterion "a" (Compare OpGe (VNum 1))] tableA1
     = (tableA1, Ok [rowA1]).
Proof.
  assert (Hcmp : Forall (plainComparison [rowA1])
                   [Criterion "a" (Compare OpGe (VNum 1))]).
  { repeat constructor. apply comparison_isComparison. }
  do 3 (split; [reflexivity|]). split; [exact Hcmp|].
  rewrite (full_scan_comparisons noEstimate tableA1
             [Criterion "a" (Compare OpGe (VNum 1))] [rowA1]
             eq_refl eq_refl eq_refl Hcmp).
  reflexivity.
Defined.

Lemma indexOdd_valid : validIndex indexOdd.
Proof.
  split; [discriminate|]. cbn [length columns indexOdd].
  rewrite validLevel_unfold. split.
  { repeat constructor; eexists; reflexivity. }
  split.
  { unfold indexOdd, entriesOdd. cbn [index].
    repeat (constructor; [|repeat constructor; cbn; lia]). constructor. }
  split; [cbn; repeat split; reflexivity|]. split; [reflexivity|].
  repeat constructor; discriminate.
Qed.

Lemma index_plan_comparison_witness :
  columns indexOdd = ["a"] /\ validIndex indexOdd /\ OpLe <> OpNe
  /\ reduceOf (computeCost noEstimate indexOdd
                 [Criterion "a" (Compare OpLe (VNum 3))]) ()
     = Ok [Some (Row {[ "a" := VNum 1 ]} (DHandle 0 0));
           Some (Row {[ "a" := VNum 3 ]} (DHandle 0 1))].
Proof.
  assert (Hne : OpLe <> OpNe) by discriminate.
  split; [reflexivity|]. split; [exact indexOdd_valid|]. split; [exact Hne|].
  destruct (index_plan_comparison noEstimate indexOdd "a" OpLe 3 eq_refl
              indexOdd_valid Hne) as [_ ->].
  reflexivity.
Defined.

Lemma index_plan_between_witness :
  columns indexOdd = ["a"] /\ validIndex indexOdd
  /\ reduceOf (computeCost noEstimate indexOdd
                 [Criterion "a" (Between (Range (VNum 2) (VNum 5)))]) ()
     = Ok [Some (Row {[ "a" := VNum 3 ]} (DHandle 0 1));
           Some (Row {[ "a" := VNum 5 ]} (DHandle 0 2))].
Proof.
  split; [reflexivity|]. split; [exact indexOdd_valid|].
  destruct (index_plan_between noEstimate indexOdd "a" 2 5 eq_refl
              indexOdd_valid) as [_ ->].
  reflexivity.
Defined.

(** Rows of integers for the column [a]. *)
Lemma numericRow_a (n : Z) (d : dollar) :
  numericRow ["a"] (Row {[ "a" := VNum n ]} d).
Proof. repeat constructor. by exists n. Qed.

Lemma buildIndex_valid_witness :
  columns (newIndex ["a"]) <> []
  /\ Forall (numericRow (columns (newIndex ["a"])))
       [Row {[ "a" := VNum 4 ]} (DHandle 0 3);
        Row {[ "a" := VNum 2 ]} (DHandle 0 4)]
  /\ exists lvl,
       buildIndex (newIndex ["a"])
         (Some <$> [Row {[ "a" := VNum 4 ]} (DHandle 0 3);
                    Row {[ "a" := VNum 2 ]} (DHandle 0 4)]) = Ok lvl
       /\ check (columns (newIndex ["a"])) lvl = Ok ()
       /\ lvl.2 = 2.
Proof.
  assert (Hcols : columns (newIndex ["a"]) <> []) by discriminate.
  assert (Hrows : Forall (numericRow (columns (newIndex ["a"])))
            [Row {[ "a" := VNum 4 ]} (DHandle 0 3);
             Row {[ "a" := VNum 2 ]} (DHandle 0 4)])
    by (apply Forall_cons_2;
          [apply numericRow_a|apply Forall_cons_2; [apply numericRow_a|constructor]]).
  split; [exact Hcols|]. split; [exact Hrows|].
  exact (buildIndex_valid (newIndex ["a"]) _ Hcols Hrows).
Defined.

Lemma rowsAdded_valid_witness :
  validIndex indexOdd
  /\ Forall (numericRow (columns indexOdd))
       [Row {[ "a" := VNum 4 ]} (DHandle 0 3);
        Row {[ "a" := VNum 3 ]} (DHandle 0 4)]
  /\ exists ix',
       rowsAdded indexOdd
         (Some <$> [Row {[ "a" := VNum 4 ]} (DHandle 0 3);
                    Row {[ "a" := VNum 3 ]} (DHandle 0 4)]) = (ix', None)
       /\ validateIndex ix' = Ok () /\ indexTotal ix' = 5.
Proof.
  assert (Hrows : Forall (numericRow (columns indexOdd))
            [Row {[ "a" := VNum 4 ]} (DHandle 0 3);
             Row {[ "a" := VNum 3 ]} (DHandle 0 4)])
    by (apply Forall_cons_2;
          [apply numericRow_a|apply Forall_cons_2; [apply numericRow_a|constructor]]).
  split; [exact indexOdd_valid|]. split; [exact Hrows|].
  destruct (rowsAdded_valid indexOdd _ indexOdd_valid Hrows)
    as (ix' & Heq & _ & Hok & Htotal & _).
  exists ix'. split; [exact Heq|]. split; [exact Hok|exact Htotal].
Defined.

Lemma tableA5_history : numericHistory tableA5.
Proof.
  change tableA5 with
    (insert (ArgArray [Some (rowOf [("a", VNum 5)])])
       (paranoiaSet (VBool true) (indexOn ["a"] tableA).1).1).1.
  apply history_insert.
  - apply history_paranoia, history_index. by apply (history_new 0 ["a"]).
  - intros r Hr. cbn [toArray] in Hr. apply list_elem_of_singleton in Hr.
    injection Hr as ->. apply Forall_cons_2; [by exists 5|constructor].
Qed.

Lemma numericHistory_valid_witness :
  numericHistory tableA5
  /\ indexesValid (indicies tableA5)
  /\ exists t' stored,
       insert (ArgArray (Some <$> [rowOf [("a", VNum 3)]; rowOf [("a", VNum 1)]]))
         tableA5 = (t', Ok stored)
       /\ length stored = 2%nat
       /\ indexesValid (indicies t').
Proof.
  split; [exact tableA5_history|].
  destruct (numericHistory_valid tableA5 tableA5_history) as [Hvalid Hinsert].
  split; [exact Hvalid|].
  apply (Hinsert [rowOf [("a", VNum 3)]; rowOf [("a", VNum 1)]]).
  - reflexivity.
  - repeat constructor.
  - repeat constructor; by eexists.
Defined.

Lemma tableA5_indexes (rs : list row) :
  Forall (numericRow ["a"]) rs ->
  Forall (fun ix => validIndex ix /\ columns ix ⊆ columnNames tableA5
                    /\ Forall (numericRow (columns ix)) rs)
    (indicies tableA5).
Proof.
  intros Hrs.
  destruct (numericHistory_numericTable tableA5 tableA5_history)
    as (_ & _ & Hix).
  eapply Forall_impl; [exact Hix|]. intros ix [Hv Hsub].
  split; [exact Hv|]. split; [exact Hsub|].
  eapply Forall_impl; [exact Hrs|]. intros r.
  by apply numericRow_subseteq.
Qed.

Lemma insert_batch_witness :
  active tableA5 = true
  /\ Forall (fun r => dollarTruthy (rowDollar r) = false)
       [rowOf [("a", VNum 3)]; rowOf [("a", VNum 1)]]
  /\ Forall (fun ix => validIndex ix /\ columns ix ⊆ columnNames tableA5
                       /\ Forall (numericRow (columns ix))
                            [rowOf [("a", VNum 3)]; rowOf [("a", VNum 1)]])
       (indicies tableA5)
  /\ (insert (ArgArray [Some (rowOf [("a", VNum 3)]);
                        Some (rowOf [("a", VNum 1)])]) tableA5).2
     = Ok [Row {[ "a" := VNum 3 ]} (DHandle 0 1);
           Row {[ "a" := VNum 1 ]} (DHandle 0 2)]
  /\ (getCount (insert (ArgArray [Some (rowOf [("a", VNum 3)]);
                                  Some (rowOf [("a", VNum 1)])]) tableA5).1).2
     = Ok 3%nat.
Proof.
  assert (Hrs : Forall (fun r => dollarTruthy (rowDollar r) = false)
            [rowOf [("a", VNum 3)]; rowOf [("a", VNum 1)]])
    by (repeat constructor).
  assert (Hix := tableA5_indexes [rowOf [("a", VNum 3)]; rowOf [("a", VNum 1)]]
                   ltac:(repeat constructor; by eexists)).
  split; [reflexivity|]. split; [exact Hrs|]. split; [exact Hix|].
  destruct (insert_batch tableA5 [rowOf [("a", VNum 3)]; rowOf [("a", VNum 1)]]
              eq_refl Hrs Hix)
    as (t' & stored & Heq & _ & _ & Hcount & _).
  change (Some <$> [rowOf [("a", VNum 3)]; rowOf [("a", VNum 1)]])
    with [Some (rowOf [("a", VNum 3)]); Some (rowOf [("a", VNum 1)])] in Heq.
  rewrite Heq. split; [|exact Hcount].
  cbn [snd]. vm_compute in Heq. by injection Heq as _ <-.
Defined.


(** The clone of the first row of [tableIndexedA], with [b] set to 9. *)
Lemma update_stores_row_witness :
  active tableIndexedA = true
  /\ Forall (fun n => replacementOf n = n) (columnNames tableIndexedA)
  /\ (exists col, col ∈ columnNames tableIndexedA
                  /\ cell rowB9 col <> cell (snapshotOf tableIndexedA rowB9) col)
  /\ Forall (fun ix =>
               Forall (fun col => cell rowB9 col
                                  = cell (snapshotOf tableIndexedA rowB9) col)
                 (columns ix)) (indicies tableIndexedA)
  /\ (update (ArgArray [Some rowB9]) tableIndexedA).2 = Ok ()
  /\ (getRows (update (ArgArray [Some rowB9]) tableIndexedA).1).2
     = Ok [Row {[ "a" := VNum 1; "b" := VNum 9 ]} (DHandle 0 0);
           Row {[ "a" := VNum 3; "b" := VNum 4 ]} (DHandle 0 1)].
Proof.
  assert (Hrep : Forall (fun n => replacementOf n = n)
                   (columnNames tableIndexedA)) by (repeat constructor).
  assert (Hchanged : exists col, col ∈ columnNames tableIndexedA
            /\ cell rowB9 col <> cell (snapshotOf tableIndexedA rowB9) col).
  { exists "b". split; [set_solver|]. vm_compute. discriminate. }
  assert (Hix : Forall (fun ix =>
                  Forall (fun col => cell rowB9 col
                            = cell (snapshotOf tableIndexedA rowB9) col)
                    (columns ix)) (indicies tableIndexedA))
    by (repeat constructor).
  split; [reflexivity|]. split; [exact Hrep|]. split; [exact Hchanged|].
  split; [exact Hix|].
  destruct (update_stores_row tableIndexedA rowB9 0
              (Closure 0 {[ "a" := VNum 1; "b" := VNum 2 ]})
              eq_refl eq_refl eq_refl Hrep Hchanged Hix) as (-> & _).
  split; vm_compute; reflexivity.
Defined.

Lemma tableAB_removed :
  Forall (fun ix =>
            (rowsRemoved ix
               [Some (snapshotOf tableAB
                        (Row {[ "a" := VNum 1; "b" := VNum 2 ]} (DHandle 0 0)))]).2
            = None) (indicies tableAB).
Proof. repeat constructor. Qed.

Lemma remove_row_swaps_last_witness :
  active tableAB = true
  /\ rows tableAB
     = [Some (Row {[ "a" := VNum 1; "b" := VNum 2 ]} (DHandle 0 0))]
         ++ [Some (Row {[ "a" := VNum 3; "b" := VNum 4 ]} (DHandle 0 1))]
  /\ exists t',
       remove (ArgArray [Some (Row {[ "a" := VNum 1; "b" := VNum 2 ]}
                                 (DHandle 0 0))]) tableAB = (t', Ok ())
       /\ rows t'
          = [Some (Row {[ "a" := VNum 3; "b" := VNum 4 ]} (DHandle 0 1))]
       /\ closures t' !! 1%nat
          = Some (Closure 0 {[ "a" := VNum 3; "b" := VNum 4 ]}).
Proof.
  split; [reflexivity|]. split; [reflexivity|].
  destruct (remove_row_swaps_last tableAB
              (Row {[ "a" := VNum 1; "b" := VNum 2 ]} (DHandle 0 0)) 0
              (Closure 0 {[ "a" := VNum 1; "b" := VNum 2 ]})
              [Some (Row {[ "a" := VNum 1; "b" := VNum 2 ]} (DHandle 0 0))]
              (Row {[ "a" := VNum 3; "b" := VNum 4 ]} (DHandle 0 1)) 0 1
              (Closure 1 {[ "a" := VNum 3; "b" := VNum 4 ]})
              eq_refl eq_refl eq_refl eq_refl)
    as (t' & Heq & Hrows & _ & Hcl & _).
  - discriminate.
  - cbn. lia.
  - reflexivity.
  - reflexivity.
  - exact tableAB_removed.
  - discriminate.
  - exists t'. split; [exact Heq|]. split; [exact Hrows|exact Hcl].
Defined.

Lemma foreign_row_rejected_witness :
  active tableAB = true
  /\ Forall (belongs tableAB)
       [Row {[ "a" := VNum 1; "b" := VNum 2 ]} (DHandle 0 0)]
  /\ remove (ArgArray [Some (Row {[ "a" := VNum 1; "b" := VNum 2 ]} (DHandle 0 0));
                       Some (Row {[ "a" := VNum 3; "b" := VNum 4 ]} (DHandle 7 1))])
       tableAB
     = (tableAB, Err foreignRow)
  /\ update (ArgArray [Some (Row {[ "a" := VNum 1; "b" := VNum 2 ]} (DHandle 0 0));
                       Some (Row {[ "a" := VNum 3; "b" := VNum 4 ]} (DHandle 7 1))])
       tableAB
     = (tableAB, Err foreignRow).
Proof.
  assert (Hpre : Forall (belongs tableAB)
            [Row {[ "a" := VNum 1; "b" := VNum 2 ]} (DHandle 0 0)]).
  { repeat constructor. eexists _, _. split; reflexivity. }
  assert (Hne : 7%nat <> id tableAB) by discriminate.
  split; [reflexivity|]. split; [exact Hpre|].
  exact (proj1 (foreign_row_rejected tableAB _
                  (Row {[ "a" := VNum 3; "b" := VNum 4 ]} (DHandle 7 1)) []
                  eq_refl Hpre) 7%nat 1%nat eq_refl Hne).
Defined.

Lemma indexOn_again_witness :
  indexOn ["a"] tableA1
  = ((indexOn ["a"] tableA1).1,
     Ok (mkIndex ["a"] "[a]" [Entry (VNum 1) 1 1 (RowData [rowA1])] 1))
  /\ indexOn ["a"] (indexOn ["a"] tableA1).1
     = ((indexOn ["a"] tableA1).1,
        Ok (mkIndex ["a"] "[a]" [Entry (VNum 1) 1 1 (RowData [rowA1])] 1)).
Proof.
  assert (Hrun : indexOn ["a"] tableA1
            = ((indexOn ["a"] tableA1).1,
               Ok (mkIndex ["a"] "[a]" [Entry (VNum 1) 1 1 (RowData [rowA1])] 1)))
    by (vm_compute; reflexivity).
  split; [exact Hrun|].
  exact (proj2 (proj2 (indexOn_again tableA1 _ ["a"] _ Hrun))).
Defined.

Lemma singleRowCost_sum_witness :
  calculateSingleRowCriteriaCost
    [Criterion "a" (In (ArrayOf [VNum 1; VNum 2; VNum 3]));
     Criterion "a" (Between (Range (VNum 2) (VNum 5)));
     Criterion "a" (Compare OpLe (VNum 3))]
  = Ok (Some 6).
Proof.
  rewrite singleRowCost_sum; [reflexivity|].
  repeat constructor.
Defined.

Lemma rowsAdded_rows_witness :
  validIndex indexOdd
  /\ Forall (numericRow (columns indexOdd))
       [Row {[ "a" := VNum 4 ]} (DHandle 0 3);
        Row {[ "a" := VNum 3 ]} (DHandle 0 4)]
  /\ indexRows
       (rowsAdded indexOdd
          (Some <$> [Row {[ "a" := VNum 4 ]} (DHandle 0 3);
                     Row {[ "a" := VNum 3 ]} (DHandle 0 4)])).1
     ≡ₚ indexRows indexOdd
        ++ [Row {[ "a" := VNum 4 ]} (DHandle 0 3);
            Row {[ "a" := VNum 3 ]} (DHandle 0 4)].
Proof.
  assert (Hrows : Forall (numericRow (columns indexOdd))
            [Row {[ "a" := VNum 4 ]} (DHandle 0 3);
             Row {[ "a" := VNum 3 ]} (DHandle 0 4)])
    by (apply Forall_cons_2;
          [apply numericRow_a|apply Forall_cons_2; [apply numericRow_a|constructor]]).
  split; [exact indexOdd_valid|]. split; [exact Hrows|].
  exact (proj1 (rowsAdded_rows indexOdd _ indexOdd_valid Hrows)).
Defined.

Lemma insert_not_rolled_back_witness :
  active tableA5 = true
  /\ dollarTruthy (rowDollar rowA1) = true
  /\ exists t' msg,
       insert (ArgArray [Some (rowOf [("a", VNum 3)]); Some rowA1]) tableA5
       = (t', Err (TypeError msg))
       /\ rows t' = rows tableA5 ++ [Some (Row {[ "a" := VNum 3 ]} (DHandle 0 1))]
       /\ indicies t' = indicies tableA5.
Proof.
  split; [reflexivity|]. split; [reflexivity|].
  destruct (insert_not_rolled_back tableA5 [rowOf [("a", VNum 3)]] rowA1 []
              eq_refl ltac:(repeat constructor) eq_refl ltac:(constructor))
    as (t' & msg & Heq & Hrows & Hix).
  exists t', msg. split; [exact Heq|]. split; [exact Hrows|exact Hix].
Defined.

Lemma indexOdd_exact : exactIndex indexOdd.
Proof. repeat constructor. Qed.

Lemma indexOdd_dollars : NoDup (rowDollar <$> indexRows indexOdd).
Proof.
  change (rowDollar <$> indexRows indexOdd)
    with [DHandle 0 0; DHandle 0 1; DHandle 0 2].
  repeat (apply NoDup_cons_2;
            [intros H; repeat (apply elem_of_cons in H as [H|H]; [discriminate|]);
             by apply elem_of_nil in H|]).
  apply NoDup_nil_2.
Qed.

Lemma rowsRemoved_one_witness :
  validIndex indexOdd /\ exactIndex indexOdd
  /\ NoDup (rowDollar <$> indexRows indexOdd)
  /\ Row {[ "a" := VNum 3 ]} (DHandle 0 1) ∈ indexRows indexOdd
  /\ exists ix',
       rowsRemoved indexOdd [Some (Row {[ "a" := VNum 3 ]} (DHandle 0 1))]
       = (ix', None)
       /\ validateIndex ix' = Ok ()
       /\ indexRows ix'
          = [Row {[ "a" := VNum 1 ]} (DHandle 0 0);
             Row {[ "a" := VNum 5 ]} (DHandle 0 2)]
       /\ indexTotal ix' = 2.
Proof.
  assert (Hin : Row {[ "a" := VNum 3 ]} (DHandle 0 1) ∈ indexRows indexOdd)
    by (right; left).
  split; [exact indexOdd_valid|]. split; [exact indexOdd_exact|].
  split; [exact indexOdd_dollars|]. split; [exact Hin|].
  destruct (rowsRemoved_one indexOdd (Row {[ "a" := VNum 3 ]} (DHandle 0 1))
              (Row {[ "a" := VNum 3 ]} (DHandle 0 1))
              indexOdd_valid indexOdd_exact indexOdd_dollars Hin eq_refl
              ltac:(repeat constructor))
    as (ix' & Heq & _ & Hok & _ & Hrows & Htotal).
  exists ix'. split; [exact Heq|]. split; [exact Hok|].
  split; [exact Hrows|exact Htotal].
Defined.


Lemma tableA5_edits : editHistory tableA5.
Proof.
  change tableA5 with
    (insert (ArgArray [Some (rowOf [("a", VNum 5)])])
       (paranoiaSet (VBool true) (indexOn ["a"] tableA).1).1).1.
  apply (edits_insert _ _ [rowOf [("a", VNum 5)]]).
  - apply edits_paranoia, edits_index. by apply (edits_new 0 ["a"]).
  - reflexivity.
  - repeat constructor.
  - apply Forall_cons_2; [|constructor].
    apply Forall_cons_2; [by exists 5|constructor].
Qed.

Lemma tableAB_edits : editHistory tableAB.
Proof.
  change tableAB with
    (insert (ArgArray [Some (rowOf [("a", VNum 1); ("b", VNum 2)]);
                       Some (rowOf [("a", VNum 3); ("b", VNum 4)])])
       (indexOn ["b"]
          (indexOn ["a"]
             (mkTable [] [] ["a"; "b"] false false true 0 [] [])).1).1).1.
  apply (edits_insert _ _ [rowOf [("a", VNum 1); ("b", VNum 2)];
                           rowOf [("a", VNum 3); ("b", VNum 4)]]).
  - do 2 apply edits_index. by apply (edits_new 0 ["a"; "b"]).
  - reflexivity.
  - repeat constructor.
  - apply Forall_cons_2; [|apply Forall_cons_2; [|constructor]];
      (apply Forall_cons_2; [by eexists|apply Forall_cons_2; [by eexists|constructor]]).
Qed.

Lemma editHistory_index_rows_witness :
  editHistory tableAB
  /\ exists l, rows tableAB = Some <$> l
       /\ Forall (fun ix => indexRows ix ≡ₚ l /\ exactIndex ix
                            /\ validateIndex ix = Ok ()) (indicies tableAB).
Proof.
  split; [exact tableAB_edits|].
  exact (editHistory_index_rows tableAB tableAB_edits).
Defined.

Lemma indexed_query_agrees_witness :
  editHistory tableAB /\ OpLe <> OpNe
  /\ exists l res,
       rows tableAB = Some <$> l
       /\ queryGetRows noEstimate [Criterion "b" (Compare OpLe (VNum 2))] tableAB
          = (tableAB, Ok res)
       /\ res ≡ₚ clone (columnNames tableAB)
                   <$> filter (fun r => holds OpLe (Comparator (cell r "b") (VNum 2))
                                        = true) l.
Proof.
  assert (Hne : OpLe <> OpNe) by discriminate.
  split; [exact tableAB_edits|]. split; [exact Hne|].
  exact (indexed_query_agrees noEstimate tableAB "b" OpLe 2 tableAB_edits Hne).
Defined.

Lemma editHistory_remove_witness :
  editHistory tableAB
  /\ Some (Row {[ "a" := VNum 1; "b" := VNum 2 ]} (DHandle 0 0)) ∈ rows tableAB
  /\ exists t' l l',
       remove (ArgArray [Some rowB9]) tableAB = (t', Ok ())
       /\ rows tableAB = Some <$> l /\ rows t' = Some <$> l'
       /\ l' ≡ₚ filter (fun x => rowDollar x <> DHandle 0 0) l
       /\ Forall (fun ix => indexRows ix ≡ₚ l' /\ validateIndex ix = Ok ())
            (indicies t').
Proof.
  assert (Hin : Some (Row {[ "a" := VNum 1; "b" := VNum 2 ]} (DHandle 0 0))
                ∈ rows tableAB) by left.
  split; [exact tableAB_edits|]. split; [exact Hin|].
  exact (editHistory_remove tableAB rowB9
           (Row {[ "a" := VNum 1; "b" := VNum 2 ]} (DHandle 0 0))
           tableAB_edits Hin eq_refl).
Defined.

Lemma editHistory_insert_witness :
  editHistory tableAB
  /\ exists t' l stored,
       insert (ArgArray (Some <$> [rowOf [("a", VNum 0); ("b", VNum 7)]])) tableAB
       = (t', Ok stored)
       /\ length stored = 1%nat
       /\ rows tableAB = Some <$> l /\ rows t' = Some <$> (l ++ stored)
       /\ Forall (fun ix => indexRows ix ≡ₚ l ++ stored
                            /\ validateIndex ix = Ok ()) (indicies t').
Proof.
  split; [exact tableAB_edits|].
  apply (editHistory_insert tableAB [rowOf [("a", VNum 0); ("b", VNum 7)]]
           tableAB_edits).
  - repeat constructor.
  - apply Forall_cons_2; [|constructor].
    apply Forall_cons_2; [by eexists|apply Forall_cons_2; [by eexists|constructor]].
Defined.
